(* ===== verification/_CoqProject ===== *)
-Q . S2P
Prelude.v
GoStd.v
Sha256.v
Level.v
Field.v
Record.v
Buffer.v
Encoder.v
EncoderSpec.v
TextSpec.v
Redaction.v
Sampling.v
Dedup.v
Pipeline.v
Memory.v
Ring.v
Sink.v
HttpSink.v
FingersCrossed.v
Transport.v
RingTransport.v
ChannelTransport.v
Mpmc.v
Disruptor.v
AuditLog.v
Logger.v
ConcLogger.v
ConcCalls.v
Async.v
AsyncLogger.v
Template.v
Admin.v
SpanTree.v
HttpPayload.v
RotatingFile.v
FileSink.v
NetSink.v
SlogHandler.v
Signals.v
Frontends.v
Adapters.v
LogTest.v
AdapterSinks.v
Example.v
