(* ===== verification/Prelude.v ===== *)
(** * ubgo/logger: a verification library

    This library models the Go logging package ubgo/logger (the files under src/) as
    executable definitions and proves what makes it correct.

    ** The program and its parts

    A log call builds a Record (taken from a pool), runs it through the processors
    (redaction, sampling, deduplication, enrichment), and hands it to a Transport,
    inline or across goroutines through a queue, which gives it to a Sink; sinks
    encode the record and write, batch, chain or buffer it.  Around this core are
    message templates, spans, the slog bridge, the runtime level controls, panic
    recovery, and adapters for other logging libraries.

    ** Which file models what

    - Prelude.v: machine integers (int64 and uint64 as Z with explicit wrap-around),
      strings as byte strings, lists, transition systems with their runs
      ([run_steps], [reaches]), the tactic [bool_to_prop] and the hint database
      golog.  GoStd.v: the parts of Go's standard library the code uses (strconv,
      strings, time, dynamic values, floats with the float32 conversion, and the JSON
      number grammar); [GoEnv] collects what the process
      provides and the code only consults.  Sha256.v: SHA-256 on byte strings.
    - Level.v (level.go), Field.v (field.go, math.go), Record.v (record.go, caller.go,
      and the [Heap] of objects that are shared through contexts: debug buffers, span
      states, level variables).
    - Buffer.v (buffer.go), Encoder.v (encoder.go, anyval.go, encoder_json.go,
      encoder_logfmt.go, encoder_console.go): each encoder as its sequence of writes.
      EncoderSpec.v and TextSpec.v hold decoders and the theorems on what a line means.
    - Redaction.v (RedactProcessor of processor.go, redact_path.go), Sampling.v
      (SampleProcessor), Dedup.v (dedup.go), Pipeline.v (processor.go, enrich.go:
      every processor with its state and runPipeline).
    - Ring.v: circular windows as lists, shared by the debug buffer and the ring
      transport.  Sink.v (sink.go, logtest): the class [Sink] of sinks and the class
      [HeapFree] of what most of them promise to decorators; WriterSink, Fanout,
      Capture.  FingersCrossed.v (fingerscrossed.go).  AuditLog.v (audit.go).
      RotatingFile.v and FileSink.v (sink_file.go).  HttpSink.v and HttpPayload.v
      (sink_http.go).  NetSink.v (sink_net.go, sink_syslog_unix.go).
    - Transport.v (transport.go): the class [Transport], SyncTransport, the vocabulary
      of traces and an abstract bounded FIFO queue.  RingTransport.v
      (transport_ring.go), ChannelTransport.v (transport.go), Mpmc.v and Disruptor.v
      (transport_disruptor.go): the concurrent transports as transition systems.
    - Logger.v (logger.go, metrics.go and logAt of handler.go): options, With, every
      level method, over any instance of [Transport].  Memory.v (record.go and the
      processors on a pointer): pooled records as addresses, their fields as slices of
      backing arrays that are kept and overwritten.  ConcLogger.v (log, eventAt, logAt):
      any number of calls in progress at once, over the class [RecStore] of record stores
      with the pooled memory and plain values as instances; ConcCalls.v has what the calls
      do.
      Async.v: the classes [AsyncTransport], [CarriesClones] and [Conserves], with the
      channel, the ring and the disruptor as instances; AsyncLogger.v runs log calls and
      such a transport together.
    - Template.v (template.go), SpanTree.v (span.go), SlogHandler.v (handler.go), Admin.v
      (admin.go, config_reload.go), Signals.v (signal.go), Frontends.v (recover.go,
      shim_std.go, presets.go, tty.go), Adapters.v and AdapterSinks.v (contrib/), LogTest.v
      (logtest/), Example.v (example/main.go).

    Definitions keep the names of the code; a method M of type T is [T_M] where M alone
    would be ambiguous.  State is passed explicitly.  Shared objects are addresses in a
    heap or store.  Failing code returns [option error].  Goroutines are program
    counters: one step is a critical section of a mutex, a channel operation, or, for
    the lock-free queue, one memory access, and a run is any interleaving of steps.

    ** What the theorems show (C1 to C40)

    - Transports.  Under every interleaving of callers and worker the ring and the
      channel refine the same bounded FIFO queue (C1, C6), never deadlock (C20, C21),
      and drain when closed (C22, C23).  The lock-free queue is a FIFO queue access by
      access (C5); the disruptor transport delivers exactly what it accepts, less the
      drops it counts (C2), and drains (C24).
    - The logger under concurrency.  Whatever the schedule, pooling and the reuse of
      backing arrays are invisible (C3), a record has one user (C9), what is dispatched is
      the pipeline's result for a call that was made, with denied values censored (C10),
      counters are exact (C17), also by level and within the bounds of their array (C18).
      Over any of the transports the
      sink receives only clones of such records and every record is answered once (C4);
      over the channel every record is accounted for (C16).
    - The logger in sequence.  Any sequence of calls acts as if every record were built
      from scratch (C11); paths are redacted in place (C26); sampling does exactly what it
      counts (C33), and deduplication equals a reference over the history of calls (C34).
    - Encoders.  A JSON line is a JSON object that decodes to exactly the record (C8; its
      floats have to be finite, and the number grammar is JsonNumber of GoStd.v) and is one
      line whatever the record contains (C40); the escaping loop equals byte-wise escaping
      (C25); a logfmt line decodes (C27); fields keep their values, a float32 its number
      (C39).
    - Sinks.  The audit chain verifies and is tamper evident up to a SHA-256 collision
      (C32, C7).  The rotating file keeps every reported write in one piece within its
      size bounds, whatever system calls fail (C12), the file sink therefore keeps whole
      lines in order (C13), both with retention off and a fresh stamp at each rotation;
      retention keeps exactly the newest segments (C36), and a failed
      rotation wedges the file until Reopen (C37).  The HTTP sink accounts for every
      record (C14) and its bodies decode as a whole to the batch, with labels and index that
      need no escaping (C31); so does the network sink
      for any behaviour of the network (C15).  Fan-out isolates failures (C35); debug
      records are held and flushed on error (C19).
    - Around it: templates (C28), derived slog handlers (C29), span paths as positions in
      the tree of spans (C30) and the level controls (C38).

    Further theorems without a number record behaviour that is worth knowing: for
    instance Example.example_output (what the demo prints under every interleaving),
    AsyncLogger.ring_logger_accounts, Memory.clone_isolated (a Clone shares no array),
    Dedup.dedup_accounting, EncoderSpec.json_nan_refused, AdapterSinks.outbound_exact, LogTest.logtest_captures,
    Logger.denied_values_never_captured, Disruptor.disruptor_late_dispatch,
    AuditLog.audit_truncation_undetected, RotatingFile.same_millisecond_overwrites,
    FingersCrossed.fc_scope_isolation, Signals.signals_served, Frontends.panics_are_logged,
    Adapters.zap_core_exact and Adapters.sentry_keeps_fields.

    ** Bounds and fuel

    Loops that are not structural run on fuel that is proved or computed to suffice: the
    template pass takes its length; [round_up] doubles at most 61 times, for capacities
    up to 2^62; decimal digits are bounded by the binary length, 20 for an int64; the
    decoders of the specifications take the input's length.  The theorems on the
    lock-free queue hold while fewer than 2^62 positions have been claimed, those on
    spans for fewer than 2^62 children, and sampler and counters for fewer than 2^64
    records, so that their words do not wrap.  Draining is bounded by an explicit number
    of steps per record.  The verifier's line limit is 8 MiB and slog resolves at most
    100 nested LogValuers, as in the code.

    ** Parameters

    Code outside the repository is a parameter: clocks and time zones, reflection and
    json.Marshal on user values, the frame table, Unicode case and space tables (all in
    [GoEnv]); which record the pool hands out; the order of map iteration; random
    identifiers; the schedule; the answers of the operating system ([OSEnv]), of HTTP
    servers ([Outcome]) and of the network ([NetEnv]); gzip; sort.Slice ([SegSort], with
    the law of a sort); the level constants and map encoder of zap; the loggers, hubs and
    providers behind the adapters; equality of user values in a test.  [demo_env] and the
    witnesses instantiate them.

    ** Not modelled

    Memory reuse of byte buffers (getBuffer returns an empty buffer), the bytes of TCP
    below a Write, the constant of the race build tags, and what the libraries behind the
    adapters do with the calls they receive.  A user's processor is a function of the
    context and the record: it keeps no reference to a record and no state of its own.
    Possible extensions: a happens-before model of the plain accesses in the queue, and
    crash recovery of the rotating file. *)
From Stdlib Require Export ZArith Lia Ascii.
From stdpp Require Export base numbers list gmap strings.

Declare Scope go_scope.
Delimit Scope go_scope with go.

(** ** Machine integers

    A Go [int]/[int64] is a [Z] kept in [-2^63, 2^63); a [uint64] is a [Z] kept
    in [0, 2^64).  The conversions wrap around exactly like Go's. *)
Module GoInt.
Local Open Scope Z_scope.

Definition u64 (z : Z) : Z := z mod 2 ^ 64.
Definition i64 (z : Z) : Z := (z + 2 ^ 63) mod 2 ^ 64 - 2 ^ 63.
Definition is_u64 (z : Z) : Prop := 0 <= z < 2 ^ 64.
Definition is_i64 (z : Z) : Prop := - 2 ^ 63 <= z < 2 ^ 63.

#[global] Arguments u64 : simpl never.
#[global] Arguments i64 : simpl never.

Lemma u64_range z : is_u64 (u64 z).
Proof. apply Z.mod_pos_bound. lia. Qed.

Lemma i64_range z : is_i64 (i64 z).
Proof.
  unfold is_i64, i64. pose proof (Z.mod_pos_bound (z + 2 ^ 63) (2 ^ 64)). lia.
Qed.

Lemma u64_small z : is_u64 z -> u64 z = z.
Proof. apply Z.mod_small. Qed.

Lemma i64_small z : is_i64 z -> i64 z = z.
Proof. unfold is_i64, i64. intros. rewrite Z.mod_small; lia. Qed.

Lemma i64_u64 z : i64 (u64 z) = i64 z.
Proof. unfold i64, u64. by rewrite Zplus_mod_idemp_l. Qed.

Lemma u64_i64 z : u64 (i64 z) = u64 z.
Proof.
  unfold i64, u64. rewrite Zminus_mod_idemp_l. f_equal. lia.
Qed.

Lemma u64_add_l a b : u64 (u64 a + b) = u64 (a + b).
Proof. apply Zplus_mod_idemp_l. Qed.

(** Storing a signed value in a [uint64] word and reading it back. *)
Lemma i64_u64_id z : is_i64 z -> i64 (u64 z) = z.
Proof. intros. by rewrite i64_u64, i64_small. Qed.
End GoInt.

(** ** Go strings and byte slices

    A Go [string] and a [[]byte] are both byte sequences; [string] (a sequence
    of 8-bit [ascii]) models either. *)
Module GoStr.

Definition byte_val (c : ascii) : Z := Z.of_N (N_of_ascii c).
Definition byte_chr (z : Z) : ascii := ascii_of_N (Z.to_N (z mod 256)).

Definition NUL : ascii := "000"%char.
Definition TAB : ascii := "009"%char.
Definition LF : ascii := "010"%char.
Definition CR : ascii := "013"%char.
Definition ESC : ascii := "027"%char.
Definition QUOTE : ascii := "034"%char.
Definition BSLASH : ascii := "092"%char.

Definition str1 (c : ascii) : string := String c "".

Fixpoint str_drop (n : nat) (s : string) : string :=
  match n, s with
  | O, _ => s
  | S n', String _ s' => str_drop n' s'
  | S _, EmptyString => ""
  end.

Fixpoint str_take (n : nat) (s : string) : string :=
  match n, s with
  | S n', String c s' => String c (str_take n' s')
  | _, _ => ""
  end.

(** [s[i:j]] for [0 <= i <= j <= len(s)]. *)
Definition slice (s : string) (i j : nat) : string := str_take (j - i) (str_drop i s).

(** Every byte of [s] satisfies [P]. *)
Fixpoint str_forall (P : ascii -> bool) (s : string) : bool :=
  match s with
  | EmptyString => true
  | String c s' => P c && str_forall P s'
  end.

Definition no_byte (c : ascii) : string -> bool := str_forall (fun x => negb (Ascii.eqb x c)).

(** Concatenation of a list of strings. *)
Fixpoint str_concat (l : list string) : string :=
  match l with
  | [] => ""
  | s :: l' => s +:+ str_concat l'
  end.

Lemma sapp_nil_l s : "" +:+ s = s.
Proof. reflexivity. Qed.
Lemma sapp_cons c s t : String c s +:+ t = String c (s +:+ t).
Proof. reflexivity. Qed.
Lemma sapp_nil_r s : s +:+ "" = s.
Proof. induction s as [|c s IH]; [done|]. by rewrite sapp_cons, IH. Qed.
Lemma sapp_assoc s t u : (s +:+ t) +:+ u = s +:+ (t +:+ u).
Proof. induction s as [|c s IH]; [done|]. by rewrite !sapp_cons, IH. Qed.
Lemma slength_app s t : String.length (s +:+ t) = String.length s + String.length t.
Proof. induction s as [|c s IH]; [done|]. rewrite sapp_cons. simpl. lia. Qed.

Lemma str_forall_app P s t : str_forall P (s +:+ t) = str_forall P s && str_forall P t.
Proof. induction s as [|c s IH]; [done|]. rewrite sapp_cons. simpl. by rewrite IH, andb_assoc. Qed.

Lemma str_forall_impl (P Q : ascii -> bool) s :
  (forall c, P c = true -> Q c = true) -> str_forall P s = true -> str_forall Q s = true.
Proof.
  intros HPQ. induction s as [|c s IH]; [done|]. simpl.
  rewrite !andb_true_iff. intros [? ?]. auto.
Qed.

Lemma str_drop_all s : str_drop (String.length s) s = "".
Proof. induction s; done. Qed.

Lemma str_take_drop n s : str_take n s +:+ str_drop n s = s.
Proof.
  revert s. induction n as [|n IH]; intros [|c s]; try done.
  simpl. by rewrite sapp_cons, IH.
Qed.

Lemma str_drop_app s t : str_drop (String.length s) (s +:+ t) = t.
Proof. induction s; [done|]. by rewrite sapp_cons. Qed.

Lemma str_take_app s t : str_take (String.length s) (s +:+ t) = s.
Proof. induction s as [|c s IH]; [done|]. rewrite sapp_cons. simpl. by rewrite IH. Qed.

Lemma str_take_length n p : String.length (str_take n p) = Nat.min n (String.length p).
Proof. revert p. induction n as [|n IH]; intros [|c p]; simpl; try done. by rewrite IH. Qed.
Lemma str_take_all n s : String.length s <= n -> str_take n s = s.
Proof.
  revert n. induction s as [|c s IH]; intros [|n] H; simpl in *; try done; [lia|].
  rewrite IH; [done|lia].
Qed.

Lemma str_concat_app l1 l2 : str_concat (l1 ++ l2) = str_concat l1 +:+ str_concat l2.
Proof. induction l1 as [|s l1 IH]; [done|]. simpl. by rewrite IH, sapp_assoc. Qed.

Lemma app_inj_length s1 s2 t1 t2 :
  String.length s1 = String.length s2 -> s1 +:+ t1 = s2 +:+ t2 -> s1 = s2 /\ t1 = t2.
Proof.
  revert s2. induction s1 as [|c s1 IH]; intros [|d s2] Hl; simpl in Hl; try lia; [done|].
  rewrite !sapp_cons. intros [= -> E]. apply IH in E as [-> ->]; [done|lia].
Qed.

End GoStr.

Export GoInt GoStr.

(** ** Automation

    [str] holds the rewrite rules of byte strings, [golog] the facts that close
    the routine side conditions of every component. *)
Create HintDb golog.
Create Rewrite HintDb str.
#[export] Hint Resolve u64_range i64_range : golog.
#[export] Hint Rewrite GoStr.sapp_assoc GoStr.sapp_nil_r GoStr.sapp_nil_l GoStr.sapp_cons : str.

Ltac strnorm := autorewrite with str.

(** Method calls on a builder, in the order the source writes them. *)
Notation "b |> f" := (f b) (at level 61, left associativity, only parsing) : go_scope.

(** Turn every boolean comparison in the context into its proposition. *)
Ltac bool_to_prop :=
  repeat match goal with
  | H : (_ && _)%bool = true |- _ => apply andb_true_iff in H as [? ?]
  | H : (_ || _)%bool = false |- _ => apply orb_false_iff in H as [? ?]
  | H : negb _ = true |- _ => apply negb_true_iff in H
  | H : negb _ = false |- _ => apply negb_false_iff in H
  | H : (_ <=? _)%Z = _ |- _ => (apply Z.leb_le in H || apply Z.leb_gt in H)
  | H : (_ <? _)%Z = _ |- _ => (apply Z.ltb_lt in H || apply Z.ltb_ge in H)
  | H : (_ =? _)%Z = _ |- _ => (apply Z.eqb_eq in H || apply Z.eqb_neq in H)
  | H : (_ <=? _)%nat = _ |- _ => (apply Nat.leb_le in H || apply Nat.leb_gt in H)
  | H : (_ <? _)%nat = _ |- _ => (apply Nat.ltb_lt in H || apply Nat.ltb_ge in H)
  | H : (_ =? _)%nat = _ |- _ => (apply Nat.eqb_eq in H || apply Nat.eqb_neq in H)
  end.

(** Case analysis on the conditions of the code, one at a time. *)
Ltac case_if :=
  match goal with
  | |- context [if ?b then _ else _] => destruct b eqn:?
  end.

(** ** Filtering *)
Lemma filter_length_all {A} (P : A -> Prop) `{forall x, Decision (P x)} (l : list A) :
  Forall P l -> length (filter P l) = length l.
Proof. induction 1 as [|x l Hx _ IH]; [done|]. rewrite filter_cons_True by done. cbn [length]. by rewrite IH. Qed.

(** ** Counting the entries of a finite map *)
Section MapCount.
Context {K V : Type} `{Countable K}.
Implicit Types (f : V -> bool) (m : gmap K V).

Definition mcount f m : nat := size (filter (fun kv => f kv.2 = true) m).

Lemma mcount_insert f m k v : mcount f (<[k := v]> m) = (if f v then 1 else 0) + mcount f (delete k m).
Proof.
  unfold mcount. rewrite <-insert_delete_eq, map_filter_insert. simpl.
  destruct (f v) eqn:E.
  - rewrite decide_True by done. rewrite map_size_insert_None; [done|].
    apply map_lookup_filter_None_2. left. apply lookup_delete_eq.
  - rewrite decide_False by done. by rewrite delete_delete_eq.
Qed.

Lemma mcount_lookup f m k v : m !! k = Some v -> mcount f m = (if f v then 1 else 0) + mcount f (delete k m).
Proof. intros Hk. rewrite <-(insert_id m k v Hk) at 1. apply mcount_insert. Qed.

Lemma mcount_empty f : mcount f (∅ : gmap K V) = 0.
Proof. unfold mcount. by rewrite map_filter_empty, map_size_empty. Qed.

Lemma mcount_pos f m : 0 < mcount f m -> exists k v, m !! k = Some v /\ f v = true.
Proof.
  intros Hp. destruct (map_choose (filter (fun kv => f kv.2 = true) m)) as (k & v & Hk).
  { intros E. unfold mcount in Hp. rewrite E, map_size_empty in Hp. lia. }
  apply map_lookup_filter_Some in Hk as [? ?]. by exists k, v.
Qed.

Lemma mcount_ge f m k v : m !! k = Some v -> f v = true -> 0 < mcount f m.
Proof. intros Hk Hv. rewrite (mcount_lookup f m k v Hk), Hv. lia. Qed.
End MapCount.

Lemma mcount_fmap {K V V'} `{Countable K} (f : V' -> bool) (f' : V -> bool) (g : V -> V') (m : gmap K V) :
  (forall v, f (g v) = f' v) -> mcount f (g <$> m) = mcount f' m.
Proof.
  intros Hf. unfold mcount. rewrite map_filter_fmap, map_size_fmap. f_equal.
  apply map_filter_ext. intros i v _. simpl. by rewrite Hf.
Qed.

(** ** Collecting what the entries of a finite map hold, in some order *)
Section MapCollect.
Context {K V B : Type} `{Countable K}.
Implicit Types (f : V -> option B) (m : gmap K V).

Definition collect f m : list B := omap (fun kv => f kv.2) (map_to_list m).

Lemma collect_insert_new f m k v : m !! k = None -> collect f (<[k := v]> m) ≡ₚ option_list (f v) ++ collect f m.
Proof. intros Hk. unfold collect. rewrite map_to_list_insert by done. simpl. by destruct (f v). Qed.

Lemma collect_insert f m k v : collect f (<[k := v]> m) ≡ₚ option_list (f v) ++ collect f (delete k m).
Proof. rewrite <-insert_delete_eq. apply collect_insert_new, lookup_delete_eq. Qed.

Lemma collect_lookup f m k v : m !! k = Some v -> collect f m ≡ₚ option_list (f v) ++ collect f (delete k m).
Proof. intros Hk. rewrite <-(insert_id m k v Hk) at 1. apply collect_insert. Qed.

Lemma collect_delete_none f m k v : m !! k = Some v -> f v = None -> collect f m ≡ₚ collect f (delete k m).
Proof. intros Hk Hf. rewrite (collect_lookup f m k v Hk), Hf. done. Qed.

Lemma collect_empty f : collect f (∅ : gmap K V) = [].
Proof. unfold collect. by rewrite map_to_list_empty. Qed.

Lemma collect_fmap (g : V -> V) f m : (forall v, f (g v) = f v) -> collect f (g <$> m) = collect f m.
Proof.
  intros Hg. unfold collect. rewrite map_to_list_fmap. induction (map_to_list m) as [|[k v] l IH]; [done|].
  simpl. rewrite Hg. by destruct (f v); [f_equal|].
Qed.
End MapCollect.

(** ** Systems that step and observe

    A step takes an event and a state to a state and what was observed, or is
    impossible; a run is a schedule, and a state is reached with the observations made
    on the way. *)
Section Runs.
Context {St Ev Ob : Type} (step : Ev -> St -> option (St * list Ob)).

Fixpoint run_steps (es : list Ev) (s : St) : option (St * list Ob) :=
  match es with
  | [] => Some (s, [])
  | e :: es' =>
      match step e s with
      | Some (s1, o1) => match run_steps es' s1 with Some (s2, o2) => Some (s2, o1 ++ o2) | None => None end
      | None => None
      end
  end.

Inductive reaches (s0 : St) : St -> list Ob -> Prop :=
| reaches_refl : reaches s0 s0 []
| reaches_step s tr e s' os : reaches s0 s tr -> step e s = Some (s', os) -> reaches s0 s' (tr ++ os).

Lemma run_reaches es s0 s tr s' os : reaches s0 s tr -> run_steps es s = Some (s', os) -> reaches s0 s' (tr ++ os).
Proof.
  revert s tr s' os. induction es as [|e es IH]; intros s tr s' os Hr; simpl.
  - intros [= <- <-]. by rewrite app_nil_r.
  - destruct (step e s) as [[s1 o1]|] eqn:E; [|done].
    destruct (run_steps es s1) as [[s2 o2]|] eqn:E2; [|done]. intros [= <- <-].
    rewrite (assoc_L (++)). eapply IH; [|done]. by eapply reaches_step.
Qed.

Lemma run_from_start es s s' os : run_steps es s = Some (s', os) -> reaches s s' os.
Proof. intros E. by apply (run_reaches es s s [] s' os (reaches_refl s)). Qed.

Lemma run_steps_app es1 es2 x y z o1 o2 :
  run_steps es1 x = Some (y, o1) -> run_steps es2 y = Some (z, o2) -> run_steps (es1 ++ es2) x = Some (z, o1 ++ o2).
Proof.
  revert x o1. induction es1 as [|e es IH]; intros x o1; simpl; [by intros [= -> <-]|].
  destruct (step e x) as [[y' oy]|]; [|done]. destruct (run_steps es y') as [[z' oz]|] eqn:Ez; [|done].
  intros [= -> <-] E2. erewrite IH by done. by rewrite <-(assoc_L (++)).
Qed.

(** An invariant of the state and of what has been observed, for schedules whose events
    are all [ok]. *)
Lemma run_inv (Inv : St -> list Ob -> Prop) (ok : Ev -> Prop) es s tr s' os :
  (forall e s tr s' os, ok e -> Inv s tr -> step e s = Some (s', os) -> Inv s' (tr ++ os)) ->
  Forall ok es -> Inv s tr -> run_steps es s = Some (s', os) -> Inv s' (tr ++ os).
Proof.
  intros Hstep Hok. revert s tr os. induction Hok as [|e es He Hes IH]; intros s tr os Hi; simpl.
  - intros [= <- <-]. by rewrite app_nil_r.
  - destruct (step e s) as [[s1 o1]|] eqn:E; [|done].
    destruct (run_steps es s1) as [[s2 o2]|] eqn:E2; [|done]. intros [= <- <-].
    rewrite (assoc_L (++)). apply (IH s1 (tr ++ o1) o2); [by eapply Hstep|done].
Qed.
End Runs.
Arguments reaches_refl {St Ev Ob} {step} s0.
Arguments reaches_step {St Ev Ob} {step} s0 s tr e s' os.
Arguments run_reaches {St Ev Ob} {step} es s0 s tr s' os.
Arguments run_from_start {St Ev Ob} {step} es s s' os.
Arguments run_steps_app {St Ev Ob} {step} es1 es2 x y z o1 o2.
