(* ===== verification/GoStd.v ===== *)
(** * The parts of Go's standard library that the logger calls

    [strconv], [strings], [time] and [fmt] as executable functions, written from
    their documented behaviour, and the dynamic values ([any]) that reach the
    logger.  What depends on the running process (the local time zone, the
    program's frame table, reflection over user types, the Unicode tables) is the
    class [GoEnv]. *)
From S2P Require Import Prelude.
Local Open Scope Z_scope.

(** ** strconv: integers *)
Module Strconv.

Definition digit (d : Z) : ascii := byte_chr (48 + d).
Definition is_digit (c : ascii) : bool := (48 <=? byte_val c) && (byte_val c <=? 57).

Fixpoint digits_loop (fuel : nat) (n : Z) (acc : string) : string :=
  match fuel with
  | O => acc
  | S f =>
      let acc' := String (digit (n mod 10)) acc in
      if n <? 10 then acc' else digits_loop f (n / 10) acc'
  end.

(** [strconv.AppendUint(_, n, 10)]: the number of bits bounds the number of digits. *)
Definition FormatUint (n : Z) : string := digits_loop (S (Z.to_nat (Z.log2 n))) n "".

(** [strconv.AppendInt(_, n, 10)]. *)
Definition FormatInt (n : Z) : string :=
  if n <? 0 then String "-" (FormatUint (- n)) else FormatUint n.

Definition AppendBool (b : bool) : string := if b then "true" else "false".

Fixpoint parse_digits (s : string) (acc : Z) : option Z :=
  match s with
  | EmptyString => Some acc
  | String c s' =>
      if is_digit c then
        let acc' := acc * 10 + (byte_val c - 48) in
        if acc' <? 2 ^ 64 then parse_digits s' acc' else None
      else None
  end.

(** [strconv.ParseUint(s, 10, 64)]; [None] is any of its errors. *)
Definition ParseUint (s : string) : option Z :=
  match s with EmptyString => None | _ => parse_digits s 0 end.

(** [strconv.Atoi]: an optional sign, then decimal digits, in [int]'s range. *)
Definition Atoi (s : string) : option Z :=
  match s with
  | String "-" s' => match ParseUint s' with Some n => if n <=? 2 ^ 63 then Some (- n) else None | None => None end
  | String "+" s' => match ParseUint s' with Some n => if n <? 2 ^ 63 then Some n else None | None => None end
  | _ => match ParseUint s with Some n => if n <? 2 ^ 63 then Some n else None | None => None end
  end.

Lemma byte_val_digit d : 0 <= d < 10 -> byte_val (digit d) = 48 + d.
Proof.
  intros. unfold digit, byte_val, byte_chr. rewrite Z.mod_small by lia.
  rewrite N_ascii_embedding by lia. lia.
Qed.

Lemma is_digit_digit d : 0 <= d < 10 -> is_digit (digit d) = true.
Proof. intros. unfold is_digit. rewrite byte_val_digit by done. lia. Qed.

Lemma digits_loop_forall fuel n acc :
  0 <= n -> str_forall is_digit acc = true -> str_forall is_digit (digits_loop fuel n acc) = true.
Proof.
  revert n acc. induction fuel as [|f IH]; intros n acc Hn Hacc; [done|]. simpl.
  assert (str_forall is_digit (String (digit (n mod 10)) acc) = true).
  { simpl. rewrite is_digit_digit by (apply Z.mod_pos_bound; lia). done. }
  case_if; [done|]. apply IH; [apply Z.div_pos; lia|done].
Qed.

Lemma FormatUint_digits n : 0 <= n -> str_forall is_digit (FormatUint n) = true.
Proof. intros. by apply digits_loop_forall. Qed.

Lemma digits_loop_nonempty fuel n acc : (0 < fuel)%nat \/ acc <> "" -> digits_loop fuel n acc <> "".
Proof.
  revert n acc. induction fuel as [|f IH]; intros n acc H; simpl; [by destruct H; [lia|]|].
  case_if; [done|]. apply IH. by right.
Qed.

Lemma FormatUint_nonempty n : FormatUint n <> "".
Proof. apply digits_loop_nonempty. left. lia. Qed.

Lemma parse_digits_loop fuel n acc a :
  0 <= n < 2 ^ Z.of_nat fuel -> (0 < fuel)%nat -> 0 <= a ->
  exists k, 0 <= k /\ n < 10 ^ k /\
    (a * 10 ^ k + n < 2 ^ 64 -> parse_digits (digits_loop fuel n acc) a = parse_digits acc (a * 10 ^ k + n)).
Proof.
  revert n acc. induction fuel as [|f IH]; intros n acc Hn Hf Ha; [lia|]. simpl.
  destruct (Z.ltb_spec n 10) as [Hlt|Hge].
  - exists 1. split; [lia|]. split; [lia|]. intros Hb. simpl.
    rewrite is_digit_digit, byte_val_digit by (rewrite Z.mod_small; lia).
    rewrite Z.mod_small by lia.
    replace (a * 10 + (48 + n - 48)) with (a * 10 ^ 1 + n) by lia.
    destruct (Z.ltb_spec (a * 10 ^ 1 + n) (2 ^ 64)); [done|lia].
  - assert (Hdiv : 0 <= n / 10 < 2 ^ Z.of_nat f).
    { split; [apply Z.div_pos; lia|]. apply Z.div_lt_upper_bound; [lia|].
      rewrite Nat2Z.inj_succ, Z.pow_succ_r in Hn by lia. lia. }
    destruct f as [|f']; [exfalso; lia|].
    destruct (IH (n / 10) (String (digit (n mod 10)) acc) Hdiv ltac:(lia) Ha)
      as (k & Hk & Hlt & Hp).
    pose proof (Z.div_mod n 10 ltac:(lia)) as Hdm.
    pose proof (Z.mod_pos_bound n 10 ltac:(lia)) as Hm.
    exists (k + 1). rewrite Z.pow_add_r by lia. split; [lia|]. split; [lia|].
    intros Hb. rewrite Hp by (pose proof (Z.pow_pos_nonneg 10 k); lia). simpl.
    rewrite is_digit_digit, byte_val_digit by lia.
    replace ((a * 10 ^ k + n / 10) * 10 + (48 + n mod 10 - 48)) with (a * (10 ^ k * 10 ^ 1) + n) by lia.
    destruct (Z.ltb_spec (a * (10 ^ k * 10 ^ 1) + n) (2 ^ 64)); [done|lia].
Qed.

Lemma digits_loop_length fuel n acc k :
  0 <= n < 10 ^ Z.of_nat k -> (1 <= k)%nat -> (String.length (digits_loop fuel n acc) <= k + String.length acc)%nat.
Proof.
  revert n acc k. induction fuel as [|f IH]; intros n acc k Hn Hk; simpl; [lia|].
  destruct (Z.ltb_spec n 10); [simpl; lia|]. destruct k as [|[|k]]; [lia|simpl in Hn; lia|].
  rewrite Nat2Z.inj_succ, Z.pow_succ_r in Hn by lia.
  etransitivity; [apply (IH (n / 10) _ (S k)); [|lia]|simpl; lia].
  split; [apply Z.div_pos; lia|apply Z.div_lt_upper_bound; lia].
Qed.

Lemma FormatUint_length n : is_u64 n -> (String.length (FormatUint n) <= 20)%nat.
Proof. intros [H0 H1]. pose proof (digits_loop_length (S (Z.to_nat (Z.log2 n))) n "" 20 ltac:(lia) ltac:(lia)) as H. simpl in H. unfold FormatUint. simpl. lia. Qed.

(** Reading back what [AppendUint] wrote. *)
Lemma ParseUint_FormatUint n : is_u64 n -> ParseUint (FormatUint n) = Some n.
Proof.
  intros [H0 H1]. unfold ParseUint.
  destruct (FormatUint n) as [|c s] eqn:E; [by apply FormatUint_nonempty in E|].
  rewrite <-E. unfold FormatUint.
  assert (Hpow : n < 2 ^ Z.of_nat (S (Z.to_nat (Z.log2 n)))).
  { rewrite Nat2Z.inj_succ, Z2Nat.id by apply Z.log2_nonneg.
    destruct (Z.eq_dec n 0) as [->|Hne]; [done|]. apply Z.log2_spec; lia. }
  destruct (parse_digits_loop (S (Z.to_nat (Z.log2 n))) n "" 0) as (k & Hk & Hlt & Hp);
    [lia|lia|lia|].
  by rewrite Hp by lia.
Qed.

Lemma FormatUint_inj n m : is_u64 n -> is_u64 m -> FormatUint n = FormatUint m -> n = m.
Proof.
  intros Hn Hm E. apply ParseUint_FormatUint in Hn, Hm. congruence.
Qed.

End Strconv.

(** ** strings *)
Module Strings.

Definition is_ascii_byte (c : ascii) : bool := byte_val c <? 128.
Definition lower_byte (c : ascii) : ascii :=
  if (65 <=? byte_val c) && (byte_val c <=? 90) then byte_chr (byte_val c + 32) else c.
Definition is_space_byte (c : ascii) : bool :=
  (byte_val c =? 32) || ((9 <=? byte_val c) && (byte_val c <=? 13)).

Fixpoint str_map (f : ascii -> ascii) (s : string) : string :=
  match s with EmptyString => "" | String c s' => String (f c) (str_map f s') end.

Fixpoint trim_left (P : ascii -> bool) (s : string) : string :=
  match s with
  | EmptyString => ""
  | String c s' => if P c then trim_left P s' else s
  end.

Fixpoint trim_right (P : ascii -> bool) (s : string) : string :=
  match s with
  | EmptyString => ""
  | String c s' =>
      match trim_right P s' with
      | EmptyString => if P c then "" else str1 c
      | t => String c t
      end
  end.

(** [strings.TrimRight(s, cutset)] for a one-byte cutset. *)
Definition TrimRight (s : string) (c : ascii) : string := trim_right (Ascii.eqb c) s.

(** [strings.Split(s, sep)] for a one-byte separator: always at least one part. *)
Fixpoint Split (s : string) (sep : ascii) : list string :=
  match s with
  | EmptyString => [""]
  | String c s' =>
      if Ascii.eqb c sep then "" :: Split s' sep
      else match Split s' sep with
           | p :: ps => String c p :: ps
           | [] => [str1 c]
           end
  end.

(** [strings.SplitN(s, sep, n)] for [n >= 1]: at most [n] parts, the last one
    the unsplit remainder. *)
Fixpoint SplitN (n : nat) (s : string) (sep : ascii) : list string :=
  match n with
  | O | 1%nat => [s]
  | S n' =>
      (fix go (s : string) : list string :=
         match s with
         | EmptyString => [""]
         | String c s' =>
             if Ascii.eqb c sep then "" :: SplitN n' s' sep
             else match go s' with
                  | p :: ps => String c p :: ps
                  | [] => [str1 c]
                  end
         end) s
  end.

Fixpoint IndexByte (s : string) (b : ascii) : option nat :=
  match s with
  | EmptyString => None
  | String c s' => if Ascii.eqb c b then Some O else option_map S (IndexByte s' b)
  end.

Fixpoint LastIndexByte (s : string) (b : ascii) : option nat :=
  match s with
  | EmptyString => None
  | String c s' =>
      match LastIndexByte s' b with
      | Some i => Some (S i)
      | None => if Ascii.eqb c b then Some O else None
      end
  end.

Fixpoint mem_byte (c : ascii) (chars : string) : bool :=
  match chars with EmptyString => false | String d t => Ascii.eqb c d || mem_byte c t end.

(** [strings.ContainsAny(s, chars)] for an ASCII [chars]. *)
Definition ContainsAny (s chars : string) : bool := negb (str_forall (fun c => negb (mem_byte c chars)) s).

Fixpoint Contains (s sub : string) : bool :=
  String.prefix sub s || match s with EmptyString => false | String _ s' => Contains s' sub end.

Lemma SplitN_sep n p s sep :
  no_byte sep p = true -> (1 < n)%nat ->
  SplitN n (p +:+ String sep s) sep = p :: SplitN (pred n) s sep.
Proof.
  intros Hp Hn. destruct n as [|[|n]]; [lia|lia|]. simpl.
  induction p as [|c p IH].
  - rewrite sapp_nil_l. simpl. by rewrite Ascii.eqb_refl.
  - unfold no_byte in Hp. simpl in Hp. bool_to_prop.
    rewrite sapp_cons. simpl. rewrite H. by rewrite IH.
Qed.

Lemma Split_nonempty s sep : Split s sep <> [].
Proof. destruct s; simpl; [done|]. case_if; [done|]. by destruct (Split s sep). Qed.

Lemma trim_right_idle P s c : P c = false -> trim_right P (s +:+ str1 c) = s +:+ str1 c.
Proof.
  intros Hc. induction s as [|d s IH]; [simpl; by rewrite Hc|].
  rewrite sapp_cons. simpl. rewrite IH. by destruct s.
Qed.

Lemma trim_right_snoc P s c : P c = true -> trim_right P (s +:+ str1 c) = trim_right P s.
Proof.
  intros Hc. induction s as [|d s IH]; [simpl; by rewrite Hc|].
  rewrite sapp_cons. simpl. by rewrite IH.
Qed.

End Strings.

(** ** time

    An instant is a number of nanoseconds since the Unix epoch (unbounded: the
    range of [time.Time] is wider than 64 bits of nanoseconds), with the location
    used to print it. *)
Module GoTime.
Import Strconv.

Inductive Loc := UTC | Local | Fixed (offset : Z).
Record Time := mkTime { t_ns : Z; t_loc : Loc }.

(** January 1, year 1, 00:00:00 UTC: the zero [time.Time]. *)
Definition zero_ns : Z := - 62135596800 * 10 ^ 9.
Definition zero_time : Time := mkTime zero_ns UTC.

Definition IsZero (t : Time) : bool := t_ns t =? zero_ns.
Definition UnixNano (t : Time) : Z := i64 (t_ns t).
Definition Unix0 (ns : Z) : Time := mkTime ns Local.

(** [t.Sub(u)] saturates at the limits of [time.Duration]. *)
Definition Sub (t u : Time) : Z := Z.max (- 2 ^ 63) (Z.min (2 ^ 63 - 1) (t_ns t - t_ns u)).

Definition Second : Z := 10 ^ 9.

(** Decimal with at least [w] digits ([time]'s [appendInt]). *)
Fixpoint zeros (n : nat) : string := match n with O => "" | S n' => String "0" (zeros n') end.
Definition pad_uint (x : Z) (w : nat) : string :=
  let d := FormatUint x in zeros (w - String.length d) +:+ d.
Definition appendInt (x : Z) (w : nat) : string :=
  if x <? 0 then String "-" (pad_uint (- x) w) else pad_uint x w.

(** Proleptic Gregorian date of a day number (days since 1970-01-01). *)
Definition civil (days : Z) : Z * Z * Z :=
  let z := days + 719468 in
  let era := z / 146097 in
  let doe := z mod 146097 in
  let yoe := (doe - doe / 1460 + doe / 36524 - doe / 146096) / 365 in
  let doy := doe - (365 * yoe + yoe / 4 - yoe / 100) in
  let mp := (5 * doy + 2) / 153 in
  let d := doy - (153 * mp + 2) / 5 + 1 in
  let m := if mp <? 10 then mp + 3 else mp - 9 in
  (yoe + era * 400 + (if m <=? 2 then 1 else 0), m, d).

Definition is_zero_byte (c : ascii) : bool := Ascii.eqb c "0".

(** Fractional seconds with trailing zeros removed (layout [.999999999]). *)
Definition frac9 (ns : Z) : string :=
  match Strings.trim_right is_zero_byte (pad_uint ns 9) with
  | EmptyString => ""
  | f => String "." f
  end.

Definition clock (sec : Z) : Z * Z * Z := ((sec mod 86400) / 3600, (sec mod 3600) / 60, sec mod 60).

Definition zone_suffix (off : Z) : string :=
  if off =? 0 then "Z"
  else
    let zone := Z.quot off 60 in
    let a := Z.abs zone in
    (if zone <? 0 then "-" else "+") +:+ appendInt (a / 60) 2 +:+ ":" +:+ appendInt (a mod 60) 2.

(** [t.AppendFormat(_, time.RFC3339Nano)] at zone offset [off]. *)
Definition format_rfc3339nano (off : Z) (ns : Z) : string :=
  let sec := ns / 10 ^ 9 + off in
  let '(y, m, d) := civil (sec / 86400) in
  let '(hh, mm, ss) := clock sec in
  appendInt y 4 +:+ "-" +:+ appendInt m 2 +:+ "-" +:+ appendInt d 2 +:+ "T" +:+
  appendInt hh 2 +:+ ":" +:+ appendInt mm 2 +:+ ":" +:+ appendInt ss 2 +:+
  frac9 (ns mod 10 ^ 9) +:+ zone_suffix off.

(** Layout ["15:04:05.000"]. *)
Definition format_clock_ms (off : Z) (ns : Z) : string :=
  let '(hh, mm, ss) := clock (ns / 10 ^ 9 + off) in
  appendInt hh 2 +:+ ":" +:+ appendInt mm 2 +:+ ":" +:+ appendInt ss 2 +:+ "." +:+
  pad_uint ((ns mod 10 ^ 9) / 10 ^ 6) 3.

(** Layout ["20060102T150405.000"]. *)
Definition format_compact_ms (off : Z) (ns : Z) : string :=
  let sec := ns / 10 ^ 9 + off in
  let '(y, m, d) := civil (sec / 86400) in
  let '(hh, mm, ss) := clock sec in
  appendInt y 4 +:+ appendInt m 2 +:+ appendInt d 2 +:+ "T" +:+
  appendInt hh 2 +:+ appendInt mm 2 +:+ appendInt ss 2 +:+ "." +:+
  pad_uint ((ns mod 10 ^ 9) / 10 ^ 6) 3.

Example rfc3339_epoch : format_rfc3339nano 0 0 = "1970-01-01T00:00:00Z".
Proof. reflexivity. Qed.
Example rfc3339_leap : format_rfc3339nano 19800 (951782400 * 10 ^ 9 + 120000000) = "2000-02-29T05:30:00.12+05:30".
Proof. reflexivity. Qed.
Example rfc3339_zero : format_rfc3339nano 0 zero_ns = "0001-01-01T00:00:00Z".
Proof. reflexivity. Qed.

(** [time.Duration.String]: [u] is split by [fmtFrac] into its fraction
    (trailing zeros dropped) and the remaining integer. *)
Definition fmtFrac (u : Z) (prec : nat) : string * Z :=
  let p := 10 ^ Z.of_nat prec in
  let f := Strings.trim_right is_zero_byte (pad_uint (u mod p) prec) in
  (match f with EmptyString => "" | _ => if (prec =? 0)%nat then "" else String "." f end, u / p).

Definition Duration_String (d : Z) : string :=
  let u := Z.abs d in
  let body :=
    if u <? 10 ^ 9 then
      if u =? 0 then "0s"
      else if u <? 10 ^ 3 then FormatUint u +:+ "ns"
      else if u <? 10 ^ 6 then let '(f, i) := fmtFrac u 3 in FormatUint i +:+ f +:+ String (byte_chr 194) (String (byte_chr 181) "s")
      else let '(f, i) := fmtFrac u 6 in FormatUint i +:+ f +:+ "ms"
    else
      let '(f, s) := fmtFrac u 9 in
      let secs := FormatUint (s mod 60) +:+ f +:+ "s" in
      let m := s / 60 in
      if m =? 0 then secs
      else
        let mins := FormatUint (m mod 60) +:+ "m" +:+ secs in
        let h := m / 60 in
        if h =? 0 then mins else FormatUint h +:+ "h" +:+ mins
  in if d <? 0 then String "-" body else body.

Example duration_1 : Duration_String 5445000000000 = "1h30m45s".
Proof. reflexivity. Qed.
Example duration_2 : Duration_String (-1500000) = "-1.5ms".
Proof. reflexivity. Qed.
Example duration_3 : Duration_String 90000000001 = "1m30.000000001s".
Proof. reflexivity. Qed.

End GoTime.

(** ** strconv: floats

    A [float64] is its IEEE-754 bit pattern.  [FormatFloat] is
    [strconv.AppendFloat(_, f, 'g', -1, 64)]: the shortest decimal that rounds
    back to [f] (the closest one of that length), in [%e] form when the decimal
    exponent is below -4 or at least 6. *)
Module GoFloat.
Import Strconv.

Inductive float_class :=
| FNaN
| FInf (neg : bool)
| FFinite (neg : bool) (mant : Z) (exp : Z).   (* mant * 2^exp *)

Definition classify (bits : Z) : float_class :=
  let neg := Z.testbit bits 63 in
  let e := Z.land (Z.shiftr bits 52) 2047 in
  let m := Z.land bits (2 ^ 52 - 1) in
  if e =? 2047 then (if m =? 0 then FInf neg else FNaN)
  else if e =? 0 then FFinite neg m (- 1074)
  else FFinite neg (m + 2 ^ 52) (e - 1075).

(** A float32 by its bits, and the conversion [float64(v)], which is exact: the
    exponent is rebiased, a subnormal is normalized, and a NaN keeps its sign and payload
    and becomes quiet. *)
Definition classify32 (bits : Z) : float_class :=
  let neg := Z.testbit bits 31 in
  let e := Z.land (Z.shiftr bits 23) 255 in
  let m := Z.land bits (2 ^ 23 - 1) in
  if e =? 255 then (if m =? 0 then FInf neg else FNaN)
  else if e =? 0 then FFinite neg m (- 149)
  else FFinite neg (m + 2 ^ 23) (e - 150).

Definition assemble (neg : bool) (e m : Z) : Z := (if neg then 2 ^ 63 else 0) + e * 2 ^ 52 + m.
Definition widen32 (bits : Z) : Z :=
  match classify32 bits with
  | FNaN => assemble (Z.testbit bits 31) 2047 (Z.lor (Z.shiftl (Z.land bits (2 ^ 23 - 1)) 29) (2 ^ 51))
  | FInf neg => assemble neg 2047 0
  | FFinite neg m e =>
      if m =? 0 then assemble neg 0 0
      else let k := Z.log2 m in assemble neg (e + k + 1023) (Z.shiftl m (52 - k) - 2 ^ 52)
  end.

(** The same number (exponents of a float are at least -1074). *)
Definition same_float (a b : float_class) : Prop :=
  match a, b with
  | FNaN, FNaN => True
  | FInf n, FInf n' => n = n'
  | FFinite n m e, FFinite n' m' e' => n = n' /\ m * 2 ^ (e + 1074) = m' * 2 ^ (e' + 1074)
  | _, _ => False
  end.

Example widen_1 : map widen32 [1036831949; 1110048768; 0; 2147483648; 1; 2139095039; 4286578688] =
  [4591870180174331904; 4631178160564600832; 0; 2 ^ 63; 3936146074321813504; 5183643170566569984; 18442240474082181120].
Proof. vm_compute. reflexivity. Qed.

(** [a * 2^e1 * 10^e2 <= b] and [<] on integers with signed exponents. *)
Definition pos_part (e : Z) : Z := Z.max e 0.
Definition scaled (a e2 e10 : Z) : Z := a * 2 ^ pos_part e2 * 10 ^ pos_part e10.
Definition cmp_scaled (a e2 : Z) (d e10 : Z) : comparison :=
  (* a * 2^e2  ?=  d * 10^e10 *)
  (scaled a e2 (- e10) ?= scaled d (- e2) e10).

(** Number of decimal digits before the point of [m * 2^e]: the least [dp] in a
    small window with [m * 2^e < 10^dp]. *)
Fixpoint find_dp (fuel : nat) (m e dp : Z) : Z :=
  match fuel with
  | O => dp
  | S f => match cmp_scaled m e 1 dp with Lt => dp | _ => find_dp f m e (dp + 1) end
  end.

Definition floor_digits (m e e10 : Z) : Z := scaled m e (- e10) / scaled 1 (- e) e10.

(** Shortest digit count [nd <= 17] for which rounding down or up stays inside
    the rounding interval of the float; the result is (digits, exponent of the
    last digit). *)
Fixpoint shortest (fuel : nat) (m e : Z) (lo_gap : Z) (dp nd : Z) : Z * Z :=
  let e10 := dp - nd in
  let d := floor_digits m e e10 in
  let incl := Z.even m in
  let okdown := match cmp_scaled (4 * m - lo_gap) (e - 2) d e10 with Lt => true | Eq => incl | Gt => false end in
  let okup := match cmp_scaled (4 * m + 2) (e - 2) (d + 1) e10 with Gt => true | Eq => incl | Lt => false end in
  let nearest :=
    match cmp_scaled (2 * m) e (2 * d + 1) e10 with
    | Lt => d | Gt => d + 1 | Eq => if Z.even d then d else d + 1
    end in
  match fuel with
  | O => (nearest, e10)
  | S f =>
      if okdown && okup then (nearest, e10)
      else if okdown then (d, e10)
      else if okup then (d + 1, e10)
      else shortest f m e lo_gap dp (nd + 1)
  end.

Definition decimal_digits (m e : Z) : string * Z :=
  if m =? 0 then ("", 0)
  else
    let lo_gap := if (m =? 2 ^ 52) && negb (e =? - 1074) then 1 else 2 in
    let est := (Z.log2 m + e) * 30103 / 100000 in
    let dp := find_dp 6 m e (est - 2) in
    let '(d, e10) := shortest 17 m e lo_gap dp 1 in
    let s := FormatUint d in
    (Strings.trim_right GoTime.is_zero_byte s, Z.of_nat (String.length s) + e10).

Definition fmtE (ds : string) (dp : Z) : string :=
  let exp := match ds with EmptyString => 0 | _ => dp - 1 end in
  match ds with
  | EmptyString => "0"
  | String c EmptyString => str1 c
  | String c rest => String c (String "." rest)
  end +:+ "e" +:+ (if exp <? 0 then "-" else "+") +:+ GoTime.pad_uint (Z.abs exp) 2.

Definition fmtF (ds : string) (dp : Z) : string :=
  let n := String.length ds in
  if dp <=? 0 then
    match ds with
    | EmptyString => "0"
    | _ => "0." +:+ GoTime.zeros (Z.to_nat (- dp)) +:+ ds
    end
  else
    let k := Z.to_nat dp in
    let ip := str_take k ds +:+ GoTime.zeros (k - n) in
    match str_drop k ds with
    | EmptyString => ip
    | fp => ip +:+ "." +:+ fp
    end.

Definition FormatFloat (bits : Z) : string :=
  match classify bits with
  | FNaN => "NaN"
  | FInf true => "-Inf"
  | FInf false => "+Inf"
  | FFinite neg m e =>
      let '(ds, dp) := decimal_digits m e in
      let exp := dp - 1 in
      (if neg then "-" else "") +:+
      (if (exp <? - 4) || (6 <=? exp) then fmtE ds dp else fmtF ds dp)
  end.

(** IEEE bit patterns of a few constants. *)
Definition f64_0_1 : Z := 4591870180066957722.
Definition f64_42_5 : Z := 4631178160564600832.
Definition f64_1e6 : Z := 4696837146684686336.
Definition f64_NaN : Z := 9221120237041090561.

Example float_1 : FormatFloat f64_0_1 = "0.1". Proof. vm_compute. reflexivity. Qed.
Example float_2 : FormatFloat f64_42_5 = "42.5". Proof. vm_compute. reflexivity. Qed.
Example float_3 : FormatFloat f64_1e6 = "1e+06". Proof. vm_compute. reflexivity. Qed.
Example float_4 : FormatFloat (2 ^ 63) = "-0". Proof. vm_compute. reflexivity. Qed.
Example float_5 : FormatFloat 1 = "5e-324". Proof. vm_compute. reflexivity. Qed.
Example float_6 : FormatFloat 9218868437227405311 = "1.7976931348623157e+308". Proof. vm_compute. reflexivity. Qed.
Example float_7 : FormatFloat 4599075939470750515 = "0.3". Proof. vm_compute. reflexivity. Qed.
Example float_8 : FormatFloat 4599075939470750516 = "0.30000000000000004". Proof. vm_compute. reflexivity. Qed.
Example float_9 : FormatFloat 4547007122018943789 = "0.0001". Proof. vm_compute. reflexivity. Qed.
Example float_10 : FormatFloat 4607182418800017408 = "1". Proof. vm_compute. reflexivity. Qed.

End GoFloat.

(** ** Token bytes

    Letters, digits and [+ - . :]: the alphabet of every number, boolean and
    RFC 3339 timestamp the encoders write without quoting. *)
Module Token.
Import Strconv.

Definition tok_byte (c : ascii) : bool :=
  is_digit c || ((65 <=? byte_val c) && (byte_val c <=? 90)) ||
  ((97 <=? byte_val c) && (byte_val c <=? 122)) || Strings.mem_byte c "+-.:".

Definition is_tok (s : string) : Prop := str_forall tok_byte s = true.

Lemma is_tok_app s t : is_tok s -> is_tok t -> is_tok (s +:+ t).
Proof. unfold is_tok. rewrite str_forall_app. by intros -> ->. Qed.

Lemma is_tok_cons c s : tok_byte c = true -> is_tok s -> is_tok (String c s).
Proof. unfold is_tok. simpl. by intros -> ->. Qed.

Lemma is_digit_tok c : is_digit c = true -> tok_byte c = true.
Proof. unfold tok_byte. by intros ->. Qed.

Lemma FormatUint_tok n : 0 <= n -> is_tok (FormatUint n).
Proof. intros. apply str_forall_impl with is_digit; [apply is_digit_tok|]. by apply FormatUint_digits. Qed.

Lemma FormatInt_tok n : is_tok (FormatInt n).
Proof.
  unfold FormatInt. destruct (Z.ltb_spec n 0); [apply is_tok_cons; [done|]|]; apply FormatUint_tok; lia.
Qed.

Lemma zeros_tok n : is_tok (GoTime.zeros n).
Proof. induction n; [done|]. by apply is_tok_cons. Qed.

Lemma pad_uint_tok x w : 0 <= x -> is_tok (GoTime.pad_uint x w).
Proof. intros. apply is_tok_app; [apply zeros_tok|by apply FormatUint_tok]. Qed.

Lemma appendInt_tok x w : is_tok (GoTime.appendInt x w).
Proof.
  unfold GoTime.appendInt. destruct (Z.ltb_spec x 0); [apply is_tok_cons; [done|]|]; apply pad_uint_tok; lia.
Qed.

Lemma trim_right_forall P Q s : str_forall P s = true -> str_forall P (Strings.trim_right Q s) = true.
Proof.
  induction s as [|c s IH]; [done|]. simpl. intros. bool_to_prop.
  destruct (Strings.trim_right Q s) as [|d t] eqn:E; [case_if; simpl; by rewrite ?H|].
  simpl in *. by rewrite H, IH.
Qed.

Lemma str_take_forall P n s : str_forall P s = true -> str_forall P (str_take n s) = true.
Proof.
  revert s. induction n as [|n IH]; intros [|c s] H; try done. simpl in *. bool_to_prop. by rewrite H, IH.
Qed.

Lemma str_drop_forall P n s : str_forall P s = true -> str_forall P (str_drop n s) = true.
Proof.
  revert s. induction n as [|n IH]; intros [|c s] H; try done. simpl in *. bool_to_prop. by apply IH.
Qed.

Lemma frac9_tok ns : 0 <= ns -> is_tok (GoTime.frac9 ns).
Proof.
  intros. unfold GoTime.frac9.
  pose proof (trim_right_forall tok_byte GoTime.is_zero_byte _ (pad_uint_tok ns 9 H)) as Ht.
  destruct (Strings.trim_right _ _); [done|]. by apply is_tok_cons.
Qed.

Lemma zone_suffix_tok off : is_tok (GoTime.zone_suffix off).
Proof.
  unfold GoTime.zone_suffix. case_if; [done|].
  repeat apply is_tok_app; try apply appendInt_tok; [by case_if|done].
Qed.

Lemma rfc3339_tok off ns : is_tok (GoTime.format_rfc3339nano off ns).
Proof.
  unfold GoTime.format_rfc3339nano.
  destruct (GoTime.civil _) as [[y m] d]. destruct (GoTime.clock _) as [[hh mm] ss].
  assert (0 <= ns mod 10 ^ 9) by (apply Z.mod_pos_bound; lia).
  repeat apply is_tok_app; auto using appendInt_tok, frac9_tok, zone_suffix_tok; done.
Qed.

Lemma AppendBool_tok b : is_tok (AppendBool b).
Proof. by destruct b. Qed.

Lemma floor_digits_nonneg m e e10 : 0 <= m -> 0 <= GoFloat.floor_digits m e e10.
Proof.
  intros. unfold GoFloat.floor_digits, GoFloat.scaled.
  apply Z.div_pos; [|]; repeat first [apply Z.mul_nonneg_nonneg | apply Z.mul_pos_pos | apply Z.pow_nonneg | apply Z.pow_pos_nonneg]; unfold GoFloat.pos_part; lia.
Qed.

Lemma shortest_nonneg fuel m e g dp nd : 0 <= m -> 0 <= (GoFloat.shortest fuel m e g dp nd).1.
Proof.
  intros Hm. revert nd. induction fuel as [|f IH]; intros nd; simpl;
    pose proof (floor_digits_nonneg m e (dp - nd) Hm).
  - repeat case_match; simpl; lia.
  - repeat case_match; simpl; try lia; apply IH.
Qed.

Lemma fmtE_tok ds dp : is_tok ds -> is_tok (GoFloat.fmtE ds dp).
Proof.
  intros Hd. unfold GoFloat.fmtE.
  apply is_tok_app; [|apply is_tok_app; [done|apply is_tok_app; [by case_if|apply pad_uint_tok; lia]]].
  destruct ds as [|c [|d ds]]; [done..|]. unfold is_tok in *. simpl in *. bool_to_prop. by rewrite H, H0, H1.
Qed.

Lemma fmtF_tok ds dp : is_tok ds -> is_tok (GoFloat.fmtF ds dp).
Proof.
  intros Hd. unfold GoFloat.fmtF. case_if.
  - destruct ds; [done|]. repeat apply is_tok_app; auto using zeros_tok. done.
  - assert (is_tok (str_take (Z.to_nat dp) ds +:+ GoTime.zeros (Z.to_nat dp - String.length ds)))
      by (apply is_tok_app; [by apply str_take_forall|apply zeros_tok]).
    pose proof (str_drop_forall tok_byte (Z.to_nat dp) ds Hd) as Hdr.
    destruct (str_drop _ _); [done|]. apply is_tok_app; [done|]. by apply is_tok_app.
Qed.

Lemma FormatFloat_tok bits : is_tok (GoFloat.FormatFloat bits).
Proof.
  unfold GoFloat.FormatFloat. destruct (GoFloat.classify bits) as [| []|neg m e] eqn:E; [done..|].
  assert (0 <= m) as Hm.
  { assert (0 <= Z.land bits (2 ^ 52 - 1)) by (apply Z.land_nonneg; right; lia).
    revert E. unfold GoFloat.classify. repeat case_if; intros [= <- <- <-]; lia. }
  destruct (GoFloat.decimal_digits m e) as [ds dp] eqn:Ed.
  assert (is_tok ds) as Hds.
  { unfold GoFloat.decimal_digits in Ed. destruct (m =? 0); [by inversion Ed|].
    destruct (GoFloat.shortest _ _ _ _ _ _) as [d e10] eqn:Es. injection Ed as <- <-.
    apply trim_right_forall, FormatUint_tok. change d with (d, e10).1. rewrite <-Es. by apply shortest_nonneg. }
  apply is_tok_app; [by destruct neg|]. case_if; [by apply fmtE_tok|by apply fmtF_tok].
Qed.
End Token.

(** ** JSON numbers

    The number grammar of RFC 8259 as an automaton, and what [strconv] writes in it:
    every integer, and every finite float. *)
Module JsonNumber.
Import Strconv GoFloat.

Inductive NState := NStart | NMinus | NZero | NInt | NDot | NFrac | NExp | NExpSign | NExpDigits.

Definition num_step (st : NState) (c : ascii) : option NState :=
  let nonzero := is_digit c && negb (Ascii.eqb c "0") in
  let is_e := Ascii.eqb c "e" || Ascii.eqb c "E" in
  match st with
  | NStart => if Ascii.eqb c "-" then Some NMinus else if Ascii.eqb c "0" then Some NZero else if nonzero then Some NInt else None
  | NMinus => if Ascii.eqb c "0" then Some NZero else if nonzero then Some NInt else None
  | NZero => if Ascii.eqb c "." then Some NDot else if is_e then Some NExp else None
  | NInt => if is_digit c then Some NInt else if Ascii.eqb c "." then Some NDot else if is_e then Some NExp else None
  | NDot => if is_digit c then Some NFrac else None
  | NFrac => if is_digit c then Some NFrac else if is_e then Some NExp else None
  | NExp => if is_digit c then Some NExpDigits else if Ascii.eqb c "+" || Ascii.eqb c "-" then Some NExpSign else None
  | NExpSign | NExpDigits => if is_digit c then Some NExpDigits else None
  end.

Fixpoint num_run (st : NState) (s : string) : option NState :=
  match s with
  | EmptyString => Some st
  | String c s' => match num_step st c with Some st' => num_run st' s' | None => None end
  end.

Definition num_final (st : NState) : bool :=
  match st with NZero | NInt | NFrac | NExpDigits => true | _ => false end.

(** A JSON number, the whole string. *)
Definition is_number (s : string) : bool :=
  match num_run NStart s with Some st => num_final st | None => false end.

Example number_1 : map is_number ["0"; "-0"; "12"; "-1.50"; "1e+06"; "2.5E-7"; "0e1"] = replicate 7 true.
Proof. reflexivity. Qed.
Example number_2 : map is_number [""; "-"; "01"; "+1"; "1."; ".5"; "1e"; "NaN"; "+Inf"; "0x1"; "1:2"] = replicate 11 false.
Proof. reflexivity. Qed.

Lemma num_run_app st s t st' : num_run st s = Some st' -> num_run st (s +:+ t) = num_run st' t.
Proof.
  revert st. induction s as [|c s IH]; intros st; [rewrite sapp_nil_l; by intros [= ->]|]. rewrite sapp_cons. cbn [num_run].
  destruct (num_step st c); [apply IH|done].
Qed.

Lemma num_step_tok st c st' : num_step st c = Some st' -> Token.tok_byte c = true.
Proof. destruct c as [[] [] [] [] [] [] [] []]; destruct st; vm_compute; by intros. Qed.

Lemma num_run_tok st s st' : num_run st s = Some st' -> Token.is_tok s.
Proof.
  revert st. induction s as [|c s IH]; intros st; [done|]. cbn [num_run].
  destruct (num_step st c) as [st1|] eqn:E; [|done]. intros Hr. apply Token.is_tok_cons; [by eapply num_step_tok|by eapply IH].
Qed.

Lemma is_number_tok s : is_number s = true -> Token.is_tok s.
Proof. unfold is_number. destruct (num_run NStart s) eqn:E; [|done]. intros _. by eapply num_run_tok. Qed.

(** Runs of digits. *)
Lemma num_run_digits st s :
  st = NInt \/ st = NFrac \/ st = NExpDigits -> str_forall is_digit s = true -> num_run st s = Some st.
Proof.
  intros Hst. induction s as [|c s IH]; [done|]. cbn [str_forall num_run]. intros. bool_to_prop.
  assert (num_step st c = Some st) as ->; [|auto].
  destruct Hst as [->|[->| ->]]; cbn [num_step]; by rewrite H.
Qed.

(** Digits after a state that moves to [st'] with the first of them. *)
Lemma num_run_some st st' s :
  (st = NDot /\ st' = NFrac \/ (st = NExp \/ st = NExpSign) /\ st' = NExpDigits) ->
  s <> "" -> str_forall is_digit s = true -> num_run st s = Some st'.
Proof.
  intros Hst Hs. destruct s as [|c s]; [done|]. cbn [str_forall num_run]. intros. bool_to_prop.
  assert (num_step st c = Some st') as ->.
  { destruct Hst as [[-> ->]|[[->| ->] ->]]; cbn [num_step]; by rewrite H. }
  apply num_run_digits; [|done]. destruct Hst as [[-> ->]|[_ ->]]; auto.
Qed.

(** A digit string without a leading zero. *)
Definition leads (s : string) : Prop :=
  match s with String c s' => is_digit c = true /\ Ascii.eqb c "0" = false /\ str_forall is_digit s' = true | EmptyString => False end.

Lemma leads_digits s : leads s -> s <> "" /\ str_forall is_digit s = true.
Proof. destruct s as [|c s]; [done|]. intros (H1 & _ & H2). split; [done|]. cbn [str_forall]. by rewrite H1, H2. Qed.

Lemma num_run_leads st s : st = NStart \/ st = NMinus -> leads s -> num_run st s = Some NInt.
Proof.
  intros Hst. destruct s as [|c s]; [done|]. intros (H1 & H2 & H3). cbn [num_run].
  assert (num_step st c = Some NInt) as ->; [|by apply num_run_digits; auto].
  destruct (Ascii.eqb_spec c "-") as [->|Hm]; [done|]. apply Ascii.eqb_neq in Hm.
  destruct Hst as [->| ->]; cbn [num_step]; by rewrite ?Hm, H2, H1.
Qed.

Lemma leads_app s t : leads s -> str_forall is_digit t = true -> leads (s +:+ t).
Proof.
  destruct s as [|c s]; [done|]. intros (H1 & H2 & H3) Ht. rewrite sapp_cons. split_and!; [done|done|].
  by rewrite str_forall_app, H3, Ht.
Qed.

Lemma leads_trim s : leads s -> leads (Strings.trim_right GoTime.is_zero_byte s).
Proof.
  destruct s as [|c s]; [done|]. intros (H1 & H2 & H3). cbn [Strings.trim_right].
  pose proof (Token.trim_right_forall is_digit GoTime.is_zero_byte s H3) as Ht.
  destruct (Strings.trim_right _ s); [|done]. unfold GoTime.is_zero_byte. by rewrite H2.
Qed.

Lemma digits_loop_leads fuel n acc :
  0 < n < 2 ^ Z.of_nat fuel -> str_forall is_digit acc = true -> leads (digits_loop fuel n acc).
Proof.
  revert n acc. induction fuel as [|f IH]; intros n acc Hn Ha; [simpl in Hn; lia|]. cbn [digits_loop].
  pose proof (Z.mod_pos_bound n 10 ltac:(lia)) as Hm.
  destruct (Z.ltb_spec n 10).
  - split_and!; [by apply is_digit_digit| |done]. rewrite Z.mod_small by lia. apply Ascii.eqb_neq. intros E.
    apply (f_equal byte_val) in E. rewrite byte_val_digit in E by lia. change (byte_val "0") with 48 in E. lia.
  - apply IH; [|cbn [str_forall]; by rewrite is_digit_digit, Ha].
    rewrite Nat2Z.inj_succ, Z.pow_succ_r in Hn by lia.
    split; [apply Z.div_str_pos; lia|apply Z.div_lt_upper_bound; lia].
Qed.

Lemma FormatUint_leads n : 0 < n -> leads (FormatUint n).
Proof.
  intros Hn. apply digits_loop_leads; [|done]. split; [done|].
  rewrite Nat2Z.inj_succ, Z2Nat.id by apply Z.log2_nonneg. by apply Z.log2_spec.
Qed.

Lemma FormatUint_run st n : st = NStart \/ st = NMinus -> 0 <= n -> exists st', num_run st (FormatUint n) = Some st' /\ num_final st' = true.
Proof.
  intros Hst Hn. destruct (Z.eq_dec n 0) as [->|Hz]; [exists NZero; by destruct Hst as [->| ->]|].
  exists NInt. split; [|done]. apply num_run_leads; [done|]. apply FormatUint_leads. lia.
Qed.

Lemma FormatUint_number n : 0 <= n -> is_number (FormatUint n) = true.
Proof. intros Hn. unfold is_number. by destruct (FormatUint_run NStart n (or_introl eq_refl) Hn) as (st & -> & ?). Qed.

Lemma FormatInt_number n : is_number (FormatInt n) = true.
Proof.
  unfold FormatInt. destruct (Z.ltb_spec n 0); [|by apply FormatUint_number].
  unfold is_number. cbn [num_run]. change (num_step NStart "-") with (Some NMinus). cbv iota beta.
  by destruct (FormatUint_run NMinus (- n) (or_intror eq_refl) ltac:(lia)) as (st & -> & ?).
Qed.

Lemma zeros_digits n : str_forall is_digit (GoTime.zeros n) = true.
Proof. by induction n. Qed.

Lemma pad_uint_digits x w : 0 <= x -> GoTime.pad_uint x w <> "" /\ str_forall is_digit (GoTime.pad_uint x w) = true.
Proof.
  intros Hx. unfold GoTime.pad_uint. split; [|by rewrite str_forall_app, zeros_digits, FormatUint_digits].
  pose proof (FormatUint_nonempty x). destruct (GoTime.zeros _); [by rewrite sapp_nil_l|done].
Qed.

(** ** Floats: the digits are those of a positive integer *)
Lemma floor_digits_pos m e e10 e10' :
  0 < m -> cmp_scaled m e 1 e10 <> Lt -> e10' <= e10 -> 1 <= floor_digits m e e10'.
Proof.
  unfold cmp_scaled, floor_digits, scaled, pos_part. intros Hm Hc Hle. rewrite Z.compare_nlt_iff, Z.nlt_ge in Hc.
  apply Z.div_le_lower_bound.
  { pose proof (Z.pow_pos_nonneg 2 (Z.max (- e) 0)). pose proof (Z.pow_pos_nonneg 10 (Z.max e10' 0)). nia. }
  pose proof (Z.pow_le_mono_r 10 (Z.max e10' 0) (Z.max e10 0) ltac:(lia) ltac:(lia)).
  pose proof (Z.pow_le_mono_r 10 (Z.max (- e10) 0) (Z.max (- e10') 0) ltac:(lia) ltac:(lia)).
  pose proof (Z.pow_pos_nonneg 2 (Z.max (- e) 0) ltac:(lia) ltac:(lia)).
  pose proof (Z.pow_pos_nonneg 2 (Z.max e 0) ltac:(lia) ltac:(lia)).
  transitivity (1 * 2 ^ Z.max (- e) 0 * 10 ^ Z.max e10 0); [nia|]. etransitivity; [exact Hc|].
  apply Z.mul_le_mono_nonneg_l; nia.
Qed.

Lemma find_dp_lower fuel m e dp : cmp_scaled m e 1 (dp - 1) <> Lt -> cmp_scaled m e 1 (find_dp fuel m e dp - 1) <> Lt.
Proof.
  revert dp. induction fuel as [|f IH]; intros dp H; [done|]. cbn [find_dp].
  destruct (cmp_scaled m e 1 dp) eqn:E; [|done|]; apply IH; replace (dp + 1 - 1) with dp by lia; congruence.
Qed.

Lemma shortest_pos fuel m e g dp nd :
  0 < m -> cmp_scaled m e 1 (dp - 1) <> Lt -> 1 <= nd -> 1 <= (shortest fuel m e g dp nd).1.
Proof.
  intros Hm Hc. revert nd. induction fuel as [|f IH]; intros nd Hnd; cbn [shortest];
    pose proof (floor_digits_pos m e (dp - 1) (dp - nd) Hm Hc ltac:(lia)).
  - repeat case_match; cbn [fst]; lia.
  - repeat case_match; cbn [fst]; try lia; apply IH; lia.
Qed.

(** The estimate of the decimal exponent is never too large, at any binary exponent of
    a float: checked for each of them. *)
Definition est_ok (L : Z) : bool :=
  let k := L * 30103 / 100000 - 3 in
  2 ^ pos_part (- L) * 10 ^ pos_part k <=? 2 ^ pos_part L * 10 ^ pos_part (- k).

Lemma est_ok_all L : - 1074 <= L <= 1023 -> est_ok L = true.
Proof.
  intros HL. assert (Hall : forallb est_ok (seqZ (- 1074) 2098) = true) by (vm_compute; reflexivity).
  rewrite forallb_forall in Hall. apply Hall, list_elem_of_In, elem_of_seqZ. lia.
Qed.

Lemma estimate_lower m e :
  0 < m < 2 ^ 53 -> - 1074 <= e <= 971 -> cmp_scaled m e 1 ((Z.log2 m + e) * 30103 / 100000 - 3) <> Lt.
Proof.
  intros Hm He. pose proof (Z.log2_nonneg m) as Hl0.
  assert (Hl1 : Z.log2 m < 53) by (apply Z.log2_lt_pow2; lia).
  pose proof (est_ok_all (Z.log2 m + e) ltac:(lia)) as Hk. unfold est_ok in Hk.
  unfold cmp_scaled, scaled. rewrite Z.compare_nlt_iff, Z.nlt_ge, Z.mul_1_l. apply Z.leb_le in Hk.
  set (k := (Z.log2 m + e) * 30103 / 100000 - 3) in *. set (A := 10 ^ pos_part (- k)) in *. set (B := 10 ^ pos_part k) in *.
  pose proof (Z.log2_spec m ltac:(lia)) as [Hlow _]. unfold pos_part in *.
  assert (HE : 2 ^ Z.log2 m * 2 ^ Z.max e 0 * 2 ^ Z.max (- (Z.log2 m + e)) 0 = 2 ^ Z.max (- e) 0 * 2 ^ Z.max (Z.log2 m + e) 0).
  { rewrite <-!Z.pow_add_r by lia. f_equal. lia. }
  assert (HA : 0 <= A) by (apply Z.pow_nonneg; lia).
  pose proof (Z.pow_pos_nonneg 2 (Z.max (- (Z.log2 m + e)) 0) ltac:(lia) ltac:(lia)) as HP.
  pose proof (Z.pow_pos_nonneg 2 (Z.max (- e) 0) ltac:(lia) ltac:(lia)) as HQ.
  pose proof (Z.pow_pos_nonneg 2 (Z.max e 0) ltac:(lia) ltac:(lia)) as HR.
  apply (Z.mul_le_mono_pos_r _ _ _ HP).
  transitivity (2 ^ Z.max (- e) 0 * (2 ^ Z.max (Z.log2 m + e) 0 * A)).
  - replace (2 ^ Z.max (- e) 0 * B * 2 ^ Z.max (- (Z.log2 m + e)) 0) with (2 ^ Z.max (- e) 0 * (2 ^ Z.max (- (Z.log2 m + e)) 0 * B)) by ring.
    apply Z.mul_le_mono_nonneg_l; lia.
  - rewrite Z.mul_assoc, <-HE.
    replace (m * 2 ^ Z.max e 0 * A * 2 ^ Z.max (- (Z.log2 m + e)) 0) with (m * (2 ^ Z.max e 0 * A * 2 ^ Z.max (- (Z.log2 m + e)) 0)) by ring.
    replace (2 ^ Z.log2 m * 2 ^ Z.max e 0 * 2 ^ Z.max (- (Z.log2 m + e)) 0 * A) with (2 ^ Z.log2 m * (2 ^ Z.max e 0 * A * 2 ^ Z.max (- (Z.log2 m + e)) 0)) by ring.
    apply Z.mul_le_mono_nonneg_r; [|lia]. repeat apply Z.mul_nonneg_nonneg; lia.
Qed.

Lemma decimal_digits_leads m e :
  0 < m < 2 ^ 53 -> - 1074 <= e <= 971 -> leads (decimal_digits m e).1.
Proof.
  intros Hm He. unfold decimal_digits. destruct (Z.eqb_spec m 0); [lia|].
  set (g := if _ && _ then 1 else 2). set (dp := find_dp _ _ _ _).
  assert (Hdp : cmp_scaled m e 1 (dp - 1) <> Lt).
  { apply find_dp_lower. replace ((Z.log2 m + e) * 30103 / 100000 - 2 - 1) with ((Z.log2 m + e) * 30103 / 100000 - 3) by lia.
    by apply estimate_lower. }
  pose proof (shortest_pos 17 m e g dp 1 ltac:(lia) Hdp ltac:(lia)) as Hs.
  destruct (shortest _ _ _ _ _ _) as [d e10]. cbn [fst] in *. apply leads_trim, FormatUint_leads. lia.
Qed.

Lemma fmtE_run st ds dp : st = NStart \/ st = NMinus -> leads ds -> num_run st (fmtE ds dp) = Some NExpDigits.
Proof.
  intros Hst Hd. unfold fmtE. set (exp := match ds with EmptyString => 0 | _ => dp - 1 end).
  assert (He : forall st', st' = NInt \/ st' = NFrac ->
    num_run st' ("e" +:+ (if exp <? 0 then "-" else "+") +:+ GoTime.pad_uint (Z.abs exp) 2) = Some NExpDigits).
  { intros st' Hst'. destruct (pad_uint_digits (Z.abs exp) 2 ltac:(lia)) as [H1 H2].
    rewrite (num_run_app st' "e" _ NExp) by (by destruct Hst' as [->| ->]).
    rewrite (num_run_app NExp _ _ NExpSign) by (by destruct (exp <? 0)). by apply num_run_some; auto. }
  destruct ds as [|c [|d ds]]; [done|..].
  - rewrite (num_run_app st (str1 c) _ NInt) by (by apply num_run_leads). apply He. auto.
  - destruct Hd as (H1 & H2 & H3). change (String c (String "." (String d ds))) with (str1 c +:+ "." +:+ String d ds).
    rewrite !sapp_assoc, (num_run_app st (str1 c) _ NInt) by (by apply num_run_leads).
    rewrite (num_run_app NInt "." _ NDot) by done. rewrite (num_run_app NDot _ _ NFrac) by (by apply num_run_some; auto).
    apply He. auto.
Qed.

Lemma str_take_leads k s : (0 < k)%nat -> leads s -> leads (str_take k s).
Proof.
  destruct k as [|k]; [lia|]. intros _. destruct s as [|c s]; [done|]. intros (H1 & H2 & H3). cbn.
  split_and!; [done|done|]. by apply Token.str_take_forall.
Qed.

Lemma fmtF_run st ds dp :
  st = NStart \/ st = NMinus -> leads ds -> exists st', num_run st (fmtF ds dp) = Some st' /\ num_final st' = true.
Proof.
  intros Hst Hd. unfold fmtF. destruct (leads_digits _ Hd) as [Hne Hdig]. destruct (Z.leb_spec dp 0).
  - exists NFrac. split; [|done]. destruct ds as [|c ds]; [done|].
    rewrite (num_run_app st "0." _ NDot) by (by destruct Hst as [->| ->]).
    apply num_run_some; [auto| |by rewrite str_forall_app, zeros_digits, Hdig].
    destruct (GoTime.zeros _); [by rewrite sapp_nil_l|done].
  - assert (Hip : leads (str_take (Z.to_nat dp) ds +:+ GoTime.zeros (Z.to_nat dp - String.length ds))).
    { apply leads_app; [apply str_take_leads; [lia|done]|apply zeros_digits]. }
    pose proof (Token.str_drop_forall is_digit (Z.to_nat dp) ds Hdig) as Hdr.
    destruct (str_drop _ ds) as [|c fp].
    + exists NInt. split; [by apply num_run_leads|done].
    + exists NFrac. split; [|done]. rewrite (num_run_app st _ _ NInt) by (by apply num_run_leads).
      rewrite (num_run_app NInt "." _ NDot) by done. by apply num_run_some; auto.
Qed.

Lemma land_low a n : 0 <= n -> Z.land a (2 ^ n - 1) = a mod 2 ^ n.
Proof. intros. rewrite <-Z.land_ones, Z.ones_equiv by done. by rewrite Z.sub_1_r. Qed.
Lemma land_2047 a : Z.land a 2047 = a mod 2 ^ 11.
Proof. exact (Z.land_ones a 11 ltac:(lia)). Qed.
Lemma land_255 a : Z.land a 255 = a mod 2 ^ 8.
Proof. exact (Z.land_ones a 8 ltac:(lia)). Qed.

Definition is_finite (bits : Z) : bool := match classify bits with FFinite _ _ _ => true | _ => false end.

Lemma classify_range bits neg m e : classify bits = FFinite neg m e -> 0 <= m < 2 ^ 53 /\ - 1074 <= e <= 971.
Proof.
  unfold classify. rewrite land_2047, land_low by lia.
  pose proof (Z.mod_pos_bound (Z.shiftr bits 52) (2 ^ 11) ltac:(lia)) as H1. pose proof (Z.mod_pos_bound bits (2 ^ 52) ltac:(lia)) as H2.
  revert H1 H2. generalize (Z.shiftr bits 52 mod 2 ^ 11) (bits mod 2 ^ 52). intros x y H1 H2.
  destruct (Z.eqb_spec x 2047); [by case_if|]. destruct (Z.eqb_spec x 0); intros [= <- <- <-]; lia.
Qed.

(** Every finite float prints as a JSON number; NaN and the infinities do not. *)
Lemma FormatFloat_number bits : is_number (FormatFloat bits) = is_finite bits.
Proof.
  unfold is_finite, FormatFloat. destruct (classify bits) as [| []|neg m e] eqn:Ec; [done..|].
  destruct (classify_range _ _ _ _ Ec) as [Hm He]. unfold is_number. rewrite (surjective_pairing (decimal_digits m e)).
  set (st := if neg then NMinus else NStart). rewrite (num_run_app NStart _ _ st) by (by destruct neg).
  assert (Hst : st = NStart \/ st = NMinus) by (destruct neg; auto).
  destruct (Z.eq_dec m 0) as [->|Hz]; [by destruct neg|].
  pose proof (decimal_digits_leads m e ltac:(lia) He) as Hd.
  case_if; [by rewrite fmtE_run|]. by destruct (fmtF_run st _ (decimal_digits m e).2 Hst Hd) as (st' & -> & ->).
Qed.
End JsonNumber.

(** ** Widening a float32 *)
Module Widen.
Import GoFloat JsonNumber.

Lemma testbit_top (b : bool) n x : 0 <= n -> 0 <= x < 2 ^ n -> Z.testbit ((if b then 2 ^ n else 0) + x) n = b.
Proof.
  intros Hn Hx. destruct b.
  - apply Z.testbit_true; [done|]. replace (2 ^ n + x) with (1 * 2 ^ n + x) by lia. by rewrite Z.div_add_l, Z.div_small by lia.
  - apply Z.testbit_false; [done|]. by rewrite Z.add_0_l, Z.div_small.
Qed.

Lemma classify_assemble neg e m :
  0 <= e < 2048 -> 0 <= m < 2 ^ 52 ->
  classify (assemble neg e m) =
  if e =? 2047 then (if m =? 0 then FInf neg else FNaN)
  else if e =? 0 then FFinite neg m (- 1074) else FFinite neg (m + 2 ^ 52) (e - 1075).
Proof.
  intros He Hm. unfold classify, assemble. rewrite <-Z.add_assoc, testbit_top by lia.
  rewrite Z.shiftr_div_pow2 by lia. rewrite land_2047, land_low by lia.
  assert (((if neg then 2 ^ 63 else 0) + (e * 2 ^ 52 + m)) / 2 ^ 52 mod 2 ^ 11 = e) as ->.
  { replace ((if neg then 2 ^ 63 else 0) + (e * 2 ^ 52 + m)) with (((if neg then 2 ^ 11 else 0) + e) * 2 ^ 52 + m) by (destruct neg; lia).
    rewrite Z.div_add_l, (Z.div_small m), Z.add_0_r by lia. destruct neg; [|by rewrite Z.mod_small by lia].
    rewrite Z.add_comm. replace (e + 2 ^ 11) with (e + 1 * 2 ^ 11) by lia. rewrite Z.mod_add by lia. by rewrite Z.mod_small by lia. }
  assert (((if neg then 2 ^ 63 else 0) + (e * 2 ^ 52 + m)) mod 2 ^ 52 = m) as ->; [|done].
  replace ((if neg then 2 ^ 63 else 0) + (e * 2 ^ 52 + m)) with (m + ((if neg then 2 ^ 11 else 0) + e) * 2 ^ 52) by (destruct neg; lia).
  by rewrite Z.mod_add, Z.mod_small by lia.
Qed.

Lemma classify32_range bits neg m e : classify32 bits = FFinite neg m e -> 0 <= m < 2 ^ 24 /\ - 149 <= e <= 104.
Proof.
  unfold classify32. rewrite land_255, land_low by lia.
  pose proof (Z.mod_pos_bound (Z.shiftr bits 23) (2 ^ 8) ltac:(lia)) as H1. pose proof (Z.mod_pos_bound bits (2 ^ 23) ltac:(lia)) as H2.
  revert H1 H2. generalize (Z.shiftr bits 23 mod 2 ^ 8) (bits mod 2 ^ 23). intros x y H1 H2.
  destruct (Z.eqb_spec x 255); [by case_if|]. destruct (Z.eqb_spec x 0); intros [= <- <- <-]; lia.
Qed.

Lemma quiet_mantissa m : 0 <= m < 2 ^ 23 -> 0 < Z.lor (Z.shiftl m 29) (2 ^ 51) < 2 ^ 52.
Proof.
  intros Hm. assert (Hs : 0 <= Z.shiftl m 29 < 2 ^ 52) by (rewrite Z.shiftl_mul_pow2 by lia; lia).
  assert (0 <= Z.lor (Z.shiftl m 29) (2 ^ 51)) by (apply Z.lor_nonneg; lia).
  assert (Z.lor (Z.shiftl m 29) (2 ^ 51) <> 0) by (rewrite Z.lor_eq_0_iff; lia).
  split; [lia|]. apply Z.log2_lt_pow2; [lia|]. rewrite Z.log2_lor by lia. apply Z.max_lub_lt; [|done].
  destruct (Z.eq_dec (Z.shiftl m 29) 0) as [->|]; [done|]. apply Z.log2_lt_pow2; lia.
Qed.

(** [float64(v)] is the number [v] is. *)
Lemma widen32_exact bits : same_float (classify32 bits) (classify (widen32 bits)).
Proof.
  unfold widen32. destruct (classify32 bits) as [|neg|neg m e] eqn:Ec.
  - pose proof (Z.mod_pos_bound bits (2 ^ 23) ltac:(lia)) as Hm. rewrite <-land_low in Hm by lia.
    pose proof (quiet_mantissa _ Hm). rewrite classify_assemble by lia. simpl (2047 =? 2047). cbv iota.
    by destruct (Z.eqb_spec (Z.lor (Z.shiftl (Z.land bits (2 ^ 23 - 1)) 29) (2 ^ 51)) 0); [lia|].
  - by rewrite classify_assemble by lia.
  - destruct (classify32_range _ _ _ _ Ec) as [Hm He].
    destruct (Z.eqb_spec m 0) as [->|Hz]; [by rewrite classify_assemble by lia|].
    pose proof (Z.log2_spec m ltac:(lia)) as [Hl Hu]. pose proof (Z.log2_nonneg m) as H0.
    assert (Hk : Z.log2 m < 24) by (apply Z.log2_lt_pow2; lia). set (k := Z.log2 m) in *. cbv zeta.
    rewrite Z.shiftl_mul_pow2 by lia.
    assert (Hp : 2 ^ 52 = 2 ^ k * 2 ^ (52 - k)) by (rewrite <-Z.pow_add_r by lia; f_equal; lia).
    assert (Hpos : 0 < 2 ^ (52 - k)) by (apply Z.pow_pos_nonneg; lia). rewrite Z.pow_succ_r in Hu by lia.
    rewrite classify_assemble by nia. destruct (Z.eqb_spec (e + k + 1023) 2047); [lia|]. destruct (Z.eqb_spec (e + k + 1023) 0); [lia|].
    split; [done|]. rewrite Z.sub_add, <-Z.mul_assoc, <-Z.pow_add_r by lia. do 2 f_equal. lia.
Qed.
End Widen.

(** ** Dynamic values

    [GoVal] is an [any]: the dynamic types the logger distinguishes by type
    switch, and [VOther] for every other (user-defined) type. An [error] is
    identified with its message. *)
Module Dyn.
Import GoTime.

Definition error := string.

Inductive GoVal :=
| VNil
| VString (s : string)
| VBool (b : bool)
| VInt (n : Z)
| VInt64 (n : Z)
| VUint64 (n : Z)
| VFloat64 (bits : Z)
| VDuration (d : Z)
| VTime (t : Time)
| VError (e : error)
| VStringer (s : string)
| VOther (id : Z).

Record Frame := mkFrame { fr_File : string; fr_Line : Z; fr_Function : string }.

(** What the process provides: the local zone's offset at a Unix second, other
    time layouts and [Time.String], reflection on user values ([fmt.Sprint],
    [json.Marshal]), the frame table of the binary, the Unicode parts of
    [strings.ToLower], [strings.TrimSpace] and [strconv.Quote]. *)
Class GoEnv := {
  local_offset : Z -> Z;
  format_layout : string -> Time -> string;
  time_String : Time -> string;
  reflect_Sprint : Z -> string;
  json_Marshal : Z -> string + error;
  caller_frame : Z -> Frame;
  unicode_ToLower : string -> string;
  unicode_TrimSpace : string -> string;
  unicode_Quote : string -> string
}.

Section WithEnv.
Context {env : GoEnv}.

Definition zone_offset (t : Time) : Z :=
  match t_loc t with
  | UTC => 0
  | Local => local_offset (t_ns t / 10 ^ 9)
  | Fixed off => off
  end.

(** [t.AppendFormat(_, time.RFC3339Nano)]. *)
Definition FormatRFC3339Nano (t : Time) : string := format_rfc3339nano (zone_offset t) (t_ns t).

(** [t.AppendFormat(_, layout)]; the layouts the repository itself names are computed. *)
Definition Format (layout : string) (t : Time) : string :=
  if String.eqb layout "15:04:05.000" then format_clock_ms (zone_offset t) (t_ns t)
  else if String.eqb layout "20060102T150405.000" then format_compact_ms (zone_offset t) (t_ns t)
  else format_layout layout t.

(** [fmt.Sprint(v)]. *)
Definition Sprint (v : GoVal) : string :=
  match v with
  | VNil => "<nil>"
  | VString s => s
  | VBool b => Strconv.AppendBool b
  | VInt n | VInt64 n => Strconv.FormatInt n
  | VUint64 n => Strconv.FormatUint n
  | VFloat64 b => GoFloat.FormatFloat b
  | VDuration d => Duration_String d
  | VTime t => time_String t
  | VError e => e
  | VStringer s => s
  | VOther id => reflect_Sprint id
  end.

(** [strings.ToLower] and [strings.TrimSpace]: ASCII computed, the rest by the
    Unicode tables. *)
Definition ToLower (s : string) : string :=
  if str_forall Strings.is_ascii_byte s then Strings.str_map Strings.lower_byte s else unicode_ToLower s.
Definition TrimSpace (s : string) : string :=
  if str_forall Strings.is_ascii_byte s
  then Strings.trim_right Strings.is_space_byte (Strings.trim_left Strings.is_space_byte s)
  else unicode_TrimSpace s.

(** [strconv.Quote]: Go escapes for ASCII. *)
Definition hex_lower (n : Z) : ascii := if n <? 10 then byte_chr (48 + n) else byte_chr (87 + n).
Definition go_escape (c : ascii) : string :=
  let v := byte_val c in
  if Ascii.eqb c QUOTE || Ascii.eqb c BSLASH then String BSLASH (str1 c)
  else if (32 <=? v) && (v <? 127) then str1 c
  else if v =? 7 then String BSLASH "a"
  else if v =? 8 then String BSLASH "b"
  else if v =? 9 then String BSLASH "t"
  else if v =? 10 then String BSLASH "n"
  else if v =? 11 then String BSLASH "v"
  else if v =? 12 then String BSLASH "f"
  else if v =? 13 then String BSLASH "r"
  else String BSLASH (String "x" (String (hex_lower (v / 16)) (str1 (hex_lower (v mod 16))))).
Fixpoint go_escape_all (s : string) : string :=
  match s with EmptyString => "" | String c s' => go_escape c +:+ go_escape_all s' end.
Definition Quote (s : string) : string :=
  if str_forall Strings.is_ascii_byte s then String QUOTE (go_escape_all s +:+ str1 QUOTE)
  else unicode_Quote s.

Lemma FormatRFC3339Nano_tok t : Token.is_tok (FormatRFC3339Nano t).
Proof. apply Token.rfc3339_tok. Qed.
End WithEnv.

(** A concrete process, for evaluation: UTC, no frames, opaque values printed
    by their number. *)
Definition demo_env : GoEnv := {|
  local_offset := fun _ => 0;
  format_layout := fun _ t => format_rfc3339nano 0 (t_ns t);
  time_String := fun t => format_rfc3339nano 0 (t_ns t);
  reflect_Sprint := Strconv.FormatInt;
  json_Marshal := fun id => inl (Strconv.FormatInt id);
  caller_frame := fun pc => if pc =? 7 then mkFrame "/src/app/main.go" 42 "main.main" else mkFrame "" 0 "";
  unicode_ToLower := fun s => s;
  unicode_TrimSpace := fun s => s;
  unicode_Quote := fun s => s
|}.
End Dyn.

Export Dyn.
#[export] Hint Resolve Token.FormatInt_tok Token.FormatFloat_tok Token.AppendBool_tok Token.is_tok_app
  Token.rfc3339_tok Token.FormatUint_tok Dyn.FormatRFC3339Nano_tok : golog.
