(* ===== verification/Sha256.v ===== *)
(** * SHA-256 and hexadecimal text (crypto/sha256, encoding/hex)

    FIPS 180-4, as the audit chain and the hashing redaction strategy use it. *)
From S2P Require Import Prelude GoStd.
Local Open Scope Z_scope.

Definition w32 (z : Z) : Z := z mod 2 ^ 32.
Definition rotr (n x : Z) : Z := Z.lor (Z.shiftr x n) (w32 (Z.shiftl x (32 - n))).
Definition ch (x y z : Z) : Z := Z.lxor (Z.land x y) (Z.land (Z.lxor x (2 ^ 32 - 1)) z).
Definition maj (x y z : Z) : Z := Z.lxor (Z.lxor (Z.land x y) (Z.land x z)) (Z.land y z).
Definition bsig0 (x : Z) : Z := Z.lxor (Z.lxor (rotr 2 x) (rotr 13 x)) (rotr 22 x).
Definition bsig1 (x : Z) : Z := Z.lxor (Z.lxor (rotr 6 x) (rotr 11 x)) (rotr 25 x).
Definition ssig0 (x : Z) : Z := Z.lxor (Z.lxor (rotr 7 x) (rotr 18 x)) (Z.shiftr x 3).
Definition ssig1 (x : Z) : Z := Z.lxor (Z.lxor (rotr 17 x) (rotr 19 x)) (Z.shiftr x 10).

(** The constants are the first 32 bits of the fractional parts of the cube roots
    (rounds) and square roots (initial state) of the first primes; the test vectors
    below check them. *)
Definition is_prime (p : Z) : bool := forallb (fun d => negb (p mod d =? 0)) (seqZ 2 (p - 2)).
Definition primes_below (n : Z) : list Z := filter (fun p => is_prime p = true) (seqZ 2 (n - 2)).

(** The integer cube root of [x], by bisection over [bits] bits. *)
Fixpoint cube_root (bits : nat) (x acc : Z) : Z :=
  match bits with
  | O => acc
  | S b => let y := acc + 2 ^ Z.of_nat b in cube_root b x (if y * y * y <=? x then y else acc)
  end.
Definition K256 : list Z := Eval vm_compute in map (fun p => w32 (cube_root 40 (p * 2 ^ 96) 0)) (primes_below 312).
Definition H0_256 : list Z := Eval vm_compute in map (fun p => w32 (Z.sqrt (p * 2 ^ 64))) (primes_below 20).

(** Padding: a one bit, zeros, the bit length in eight bytes. *)
Fixpoint be_bytes (n : nat) (z : Z) : list Z :=
  match n with O => [] | S n' => Z.shiftr z (8 * Z.of_nat n') mod 256 :: be_bytes n' z end.
Definition padding (len : Z) : list Z :=
  128 :: replicate (Z.to_nat ((55 - len) mod 64)) 0 ++ be_bytes 8 (8 * len).

Fixpoint string_bytes (s : string) : list Z :=
  match s with EmptyString => [] | String c s' => byte_val c :: string_bytes s' end.

Fixpoint words (bs : list Z) : list Z :=
  match bs with
  | a :: b :: c :: d :: bs' => Z.lor (Z.lor (Z.shiftl a 24) (Z.shiftl b 16)) (Z.lor (Z.shiftl c 8) d) :: words bs'
  | _ => []
  end.

(** Message schedule, newest word first. *)
Fixpoint schedule (n : nat) (w : list Z) : list Z :=
  match n with
  | O => w
  | S n' =>
      let g i := nth i w 0 in
      schedule n' (w32 (ssig1 (g 1%nat) + g 6%nat + ssig0 (g 14%nat) + g 15%nat) :: w)
  end.

Definition round (st : list Z) (kw : Z * Z) : list Z :=
  match st with
  | [a; b; c; d; e; f; g; h] =>
      let t1 := h + bsig1 e + ch e f g + kw.1 + kw.2 in
      let t2 := bsig0 a + maj a b c in
      [w32 (t1 + t2); a; b; c; w32 (d + t1); e; f; g]
  | _ => st
  end.

Definition compress (hs block : list Z) : list Z :=
  let w := rev (schedule 48 (rev block)) in
  zip_with (fun x y => w32 (x + y)) hs (fold_left round (zip K256 w) hs).

Fixpoint blocks (n : nat) (ws hs : list Z) : list Z :=
  match n with
  | O => hs
  | S n' => blocks n' (drop 16 ws) (compress hs (take 16 ws))
  end.

Definition sha256_words (msg : string) : list Z :=
  let bs := string_bytes msg in
  let ws := words (bs ++ padding (Z.of_nat (length bs))) in
  blocks (length ws / 16) ws H0_256.

(** [encoding/hex]: two lower-case digits per byte. *)
Definition hex_byte (b : Z) : string := String (hex_lower (b / 16)) (str1 (hex_lower (b mod 16))).
Fixpoint hex_encode (bs : list Z) : string :=
  match bs with [] => "" | b :: bs' => hex_byte b +:+ hex_encode bs' end.

(** The 32 digest bytes: [sha256.Sum256]. *)
Definition Sum256 (msg : string) : list Z :=
  flat_map (be_bytes 4) (sha256_words msg).

Definition hex_sum (msg : string) : string := hex_encode (Sum256 msg).

Example sha256_empty :
  hex_sum "" = "e3b0c44298fc1c149afbf4c8996fb92427ae41e4649b934ca495991b7852b855".
Proof. vm_compute. reflexivity. Qed.
Example sha256_abc :
  hex_sum "abc" = "ba7816bf8f01cfea414140de5dae2223b00361a396177a9cb410ff61f20015ad".
Proof. vm_compute. reflexivity. Qed.
Example sha256_two_blocks :
  hex_sum "abcdbcdecdefdefgefghfghighijhijkijkljklmklmnlmnomnopnopq" =
  "248d6a61d20638b8e5c026930c3e6039a33ce45964ff2167f6ecedd419db06c1".
Proof. vm_compute. reflexivity. Qed.

(** ** Shape of the digest *)
Lemma length_round st kw : length st = 8%nat -> length (round st kw) = 8%nat.
Proof. intros H. do 9 (destruct st as [|? st]; try done). Qed.

Lemma length_rounds kws st : length st = 8%nat -> length (fold_left round kws st) = 8%nat.
Proof. revert st. induction kws; intros; [done|]. simpl. auto using length_round. Qed.

Lemma length_blocks n ws hs : length hs = 8%nat -> length (blocks n ws hs) = 8%nat.
Proof.
  revert ws hs. induction n as [|n IH]; intros ws hs H; [done|]. simpl. apply IH.
  unfold compress. rewrite length_zip_with, length_rounds by done. lia.
Qed.

Lemma length_be_bytes n z : length (be_bytes n z) = n.
Proof. induction n; simpl; auto. Qed.

Lemma be_bytes_range n z : Forall (fun b => 0 <= b < 256) (be_bytes n z).
Proof. induction n; constructor; [apply Z.mod_pos_bound; lia|done]. Qed.

Lemma length_Sum256 msg : length (Sum256 msg) = 32%nat.
Proof.
  unfold Sum256, sha256_words.
  assert (forall ws, length (flat_map (be_bytes 4) ws) = (4 * length ws)%nat) as ->.
  { induction ws; [done|]. cbn [flat_map length]. rewrite length_app, length_be_bytes, IHws. lia. }
  by rewrite length_blocks.
Qed.

Lemma Sum256_range msg : Forall (fun b => 0 <= b < 256) (Sum256 msg).
Proof.
  unfold Sum256. induction (sha256_words msg); [constructor|]. cbn [flat_map].
  apply Forall_app. split; [apply be_bytes_range|done].
Qed.

Lemma length_hex_encode bs : String.length (hex_encode bs) = (2 * length bs)%nat.
Proof. induction bs; [done|]. cbn [hex_encode length]. rewrite slength_app, IHbs. simpl. lia. Qed.

Lemma length_hex_sum msg : String.length (hex_sum msg) = 64%nat.
Proof. unfold hex_sum. by rewrite length_hex_encode, length_Sum256. Qed.

(** Hexadecimal digits are token bytes: no space, no newline. *)
Lemma hex_lower_tok n : 0 <= n < 16 -> Token.tok_byte (hex_lower n) = true.
Proof.
  intros. assert (n ∈ seqZ 0 16) as Hin by (apply elem_of_seqZ; lia).
  revert n H Hin. change (seqZ 0 16) with [0;1;2;3;4;5;6;7;8;9;10;11;12;13;14;15].
  intros n _ Hin. repeat (apply elem_of_cons in Hin as [->|Hin]; [reflexivity|]). by apply elem_of_nil in Hin.
Qed.

Lemma hex_encode_tok bs : Forall (fun b => 0 <= b < 256) bs -> Token.is_tok (hex_encode bs).
Proof.
  induction 1 as [|b bs Hb _ IH]; [done|]. simpl.
  apply Token.is_tok_cons; [apply hex_lower_tok; split; [apply Z.div_pos; lia|apply Z.div_lt_upper_bound; lia]|].
  apply Token.is_tok_cons; [apply hex_lower_tok, Z.mod_pos_bound; lia|done].
Qed.

Lemma hex_sum_tok msg : Token.is_tok (hex_sum msg).
Proof. apply hex_encode_tok, Sum256_range. Qed.

#[global] Opaque Sum256.
