(* ===== verification/Level.v ===== *)
(** * Levels (level.go, atomic.go)

    A [Level] is a Go [int] carrying an OpenTelemetry severity number. *)
From S2P Require Import Prelude GoStd.
Local Open Scope Z_scope.

Abbreviation Level := Z (only parsing).

Definition LevelTrace : Level := 1.
Definition LevelDebug : Level := 5.
Definition LevelInfo : Level := 9.
Definition LevelWarn : Level := 13.
Definition LevelError : Level := 17.
Definition LevelFatal : Level := 21.

(** level.go [Level.String]. *)
Definition Level_String (l : Level) : string :=
  if l <=? 0 then "UNSPECIFIED"
  else if l <? LevelDebug then "TRACE"
  else if l <? LevelInfo then "DEBUG"
  else if l <? LevelWarn then "INFO"
  else if l <? LevelError then "WARN"
  else if l <? LevelFatal then "ERROR"
  else "FATAL".

Definition SeverityNumber (l : Level) : Z := l.

(** level.go [Level.lower]: the encoders' allocation-free variant. *)
Definition lower (l : Level) : string :=
  if l <=? 0 then "unspecified"
  else if l <? LevelDebug then "trace"
  else if l <? LevelInfo then "debug"
  else if l <? LevelWarn then "info"
  else if l <? LevelError then "warn"
  else if l <? LevelFatal then "error"
  else "fatal".

(** level.go [Level.MarshalText]: the byte loop over [l.String()]; the error it
    returns is always nil. *)
Fixpoint MarshalText_loop (s : string) : string :=
  match s with
  | EmptyString => ""
  | String c s' =>
      let c' := if (byte_val "A" <=? byte_val c) && (byte_val c <=? byte_val "Z")
                then byte_chr (byte_val c + (byte_val "a" - byte_val "A")) else c in
      String c' (MarshalText_loop s')
  end.
Definition MarshalText (l : Level) : string := MarshalText_loop (Level_String l).

Definition appendNumeric (l : Level) (b : string) : string := b +:+ Strconv.FormatInt l.

(** level.go [LevelVar]: an atomic cell; [staticLevel]: a constant. A [Leveler]
    is either; a [LevelVar] is reached through a pointer into the shared store of
    level variables. *)
Abbreviation LevelStore := (gmap Z Level).

Inductive Leveler :=
| staticLevel (l : Level)
| levelVar (ptr : Z).

Definition NewLevelVar (ptr : Z) (l : Level) (st : LevelStore) : LevelStore := <[ptr := l]> st.
Definition LevelVar_Level (ptr : Z) (st : LevelStore) : Level := default 0 (st !! ptr).
Definition LevelVar_Set (ptr : Z) (l : Level) (st : LevelStore) : LevelStore := <[ptr := l]> st.
Definition Leveler_Level (lv : Leveler) (st : LevelStore) : Level :=
  match lv with
  | staticLevel l => l
  | levelVar p => LevelVar_Level p st
  end.

(** The severity bands, as the header comment of level.go lists them:
    TRACE 1-4, DEBUG 5-8, INFO 9-12, WARN 13-16, ERROR 17-20, FATAL 21-24. *)
Inductive Band := BUnspecified | BTrace | BDebug | BInfo | BWarn | BError | BFatal.

#[export] Instance Band_eq_dec : EqDecision Band.
Proof. solve_decision. Defined.

Definition band_anchor (b : Band) : Level :=
  match b with
  | BUnspecified => 0 | BTrace => LevelTrace | BDebug => LevelDebug | BInfo => LevelInfo
  | BWarn => LevelWarn | BError => LevelError | BFatal => LevelFatal
  end.

Definition band_name (b : Band) : string :=
  match b with
  | BUnspecified => "UNSPECIFIED" | BTrace => "TRACE" | BDebug => "DEBUG" | BInfo => "INFO"
  | BWarn => "WARN" | BError => "ERROR" | BFatal => "FATAL"
  end.

(** Band of a level by its severity number: four levels per band. *)
Definition band_of (l : Level) : Band :=
  if l <=? 0 then BUnspecified
  else match (l - 1) / 4 with
       | 0 => BTrace | 1 => BDebug | 2 => BInfo | 3 => BWarn | 4 => BError | _ => BFatal
       end.

Ltac pick_band := first [ split; [lia|reflexivity] | left; split; [lia|reflexivity] | right; pick_band ].

Lemma band_of_cases l :
  (l <= 0 /\ band_of l = BUnspecified) \/ (1 <= l <= 4 /\ band_of l = BTrace) \/
  (5 <= l <= 8 /\ band_of l = BDebug) \/ (9 <= l <= 12 /\ band_of l = BInfo) \/
  (13 <= l <= 16 /\ band_of l = BWarn) \/ (17 <= l <= 20 /\ band_of l = BError) \/
  (21 <= l /\ band_of l = BFatal).
Proof.
  unfold band_of. destruct (Z.leb_spec l 0); [pick_band|].
  pose proof (Z.div_mod (l - 1) 4 ltac:(lia)). pose proof (Z.mod_pos_bound (l - 1) 4 ltac:(lia)).
  set (q := (l - 1) / 4) in *. clearbody q.
  assert (q = 0 \/ q = 1 \/ q = 2 \/ q = 3 \/ q = 4 \/ 5 <= q) as [->|[->|[->|[->|[->|Hq]]]]] by lia.
  1-5: pick_band.
  destruct q as [|[[]|[[]|[]|]|]|]; pick_band.
Qed.

(** Case analysis on the band of a level, deciding every comparison of the
    code's switch. *)
Ltac level_cases l :=
  let H := fresh in
  destruct (band_of_cases l) as [[? H]|[[? H]|[[? H]|[[? H]|[[? H]|[[? H]|[? H]]]]]]];
  rewrite ?H in *; clear H;
  unfold Level_String, lower, LevelTrace, LevelDebug, LevelInfo, LevelWarn, LevelError, LevelFatal in *;
  repeat match goal with
  | |- context [?a <=? ?b] => first [ replace (a <=? b) with true by lia | replace (a <=? b) with false by lia ]
  | |- context [?a <? ?b] => first [ replace (a <? b) with true by lia | replace (a <? b) with false by lia ]
  end.

Lemma Level_String_band l : Level_String l = band_name (band_of l).
Proof. level_cases l; reflexivity. Qed.

Lemma lower_band l : lower l = MarshalText_loop (band_name (band_of l)).
Proof. level_cases l; reflexivity. Qed.

Lemma lower_length l : (4 <= String.length (lower l) <= 11)%nat.
Proof. level_cases l; simpl; lia. Qed.

Lemma lower_tok l : Token.is_tok (lower l).
Proof. level_cases l; reflexivity. Qed.

#[export] Hint Resolve lower_tok : golog.

(** Level names are consistent: [String] names the OpenTelemetry band of the
    severity number (four numbers per band, everything from 21 up FATAL, zero and
    below UNSPECIFIED), and the allocation-free [lower] the encoders use returns
    byte for byte what [MarshalText] computes for every level. *)
Theorem level_names_consistent l :
  Level_String l = band_name (band_of l) /\ lower l = MarshalText l.
Proof. unfold MarshalText. rewrite lower_band, Level_String_band. done. Qed.
