(* ===== verification/Field.v ===== *)
(** * Fields (field.go, math.go)

    A [Field] keeps its scalar in one unboxed 64-bit word ([num]), its string in
    [str] and everything else in [any], tagged by [kind]. *)
From S2P Require Import Prelude GoStd Level.
Import GoTime.
Local Open Scope Z_scope.

Inductive kind :=
| kindAny | kindString | kindInt64 | kindUint64 | kindFloat64
| kindBool | kindDuration | kindTime | kindError.

#[export] Instance kind_eq_dec : EqDecision kind.
Proof. solve_decision. Defined.

Record Field := mkField {
  Key : string;
  knd : kind;
  num : Z;        (* uint64 *)
  str : string;
  fany : GoVal    (* any *)
}.

(** The instances of the [integer] constraint: signedness and width. *)
Record IntType := mkIntType { it_signed : bool; it_bits : Z }.
Definition int_ : IntType := mkIntType true 64.
Definition int64_ : IntType := mkIntType true 64.
Definition uint64_ : IntType := mkIntType false 64.
Definition uint8_ : IntType := mkIntType false 8.
Definition int8_ : IntType := mkIntType true 8.

Definition wrap (T : IntType) (z : Z) : Z :=
  if it_signed T then (z + 2 ^ (it_bits T - 1)) mod 2 ^ it_bits T - 2 ^ (it_bits T - 1)
  else z mod 2 ^ it_bits T.
Definition in_type (T : IntType) (z : Z) : Prop := wrap T z = z.
Definition is_integer (T : IntType) : Prop := 1 <= it_bits T <= 64.

(** The instances of the [float] constraint, values given by their IEEE bits at the
    type's width, and the conversion [float64(v)]. *)
Inductive FloatType := F32 | F64.
Definition to_float64 (T : FloatType) (v : Z) : Z := match T with F32 => GoFloat.widen32 v | F64 => v end.
Definition float_number (T : FloatType) (v : Z) : GoFloat.float_class :=
  match T with F32 => GoFloat.classify32 v | F64 => GoFloat.classify v end.

(** math.go: a float64 is given by its bits here, so both casts are the identity. *)
Definition float64bits (f : Z) : Z := f.
Definition float64frombits (b : Z) : Z := b.

Definition FString (key val : string) : Field := mkField key kindString 0 val VNil.

(** field.go [Int]: the test [T(0)-1 < T(0)] selects the signed kinds. *)
Definition FInt (T : IntType) (key : string) (v : Z) : Field :=
  if wrap T (0 - 1) <? 0 then mkField key kindInt64 (u64 (i64 v)) "" VNil
  else mkField key kindUint64 (u64 v) "" VNil.

Definition FFloat (T : FloatType) (key : string) (v : Z) : Field := mkField key kindFloat64 (float64bits (to_float64 T v)) "" VNil.
Definition FBool (key : string) (v : bool) : Field := mkField key kindBool (if v then 1 else 0) "" VNil.
Definition FDur (key : string) (d : Z) : Field := mkField key kindDuration (u64 d) "" VNil.
Definition FTime (key : string) (t : Time) : Field := mkField key kindTime (u64 (UnixNano t)) "" VNil.

(** An [error] argument: nil or an error value. *)
Definition box_error (e : option error) : GoVal := match e with Some m => VError m | None => VNil end.
Definition FErr (e : option error) : Field := mkField "error" kindError 0 "" (box_error e).
Definition FNamedErr (key : string) (e : option error) : Field := mkField key kindError 0 "" (box_error e).
Definition FAny (key : string) (v : GoVal) : Field := mkField key kindAny 0 "" v.

(** field.go accessors. *)
Definition f_string (f : Field) : string := str f.
Definition f_int64 (f : Field) : Z := i64 (num f).
Definition f_uint64 (f : Field) : Z := num f.
Definition f_float64 (f : Field) : Z := float64frombits (num f).
Definition f_bool (f : Field) : bool := negb (num f =? 0).
Definition f_duration (f : Field) : Z := i64 (num f).
Definition f_time (f : Field) : Time := Unix0 (i64 (num f)).
Definition errVal (f : Field) : option error := match fany f with VError e => Some e | _ => None end.

(** field.go [Field.Value]. *)
Definition Value (f : Field) : GoVal :=
  match knd f with
  | kindString => VString (str f)
  | kindInt64 => VInt64 (i64 (num f))
  | kindUint64 => VUint64 (num f)
  | kindFloat64 => VFloat64 (float64frombits (num f))
  | kindBool => VBool (negb (num f =? 0))
  | kindDuration => VDuration (i64 (num f))
  | kindTime => VTime (Unix0 (i64 (num f)))
  | kindError => box_error (errVal f)
  | kindAny => fany f
  end.

Lemma signed_test T : is_integer T -> (wrap T (0 - 1) <? 0) = it_signed T.
Proof.
  intros [H1 H2]. unfold wrap. destruct (it_signed T).
  - assert (Hp : 0 < 2 ^ (it_bits T - 1)) by (apply Z.pow_pos_nonneg; lia).
    replace (2 ^ it_bits T) with (2 * 2 ^ (it_bits T - 1))
      by (rewrite <-Z.pow_succ_r by lia; f_equal; lia).
    rewrite Z.mod_small by lia. lia.
  - assert (Hp : 2 ^ 1 <= 2 ^ it_bits T) by (apply Z.pow_le_mono_r; lia).
    replace (0 - 1) with (-1) by lia. rewrite (Z.mod_opp_l_nz 1) by (rewrite ?Z.mod_small; lia).
    rewrite Z.mod_small by lia. lia.
Qed.

Lemma in_type_range T v : is_integer T -> in_type T v ->
  if it_signed T then is_i64 v else is_u64 v.
Proof.
  unfold in_type, wrap, is_i64, is_u64. intros [H1 H2] Hv.
  assert (Hb : 0 < 2 ^ it_bits T) by (apply Z.pow_pos_nonneg; lia).
  assert (Hle : 2 ^ it_bits T <= 2 ^ 64) by (apply Z.pow_le_mono_r; lia).
  assert (Hle' : 2 ^ (it_bits T - 1) <= 2 ^ 63) by (apply Z.pow_le_mono_r; lia).
  assert (Hd : 2 ^ it_bits T = 2 * 2 ^ (it_bits T - 1))
    by (rewrite <-Z.pow_succ_r by lia; f_equal; lia).
  destruct (it_signed T).
  - pose proof (Z.mod_pos_bound (v + 2 ^ (it_bits T - 1)) (2 ^ it_bits T) Hb). lia.
  - pose proof (Z.mod_pos_bound v (2 ^ it_bits T) Hb). lia.
Qed.

Lemma Value_FInt T k v : is_integer T -> in_type T v ->
  Value (FInt T k v) = if it_signed T then VInt64 v else VUint64 v.
Proof.
  intros HT Hv. pose proof (in_type_range T v HT Hv) as Hr.
  unfold FInt. rewrite signed_test by done. destruct (it_signed T); unfold Value; simpl.
  - by rewrite i64_u64, !i64_small by auto with golog.
  - by rewrite u64_small.
Qed.

Lemma Value_FDur k d : is_i64 d -> Value (FDur k d) = VDuration d.
Proof. intros. unfold Value. simpl. by rewrite i64_u64_id. Qed.

Lemma Value_FTime k t : is_i64 (t_ns t) -> Value (FTime k t) = VTime (mkTime (t_ns t) Local).
Proof.
  intros. unfold Value. simpl. unfold UnixNano, Unix0. by rewrite i64_u64, !i64_small by auto with golog.
Qed.

Lemma Value_FErr k e : Value (FNamedErr k e) = box_error e.
Proof. by destruct e. Qed.

Lemma same_float_refl c : GoFloat.same_float c c.
Proof. by destruct c. Qed.

Lemma Value_FFloat T k x :
  exists w, Value (FFloat T k x) = VFloat64 w /\ GoFloat.same_float (float_number T x) (GoFloat.classify w) /\ (T = F64 -> w = x).
Proof.
  exists (to_float64 T x). split; [done|]. destruct T; cbn [to_float64 float_number].
  - split; [apply Widen.widen32_exact|done].
  - split; [apply same_float_refl|done].
Qed.

(** C39. The unboxed storage loses nothing: for every integer type [T] of Go (any
    width up to 64 bits, signed or unsigned) and every value of it, [Value] of the
    field [Int] builds is that integer, as [int64] for a signed and [uint64] for an
    unsigned type; a [float32] comes back as the [float64] that is the same number (sign,
    zeros, subnormals and infinities included, a NaN as a NaN) and a [float64] bit for
    bit; a duration comes back unchanged; a time within the range of [UnixNano] comes back
    as the same instant, in the local zone whatever zone it had; and booleans, strings,
    errors (nil included) and [Any] values come back as they were given. *)
Theorem field_value_roundtrip T v FT x d t b s e a k :
  is_integer T -> in_type T v -> is_i64 d -> is_i64 (t_ns t) ->
  Value (FInt T k v) = (if it_signed T then VInt64 v else VUint64 v) /\
  (exists w, Value (FFloat FT k x) = VFloat64 w /\
     GoFloat.same_float (float_number FT x) (GoFloat.classify w) /\ (FT = F64 -> w = x)) /\
  Value (FDur k d) = VDuration d /\
  Value (FTime k t) = VTime (mkTime (t_ns t) Local) /\
  Value (FBool k b) = VBool b /\ Value (FString k s) = VString s /\
  Value (FNamedErr k e) = box_error e /\ Value (FErr e) = box_error e /\ Value (FAny k a) = a.
Proof.
  intros. split_and!; auto using Value_FInt, Value_FFloat, Value_FDur, Value_FTime, Value_FErr.
  - by destruct b.
  - apply (Value_FErr "error").
Qed.

(** The float32 nearest to 0.1 is not the float64 nearest to it. *)
Lemma field_value_roundtrip_witness :
  Value (FInt int8_ "k" (-128)) = VInt64 (-128) /\ Value (FDur "k" (-5)) = VDuration (-5) /\
  (exists w, Value (FFloat F32 "k" 1036831949) = VFloat64 w /\
     GoFloat.same_float (float_number F32 1036831949) (GoFloat.classify w)) /\
  Value (FFloat F32 "k" 1036831949) <> VFloat64 GoFloat.f64_0_1.
Proof.
  destruct (field_value_roundtrip int8_ (-128) F32 1036831949 (-5) (mkTime 7 UTC) true "s" None VNil "k")
    as (H1 & (w & H2 & H3 & _) & H4 & _); [unfold is_integer; simpl; lia|reflexivity|unfold is_i64; lia|unfold is_i64; simpl; lia|].
  split; [exact H1|]. split; [exact H4|]. split; [exists w; split; [exact H2|exact H3]|].
  vm_compute. discriminate.
Defined.
