(* ===== verification/Record.v ===== *)
(** * Records, contexts and the record pool (record.go, caller.go, and the
    context keys of enrich.go, span.go and fingerscrossed.go)

    Records are pooled in the source; the pool is modelled explicitly so that what
    one log call leaves behind can be compared with what the next one sees.  The
    objects a context points to (span state, FingersCrossed buffers) live in a
    shared [Heap]. *)
From S2P Require Import Prelude GoStd Level Field.
Import GoTime.
Local Open Scope Z_scope.

(** ** Contexts: a chain of key/value bindings, innermost first. *)
Inductive CtxVal :=
| CFields (fs : list Field)      (* ctxFieldsKey{} -> []Field *)
| CSpan (ptr : Z)                (* spanKey{} -> *spanState *)
| CFC (ptr : Z)                  (* fcKey{} -> *fcBuffer *)
| COther (key val : Z).          (* any key the logger does not look up *)

Abbreviation Context := (list CtxVal) (only parsing).
Definition Background : Context := [].

Fixpoint ctx_fields (c : Context) : option (list Field) :=
  match c with [] => None | CFields fs :: _ => Some fs | _ :: c' => ctx_fields c' end.
Fixpoint ctx_span (c : Context) : option Z :=
  match c with [] => None | CSpan p :: _ => Some p | _ :: c' => ctx_span c' end.
Fixpoint ctx_fc (c : Context) : option Z :=
  match c with [] => None | CFC p :: _ => Some p | _ :: c' => ctx_fc c' end.

(** ** Records *)
Record LogRecord := mkRecord {
  r_Time : Time;
  r_Level : Level;
  r_Message : string;
  r_PC : Z;
  r_EventName : string;
  r_Fields : list Field;
  r_Ctx : option Context;       (* None is the nil context *)
  r_pooled : bool
}.

Definition set_Fields (fs : list Field) (r : LogRecord) : LogRecord :=
  mkRecord (r_Time r) (r_Level r) (r_Message r) (r_PC r) (r_EventName r) fs (r_Ctx r) (r_pooled r).
Definition set_pooled (b : bool) (r : LogRecord) : LogRecord :=
  mkRecord (r_Time r) (r_Level r) (r_Message r) (r_PC r) (r_EventName r) (r_Fields r) (r_Ctx r) b.

(** [&Record{}]. *)
Definition zero_record : LogRecord := mkRecord zero_time 0 "" 0 "" [] None false.

(** record.go [AddField], [reset], [Clone]. *)
Definition AddField (f : Field) (r : LogRecord) : LogRecord := set_Fields (r_Fields r ++ [f]) r.
Definition reset (r : LogRecord) : LogRecord := mkRecord zero_time 0 "" 0 "" [] None (r_pooled r).
Definition Clone (r : LogRecord) : LogRecord :=
  mkRecord (r_Time r) (r_Level r) (r_Message r) (r_PC r) (r_EventName r) (r_Fields r) (r_Ctx r) false.

(** record.go [recordPool], [newRecord], [release]. [sync.Pool.Get] may hand out any
    pooled item or call [New]: [pick] is its choice. *)
Abbreviation Pool := (list LogRecord).

Definition pool_get (pick : option nat) (p : Pool) : LogRecord * Pool :=
  match pick with
  | Some i => match p !! i with Some r => (r, delete i p) | None => (zero_record, p) end
  | None => (zero_record, p)
  end.
Definition newRecord (pick : option nat) (p : Pool) : LogRecord * Pool :=
  let '(r, p') := pool_get pick p in (set_pooled true r, p').
Definition release (r : LogRecord) (p : Pool) : Pool :=
  if negb (r_pooled r) then p else reset r :: p.

(** ** Shared objects *)
Record fcBuffer := mkFC {
  ring : list (option LogRecord);
  fc_start : nat;
  fc_count : nat;
  activated : bool;
  fc_cap : nat
}.
Record spanState := mkSpanState { ss_id : string; ss_path : string; ss_children : Z }.

Record Heap := mkHeap {
  h_fc : gmap Z fcBuffer;
  h_span : gmap Z spanState;
  h_lv : LevelStore;
  h_next : Z
}.
Definition empty_heap : Heap := mkHeap ∅ ∅ ∅ 1.
Definition set_fc (m : gmap Z fcBuffer) (h : Heap) : Heap := mkHeap m (h_span h) (h_lv h) (h_next h).
Definition set_span (m : gmap Z spanState) (h : Heap) : Heap := mkHeap (h_fc h) m (h_lv h) (h_next h).
Definition set_lv (m : LevelStore) (h : Heap) : Heap := mkHeap (h_fc h) (h_span h) m (h_next h).

(** ** Caller locations (caller.go) *)
Record Source := mkSource { src_File : string; src_Line : Z; src_Func : string }.

Definition trim_path (file : string) : string :=
  match Strings.LastIndexByte file "/" with
  | Some i =>
      match Strings.LastIndexByte (slice file 0 i) "/" with
      | Some j => str_drop (S j) file
      | None => str_drop (S i) file
      end
  | None => file
  end.

Definition source {env : GoEnv} (r : LogRecord) : option Source :=
  if r_PC r =? 0 then None
  else
    let f := caller_frame (r_PC r) in
    if String.eqb (fr_File f) "" then None
    else Some (mkSource (trim_path (fr_File f)) (fr_Line f) (fr_Function f)).

(** ** The pool as a transition system

    Between two log calls the pool changes by [Get], by [release] of a record that
    the pipeline may have rewritten in any way, and by the garbage collector
    dropping items. *)
Inductive pool_step : Pool -> Pool -> Prop :=
| ps_get pick p : pool_step p (newRecord pick p).2
| ps_release r p : pool_step p (release r p)
| ps_gc i p : pool_step p (delete i p).

Definition fresh_record : LogRecord := set_pooled true zero_record.
Definition pool_clean (p : Pool) : Prop := Forall (fun r => r = fresh_record) p.

Lemma release_clean r p : pool_clean p -> pool_clean (release r p).
Proof.
  intros Hp. unfold release. destruct (r_pooled r) eqn:E; simpl; [|done].
  constructor; [unfold reset; by rewrite E|done].
Qed.

Lemma delete_clean i p : pool_clean p -> pool_clean (delete i p).
Proof. apply Forall_delete. Qed.

Lemma newRecord_clean pick p :
  pool_clean p -> (newRecord pick p).1 = fresh_record /\ pool_clean (newRecord pick p).2.
Proof.
  intros Hp. unfold newRecord, pool_get. destruct pick as [i|]; [|done].
  destruct (p !! i) as [r|] eqn:E; simpl; [|done].
  split; [|by apply delete_clean].
  by rewrite (Forall_lookup_1 _ _ _ _ Hp E).
Qed.

Lemma pool_step_clean p p' : pool_step p p' -> pool_clean p -> pool_clean p'.
Proof.
  intros [] Hp; [by apply newRecord_clean|by apply release_clean|by apply delete_clean].
Qed.

Lemma pool_reach_clean p p' : rtc pool_step p p' -> pool_clean p -> pool_clean p'.
Proof. induction 1; eauto using pool_step_clean. Qed.

#[export] Hint Resolve release_clean delete_clean pool_step_clean : golog.

(** No record leaks into the next one: whatever sequence of log calls, pipeline
    rewrites, releases and garbage collections has happened since the pool was
    empty, [newRecord] hands out a record with no time, level, message, event name,
    caller, fields or context, whichever pooled item [sync.Pool] picks; and
    releasing a [Clone] (what the async workers do) never puts it in the pool. *)
Theorem pool_no_leak p pick r :
  rtc pool_step [] p ->
  (newRecord pick p).1 = fresh_record /\ release (Clone r) p = p.
Proof.
  intros Hr. split; [|done].
  apply newRecord_clean. apply (pool_reach_clean [] p Hr). constructor.
Qed.

Definition dirty_record : LogRecord :=
  mkRecord zero_time 9 "secret" 3 "ev" [FString "password" "x"] (Some [CFC 1]) true.

Lemma pool_no_leak_witness :
  (newRecord (Some 0%nat) (release dirty_record [])).1 = fresh_record /\ release (Clone dirty_record) [] = [].
Proof.
  split.
  - apply (pool_no_leak (release dirty_record []) (Some 0%nat) dirty_record).
    apply rtc_once. apply (ps_release dirty_record []).
  - apply (pool_no_leak [] None dirty_record). apply rtc_refl.
Defined.

Lemma LastIndexByte_None s c : Strings.LastIndexByte s c = None -> no_byte c s = true.
Proof.
  induction s as [|d s IH]; [done|]. simpl. destruct (Strings.LastIndexByte s c); [done|].
  unfold no_byte in *. simpl. destruct (Ascii.eqb d c); [done|]. simpl. auto.
Qed.

Lemma LastIndexByte_Some s c i :
  Strings.LastIndexByte s c = Some i -> no_byte c (str_drop (S i) s) = true /\ s = slice s 0 i +:+ String c (str_drop (S i) s).
Proof.
  revert i. induction s as [|d s IH]; [done|]. intros i. simpl.
  destruct (Strings.LastIndexByte s c) as [k|] eqn:E.
  - intros [= <-]. destruct (IH k eq_refl) as [H1 H2]. split; [done|].
    unfold slice in *. rewrite Nat.sub_0_r in *. simpl in *. rewrite sapp_cons. by rewrite <-H2.
  - destruct (Ascii.eqb d c) eqn:Ed; [|done]. intros [= <-].
    apply Ascii.eqb_eq in Ed as ->. split; [by apply LastIndexByte_None|done].
Qed.
