(* ===== verification/Buffer.v ===== *)
(** * The byte buffer and JSON string quoting (buffer.go) *)
From S2P Require Import Prelude GoStd.
Import GoTime Strconv.
Local Open Scope Z_scope.

(** The pooled byte builder: its contents. *)
Record buffer := mkBuffer { b_bytes : string }.

Definition append_bytes (b : buffer) (s : string) : buffer := mkBuffer (b_bytes b +:+ s).

Definition writeString (s : string) (b : buffer) : buffer := append_bytes b s.
Definition writeByte (c : ascii) (b : buffer) : buffer := append_bytes b (str1 c).
Definition writeInt (i : Z) (b : buffer) : buffer := append_bytes b (FormatInt i).
Definition writeUint (u : Z) (b : buffer) : buffer := append_bytes b (FormatUint u).
Definition writeFloat (bits : Z) (b : buffer) : buffer := append_bytes b (GoFloat.FormatFloat bits).
Definition writeBool (v : bool) (b : buffer) : buffer := append_bytes b (AppendBool v).
Definition writeTimeRFC3339 {env : GoEnv} (t : Time) (b : buffer) : buffer :=
  append_bytes b (FormatRFC3339Nano t).

(** The pool of buffers: [getBuffer]/[putBuffer]. A buffer returned to the pool is
    emptied; one whose capacity exceeds 64 KiB is dropped instead. *)
Definition getBuffer (pick : option nat) (p : list buffer) : buffer * list buffer :=
  match pick with
  | Some i => match p !! i with Some b => (b, delete i p) | None => (mkBuffer "", p) end
  | None => (mkBuffer "", p)
  end.
Definition putBuffer (capacity : Z) (b : buffer) (p : list buffer) : list buffer :=
  if capacity <=? Z.shiftl 64 10 then mkBuffer "" :: p else p.

Definition hexDigit (n : Z) : ascii :=
  if n <? 10 then byte_chr (byte_val "0" + n) else byte_chr (byte_val "a" + n - 10).

(** The switch inside the loop of [writeJSONString]. *)
Definition escape_byte (c : ascii) : string :=
  if Ascii.eqb c QUOTE then String BSLASH (str1 QUOTE)
  else if Ascii.eqb c BSLASH then String BSLASH (str1 BSLASH)
  else if Ascii.eqb c LF then String BSLASH "n"
  else if Ascii.eqb c CR then String BSLASH "r"
  else if Ascii.eqb c TAB then String BSLASH "t"
  else String BSLASH ("u00" +:+ String (hexDigit (Z.shiftr (byte_val c) 4))
                                  (str1 (hexDigit (Z.land (byte_val c) 15)))).

(** The bytes copied unchanged: at least 0x20, neither a quote nor a backslash. *)
Definition plain_byte (c : ascii) : bool :=
  (32 <=? byte_val c) && negb (Ascii.eqb c QUOTE) && negb (Ascii.eqb c BSLASH).

(** buffer.go [writeJSONString]: the loop [for i := 0; i < len(s); i++], which
    copies runs of plain bytes [s[start:i]] at once; [n] iterations remain. *)
Fixpoint writeJSONString_loop (s : string) (n i start : nat) (b : buffer) : buffer * nat :=
  match n with
  | O => (b, start)
  | S n' =>
      match String.get i s with
      | None => (b, start)
      | Some c =>
          if plain_byte c then writeJSONString_loop s n' (S i) start b
          else
            let b := append_bytes b (slice s start i) in
            let b := append_bytes b (escape_byte c) in
            writeJSONString_loop s n' (S i) (S i) b
      end
  end.

Definition writeJSONString (s : string) (b : buffer) : buffer :=
  let b := append_bytes b (str1 QUOTE) in
  let '(b, start) := writeJSONString_loop s (String.length s) 0 0 b in
  let b := append_bytes b (slice s start (String.length s)) in
  append_bytes b (str1 QUOTE).

(** ** Reference definition: quote byte by byte *)
Fixpoint escape (s : string) : string :=
  match s with
  | EmptyString => ""
  | String c s' => (if plain_byte c then str1 c else escape_byte c) +:+ escape s'
  end.
Definition quote (s : string) : string := String QUOTE (escape s +:+ str1 QUOTE).

(** A decoder of JSON strings: the body of a string literal up to its closing
    quote, and the rest of the input. It refuses raw control bytes. *)
Definition unhex (c : ascii) : option Z :=
  let v := byte_val c in
  if (48 <=? v) && (v <=? 57) then Some (v - 48)
  else if (97 <=? v) && (v <=? 102) then Some (v - 87)
  else None.

Fixpoint unquote_body (s : string) : option (string * string) :=
  match s with
  | EmptyString => None
  | String c s' =>
      if Ascii.eqb c QUOTE then Some ("", s')
      else if Ascii.eqb c BSLASH then
        match s' with
        | String e s2 =>
            let simple d := option_map (fun '(t, r) => (String d t, r)) (unquote_body s2) in
            if Ascii.eqb e QUOTE then simple QUOTE
            else if Ascii.eqb e BSLASH then simple BSLASH
            else if Ascii.eqb e "n" then simple LF
            else if Ascii.eqb e "r" then simple CR
            else if Ascii.eqb e "t" then simple TAB
            else if Ascii.eqb e "u" then
              match s2 with
              | String z1 (String z2 (String h1 (String h2 s3))) =>
                  if Ascii.eqb z1 "0" && Ascii.eqb z2 "0" then
                    match unhex h1, unhex h2 with
                    | Some a, Some d => option_map (fun '(t, r) => (String (byte_chr (16 * a + d)) t, r)) (unquote_body s3)
                    | _, _ => None
                    end
                  else None
              | _ => None
              end
            else None
        | EmptyString => None
        end
      else if byte_val c <? 32 then None
      else option_map (fun '(t, r) => (String c t, r)) (unquote_body s')
  end.

(** A JSON string literal at the head of [s]. *)
Definition unquote (s : string) : option (string * string) :=
  match s with
  | String c s' => if Ascii.eqb c QUOTE then unquote_body s' else None
  | EmptyString => None
  end.

(** ** The loop computes the reference *)
Lemma get_drop s i c : String.get i s = Some c -> str_drop i s = String c (str_drop (S i) s).
Proof.
  revert i. induction s as [|d s IH]; intros [|i]; simpl; try done.
  - by intros [= ->].
  - intros H. rewrite (IH _ H). by destruct s.
Qed.

Lemma slice_snoc s start i c :
  (start <= i)%nat -> String.get i s = Some c -> slice s start (S i) = slice s start i +:+ str1 c.
Proof.
  unfold slice. revert s i. induction start as [|k IH]; intros s i Hle Hg.
  - rewrite Nat.sub_0_r. clear Hle. revert i Hg.
    induction s as [|d s IHs]; intros [|i] Hg; simpl in *; try done.
    + injection Hg as ->. by destruct s.
    + rewrite IHs by done. by rewrite Nat.sub_0_r.
  - destruct i as [|i]; [lia|]. destruct s as [|d s]; [done|].
    apply IH; [lia|done].
Qed.

Lemma slice_empty s i : slice s i i = "".
Proof. unfold slice. rewrite Nat.sub_diag. by destruct (str_drop i s). Qed.

Lemma writeJSONString_loop_spec s n i start b :
  (i + n = String.length s)%nat -> (start <= i)%nat ->
  let '(b', st) := writeJSONString_loop s n i start b in
  b_bytes b' +:+ slice s st (String.length s) = b_bytes b +:+ slice s start i +:+ escape (str_drop i s).
Proof.
  revert i start b. induction n as [|n IH]; intros i start b Hn Hst; simpl.
  - replace i with (String.length s) by lia. by rewrite str_drop_all, sapp_nil_r.
  - destruct (String.get i s) as [c|] eqn:Hg.
    + rewrite (get_drop _ _ _ Hg). simpl. destruct (plain_byte c) eqn:Hp.
      * specialize (IH (S i) start b ltac:(lia) ltac:(lia)).
        destruct (writeJSONString_loop _ _ _ _ _) as [b' st].
        rewrite IH, (slice_snoc _ _ _ _ Hst Hg). by rewrite !sapp_assoc.
      * specialize (IH (S i) (S i) (append_bytes (append_bytes b (slice s start i)) (escape_byte c)) ltac:(lia) ltac:(lia)).
        destruct (writeJSONString_loop _ _ _ _ _) as [b' st].
        rewrite IH, slice_empty. simpl. by rewrite !sapp_assoc.
    + exfalso. revert Hg. assert (i < String.length s)%nat as Hlt by lia. clear -Hlt.
      revert i Hlt. induction s; intros [|i] H; simpl in *; try done; try lia. apply IHs. lia.
Qed.

Lemma writeJSONString_quote s b : writeJSONString s b = append_bytes b (quote s).
Proof.
  unfold writeJSONString.
  pose proof (writeJSONString_loop_spec s (String.length s) 0 0 (append_bytes b (str1 QUOTE)) eq_refl ltac:(lia)) as H.
  destruct (writeJSONString_loop _ _ _ _ _) as [b' st].
  unfold append_bytes in *. simpl in *. rewrite H, slice_empty. f_equal.
  unfold quote. by rewrite !sapp_assoc.
Qed.

(** ** The quoted text decodes to the original and contains no control byte *)
Ltac all_bytes c := destruct c as [[] [] [] [] [] [] [] []].

Lemma unquote_body_step c t :
  unquote_body ((if plain_byte c then str1 c else escape_byte c) +:+ t) =
  option_map (fun '(x, r) => (String c x, r)) (unquote_body t).
Proof. all_bytes c; reflexivity. Qed.

Lemma unquote_body_escape s rest :
  unquote_body (escape s +:+ String QUOTE rest) = Some (s, rest).
Proof.
  induction s as [|c s IH]; [done|].
  change (escape (String c s)) with ((if plain_byte c then str1 c else escape_byte c) +:+ escape s).
  rewrite sapp_assoc, unquote_body_step, IH. reflexivity.
Qed.

Lemma unquote_quote s rest : unquote (quote s +:+ rest) = Some (s, rest).
Proof.
  unfold quote, unquote. rewrite sapp_cons, Ascii.eqb_refl, sapp_assoc. apply unquote_body_escape.
Qed.

Definition printable (c : ascii) : bool := 32 <=? byte_val c.

Lemma escape_printable s : str_forall printable (escape s) = true.
Proof.
  induction s as [|c s IH]; [done|]. simpl. rewrite str_forall_app, IH, andb_true_r.
  all_bytes c; reflexivity.
Qed.

Lemma quote_printable s : str_forall printable (quote s) = true.
Proof. unfold quote. simpl. rewrite str_forall_app, escape_printable. reflexivity. Qed.

#[export] Hint Rewrite writeJSONString_quote : str.
#[export] Hint Resolve quote_printable : golog.

(** C25. [writeJSONString], which copies runs of plain bytes and patches the others,
    appends exactly the byte-by-byte quotation of [s]; that literal contains no
    control byte (so no newline), and decoding it, whatever follows it, gives [s]
    back and the rest untouched: no string can close its own quotes early. *)
Theorem writeJSONString_correct s b rest :
  b_bytes (writeJSONString s b) = b_bytes b +:+ quote s /\
  str_forall printable (quote s) = true /\
  unquote (quote s +:+ rest) = Some (s, rest).
Proof.
  rewrite writeJSONString_quote. auto using quote_printable, unquote_quote.
Qed.
