(* ===== verification/Encoder.v ===== *)
(** * Encoders (encoder.go, anyval.go, encoder_json.go, encoder_logfmt.go,
    encoder_console.go)

    Each encoder is its sequence of buffer writes, in the order of the source. *)
From S2P Require Import Prelude GoStd Level Field Record Buffer.
Import GoTime.
Local Open Scope Z_scope.
Local Open Scope go_scope.

(** encoder.go [Encoder]: the interface sinks use. *)
Record Encoder := mkEncoder {
  Encode : buffer -> LogRecord -> buffer;
  Enc_Name : string
}.

Definition or_default (s d : string) : string := if String.eqb s "" then d else s.

Section Encoders.
Context {env : GoEnv}.

(** anyval.go [appendAny]. *)
Definition write_text (jsonMode : bool) (s : string) (b : buffer) : buffer :=
  if jsonMode then writeJSONString s b else writeString s b.

Definition appendAny (b : buffer) (v : GoVal) (jsonMode : bool) : buffer :=
  match v with
  | VNil => writeString "null" b
  | VString x => write_text jsonMode x b
  | VBool x => writeBool x b
  | VInt x => writeInt x b
  | VInt64 x => writeInt x b
  | VUint64 x => writeUint x b
  | VFloat64 x => writeFloat x b
  | VError e => write_text jsonMode e b
  | VStringer s => write_text jsonMode s b
  | VDuration d => write_text jsonMode (Duration_String d) b
  | VTime t => write_text jsonMode (time_String t) b
  | VOther id =>
      if jsonMode then
        match json_Marshal id with
        | inr err => writeJSONString ("!ERR:" +:+ err) b
        | inl raw => append_bytes b raw
        end
      else append_bytes b (Quote (Sprint v))
  end.

(** encoder.go [appendFieldValue]. *)
Definition appendFieldValue (b : buffer) (f : Field) (jsonMode : bool) : buffer :=
  match knd f with
  | kindString => write_text jsonMode (f_string f) b
  | kindInt64 => writeInt (f_int64 f) b
  | kindUint64 => writeUint (f_uint64 f) b
  | kindFloat64 => writeFloat (f_float64 f) b
  | kindBool => writeBool (f_bool f) b
  | kindDuration => write_text jsonMode (Duration_String (f_duration f)) b
  | kindTime =>
      if jsonMode then b |> writeByte QUOTE |> writeTimeRFC3339 (f_time f) |> writeByte QUOTE
      else writeTimeRFC3339 (f_time f) b
  | kindError =>
      match errVal f with
      | Some s => write_text jsonMode s b
      | None => writeString "null" b
      end
  | kindAny => appendAny b (fany f) jsonMode
  end.

(** ** encoder_json.go *)
Record JSONEncoder := mkJSON { TimeKey : string; LevelKey : string; MsgKey : string; NumericLevel : bool }.
Definition NewJSONEncoder : JSONEncoder := mkJSON "time" "level" "msg" false.

Definition json_field (b : buffer) (f : Field) : buffer :=
  appendFieldValue (b |> writeByte "," |> writeJSONString (Key f) |> writeByte ":") f true.

Definition JSON_Encode (e : JSONEncoder) (b : buffer) (r : LogRecord) : buffer :=
  let tk := or_default (TimeKey e) "time" in
  let lk := or_default (LevelKey e) "level" in
  let mk := or_default (MsgKey e) "msg" in
  let b := writeByte "{" b in
  let '(b, first) :=
    if negb (IsZero (r_Time r)) then
      (b |> writeJSONString tk |> writeByte ":" |> writeByte QUOTE
         |> writeTimeRFC3339 (r_Time r) |> writeByte QUOTE, false)
    else (b, true) in
  let b := if negb first then writeByte "," b else b in
  let b := b |> writeJSONString lk |> writeByte ":" in
  let b := if NumericLevel e then writeInt (r_Level r) b else writeJSONString (lower (r_Level r)) b in
  let b := b |> writeByte "," |> writeJSONString mk |> writeByte ":" |> writeJSONString (r_Message r) in
  let b := if String.eqb (r_EventName r) "" then b
           else b |> writeByte "," |> writeJSONString "event" |> writeByte ":" |> writeJSONString (r_EventName r) in
  let b := match source r with
           | Some src =>
               b |> writeByte "," |> writeJSONString "caller" |> writeByte ":" |> writeByte QUOTE
                 |> writeString (src_File src) |> writeByte ":" |> writeInt (src_Line src) |> writeByte QUOTE
           | None => b
           end in
  let b := fold_left json_field (r_Fields r) b in
  b |> writeByte "}" |> writeByte LF.

Definition JSONEnc (e : JSONEncoder) : Encoder := mkEncoder (JSON_Encode e) "json".

(** ** encoder_logfmt.go *)
Definition logfmt_specials : string := String " " (String "=" (String QUOTE (String LF (str1 TAB)))).
Definition logfmtNeedsQuote (s : string) : bool :=
  if String.eqb s "" then true else Strings.ContainsAny s logfmt_specials.
Definition writeLogfmtValue (s : string) (b : buffer) : buffer :=
  if logfmtNeedsQuote s then writeJSONString s b else writeString s b.

Definition logfmt_field (b : buffer) (f : Field) : buffer :=
  let b := b |> writeByte " " |> writeString (Key f) |> writeByte "=" in
  match knd f with
  | kindString => writeLogfmtValue (f_string f) b
  | kindError => match errVal f with Some e => writeLogfmtValue e b | None => writeString "null" b end
  | _ => appendFieldValue b f false
  end.

Definition Logfmt_Encode (b : buffer) (r : LogRecord) : buffer :=
  let b := if negb (IsZero (r_Time r)) then
             b |> writeString "time=" |> writeByte QUOTE |> writeTimeRFC3339 (r_Time r)
               |> writeByte QUOTE |> writeByte " "
           else b in
  let b := b |> writeString "level=" |> writeString (lower (r_Level r)) |> writeString " msg="
             |> writeLogfmtValue (r_Message r) in
  let b := match source r with
           | Some src =>
               b |> writeString " caller=" |> writeByte QUOTE |> writeString (src_File src)
                 |> writeByte ":" |> writeInt (src_Line src) |> writeByte QUOTE
           | None => b
           end in
  let b := fold_left logfmt_field (r_Fields r) b in
  writeByte LF b.

Definition LogfmtEnc : Encoder := mkEncoder Logfmt_Encode "logfmt".

(** ** encoder_console.go *)
Record ConsoleEncoder := mkConsole { Color : bool; TimeFormat : string }.
Definition NewConsoleEncoder : ConsoleEncoder := mkConsole false "15:04:05.000".

Definition ansi (code : string) : string := String ESC ("[" +:+ code +:+ "m").

Definition levelColor (l : Level) : string :=
  if l <? LevelDebug then ansi "90"
  else if l <? LevelInfo then ansi "36"
  else if l <? LevelWarn then ansi "32"
  else if l <? LevelError then ansi "33"
  else ansi "31".

Definition console_field (color : bool) (b : buffer) (f : Field) : buffer :=
  let b := writeByte " " b in
  let b := if color then writeString (ansi "2") b else b in
  let b := b |> writeString (Key f) |> writeByte "=" in
  let b := if color then writeString (ansi "0") b else b in
  appendFieldValue b f false.

Definition Console_Encode (e : ConsoleEncoder) (b : buffer) (r : LogRecord) : buffer :=
  let tf := or_default (TimeFormat e) "15:04:05.000" in
  let b := append_bytes b (Format tf (r_Time r)) in
  let b := writeByte " " b in
  let lvl := lower (r_Level r) in
  let n := 5 - Z.of_nat (String.length lvl) in
  let pad := if 0 <? n then slice "     " 0 (Z.to_nat n) else "" in
  let b := if Color e then
             b |> writeString (levelColor (r_Level r)) |> writeString lvl |> writeString pad |> writeString (ansi "0")
           else b |> writeString lvl |> writeString pad in
  let b := b |> writeByte " " |> writeString (r_Message r) in
  let b := match source r with
           | Some src =>
               let b := writeByte " " b in
               let b := if Color e then writeString (ansi "2") b else b in
               let b := b |> writeByte "<" |> writeString (src_File src) |> writeByte ":"
                          |> writeInt (src_Line src) |> writeByte ">" in
               if Color e then writeString (ansi "0") b else b
           | None => b
           end in
  let b := fold_left (console_field (Color e)) (r_Fields r) b in
  writeByte LF b.

Definition ConsoleEnc (e : ConsoleEncoder) : Encoder := mkEncoder (Console_Encode e) "console".

End Encoders.

Lemma append_append b s t : append_bytes (append_bytes b s) t = append_bytes b (s +:+ t).
Proof. unfold append_bytes. simpl. by rewrite sapp_assoc. Qed.

(** Collect a sequence of buffer writes into one appended string. *)
Ltac writes :=
  unfold write_text, writeString, writeByte, writeInt, writeUint, writeFloat, writeBool, writeTimeRFC3339;
  rewrite ?writeJSONString_quote, ?append_append.

(** A few lines as the repository's README shows them. *)
Definition demo_record : LogRecord :=
  mkRecord (mkTime (1779192000 * 10 ^ 9) UTC) LevelInfo "server started" 0 ""
    [FString "addr" ":8080"; FInt int_ "pid" 4242] None false.

Example json_demo :
  b_bytes (JSON_Encode (env:=demo_env) NewJSONEncoder (mkBuffer "") demo_record) =
  Strings.str_map (fun c => if Ascii.eqb c "'" then QUOTE else c)
  "{'time':'2026-05-19T12:00:00Z','level':'info','msg':'server started','addr':':8080','pid':4242}" +:+ str1 LF.
Proof. vm_compute. reflexivity. Qed.

Example console_demo :
  b_bytes (Console_Encode (env:=demo_env) NewConsoleEncoder (mkBuffer "") demo_record) =
  "12:00:00.000 info  server started addr=:8080 pid=4242" +:+ str1 LF.
Proof. vm_compute. reflexivity. Qed.
