(* ===== verification/EncoderSpec.v ===== *)
(** * What the encoders guarantee

    The JSON line is related to the list of members it carries by an executable decoder
    of flat JSON objects, strict on the number grammar and on literals. *)
From S2P Require Import Prelude GoStd Level Field Record Buffer Encoder.
Import GoTime.
Local Open Scope Z_scope.
Local Open Scope go_scope.

(** ** The members of a JSON line *)
Inductive JVal :=
| JStr (s : string)      (* a string literal, decoded *)
| JNum (t : string)      (* a number, as written *)
| JBool (b : bool)
| JNull
| JRaw (t : string).     (* the text json.Marshal returned for a composite value *)

Definition render (v : JVal) : string :=
  match v with
  | JStr s => quote s
  | JNum t => t
  | JBool b => Strconv.AppendBool b
  | JNull => "null"
  | JRaw t => t
  end.

Section Spec.
Context {env : GoEnv}.

Definition any_jval (v : GoVal) : JVal :=
  match v with
  | VNil => JNull
  | VString s | VError s | VStringer s => JStr s
  | VBool b => JBool b
  | VInt n | VInt64 n => JNum (Strconv.FormatInt n)
  | VUint64 n => JNum (Strconv.FormatUint n)
  | VFloat64 x => JNum (GoFloat.FormatFloat x)
  | VDuration d => JStr (Duration_String d)
  | VTime t => JStr (time_String t)
  | VOther id => match json_Marshal id with inl raw => JRaw raw | inr err => JStr ("!ERR:" +:+ err) end
  end.

Definition field_jval (f : Field) : JVal :=
  match knd f with
  | kindString => JStr (f_string f)
  | kindInt64 => JNum (Strconv.FormatInt (f_int64 f))
  | kindUint64 => JNum (Strconv.FormatUint (f_uint64 f))
  | kindFloat64 => JNum (GoFloat.FormatFloat (f_float64 f))
  | kindBool => JBool (f_bool f)
  | kindDuration => JStr (Duration_String (f_duration f))
  | kindTime => JStr (FormatRFC3339Nano (f_time f))
  | kindError => match errVal f with Some e => JStr e | None => JNull end
  | kindAny => any_jval (fany f)
  end.

Definition json_members (e : JSONEncoder) (r : LogRecord) : list (string * JVal) :=
  (if IsZero (r_Time r) then [] else [(or_default (TimeKey e) "time", JStr (FormatRFC3339Nano (r_Time r)))]) ++
  [(or_default (LevelKey e) "level",
    if NumericLevel e then JNum (Strconv.FormatInt (r_Level r)) else JStr (lower (r_Level r)))] ++
  [(or_default (MsgKey e) "msg", JStr (r_Message r))] ++
  (if String.eqb (r_EventName r) "" then [] else [("event", JStr (r_EventName r))]) ++
  (match source r with
   | Some s => [("caller", JStr (src_File s +:+ ":" +:+ Strconv.FormatInt (src_Line s)))]
   | None => []
   end) ++
  map (fun f => (Key f, field_jval f)) (r_Fields r).

Definition member_text (m : string * JVal) : string := quote m.1 +:+ String ":" (render m.2).
Definition comma_text (m : string * JVal) : string := String "," (member_text m).
Definition object_text (ms : list (string * JVal)) : string :=
  String "{" (match ms with [] => "" | m :: ms' => member_text m +:+ str_concat (map comma_text ms') end
              +:+ String "}" (str1 LF)).

(** ** A decoder for one line of flat JSON

    One object on one line, without blanks: string keys, and values that are string
    literals, numbers of the JSON grammar, booleans or null.  Strings are read as
    bytes. *)
Fixpoint span_tok (s : string) : string * string :=
  match s with
  | String c s' => if Token.tok_byte c then let '(t, r) := span_tok s' in (String c t, r) else ("", s)
  | EmptyString => ("", "")
  end.

(** The three literal names and the numbers of the JSON grammar, nothing else. *)
Definition literal (t : string) : option JVal :=
  if String.eqb t "null" then Some JNull
  else if String.eqb t "true" then Some (JBool true)
  else if String.eqb t "false" then Some (JBool false)
  else if JsonNumber.is_number t then Some (JNum t)
  else None.

Definition decode_value (s : string) : option (JVal * string) :=
  match unquote s with
  | Some (t, rest) => Some (JStr t, rest)
  | None => let '(t, rest) := span_tok s in option_map (fun v => (v, rest)) (literal t)
  end.

Fixpoint decode_members (fuel : nat) (s : string) : option (list (string * JVal) * string) :=
  match fuel with
  | O => None
  | S fuel' =>
      match unquote s with
      | Some (k, String c s1) =>
          if Ascii.eqb c ":" then
            match decode_value s1 with
            | Some (v, String d s2) =>
                if Ascii.eqb d "," then
                  option_map (fun '(ms, r) => ((k, v) :: ms, r)) (decode_members fuel' s2)
                else if Ascii.eqb d "}" then Some ([(k, v)], s2)
                else None
            | _ => None
            end
          else None
      | _ => None
      end
  end.

Definition decode_line (s : string) : option (list (string * JVal)) :=
  match s with
  | String c s' =>
      if Ascii.eqb c "{" then
        match decode_members (String.length s) s' with
        | Some (ms, String d EmptyString) => if Ascii.eqb d LF then Some ms else None
        | _ => None
        end
      else None
  | EmptyString => None
  end.

(** ** The encoder writes the members *)
Lemma escape_plain s : str_forall plain_byte s = true -> escape s = s.
Proof.
  induction s as [|c s IH]; [done|]. simpl. intros. bool_to_prop. rewrite H.
  by rewrite IH.
Qed.

Lemma tok_plain c : Token.tok_byte c = true -> plain_byte c = true.
Proof. all_bytes c; done. Qed.

Lemma quote_plain s : str_forall plain_byte s = true -> quote s = String QUOTE (s +:+ str1 QUOTE).
Proof. intros. unfold quote. by rewrite escape_plain. Qed.

Lemma is_tok_plain s : Token.is_tok s -> str_forall plain_byte s = true.
Proof. apply str_forall_impl, tok_plain. Qed.

Lemma quote_tok s : Token.is_tok s -> quote s = String QUOTE (s +:+ str1 QUOTE).
Proof. intros. by apply quote_plain, is_tok_plain. Qed.

Lemma appendAny_json b v : appendAny b v true = append_bytes b (render (any_jval v)).
Proof. destruct v; simpl; writes; try done. destruct (json_Marshal id); by writes. Qed.

Lemma appendFieldValue_json b f : appendFieldValue b f true = append_bytes b (render (field_jval f)).
Proof.
  unfold appendFieldValue, field_jval. destruct (knd f); simpl; writes; try done.
  - apply appendAny_json.
  - by rewrite quote_tok by auto with golog.
  - by destruct (errVal f); writes.
Qed.

Lemma json_fields_text fs b :
  fold_left json_field fs b =
  append_bytes b (str_concat (map comma_text (map (fun f => (Key f, field_jval f)) fs))).
Proof.
  revert b. induction fs as [|f fs IH]; intros b; simpl.
  - unfold append_bytes. rewrite sapp_nil_r. by destruct b.
  - rewrite IH. unfold json_field. rewrite appendFieldValue_json. writes. f_equal.
    unfold comma_text, member_text. simpl. by strnorm.
Qed.

(** The caller's file name goes into the line unescaped; it has to be plain. *)
Definition caller_plain (r : LogRecord) : Prop :=
  forall s, source r = Some s -> str_forall plain_byte (src_File s) = true.

Lemma caller_quote s :
  str_forall plain_byte (src_File s) = true ->
  quote (src_File s +:+ ":" +:+ Strconv.FormatInt (src_Line s)) =
  String QUOTE (src_File s +:+ ":" +:+ Strconv.FormatInt (src_Line s) +:+ str1 QUOTE).
Proof.
  intros Hf. rewrite quote_plain; [by strnorm|].
  rewrite !str_forall_app, Hf. simpl. apply is_tok_plain. auto with golog.
Qed.

Lemma JSON_Encode_text e b r :
  caller_plain r -> JSON_Encode e b r = append_bytes b (object_text (json_members e r)).
Proof.
  intros Hc. unfold JSON_Encode, json_members.
  assert (Ht : quote (FormatRFC3339Nano (r_Time r)) = String QUOTE (FormatRFC3339Nano (r_Time r) +:+ str1 QUOTE))
    by (apply quote_tok; auto with golog).
  unfold object_text.
  destruct (IsZero (r_Time r)), (NumericLevel e), (String.eqb (r_EventName r) ""), (source r) as [s|] eqn:Es;
    simpl; rewrite json_fields_text; writes; unfold member_text, comma_text; simpl; unfold member_text; simpl;
    rewrite ?Ht, ?caller_quote by (by apply Hc); f_equal; strnorm; reflexivity.
Qed.

(** ** The decoder reads the members back *)
Definition flat (v : JVal) : Prop :=
  match v with JNum t => JsonNumber.is_number t = true | JRaw _ => False | _ => True end.

Lemma span_tok_app t d rest :
  Token.is_tok t -> Token.tok_byte d = false -> span_tok (t +:+ String d rest) = (t, String d rest).
Proof.
  intros Ht Hd. induction t as [|c t IH].
  - rewrite sapp_nil_l. simpl. by rewrite Hd.
  - unfold Token.is_tok in *. simpl in Ht. bool_to_prop. rewrite sapp_cons. simpl. by rewrite H, IH.
Qed.

Lemma literal_number t : JsonNumber.is_number t = true -> literal t = Some (JNum t).
Proof.
  intros Ht. unfold literal. destruct (String.eqb_spec t "null") as [->|_]; [done|].
  destruct (String.eqb_spec t "true") as [->|_]; [done|]. destruct (String.eqb_spec t "false") as [->|_]; [done|]. by rewrite Ht.
Qed.

Lemma tok_unquote t d rest : Token.is_tok t -> t <> "" -> unquote (t +:+ String d rest) = None.
Proof.
  intros Ht Hne. destruct t as [|c t]; [done|]. rewrite sapp_cons. cbn [unquote].
  destruct (Ascii.eqb_spec c QUOTE) as [->|_]; [by unfold Token.is_tok in Ht|done].
Qed.

(** A value written without quotes: a token the grammar knows. *)
Lemma decode_literal v d rest :
  Token.is_tok (render v) -> render v <> "" -> literal (render v) = Some v -> Token.tok_byte d = false ->
  decode_value (render v +:+ String d rest) = Some (v, String d rest).
Proof. intros Ht Hne Hl Hd. unfold decode_value. by rewrite tok_unquote, span_tok_app, Hl. Qed.

Lemma decode_value_render v d rest :
  flat v -> Token.tok_byte d = false ->
  decode_value (render v +:+ String d rest) = Some (v, String d rest).
Proof.
  intros Hv Hd. destruct v as [s|t|b| |t]; cbn [flat] in Hv; [unfold decode_value; cbn [render]; by rewrite unquote_quote|..|done].
  - apply decode_literal; cbn [render]; [by apply JsonNumber.is_number_tok|by intros ->|by apply literal_number|done].
  - apply decode_literal; [cbn [render]; auto with golog|by destruct b|by destruct b|done].
  - by apply decode_literal.
Qed.

Lemma decode_members_text m ms rest fuel :
  flat m.2 -> Forall (fun m => flat m.2) ms -> (length ms < fuel)%nat ->
  decode_members fuel (member_text m +:+ str_concat (map comma_text ms) +:+ String "}" rest) =
  Some (m :: ms, rest).
Proof.
  revert m fuel. induction ms as [|m' ms IH]; intros [k v] [|fuel] Hm Hms Hf; simpl in Hf; try lia;
    unfold member_text; cbn [decode_members fst snd map str_concat] in *; rewrite !sapp_assoc, unquote_quote, sapp_cons;
    cbn [Ascii.eqb Bool.eqb].
  - by rewrite sapp_nil_l, decode_value_render.
  - inversion_clear Hms. unfold comma_text at 1. rewrite !sapp_cons, decode_value_render by done. simpl.
    rewrite IH; [done|done|done|lia].
Qed.

Lemma comma_text_length ms : (length ms <= String.length (str_concat (map comma_text ms)))%nat.
Proof. induction ms as [|m ms IH]; simpl; [lia|]. rewrite slength_app. simpl. lia. Qed.

Lemma decode_line_object ms :
  ms <> [] -> Forall (fun m => flat m.2) ms -> decode_line (object_text ms) = Some ms.
Proof.
  destruct ms as [|m ms]; [done|]. intros _ Hf. inversion_clear Hf.
  unfold decode_line, object_text. rewrite Ascii.eqb_refl, sapp_assoc.
  rewrite decode_members_text; [done|done|done|].
  simpl. rewrite !slength_app. pose proof (comma_text_length ms). lia.
Qed.

(** Fields whose value is a JSON scalar: every kind except an [Any] holding a value that
    goes through [json.Marshal]; words are [uint64]s; and no float is NaN or infinite,
    which JSON cannot write. *)
Definition goval_scalar (v : GoVal) : Prop :=
  match v with
  | VOther id => exists err, json_Marshal id = inr err
  | VUint64 n => 0 <= n
  | VFloat64 x => JsonNumber.is_finite x = true
  | _ => True
  end.
Definition field_scalar (f : Field) : Prop :=
  0 <= num f /\ (knd f = kindFloat64 -> JsonNumber.is_finite (f_float64 f) = true) /\
  (knd f = kindAny -> goval_scalar (fany f)).

Lemma field_scalar_flat f : field_scalar f -> flat (field_jval f).
Proof.
  intros (Hn & Hf & Ha). unfold field_jval.
  destruct (knd f) eqn:Ek; cbn [flat]; auto using JsonNumber.FormatInt_number, JsonNumber.FormatUint_number.
  - specialize (Ha eq_refl). destruct (fany f); cbn [any_jval flat goval_scalar] in *;
      auto using JsonNumber.FormatInt_number, JsonNumber.FormatUint_number.
    + by rewrite JsonNumber.FormatFloat_number.
    + by destruct Ha as [err ->].
  - rewrite JsonNumber.FormatFloat_number. auto.
  - by destruct (errVal f).
Qed.

Lemma json_members_flat e r : Forall field_scalar (r_Fields r) -> Forall (fun m => flat m.2) (json_members e r).
Proof.
  intros Hf. unfold json_members. rewrite !Forall_app. split_and!.
  - by destruct (IsZero (r_Time r)); repeat constructor.
  - repeat constructor. simpl. destruct (NumericLevel e); cbn [flat]; auto using JsonNumber.FormatInt_number.
  - by repeat constructor.
  - by destruct (String.eqb _ _); repeat constructor.
  - by destruct (source r); repeat constructor.
  - apply Forall_map. eapply Forall_impl; [exact Hf|]. apply field_scalar_flat.
Qed.

Lemma json_members_nonempty e r : json_members e r <> [].
Proof. unfold json_members. by destruct (IsZero (r_Time r)). Qed.

(** C8. A JSON line means exactly the record: for any key configuration, any message,
    event name and field keys (quotes, newlines and all), scalar field values with
    finite floats, and a caller file name that needs no escaping, the bytes
    [JSONEncoder.Encode] appends are one JSON object on one line, every number in it
    of the JSON grammar, and decoding it gives back precisely the time (omitted when
    zero), level, message, event, caller and fields, in order. So no message, key or
    value can forge, hide or reorder a member of the line. *)
Theorem json_line_decodes e b r :
  caller_plain r -> Forall field_scalar (r_Fields r) ->
  exists line, b_bytes (JSON_Encode e b r) = b_bytes b +:+ line /\
               decode_line line = Some (json_members e r).
Proof.
  intros Hc Hf. exists (object_text (json_members e r)). split.
  - by rewrite JSON_Encode_text.
  - apply decode_line_object; auto using json_members_nonempty, json_members_flat.
Qed.

(** ** One record, one line *)
Definition value_printable (v : GoVal) : Prop :=
  match v with
  | VOther id => forall raw, json_Marshal id = inl raw -> str_forall printable raw = true
  | VUint64 n => 0 <= n
  | _ => True
  end.
Definition field_printable (f : Field) : Prop :=
  0 <= num f /\ (knd f = kindAny -> value_printable (fany f)).

Lemma tok_printable s : Token.is_tok s -> str_forall printable s = true.
Proof. apply str_forall_impl. intros c. all_bytes c; done. Qed.

Definition jval_printable (v : JVal) : Prop :=
  match v with JNum t => Token.is_tok t | JRaw t => str_forall printable t = true | _ => True end.

Lemma jval_render_printable v : jval_printable v -> str_forall printable (render v) = true.
Proof. destruct v as [s|t|b| |t]; cbn [render jval_printable]; [intros _; apply quote_printable|apply tok_printable|by destruct b|done..]. Qed.

Lemma field_jval_printable f : field_printable f -> jval_printable (field_jval f).
Proof.
  intros [Hn Ha]. unfold field_jval. destruct (knd f) eqn:Ek; cbn [jval_printable]; auto with golog.
  - specialize (Ha eq_refl). destruct (fany f); cbn [any_jval jval_printable value_printable] in *;
      auto with golog.
    destruct (json_Marshal id) as [raw|err]; cbn [jval_printable]; [by apply Ha|done].
  - by destruct (errVal f).
Qed.

Lemma render_printable f : field_printable f -> str_forall printable (render (field_jval f)) = true.
Proof. intros. by apply jval_render_printable, field_jval_printable. Qed.

Lemma member_printable k v : str_forall printable (render v) = true -> str_forall printable (member_text (k, v)) = true.
Proof. intros H. unfold member_text. rewrite str_forall_app, quote_printable. simpl. by rewrite H. Qed.

Lemma str_concat_forall P l : Forall (fun s => str_forall P s = true) l -> str_forall P (str_concat l) = true.
Proof. induction 1; [done|]. simpl. by rewrite str_forall_app, H, IHForall. Qed.

Lemma members_printable ms :
  Forall (fun m => str_forall printable (render m.2) = true) ms ->
  exists body, object_text ms = body +:+ str1 LF /\ str_forall printable body = true.
Proof.
  intros H. unfold object_text.
  exists (String "{" (match ms with [] => "" | m :: ms' => member_text m +:+ str_concat (map comma_text ms') end +:+ "}")).
  split; [rewrite sapp_cons; f_equal; by rewrite sapp_assoc|].
  simpl. rewrite str_forall_app. destruct H as [|[k v] ms Hv Hms]; [done|].
  rewrite str_forall_app, member_printable by done. rewrite str_concat_forall; [done|].
  apply Forall_map. eapply Forall_impl; [exact Hms|]. intros [k' v'] Hv'.
  unfold comma_text. simpl. by apply member_printable.
Qed.

Lemma json_members_printable e r :
  Forall field_printable (r_Fields r) ->
  Forall (fun m => str_forall printable (render m.2) = true) (json_members e r).
Proof.
  intros Hf. unfold json_members. rewrite !Forall_app. split_and!.
  - destruct (IsZero (r_Time r)); [constructor|]. apply Forall_singleton, quote_printable.
  - apply Forall_singleton. destruct (NumericLevel e); cbn [snd render]; [apply tok_printable; auto with golog|apply quote_printable].
  - apply Forall_singleton, quote_printable.
  - destruct (String.eqb _ _); [constructor|]. apply Forall_singleton, quote_printable.
  - destruct (source r); [|constructor]. apply Forall_singleton, quote_printable.
  - apply Forall_map. eapply Forall_impl; [exact Hf|]. apply render_printable.
Qed.

Lemma json_line_shape e b r :
  caller_plain r -> Forall field_printable (r_Fields r) ->
  exists body, b_bytes (JSON_Encode e b r) = b_bytes b +:+ body +:+ str1 LF /\ str_forall printable body = true.
Proof.
  intros Hc Hf. rewrite JSON_Encode_text by done. simpl.
  destruct (members_printable (json_members e r)) as (body & -> & Hb); [by apply json_members_printable|].
  by exists body.
Qed.

(** C40. One record is one line: whatever the message, keys and values contain, and
    composite values included (json.Marshal returns text without raw control bytes), and
    with a caller file name that needs no escaping, the JSON encoder appends a body without a single control byte followed by
    exactly one newline. *)
Theorem json_one_line e b r :
  caller_plain r -> Forall field_printable (r_Fields r) ->
  exists body, b_bytes (JSON_Encode e b r) = b_bytes b +:+ body +:+ str1 LF /\
               str_forall printable body = true.
Proof. apply json_line_shape. Qed.
End Spec.

Definition hostile_record : LogRecord :=
  mkRecord (mkTime 0 UTC) LevelError (String QUOTE (String LF (String BSLASH "x"))) 7 "ev"
    [FString (String QUOTE ",") (String LF "}"); FInt uint8_ "n" 255; FNamedErr "e" None;
     FFloat F64 "f" GoFloat.f64_42_5; FAny "a" (VString (str1 LF))] None false.

Lemma hostile_caller_plain : caller_plain (env:=demo_env) hostile_record.
Proof. intros s [= <-]. reflexivity. Defined.

(** A NaN is written as a bare word: the line is not JSON. *)
Definition nan_record : LogRecord := mkRecord GoTime.zero_time LevelInfo "x" 0 "" [FFloat F64 "f" GoFloat.f64_NaN] None false.
Example json_nan_refused : decode_line (b_bytes (JSON_Encode (env:=demo_env) NewJSONEncoder (mkBuffer "") nan_record)) = None.
Proof. vm_compute. reflexivity. Qed.

Lemma json_line_decodes_witness :
  exists line, b_bytes (JSON_Encode (env:=demo_env) NewJSONEncoder (mkBuffer "") hostile_record) = "" +:+ line /\
    decode_line line = Some (json_members (env:=demo_env) NewJSONEncoder hostile_record).
Proof.
  apply (json_line_decodes (env:=demo_env) NewJSONEncoder (mkBuffer "") hostile_record hostile_caller_plain).
  repeat constructor; vm_compute; done.
Defined.

Lemma json_one_line_witness :
  exists body, b_bytes (JSON_Encode (env:=demo_env) NewJSONEncoder (mkBuffer "") hostile_record) = "" +:+ body +:+ str1 LF /\
    str_forall printable body = true.
Proof.
  apply (json_one_line (env:=demo_env) NewJSONEncoder (mkBuffer "") hostile_record hostile_caller_plain).
  repeat constructor; vm_compute; done.
Defined.
