(* ===== verification/TextSpec.v ===== *)
(** * What the text encoders guarantee: logfmt and console *)
From S2P Require Import Prelude GoStd Level Field Record Buffer Encoder EncoderSpec.
Import GoTime.
Local Open Scope Z_scope.
Local Open Scope go_scope.

(** ** A decoder for one logfmt line: [key=value] pairs separated by one space *)
Definition key_byte (c : ascii) : bool :=
  (32 <? byte_val c) && negb (Ascii.eqb c "=") && negb (Ascii.eqb c QUOTE).
Definition raw_byte (c : ascii) : bool := negb (Strings.mem_byte c logfmt_specials).

Fixpoint span (P : ascii -> bool) (s : string) : string * string :=
  match s with
  | String c s' => if P c then let '(t, r) := span P s' in (String c t, r) else ("", s)
  | EmptyString => ("", "")
  end.

Definition lf_value (s : string) : string * string :=
  match unquote s with Some p => p | None => span raw_byte s end.

Fixpoint lf_decode (fuel : nat) (s : string) : option (list (string * string)) :=
  match fuel with
  | O => None
  | S fuel' =>
      match span key_byte s with
      | (k, String c s1) =>
          if Ascii.eqb c "=" then
            match lf_value s1 with
            | (v, String d s2) =>
                if Ascii.eqb d LF then (if String.eqb s2 "" then Some [(k, v)] else None)
                else if Ascii.eqb d " " then option_map (cons (k, v)) (lf_decode fuel' s2)
                else None
            | _ => None
            end
          else None
      | _ => None
      end
  end.
Definition logfmt_decode (s : string) : option (list (string * string)) := lf_decode (String.length s) s.

Section Spec.
Context {env : GoEnv}.

(** A pair, its value either quoted or bare. *)
Definition lf_text (s : string) : string := if logfmtNeedsQuote s then quote s else s.
Definition lf_good (txt v : string) : Prop := txt = quote v \/ (txt = v /\ str_forall raw_byte v = true).

Definition field_text (f : Field) : string :=
  match knd f with
  | kindString => f_string f
  | kindInt64 => Strconv.FormatInt (f_int64 f)
  | kindUint64 => Strconv.FormatUint (f_uint64 f)
  | kindFloat64 => GoFloat.FormatFloat (f_float64 f)
  | kindBool => Strconv.AppendBool (f_bool f)
  | kindDuration => Duration_String (f_duration f)
  | kindTime => FormatRFC3339Nano (f_time f)
  | kindError => match errVal f with Some e => e | None => "null" end
  | kindAny => ""
  end.
Definition field_rendered (f : Field) : string :=
  match knd f with
  | kindString => lf_text (f_string f)
  | kindError => match errVal f with Some e => lf_text e | None => "null" end
  | _ => field_text f
  end.

(** The typed kinds: everything but [Any]. *)
Definition field_typed (f : Field) : Prop :=
  knd f <> kindAny /\ 0 <= num f /\ str_forall key_byte (Key f) = true.

(** Triples (key, text as written, decoded value). *)
Definition logfmt_triples (r : LogRecord) : list (string * string * string) :=
  (if IsZero (r_Time r) then [] else [("time", quote (FormatRFC3339Nano (r_Time r)), FormatRFC3339Nano (r_Time r))]) ++
  [("level", lower (r_Level r), lower (r_Level r)); ("msg", lf_text (r_Message r), r_Message r)] ++
  match source r with
  | Some s => let c := src_File s +:+ ":" +:+ Strconv.FormatInt (src_Line s) in [("caller", quote c, c)]
  | None => []
  end ++
  map (fun f => (Key f, field_rendered f, field_text f)) (r_Fields r).

Definition pair_text (t : string * string * string) : string := t.1.1 +:+ String "=" t.1.2.
Definition spaced (t : string * string * string) : string := String " " (pair_text t).
Definition logfmt_text (ts : list (string * string * string)) : string :=
  match ts with [] => "" | t :: ts' => pair_text t +:+ str_concat (map spaced ts') end +:+ str1 LF.
Definition triple_ok (t : string * string * string) : Prop :=
  str_forall key_byte t.1.1 = true /\ lf_good t.1.2 t.2.

Lemma span_app P t d rest :
  str_forall P t = true -> P d = false -> span P (t +:+ String d rest) = (t, String d rest).
Proof.
  intros Ht Hd. induction t as [|c t IH]; [rewrite sapp_nil_l; simpl; by rewrite Hd|].
  simpl in Ht. bool_to_prop. rewrite sapp_cons. simpl. by rewrite H, IH.
Qed.

Lemma lf_value_good txt v d rest :
  lf_good txt v -> raw_byte d = false -> lf_value (txt +:+ String d rest) = (v, String d rest) \/
  (v = "" /\ d = QUOTE).
Proof.
  intros [->|[-> Hv]] Hd; [left; unfold lf_value; by rewrite unquote_quote|].
  unfold lf_value. rewrite span_app by done.
  destruct v as [|c v].
  - rewrite sapp_nil_l. simpl. destruct (Ascii.eqb d QUOTE) eqn:E; [|by left].
    right. split; [done|]. by apply Ascii.eqb_eq.
  - left. rewrite sapp_cons. simpl in *. bool_to_prop.
    assert (Ascii.eqb c QUOTE = false) as ->; [|done].
    apply Ascii.eqb_neq. by intros ->.
Qed.

Lemma lf_decode_pairs t ts fuel :
  triple_ok t -> Forall triple_ok ts -> (length ts < fuel)%nat ->
  lf_decode fuel (pair_text t +:+ str_concat (map spaced ts) +:+ str1 LF) =
  Some (map (fun t => (t.1.1, t.2)) (t :: ts)).
Proof.
  revert t fuel. induction ts as [|t' ts IH]; intros [[k txt] v] [|fuel] [Hk Hv] Hts Hf; simpl in Hf; try lia;
    unfold pair_text; cbn [lf_decode fst snd map str_concat] in *;
    rewrite !sapp_assoc, sapp_cons, span_app by done; cbn [Ascii.eqb Bool.eqb].
  - rewrite sapp_nil_l. unfold str1 at 1.
    destruct (lf_value_good txt v LF "" Hv eq_refl) as [->|[_ E]]; [done|discriminate].
  - inversion_clear Hts. unfold spaced at 1. rewrite !sapp_cons.
    destruct (lf_value_good txt v " " (pair_text t' +:+ str_concat (map spaced ts) +:+ str1 LF) Hv eq_refl)
      as [->|[_ E]]; [|discriminate].
    cbn [Ascii.eqb Bool.eqb]. rewrite IH; [done|done|done|lia].
Qed.

Lemma logfmt_decode_text ts :
  ts <> [] -> Forall triple_ok ts -> logfmt_decode (logfmt_text ts) = Some (map (fun t => (t.1.1, t.2)) ts).
Proof.
  destruct ts as [|t ts]; [done|]. intros _ H. inversion_clear H. unfold logfmt_decode, logfmt_text.
  rewrite sapp_assoc, lf_decode_pairs; [done|done|done|].
  rewrite !slength_app. simpl.
  assert (length ts <= String.length (str_concat (map spaced ts)))%nat; [|lia].
  clear. induction ts as [|x l IH]; simpl; [lia|]. rewrite slength_app. simpl. lia.
Qed.

(** ** Good renderings *)
Lemma lf_text_good s : lf_good (lf_text s) s.
Proof.
  unfold lf_text, logfmtNeedsQuote. destruct (String.eqb s ""); [by left|].
  destruct (Strings.ContainsAny s logfmt_specials) eqn:E; [by left|]. right. split; [done|].
  unfold Strings.ContainsAny in E. by apply negb_false_iff in E.
Qed.

Lemma tok_raw s : Token.is_tok s -> str_forall raw_byte s = true.
Proof. apply str_forall_impl. intros c. all_bytes c; done. Qed.

Lemma tok_good s : Token.is_tok s -> lf_good s s.
Proof. intros. right. split; [done|]. by apply tok_raw. Qed.

Lemma raw_app s t : str_forall raw_byte s = true -> str_forall raw_byte t = true -> str_forall raw_byte (s +:+ t) = true.
Proof. rewrite str_forall_app. by intros -> ->. Qed.

Lemma fmtFrac_raw u p : 0 <= u -> str_forall raw_byte (fmtFrac u p).1 = true /\ 0 <= (fmtFrac u p).2.
Proof.
  intros Hu. unfold fmtFrac. simpl. split; [|apply Z.div_pos; [lia|apply Z.pow_pos_nonneg; lia]].
  assert (Hp : str_forall raw_byte (pad_uint (u mod 10 ^ Z.of_nat p) p) = true).
  { apply tok_raw, Token.pad_uint_tok, Z.mod_pos_bound, Z.pow_pos_nonneg; lia. }
  pose proof (Token.trim_right_forall raw_byte is_zero_byte _ Hp) as Ht.
  destruct (Strings.trim_right _ _); [done|]. case_if; [done|]. simpl. by simpl in Ht.
Qed.

Lemma uint_raw n : 0 <= n -> str_forall raw_byte (Strconv.FormatUint n) = true.
Proof. intros. by apply tok_raw, Token.FormatUint_tok. Qed.

Lemma Duration_raw d : str_forall raw_byte (Duration_String d) = true.
Proof.
  unfold Duration_String.
  assert (Hu : 0 <= Z.abs d) by lia. set (u := Z.abs d) in *. clearbody u.
  destruct (fmtFrac_raw u 3 Hu) as [H3 I3], (fmtFrac_raw u 6 Hu) as [H6 I6], (fmtFrac_raw u 9 Hu) as [H9 I9].
  destruct (fmtFrac u 3) as [f3 i3], (fmtFrac u 6) as [f6 i6], (fmtFrac u 9) as [f9 i9].
  simpl in *.
  assert (0 <= i9 / 60) by (apply Z.div_pos; lia).
  assert (0 <= i9 mod 60) by (apply Z.mod_pos_bound; lia).
  assert (0 <= i9 / 60 mod 60) by (apply Z.mod_pos_bound; lia).
  assert (0 <= i9 / 60 / 60) by (apply Z.div_pos; lia).
  assert (Hb : forall s, str_forall raw_byte s = true -> str_forall raw_byte (if d <? 0 then String "-" s else s) = true)
    by (intros s Hs; case_if; simpl; by rewrite ?Hs).
  apply Hb. repeat case_if; try done; repeat apply raw_app; auto using uint_raw; done.
Qed.

Lemma field_good f : field_typed f -> lf_good (field_rendered f) (field_text f).
Proof.
  intros (Hk & Hn & _). unfold field_rendered, field_text. destruct (knd f); try done;
    try (apply tok_good; auto with golog; fail).
  - apply lf_text_good.
  - right. split; [done|apply Duration_raw].
  - destruct (errVal f); [apply lf_text_good|by apply tok_good].
Qed.

Lemma logfmt_fields_text fs b :
  Forall field_typed fs ->
  fold_left logfmt_field fs b =
  append_bytes b (str_concat (map spaced (map (fun f => (Key f, field_rendered f, field_text f)) fs))).
Proof.
  intros H. revert b. induction H as [|f fs (Hk & Hn & _) _ IH]; intros b; simpl.
  - unfold append_bytes. rewrite sapp_nil_r. by destruct b.
  - rewrite IH. unfold logfmt_field, spaced, pair_text, field_rendered, field_text, appendFieldValue, writeLogfmtValue, lf_text.
    destruct (knd f); try done; simpl; try (destruct (errVal f)); try destruct (logfmtNeedsQuote _);
      writes; f_equal; by strnorm.
Qed.

Lemma Logfmt_Encode_text b r :
  caller_plain r -> Forall field_typed (r_Fields r) ->
  Logfmt_Encode b r = append_bytes b (logfmt_text (logfmt_triples r)).
Proof.
  intros Hc Hf. unfold Logfmt_Encode, logfmt_triples, logfmt_text.
  rewrite logfmt_fields_text by done.
  assert (Ht : quote (FormatRFC3339Nano (r_Time r)) = String QUOTE (FormatRFC3339Nano (r_Time r) +:+ str1 QUOTE))
    by (apply quote_tok; auto with golog).
  assert (Hm : forall b, writeLogfmtValue (r_Message r) b = append_bytes b (lf_text (r_Message r)))
    by (intros; unfold writeLogfmtValue, lf_text; case_if; by writes).
  rewrite Hm.
  destruct (IsZero (r_Time r)), (source r) as [s|] eqn:Es;
    cbn [negb app map str_concat]; unfold spaced, pair_text; cbn [fst snd]; writes;
    rewrite ?Ht, ?caller_quote by (by apply Hc); f_equal; strnorm; reflexivity.
Qed.

Lemma logfmt_triples_ok r : Forall field_typed (r_Fields r) -> Forall triple_ok (logfmt_triples r).
Proof.
  intros Hf. unfold logfmt_triples. rewrite !Forall_app. split_and!.
  - destruct (IsZero (r_Time r)); [constructor|]. apply Forall_singleton. split; [done|by left].
  - constructor; [split; [done|apply tok_good, lower_tok]|].
    apply Forall_singleton. split; [done|apply lf_text_good].
  - destruct (source r); [|constructor]. apply Forall_singleton. split; [done|by left].
  - apply Forall_map. eapply Forall_impl; [exact Hf|]. intros f Hft. split; [apply Hft|by apply field_good].
Qed.

(** C27. A logfmt line of typed fields means exactly the record: with any message and
    any string or error values, keys that contain no space, control byte, quote
    or equals sign, and a caller file name that needs no escaping, decoding the line the logfmt encoder appends gives back every
    key with its text, in order: quoting is applied whenever it is needed. *)
Theorem logfmt_line_decodes b r :
  caller_plain r -> Forall field_typed (r_Fields r) ->
  exists line, b_bytes (Logfmt_Encode b r) = b_bytes b +:+ line /\
    logfmt_decode line = Some (map (fun t => (t.1.1, t.2)) (logfmt_triples r)).
Proof.
  intros Hc Hf. exists (logfmt_text (logfmt_triples r)). split; [by rewrite Logfmt_Encode_text|].
  apply logfmt_decode_text; [|by apply logfmt_triples_ok].
  unfold logfmt_triples. by destruct (IsZero (r_Time r)).
Qed.

(** An [Any] field holding a string is the exception: the logfmt encoder writes
    the string as it is, unquoted, although the comment above the switch says
    strings and anys that need quoting are wrapped; a newline in the value ends the
    line and what follows reads as a record of its own. *)
Theorem logfmt_any_string_raw k s r :
  r_Fields r = [FAny k (VString s)] ->
  exists pre, b_bytes (Logfmt_Encode (mkBuffer "") r) = pre +:+ k +:+ "=" +:+ s +:+ str1 LF.
Proof.
  intros Hf. unfold Logfmt_Encode. rewrite Hf.
  match goal with |- context [fold_left _ _ ?b0] => exists (b_bytes b0 +:+ " ") end.
  cbn [fold_left]. unfold logfmt_field. cbn [knd FAny Key fany appendFieldValue appendAny]. writes.
  unfold append_bytes. cbn [b_bytes]. by strnorm.
Qed.
End Spec.

Lemma logfmt_line_decodes_witness :
  exists line, b_bytes (Logfmt_Encode (env:=demo_env) (mkBuffer "") demo_record) = "" +:+ line /\
    logfmt_decode line = Some (map (fun t => (t.1.1, t.2)) (logfmt_triples (env:=demo_env) demo_record)).
Proof.
  apply (logfmt_line_decodes (env:=demo_env) (mkBuffer "") demo_record).
  - intros s [=].
  - repeat constructor; try done.
Defined.

Definition forged : LogRecord :=
  mkRecord zero_time LevelInfo "login" 0 "" [FAny "user" (VString ("bob" +:+ String LF "level=error msg=forged"))] None false.

Lemma logfmt_any_string_raw_witness :
  exists pre, b_bytes (Logfmt_Encode (env:=demo_env) (mkBuffer "") forged) =
    pre +:+ "user" +:+ "=" +:+ ("bob" +:+ String LF "level=error msg=forged") +:+ str1 LF.
Proof. apply (logfmt_any_string_raw (env:=demo_env)). reflexivity. Defined.

(** ** Console: colour only adds escape sequences *)
Fixpoint strip_ansi (in_esc : bool) (s : string) : string :=
  match s with
  | EmptyString => ""
  | String c s' =>
      if in_esc then strip_ansi (negb (Ascii.eqb c "m")) s'
      else if Ascii.eqb c ESC then strip_ansi true s'
      else String c (strip_ansi false s')
  end.

Definition no_esc : string -> bool := no_byte ESC.

Lemma strip_app s t : no_esc s = true -> strip_ansi false (s +:+ t) = s +:+ strip_ansi false t.
Proof.
  induction s as [|c s IH]; [done|]. unfold no_esc, no_byte in *. intros H. simpl in H. bool_to_prop.
  rewrite !sapp_cons. simpl. by rewrite H, IH.
Qed.

Lemma strip_code code t : str_forall (fun c => negb (Ascii.eqb c "m")) code = true ->
  strip_ansi false (ansi code +:+ t) = strip_ansi false t.
Proof.
  intros H. unfold ansi. rewrite !sapp_cons. simpl. rewrite !sapp_assoc.
  induction code as [|c code IH]; [done|]. simpl in H. bool_to_prop.
  rewrite sapp_cons. simpl. rewrite H. by apply IH.
Qed.

Lemma no_esc_app s t : no_esc (s +:+ t) = true <-> no_esc s = true /\ no_esc t = true.
Proof. unfold no_esc, no_byte. rewrite str_forall_app. by rewrite andb_true_iff. Qed.

Section Console.
Context {env : GoEnv}.

Definition field_plain (f : Field) : string := b_bytes (appendFieldValue (mkBuffer "") f false).

Lemma append_empty b s : append_bytes b s = append_bytes b (b_bytes (append_bytes (mkBuffer "") s)).
Proof. reflexivity. Qed.

Lemma appendFieldValue_plain b f : appendFieldValue b f false = append_bytes b (field_plain f).
Proof.
  unfold field_plain, appendFieldValue. destruct (knd f); try (writes; apply append_empty).
  - unfold appendAny. destruct (fany f); writes; apply append_empty.
  - destruct (errVal f); writes; apply append_empty.
Qed.

Definition console_field_text (color : bool) (f : Field) : string :=
  " " +:+ (if color then ansi "2" else "") +:+ Key f +:+ "=" +:+ (if color then ansi "0" else "") +:+ field_plain f.

Lemma console_fields_text color fs b :
  fold_left (console_field color) fs b = append_bytes b (str_concat (map (console_field_text color) fs)).
Proof.
  revert b. induction fs as [|f fs IH]; intros b; simpl.
  - unfold append_bytes. rewrite sapp_nil_r. by destruct b.
  - rewrite IH. unfold console_field, console_field_text. rewrite appendFieldValue_plain.
    destruct color; writes; f_equal; by strnorm.
Qed.

Definition level_pad (l : Level) : string :=
  let n := 5 - Z.of_nat (String.length (lower l)) in
  if 0 <? n then slice "     " 0 (Z.to_nat n) else "".
Definition level_column (color : bool) (l : Level) : string :=
  (if color then levelColor l else "") +:+ lower l +:+ level_pad l +:+ (if color then ansi "0" else "").

Definition caller_text (color : bool) (r : LogRecord) : string :=
  match source r with
  | Some s => " " +:+ (if color then ansi "2" else "") +:+ "<" +:+ src_File s +:+ ":" +:+
              Strconv.FormatInt (src_Line s) +:+ ">" +:+ (if color then ansi "0" else "")
  | None => ""
  end.

Definition console_text (color : bool) (tf : string) (r : LogRecord) : string :=
  Format tf (r_Time r) +:+ " " +:+ level_column color (r_Level r) +:+ " " +:+ r_Message r +:+
  caller_text color r +:+ str_concat (map (console_field_text color) (r_Fields r)) +:+ str1 LF.

Lemma Console_Encode_text e b r :
  Console_Encode e b r =
  append_bytes b (console_text (Color e) (or_default (TimeFormat e) "15:04:05.000") r).
Proof.
  unfold Console_Encode, console_text, level_column, level_pad, caller_text. rewrite console_fields_text.
  destruct (Color e), (source r); writes; f_equal; strnorm; reflexivity.
Qed.

Lemma strip_color l t : strip_ansi false (levelColor l +:+ t) = strip_ansi false t.
Proof. unfold levelColor. repeat case_if; by apply strip_code. Qed.

Lemma strip_field f t :
  no_esc (console_field_text false f) = true ->
  strip_ansi false (console_field_text true f +:+ t) = console_field_text false f +:+ strip_ansi false t.
Proof.
  unfold console_field_text. rewrite !sapp_nil_l, !sapp_assoc, !no_esc_app. intros (_ & Hk & He & Hv).
  rewrite (strip_app " ") by done. rewrite strip_code by done. rewrite (strip_app (Key f)) by done.
  rewrite (strip_app "=") by done. rewrite strip_code by done. by rewrite (strip_app (field_plain f)).
Qed.

Lemma strip_fields fs t :
  no_esc (str_concat (map (console_field_text false) fs)) = true ->
  strip_ansi false (str_concat (map (console_field_text true) fs) +:+ t) =
  str_concat (map (console_field_text false) fs) +:+ strip_ansi false t.
Proof.
  induction fs as [|f fs IH]; [done|]. cbn [map str_concat]. rewrite !sapp_assoc, !no_esc_app.
  intros [Hf Hfs]. by rewrite strip_field, IH.
Qed.

Lemma strip_console tf r :
  no_esc (console_text false tf r) = true ->
  strip_ansi false (console_text true tf r) = console_text false tf r.
Proof.
  unfold console_text, level_column. rewrite !sapp_assoc, !no_esc_app.
  intros (Hf & _ & _ & Hl & Hp & _ & _ & Hm & Hc & Hfs & _).
  rewrite strip_app by done. rewrite strip_app by done. rewrite strip_color.
  rewrite (strip_app (lower _)) by done.
  rewrite (strip_app (level_pad _)) by done. rewrite strip_code by done.
  rewrite (strip_app " ") by done. rewrite (strip_app (r_Message r)) by done.
  assert (Hcal : forall t, strip_ansi false (caller_text true r +:+ t) = caller_text false r +:+ strip_ansi false t).
  { intros t. revert Hc. unfold caller_text. destruct (source r) as [s|]; [|done].
    rewrite !sapp_assoc, !no_esc_app. intros (_ & _ & _ & Hfile & _ & Hline & _ & _).
    rewrite (strip_app " ") by done. rewrite strip_code by done. rewrite (strip_app "<") by done.
    rewrite (strip_app (src_File s)) by done. rewrite (strip_app ":") by done.
    rewrite (strip_app (Strconv.FormatInt _)) by done. rewrite (strip_app ">") by done.
    by rewrite strip_code. }
  rewrite Hcal, strip_fields by done. by rewrite !sapp_nil_l.
Qed.

(** Colour never changes what the console line says: if the plain line contains
    no ESC byte, removing the ANSI sequences from the coloured line gives the plain
    line, byte for byte; and both encoders append to what the buffer held. *)
Theorem console_color_strips e b r :
  no_esc (b_bytes (Console_Encode (mkConsole false (TimeFormat e)) (mkBuffer "") r)) = true ->
  exists line, b_bytes (Console_Encode (mkConsole true (TimeFormat e)) b r) = b_bytes b +:+ line /\
    strip_ansi false line = b_bytes (Console_Encode (mkConsole false (TimeFormat e)) (mkBuffer "") r).
Proof.
  rewrite !Console_Encode_text. cbn [b_bytes append_bytes Color TimeFormat]. rewrite sapp_nil_l.
  intros H. eexists. split; [reflexivity|]. by apply strip_console.
Qed.
End Console.

Lemma console_color_strips_witness :
  exists line, b_bytes (Console_Encode (env:=demo_env) (mkConsole true "") (mkBuffer "") demo_record) = "" +:+ line /\
    strip_ansi false line = b_bytes (Console_Encode (env:=demo_env) (mkConsole false "") (mkBuffer "") demo_record).
Proof. apply (console_color_strips (env:=demo_env) (mkConsole true "") (mkBuffer "") demo_record). vm_compute. reflexivity. Defined.
