(* ===== verification/Redaction.v ===== *)
(** * Redaction (the RedactProcessor of processor.go, redact_path.go) *)
From S2P Require Import Prelude GoStd Sha256 Level Field Record.
Local Open Scope Z_scope.

(** ** processor.go [RedactProcessor]: a key denylist *)
Record RedactProcessor := mkRedact { Deny : gset string; Censor : string }.

Definition NewRedactProcessor (keys : list string) : RedactProcessor :=
  mkRedact (fold_left (fun d k => {[k]} ∪ d) keys ∅) "[REDACTED]".

Definition redact_one (p : RedactProcessor) (f : Field) : Field :=
  let c := if String.eqb (Censor p) "" then "[REDACTED]" else Censor p in
  if bool_decide (Key f ∈ Deny p) then FString (Key f) c else f.

Definition RedactProcessor_Process (p : RedactProcessor) (r : LogRecord) : LogRecord :=
  set_Fields (map (redact_one p) (r_Fields r)) r.

(** ** redact_path.go *)
Inductive RedactStrategy := Mask | Hash | Drop.

Record PathRedactor := mkPath {
  patterns : list (list string);
  strategy : RedactStrategy;
  pr_censor : string
}.

Definition NewPathRedactor (st : RedactStrategy) (censor : string) (ps : list string) : PathRedactor :=
  mkPath (map (fun p => Strings.Split p ".") ps) st (if String.eqb censor "" then "[REDACTED]" else censor).

(** [segMatch]: [for i := 0; i < len(pat); i++], [n] iterations left. *)
Fixpoint segMatch_loop (pat key : list string) (n i : nat) : bool :=
  match n with
  | O => (length pat =? length key)%nat
  | S n' =>
      match pat !! i with
      | None => false
      | Some p =>
          if String.eqb p "**" then true
          else if (length key <=? i)%nat then false
          else match key !! i with
               | None => false
               | Some k => if String.eqb p "*" || String.eqb p k then segMatch_loop pat key n' (S i) else false
               end
      end
  end.
Definition segMatch (pat key : list string) : bool := segMatch_loop pat key (length pat) 0.

Fixpoint any_match (ps : list (list string)) (ks : list string) : bool :=
  match ps with
  | [] => false
  | p :: ps' => if segMatch p ks then true else any_match ps' ks
  end.
Definition matches (pr : PathRedactor) (key : string) : bool :=
  any_match (patterns pr) (Strings.Split key ".").

Section Redact.
Context {env : GoEnv}.

(** anyval.go [sprintAny]. *)
Definition sprintAny (v : GoVal) : string := Sprint v.
Definition hashValue (f : Field) : string :=
  let s := match knd f with kindString => f_string f | _ => sprintAny (Value f) end in
  "sha256:" +:+ hex_encode (take 8 (Sum256 s)).

(** The body of the loop: what is appended to [dst], if anything. *)
Definition redact_field (pr : PathRedactor) (f : Field) : option Field :=
  if negb (matches pr (Key f)) then Some f
  else match strategy pr with
       | Drop => None
       | Hash => Some (FString (Key f) (hashValue f))
       | Mask => Some (FString (Key f) (pr_censor pr))
       end.

(** [dst := r.Fields[:0]; for _, f := range r.Fields { ... dst = append(dst, ..) }]:
    [dst] shares the backing array [arr] that the loop is reading; [w] is its length. *)
Fixpoint redact_loop (pr : PathRedactor) (n i w : nat) (arr : list Field) : list Field * nat :=
  match n with
  | O => (arr, w)
  | S n' =>
      match arr !! i with
      | None => (arr, w)
      | Some f =>
          match redact_field pr f with
          | Some f' => redact_loop pr n' (S i) (S w) (<[w := f']> arr)
          | None => redact_loop pr n' (S i) w arr
          end
      end
  end.

Definition PathRedactor_Process (pr : PathRedactor) (r : LogRecord) : LogRecord :=
  let '(arr, w) := redact_loop pr (length (r_Fields r)) 0 0 (r_Fields r) in
  set_Fields (take w arr) r.

(** ** The in-place loop is a filter-map *)
Lemma redact_loop_spec pr fs n i w arr :
  (i + n <= length fs)%nat -> (w <= i)%nat -> length arr = length fs ->
  drop i arr = drop i fs -> take w arr = omap (redact_field pr) (take i fs) ->
  let '(arr', w') := redact_loop pr n i w arr in
  take w' arr' = omap (redact_field pr) (take (i + n) fs) /\ length arr' = length fs /\ (w' <= i + n)%nat.
Proof.
  revert i w arr. induction n as [|n IH]; intros i w arr Hn Hw Hl Hd Ht; simpl.
  - by rewrite Nat.add_0_r.
  - assert (is_Some (fs !! i)) as [f Hf] by (apply lookup_lt_is_Some; lia).
    assert (Ha : arr !! i = Some f).
    { rewrite <-(Nat.add_0_r i), <-lookup_drop, Hd, lookup_drop, Nat.add_0_r. done. }
    rewrite Ha. pose proof (take_S_r _ _ _ Hf) as HS. rewrite <-Nat.add_succ_comm.
    destruct (redact_field pr f) as [f'|] eqn:Ef.
    + apply IH; [lia|lia|by rewrite length_insert| |].
      * rewrite drop_insert_lt by lia.
        rewrite (drop_S arr f i Ha), (drop_S fs f i Hf) in Hd. by injection Hd.
      * rewrite (take_S_r _ _ f') by (apply list_lookup_insert_eq; lia).
        rewrite take_insert_ge by lia. rewrite Ht, HS, omap_app. simpl. by rewrite Ef.
    + apply IH; [lia|lia|done| |].
      * rewrite (drop_S arr f i Ha), (drop_S fs f i Hf) in Hd. by injection Hd.
      * rewrite Ht, HS, omap_app. simpl. by rewrite Ef, app_nil_r.
Qed.

Lemma PathRedactor_Process_omap pr r :
  PathRedactor_Process pr r = set_Fields (omap (redact_field pr) (r_Fields r)) r.
Proof.
  unfold PathRedactor_Process.
  pose proof (redact_loop_spec pr (r_Fields r) (length (r_Fields r)) 0 0 (r_Fields r)
                ltac:(lia) ltac:(lia) eq_refl eq_refl eq_refl) as H.
  destruct (redact_loop _ _ _ _ _) as [arr w]. destruct H as [H _]. by rewrite H, take_ge by lia.
Qed.

(** C26. In-place path redaction: although [Process] compacts the fields into the very
    array it is iterating over, the result is the filter-map of the original fields;
    hence after [Mask] every field whose key matches a pattern carries the censor
    string, after [Drop] no matching field is left, after [Hash] it carries the
    digest of its own value, and the fields that match no pattern are exactly the
    ones that were there, in order and untouched. *)
Theorem path_redactor_sound pr r :
  let out := r_Fields (PathRedactor_Process pr r) in
  out = omap (redact_field pr) (r_Fields r) /\
  (forall f, f ∈ out -> matches pr (Key f) = true ->
     match strategy pr with
     | Drop => False
     | Mask => Value f = VString (pr_censor pr)
     | Hash => exists f0, f0 ∈ r_Fields r /\ Key f0 = Key f /\ Value f = VString (hashValue f0)
     end) /\
  filter (fun f => matches pr (Key f) = false) out = filter (fun f => matches pr (Key f) = false) (r_Fields r).
Proof.
  rewrite PathRedactor_Process_omap. cbn [r_Fields set_Fields]. split_and!; [done| |].
  - intros f Hin Hm. apply list_elem_of_omap in Hin as (f0 & Hin & Hf). unfold redact_field in Hf.
    destruct (matches pr (Key f0)) eqn:E; simpl in Hf; [|congruence].
    destruct (strategy pr); simplify_eq; eauto.
  - induction (r_Fields r) as [|f fs IH]; [done|]. cbn [omap list_omap].
    destruct (matches pr (Key f)) eqn:E.
    + rewrite (filter_cons_False _ f) by congruence. rewrite <-IH.
      unfold redact_field at 1. rewrite E. simpl.
      destruct (strategy pr); rewrite ?filter_cons_False by (simpl; congruence); done.
    + rewrite (filter_cons_True _ f) by done.
      assert (redact_field pr f = Some f) as -> by (unfold redact_field; by rewrite E).
      rewrite filter_cons_True by done. by rewrite IH.
Qed.
End Redact.

(** ** The denylist redactor *)

(** The denylist redactor leaves no denied value behind: after [Process] every
    field with a denied key carries the censor string (or the default one when the
    configured censor is empty), every other field is unchanged, and the keys keep
    their positions. *)
Theorem redact_processor_sound p r i f :
  r_Fields r !! i = Some f ->
  exists f', r_Fields (RedactProcessor_Process p r) !! i = Some f' /\ Key f' = Key f /\
    (Key f ∈ Deny p -> Value f' = VString (if String.eqb (Censor p) "" then "[REDACTED]" else Censor p)) /\
    (Key f ∉ Deny p -> f' = f).
Proof.
  intros Hi. exists (redact_one p f). unfold RedactProcessor_Process. cbn [r_Fields set_Fields].
  rewrite list_lookup_fmap, Hi. unfold redact_one. split; [done|].
  case_bool_decide; split_and!; done.
Qed.

Lemma redact_processor_sound_witness :
  exists f', r_Fields (RedactProcessor_Process (NewRedactProcessor ["password"]) dirty_record) !! 0%nat = Some f' /\
    Key f' = "password" /\ Value f' = VString "[REDACTED]".
Proof.
  destruct (redact_processor_sound (NewRedactProcessor ["password"]) dirty_record 0 (FString "password" "x") eq_refl)
    as (f' & H1 & H2 & H3 & _).
  exists f'. split_and!; [exact H1|exact H2|]. apply H3. vm_compute. done.
Defined.

(** ** What a pattern matches *)
Inductive seg_matches : list string -> list string -> Prop :=
| sm_nil : seg_matches [] []
| sm_tail ps ks : seg_matches ("**" :: ps) ks
| sm_any ps k ks : seg_matches ps ks -> seg_matches ("*" :: ps) (k :: ks)
| sm_lit p ps ks : seg_matches ps ks -> seg_matches (p :: ps) (p :: ks).

Lemma segMatch_loop_spec pat key n i :
  (i + n = length pat)%nat -> (i <= length key)%nat ->
  segMatch_loop pat key n i = true <-> seg_matches (drop i pat) (drop i key).
Proof.
  revert i. induction n as [|n IH]; intros i Hn Hi; cbn [segMatch_loop].
  - rewrite drop_ge by lia. rewrite Nat.eqb_eq. split.
    + intros E. rewrite drop_ge by lia. constructor.
    + intros H. destruct (drop i key) eqn:E; [|inversion H].
      apply (f_equal length) in E. rewrite length_drop in E. simpl in E. lia.
  - assert (is_Some (pat !! i)) as [p Hp] by (apply lookup_lt_is_Some; lia).
    rewrite Hp, (drop_S _ _ _ Hp).
    destruct (String.eqb_spec p "**") as [->|Hne]; [split; [constructor|done]|].
    destruct (Nat.leb_spec (length key) i) as [Hk|Hk].
    + rewrite (drop_ge key) by lia. split; [done|]. inversion 1; congruence.
    + assert (is_Some (key !! i)) as [k Hkk] by (apply lookup_lt_is_Some; lia).
      rewrite Hkk, (drop_S _ _ _ Hkk).
      destruct (String.eqb_spec p "*") as [->|Hs]; cbn [orb].
      * rewrite IH by lia. split; [by constructor|]. inversion 1; subst; try done.
      * destruct (String.eqb_spec p k) as [->|Hpk].
        -- rewrite IH by lia. split; [by constructor|]. inversion 1; subst; done.
        -- split; [done|]. inversion 1; congruence.
Qed.

Lemma segMatch_spec pat key : segMatch pat key = true <-> seg_matches pat key.
Proof. unfold segMatch. rewrite segMatch_loop_spec by lia. by rewrite !drop_0. Qed.

Lemma matches_spec pr key :
  matches pr key = true <-> Exists (fun p => seg_matches p (Strings.Split key ".")) (patterns pr).
Proof.
  unfold matches. induction (patterns pr) as [|p ps IH]; cbn [any_match].
  - split; [done|]. by inversion 1.
  - rewrite Exists_cons, <-IH, <-segMatch_spec. destruct (segMatch _ _); [split; [by left|done]|]. split; [by right|by intros [?|?]].
Qed.

(** Splitting at dots. *)
Lemma Split_two key a b :
  Strings.Split key "." = [a; b] <-> key = a +:+ String "." b /\ no_byte "." a = true /\ no_byte "." b = true.
Proof.
  assert (H1 : forall s x, Strings.Split s "." = [x] <-> s = x /\ no_byte "." x = true).
  { induction s as [|c s IH]; intros x; simpl.
    - split; [intros [= <-]; done|intros [<- _]; done].
    - destruct (Ascii.eqb c ".") eqn:E.
      + split; [intros [= _ H]; by apply Strings.Split_nonempty in H|].
        intros [<- H]. unfold no_byte in H. simpl in H. by rewrite E in H.
      + destruct (Strings.Split s ".") as [|p ps] eqn:Es; [by apply Strings.Split_nonempty in Es|].
        unfold no_byte in *. simpl. split.
        * intros [= <- ->]. destruct (IH p) as [[-> H] _]; [done|]. simpl. by rewrite E, H.
        * intros [<- H]. simpl in H. bool_to_prop. assert (p :: ps = [s]) as [= -> ->] by (by apply IH). done. }
  revert a b. induction key as [|c s IH]; intros a b; simpl.
  - split; [done|]. intros (H & _). by destruct a.
  - destruct (Ascii.eqb c ".") eqn:E.
    + apply Ascii.eqb_eq in E as ->. split.
      * intros [= <- H]. apply H1 in H as [<- H]. done.
      * intros (H & Ha & Hb). destruct a as [|d a]; [|injection H as <- _; done].
        injection H as ->. f_equal. by apply H1.
    + destruct (Strings.Split s ".") as [|p ps] eqn:Es; [by apply Strings.Split_nonempty in Es|].
      unfold no_byte in *. split.
      * intros [= <- ->]. destruct (IH p b) as [(-> & Ha & Hb) _]; [done|]. simpl. by rewrite E, Ha.
      * intros (H & Ha & Hb). destruct a as [|d a]; [injection H as -> _; done|].
        injection H as <- ->. simpl in Ha. bool_to_prop.
        assert (p :: ps = [a; b]) as [= -> ->] by (by apply IH). done.
Qed.

(** Matching is the documented segment language: [segMatch] accepts a pattern and
    a key exactly when they are related by the rules literal = itself, * = one
    segment, ** = the rest; and a redactor matches a key when one of its patterns
    does on the key's dot-separated segments. *)
Theorem path_match_spec pr key pat segs :
  (segMatch pat segs = true <-> seg_matches pat segs) /\
  (matches pr key = true <-> Exists (fun p => seg_matches p (Strings.Split key ".")) (patterns pr)).
Proof. split; [apply segMatch_spec|apply matches_spec]. Qed.

Ltac inv_seg :=
  repeat match goal with H : seg_matches _ _ |- _ => inversion H; clear H; subst end.

(** One star is one segment: the pattern [*.password] of the README redacts a key
    exactly when it is a single dot-free segment followed by [.password]. A bare
    [password] and a deeper [a.b.password] keep their values, although the README
    presents the pattern as any password field at any depth. *)
Theorem star_password_one_level st c key :
  matches (NewPathRedactor st c ["*.password"]) key = true <->
  exists seg, no_byte "." seg = true /\ key = seg +:+ ".password".
Proof.
  rewrite matches_spec. cbn [patterns NewPathRedactor map]. rewrite Exists_cons, Exists_nil.
  change (Strings.Split "*.password" ".") with ["*"; "password"]. split.
  - intros [H|[]]. remember (Strings.Split key ".") as ks eqn:Hk. symmetry in Hk.
    assert (exists seg, ks = [seg; "password"]) as [seg ->].
    { inv_seg; eauto. }
    apply Split_two in Hk as (-> & Hs & _). by exists seg.
  - intros (seg & Hs & ->). left.
    assert (Strings.Split (seg +:+ ".password") "." = [seg; "password"]) as -> by (by apply Split_two).
    repeat constructor.
Qed.
