(* ===== verification/Sampling.v ===== *)
(** * Rate control (the SampleProcessor of processor.go, dedup.go)

    Both processors decide per record whether it continues ([None]) or is dropped
    ([Some ErrDrop]); their counters are [uint64]s. *)
From S2P Require Import Prelude GoStd Level Field Record.
Import GoTime.
Local Open Scope Z_scope.

(** processor.go [ErrDrop]. *)
Definition ErrDrop : error := "logger: record dropped".

(** ** processor.go [SampleProcessor] *)
Record SampleProcessor := mkSample {
  First : Z; Thereafter : Z; NeverBelow : Level; sp_n : Z; sp_dropped : Z
}.
Definition NewSampleProcessor (first thereafter : Z) : SampleProcessor :=
  mkSample first thereafter LevelError 0 0.
Definition Sample_Dropped (p : SampleProcessor) : Z := sp_dropped p.

Definition SampleProcessor_Process (p : SampleProcessor) (r : LogRecord) : SampleProcessor * option error :=
  if (NeverBelow p <=? r_Level r) || (Thereafter p =? 0) then (p, None)
  else
    let n := u64 (sp_n p + 1) in
    let p := mkSample (First p) (Thereafter p) (NeverBelow p) n (sp_dropped p) in
    if n <=? First p then (p, None)
    else if u64 (n - First p) mod Thereafter p =? 0 then (p, None)
    else (mkSample (First p) (Thereafter p) (NeverBelow p) n (u64 (sp_dropped p + 1)), Some ErrDrop).

(** A run of the sampler over successive records: the flags say which ones pass. *)
Fixpoint sample_run (p : SampleProcessor) (rs : list LogRecord) : SampleProcessor * list bool :=
  match rs with
  | [] => (p, [])
  | r :: rs' =>
      let '(p1, e) := SampleProcessor_Process p r in
      let '(p2, fl) := sample_run p1 rs' in
      (p2, match e with None => true | Some _ => false end :: fl)
  end.

(** The documented policy: of the records subject to sampling keep the first
    [First], then one in [Thereafter]. *)
Definition keep_nth (first m k : Z) : bool := (k <=? first) || ((k - first) mod m =? 0).
Definition kept_count (first m n : Z) : Z := Z.min n first + Z.max 0 (n - first) / m.

(** Sampled records among [rs], numbered from [k]. *)
Fixpoint expected_flags (never : Level) (first m : Z) (k : Z) (rs : list LogRecord) : list bool :=
  match rs with
  | [] => []
  | r :: rs' =>
      if never <=? r_Level r then true :: expected_flags never first m k rs'
      else keep_nth first m (k + 1) :: expected_flags never first m (k + 1) rs'
  end.
Definition sampled (never : Level) (rs : list LogRecord) : Z :=
  Z.of_nat (length (filter (fun r => r_Level r < never) rs)).

Lemma div_succ m M : 0 <= m -> 0 < M -> (m + 1) / M = m / M + (if (m + 1) mod M =? 0 then 1 else 0).
Proof.
  intros Hm HM.
  pose proof (Z.div_mod m M ltac:(lia)). pose proof (Z.mod_pos_bound m M HM).
  destruct (Z.eq_dec (m mod M) (M - 1)) as [E|E].
  - assert ((m + 1) mod M = 0) as -> by (symmetry; apply Z.mod_unique with (m / M + 1); lia).
    simpl. symmetry. apply Z.div_unique with 0; lia.
  - assert ((m + 1) mod M = m mod M + 1) as -> by (symmetry; apply Z.mod_unique with (m / M); lia).
    replace (m mod M + 1 =? 0) with false by lia. symmetry. apply Z.div_unique with (m mod M + 1); lia.
Qed.

Lemma kept_count_succ first m n : 0 <= first -> 0 < m -> 0 <= n ->
  kept_count first m (n + 1) = kept_count first m n + (if keep_nth first m (n + 1) then 1 else 0).
Proof.
  intros. unfold kept_count, keep_nth. destruct (Z.leb_spec (n + 1) first); simpl.
  - rewrite !Z.max_l by lia. rewrite Z.div_0_l by lia. lia.
  - destruct (Z.eq_dec n first) as [->|].
    + replace (first + 1 - first) with 1 by lia. rewrite Z.sub_diag, !Z.max_r by lia.
      pose proof (div_succ 0 m ltac:(lia) ltac:(lia)) as Hd.
      change (0 + 1) with 1 in Hd. rewrite Hd, Z.min_r, Z.min_l by lia. lia.
    + rewrite !Z.max_r by lia. replace (n + 1 - first) with (n - first + 1) by lia.
      rewrite div_succ by lia. lia.
Qed.

Lemma sample_step p r :
  0 <= First p -> 0 < Thereafter p -> 0 <= sp_n p -> sp_n p + 1 < 2 ^ 64 -> 0 <= sp_dropped p <= sp_n p ->
  SampleProcessor_Process p r =
  if NeverBelow p <=? r_Level r then (p, None)
  else let k := sp_n p + 1 in
       if keep_nth (First p) (Thereafter p) k
       then (mkSample (First p) (Thereafter p) (NeverBelow p) k (sp_dropped p), None)
       else (mkSample (First p) (Thereafter p) (NeverBelow p) k (sp_dropped p + 1), Some ErrDrop).
Proof.
  intros. unfold SampleProcessor_Process, keep_nth.
  destruct (NeverBelow p <=? r_Level r); [done|].
  replace (Thereafter p =? 0) with false by lia. cbn [orb First Thereafter NeverBelow sp_dropped].
  rewrite (u64_small (sp_n p + 1)) by (unfold is_u64; lia).
  destruct (Z.leb_spec (sp_n p + 1) (First p)); [done|]. cbn [orb].
  rewrite u64_small by (unfold is_u64; lia). case_if; [done|].
  rewrite u64_small by (unfold is_u64; lia). done.
Qed.

Lemma sampled_above never r rs : never <= r_Level r -> sampled never (r :: rs) = sampled never rs.
Proof. intros. unfold sampled. by rewrite filter_cons_False by lia. Qed.

Lemma sampled_below never r rs : r_Level r < never -> sampled never (r :: rs) = sampled never rs + 1.
Proof. intros. unfold sampled. rewrite filter_cons_True by done. simpl. lia. Qed.

Lemma sample_run_spec p rs :
  0 <= First p -> 0 < Thereafter p -> 0 <= sp_n p ->
  0 <= sp_dropped p <= sp_n p -> sp_n p + Z.of_nat (length rs) < 2 ^ 64 ->
  let '(p', fl) := sample_run p rs in
  let s := sampled (NeverBelow p) rs in
  fl = expected_flags (NeverBelow p) (First p) (Thereafter p) (sp_n p) rs /\
  sp_n p' = sp_n p + s /\
  sp_dropped p' - sp_dropped p =
    s - (kept_count (First p) (Thereafter p) (sp_n p + s) - kept_count (First p) (Thereafter p) (sp_n p)).
Proof.
  revert p. induction rs as [|r rs IH]; intros p HF HT Hn Hd Hb; cbn [sample_run].
  - change (sampled (NeverBelow p) []) with 0. rewrite Z.add_0_r. cbn zeta. split_and!; [done|lia|lia].
  - cbn [length] in Hb. rewrite sample_step by lia. cbn [expected_flags].
    destruct (Z.leb_spec (NeverBelow p) (r_Level r)) as [Hl|Hl].
    + specialize (IH p HF HT Hn Hd ltac:(lia)). destruct (sample_run p rs) as [p' fl].
      rewrite sampled_above by done. destruct IH as (-> & ? & ?). done.
    + rewrite sampled_below by done.
      pose proof (kept_count_succ (First p) (Thereafter p) (sp_n p) HF HT Hn) as Hk.
      destruct (keep_nth (First p) (Thereafter p) (sp_n p + 1)) eqn:Ek; cbn zeta;
        match goal with |- context [sample_run ?q rs] =>
          specialize (IH q HF HT ltac:(simpl; lia) ltac:(simpl; lia) ltac:(simpl; lia));
          destruct (sample_run q rs) as [p' fl] end;
        cbn [First Thereafter NeverBelow sp_n sp_dropped] in IH; cbn zeta in IH; destruct IH as (-> & IH1 & IH2);
        replace (sp_n p + (sampled (NeverBelow p) rs + 1)) with (sp_n p + 1 + sampled (NeverBelow p) rs) by lia;
        split_and!; [done|lia|lia|done|lia|lia].
Qed.

(** C33. The sampler's policy is exact: over any sequence of fewer than 2^64 records, a
    new sampler passes every record at or above ERROR, passes the k-th record below
    ERROR exactly when k <= First or Thereafter divides k - First, and its Dropped
    counter is the number of sampled records minus
    min(n, First) + (n - First)/Thereafter: nothing is dropped uncounted. *)
Theorem sampler_exact first thereafter rs :
  0 <= first -> 0 < thereafter -> Z.of_nat (length rs) < 2 ^ 64 ->
  let p := NewSampleProcessor first thereafter in
  let '(p', flags) := sample_run p rs in
  flags = expected_flags LevelError first thereafter 0 rs /\
  Sample_Dropped p' = sampled LevelError rs - kept_count first thereafter (sampled LevelError rs).
Proof.
  intros HF HT Hb p.
  pose proof (sample_run_spec p rs HF HT ltac:(simpl; lia) ltac:(simpl; lia) ltac:(simpl; lia)) as H.
  destruct (sample_run p rs) as [p' flags]. destruct H as (-> & _ & H). split; [done|].
  cbn [First Thereafter NeverBelow sp_n sp_dropped p NewSampleProcessor] in H. unfold Sample_Dropped.
  assert (kept_count first thereafter 0 = 0) as E.
  { unfold kept_count. rewrite Z.min_l, Z.max_l, Z.div_0_l by lia. lia. }
  rewrite E in H. rewrite Z.add_0_l in H. lia.
Qed.

Definition rec_at (l : Level) (msg : string) : LogRecord := mkRecord zero_time l msg 0 "" [] None false.

Lemma sampler_exact_witness :
  let '(p', flags) := sample_run (NewSampleProcessor 2 3) (map (fun l => rec_at l "m") [9; 9; 9; 17; 9; 9; 5]) in
  flags = [true; true; false; true; false; true; false] /\ Sample_Dropped p' = 3.
Proof.
  pose proof (sampler_exact 2 3 (map (fun l => rec_at l "m") [9; 9; 9; 17; 9; 9; 5]) ltac:(lia) ltac:(lia) ltac:(simpl; lia)) as H.
  vm_compute in H |- *. exact H.
Defined.
