(* ===== verification/Dedup.v ===== *)
(** * Deduplication (dedup.go)

    The processor with its map of counters, and a reference over the history of calls
    that it equals. *)
From S2P Require Import Prelude GoStd Level Field Record Sampling.
Import GoTime.
Local Open Scope Z_scope.

Record dedupState := mkDS { ds_last : Time; ds_suppressed : Z }.
Record DedupProcessor := mkDedup { Window : Z; seen : gmap string dedupState }.

Definition NewDedupProcessor (window : Z) : DedupProcessor :=
  mkDedup (if window <=? 0 then 5 * Second else window) ∅.

Definition dedup_key (l : Level) (msg : string) : string := Level_String l +:+ String NUL msg.

(** The state the source finds (or creates) for a key. *)
Definition state_of (d : DedupProcessor) (key : string) : dedupState :=
  default (mkDS zero_time 0) (seen d !! key).

(** dedup.go [Process]; [now] is what [timeNow] returns during the call. *)
Definition DedupProcessor_Process (d : DedupProcessor) (now : Time) (r : LogRecord) :
    DedupProcessor * LogRecord * option error :=
  let key := dedup_key (r_Level r) (r_Message r) in
  let st := state_of d key in
  if negb (IsZero (ds_last st)) && (Sub now (ds_last st) <? Window d) then
    (mkDedup (Window d) (<[key := mkDS (ds_last st) (u64 (ds_suppressed st + 1))]> (seen d)), r, Some ErrDrop)
  else
    let n := ds_suppressed st in
    let d' := mkDedup (Window d) (<[key := mkDS now 0]> (seen d)) in
    if 0 <? n then (d', AddField (FInt uint64_ "deduped_count" n) r, None) else (d', r, None).

(** ** Runs

    What happened to one record: dropped, or passed with the count it announces
    (0 when no [deduped_count] field was added). *)
Inductive Outcome := ODropped | OPassed (n : Z).
Definition outcome (d : DedupProcessor) (now : Time) (r : LogRecord) : Outcome :=
  let '(_, r', e) := DedupProcessor_Process d now r in
  match e with
  | Some _ => ODropped
  | None => match last (r_Fields r') with
            | Some f => if (length (r_Fields r) <? length (r_Fields r'))%nat then OPassed (num f) else OPassed 0
            | None => OPassed 0
            end
  end.

Fixpoint dedup_run (d : DedupProcessor) (evs : list (Time * LogRecord)) : DedupProcessor * list (string * Outcome) :=
  match evs with
  | [] => (d, [])
  | (now, r) :: evs' =>
      let '(d1, _, _) := DedupProcessor_Process d now r in
      let '(d2, os) := dedup_run d1 evs' in
      (d2, (dedup_key (r_Level r) (r_Message r), outcome d now r) :: os)
  end.

(** Records of [key] dropped, and announced as suppressed by the ones that passed. *)
Fixpoint dropped_of (key : string) (os : list (string * Outcome)) : Z :=
  match os with
  | [] => 0
  | (k, o) :: os' =>
      (if String.eqb k key then match o with ODropped => 1 | OPassed _ => 0 end else 0) + dropped_of key os'
  end.
Fixpoint announced_of (key : string) (os : list (string * Outcome)) : Z :=
  match os with
  | [] => 0
  | (k, o) :: os' =>
      (if String.eqb k key then match o with ODropped => 0 | OPassed n => n end else 0) + announced_of key os'
  end.

Definition dedup_ok (d : DedupProcessor) (b : Z) : Prop :=
  forall k, 0 <= ds_suppressed (state_of d k) <= b.

Lemma state_of_insert d k st k' :
  state_of (mkDedup (Window d) (<[k := st]> (seen d))) k' = if String.eqb k k' then st else state_of d k'.
Proof.
  unfold state_of. simpl. destruct (String.eqb_spec k k') as [->|H].
  - by rewrite lookup_insert_eq.
  - by rewrite lookup_insert_ne.
Qed.

(** One step, with the counter small enough not to wrap. *)
Lemma dedup_step d now r b k :
  dedup_ok d b -> b + 1 < 2 ^ 64 ->
  let '(d', _, _) := DedupProcessor_Process d now r in
  let key := dedup_key (r_Level r) (r_Message r) in
  dedup_ok d' (b + 1) /\ Window d' = Window d /\
  ds_suppressed (state_of d' k) +
    (if String.eqb key k then match outcome d now r with ODropped => 0 | OPassed n => n end else 0) =
  ds_suppressed (state_of d k) +
    (if String.eqb key k then match outcome d now r with ODropped => 1 | OPassed _ => 0 end else 0).
Proof.
  intros Hok Hb. unfold outcome, DedupProcessor_Process.
  set (key := dedup_key (r_Level r) (r_Message r)).
  pose proof (Hok key) as Hk.
  destruct (negb (IsZero (ds_last (state_of d key))) && (Sub now (ds_last (state_of d key)) <? Window d)).
  - split_and!; [|done|].
    + intros k'. rewrite state_of_insert. destruct (String.eqb key k'); [|pose proof (Hok k'); lia].
      cbn [ds_suppressed]. rewrite u64_small by (unfold is_u64; lia). lia.
    + rewrite state_of_insert. destruct (String.eqb_spec key k) as [<-|_]; [|lia].
      cbn [ds_suppressed]. rewrite u64_small by (unfold is_u64; lia). lia.
  - assert (Hok' : dedup_ok (mkDedup (Window d) (<[key := mkDS now 0]> (seen d))) (b + 1)).
    { intros k'. rewrite state_of_insert. destruct (String.eqb key k'); simpl; [lia|pose proof (Hok k'); lia]. }
    destruct (Z.ltb_spec 0 (ds_suppressed (state_of d key))) as [Hs|Hs]; (split_and!; [done|done|]);
      rewrite state_of_insert; destruct (String.eqb_spec key k) as [<-|_]; try lia.
    + cbn [ds_suppressed AddField set_Fields r_Fields]. rewrite last_snoc, length_app. cbn [length].
      replace (length (r_Fields r) <? length (r_Fields r) + 1)%nat with true by (symmetry; apply Nat.ltb_lt; lia).
      change (num (FInt uint64_ "deduped_count" (ds_suppressed (state_of d key)))) with (u64 (ds_suppressed (state_of d key))).
      rewrite u64_small by (unfold is_u64; lia). lia.
    + cbn [ds_suppressed]. rewrite Nat.ltb_irrefl. destruct (last (r_Fields r)); lia.
Qed.

Lemma dedup_run_accounting d evs b k :
  dedup_ok d b -> b + Z.of_nat (length evs) < 2 ^ 64 ->
  let '(d', os) := dedup_run d evs in
  ds_suppressed (state_of d' k) + announced_of k os = ds_suppressed (state_of d k) + dropped_of k os.
Proof.
  revert d b. induction evs as [|[now r] evs IH]; intros d b Hok Hb; cbn [dedup_run]; [cbn; lia|].
  cbn [length] in Hb. pose proof (dedup_step d now r b k Hok ltac:(lia)) as Hs.
  destruct (DedupProcessor_Process d now r) as [[d1 r1] e1]. destruct Hs as (Hok1 & _ & Hs).
  specialize (IH d1 (b + 1) Hok1 ltac:(lia)). destruct (dedup_run d1 evs) as [d2 os].
  cbn [announced_of dropped_of]. lia.
Qed.

(** Deduplication loses no count: starting from a new processor, over any sequence
    of fewer than 2^64 records with any clock readings, the records of a key that
    were dropped are exactly those announced in the deduped_count fields of the ones
    that passed plus those still pending; no suppressed record goes unreported. *)
Theorem dedup_accounting window evs l msg :
  Z.of_nat (length evs) < 2 ^ 64 ->
  let '(d, os) := dedup_run (NewDedupProcessor window) evs in
  dropped_of (dedup_key l msg) os =
  announced_of (dedup_key l msg) os + ds_suppressed (state_of d (dedup_key l msg)).
Proof.
  intros Hb.
  assert (Hok : dedup_ok (NewDedupProcessor window) 0)
    by (intros k; unfold state_of; cbn [seen NewDedupProcessor]; rewrite lookup_empty; simpl; lia).
  pose proof (dedup_run_accounting (NewDedupProcessor window) evs 0 (dedup_key l msg) Hok ltac:(lia)) as H.
  destruct (dedup_run _ evs) as [d os]. pose proof (Hok (dedup_key l msg)). lia.
Qed.

Definition at_time (ns : Z) (msg : string) : Time * LogRecord := (mkTime ns UTC, rec_at LevelInfo msg).

Lemma dedup_accounting_witness :
  let '(d, os) := dedup_run (NewDedupProcessor 100) [at_time 1000 "a"; at_time 1010 "a"; at_time 1020 "b"; at_time 1030 "a"; at_time 1100 "a"; at_time 1150 "a"] in
  dropped_of (dedup_key LevelInfo "a") os =
  announced_of (dedup_key LevelInfo "a") os + ds_suppressed (state_of d (dedup_key LevelInfo "a")).
Proof.
  apply (dedup_accounting 100 [at_time 1000 "a"; at_time 1010 "a"; at_time 1020 "b"; at_time 1030 "a"; at_time 1100 "a"; at_time 1150 "a"] LevelInfo "a").
  simpl. lia.
Defined.

(** ** Keys *)
Lemma app_NUL_inj a b s t :
  no_byte NUL a = true -> no_byte NUL b = true -> a +:+ String NUL s = b +:+ String NUL t -> a = b /\ s = t.
Proof.
  revert b. induction a as [|c a IH]; intros [|d b] Ha Hb E; unfold no_byte in *; simpl in *.
  - rewrite !sapp_nil_l in E. by injection E.
  - rewrite sapp_nil_l, sapp_cons in E. injection E as <- _. by rewrite Ascii.eqb_refl in Hb.
  - rewrite sapp_nil_l, sapp_cons in E. injection E as -> _. by rewrite Ascii.eqb_refl in Ha.
  - rewrite !sapp_cons in E. injection E as -> E. bool_to_prop.
    destruct (IH b H2 H0 E) as [-> ->]. done.
Qed.

Lemma dedup_key_inj l1 m1 l2 m2 :
  dedup_key l1 m1 = dedup_key l2 m2 -> band_of l1 = band_of l2 /\ m1 = m2.
Proof.
  unfold dedup_key. rewrite !Level_String_band. intros E.
  apply app_NUL_inj in E as [E ->]; [|by destruct (band_of l1)|by destruct (band_of l2)].
  split; [|done]. by destruct (band_of l1), (band_of l2).
Qed.

(** ** The reference

    What deduplication means, from the history of calls alone: no counters, no string
    keys.  An entry is a call that returned, the latest first. *)
Record Seen := mkSeen { se_time : Time; se_band : Band; se_msg : string; se_passed : bool }.

Definition same_kind (b : Band) (m : string) (e : Seen) : bool := bool_decide (se_band e = b) && String.eqb (se_msg e) m.

(** When a record of this band and message last passed. *)
Fixpoint last_pass (b : Band) (m : string) (hist : list Seen) : option Time :=
  match hist with
  | [] => None
  | e :: hist' => if same_kind b m e && se_passed e then Some (se_time e) else last_pass b m hist'
  end.
(** How many of them were dropped since. *)
Fixpoint dropped_since (b : Band) (m : string) (hist : list Seen) : Z :=
  match hist with
  | [] => 0
  | e :: hist' => if same_kind b m e then (if se_passed e then 0 else 1 + dropped_since b m hist') else dropped_since b m hist'
  end.

(** A record is dropped when one of its band and message passed less than the window
    ago; otherwise it passes, and announces those dropped since the last that passed. *)
Definition ref_process (window : Z) (hist : list Seen) (now : Time) (r : LogRecord) : LogRecord * option error :=
  let '(b, m) := (band_of (r_Level r), r_Message r) in
  let recent := match last_pass b m hist with Some t => negb (IsZero t) && (Sub now t <? window) | None => false end in
  if recent then (r, Some ErrDrop)
  else
    let n := dropped_since b m hist in
    (if n =? 0 then r else AddField (FInt uint64_ "deduped_count" n) r, None).

Fixpoint ref_outputs (window : Z) (hist : list Seen) (evs : list (Time * LogRecord)) : list (LogRecord * option error) :=
  match evs with
  | [] => []
  | (now, r) :: evs' =>
      let out := ref_process window hist now r in
      let e := mkSeen now (band_of (r_Level r)) (r_Message r) (match out.2 with None => true | Some _ => false end) in
      out :: ref_outputs window (e :: hist) evs'
  end.
Fixpoint dedup_outputs (d : DedupProcessor) (evs : list (Time * LogRecord)) : list (LogRecord * option error) :=
  match evs with
  | [] => []
  | (now, r) :: evs' => let '(d', r', e) := DedupProcessor_Process d now r in (r', e) :: dedup_outputs d' evs'
  end.

(** The map holds, under each key, what the history says. *)
Definition matches_history (d : DedupProcessor) (hist : list Seen) : Prop :=
  forall l m, state_of d (dedup_key l m) =
    mkDS (default zero_time (last_pass (band_of l) m hist)) (dropped_since (band_of l) m hist).

Lemma dropped_since_bound b m hist : 0 <= dropped_since b m hist <= Z.of_nat (length hist).
Proof. induction hist as [|e hist IH]; cbn [dropped_since length]; [lia|]. repeat case_if; lia. Qed.

Lemma same_kind_key l m now l' m' p :
  same_kind (band_of l') m' (mkSeen now (band_of l) m p) = String.eqb (dedup_key l m) (dedup_key l' m').
Proof.
  unfold same_kind. cbn [se_band se_msg]. apply eq_true_iff_eq. rewrite andb_true_iff, bool_decide_eq_true, !String.eqb_eq. split.
  - intros [Hb ->]. unfold dedup_key. by rewrite !Level_String_band, Hb.
  - apply dedup_key_inj.
Qed.

Lemma process_matches d hist now r :
  matches_history d hist -> Z.of_nat (length hist) + 1 < 2 ^ 64 ->
  let '(d', r', e) := DedupProcessor_Process d now r in
  (r', e) = ref_process (Window d) hist now r /\ Window d' = Window d /\
  matches_history d' (mkSeen now (band_of (r_Level r)) (r_Message r) (match e with None => true | Some _ => false end) :: hist).
Proof.
  intros Hm Hb. unfold DedupProcessor_Process, ref_process. rewrite Hm. cbn [ds_last ds_suppressed].
  set (b := band_of (r_Level r)). set (m := r_Message r). pose proof (dropped_since_bound b m hist) as Hn.
  assert (Hc : negb (IsZero (default zero_time (last_pass b m hist))) && (Sub now (default zero_time (last_pass b m hist)) <? Window d) =
    match last_pass b m hist with Some t => negb (IsZero t) && (Sub now t <? Window d) | None => false end) by (by destruct (last_pass b m hist)).
  rewrite Hc. destruct (match last_pass b m hist with Some t => _ | None => false end).
  - split_and!; [done|done|]. intros l' m'. rewrite state_of_insert. cbn [last_pass dropped_since se_passed]. unfold b. rewrite same_kind_key, andb_false_r.
    destruct (String.eqb_spec (dedup_key (r_Level r) m) (dedup_key l' m')) as [E|_]; [|apply Hm].
    apply dedup_key_inj in E as [<- <-]. fold b. rewrite u64_small by (unfold is_u64; lia). f_equal. lia.
  - assert (Hd : matches_history (mkDedup (Window d) (<[dedup_key (r_Level r) m := mkDS now 0]> (seen d))) (mkSeen now b m true :: hist)).
    { intros l' m'. rewrite state_of_insert. cbn [last_pass dropped_since se_passed se_time]. unfold b. rewrite same_kind_key, andb_true_r.
      destruct (String.eqb _ _); [done|apply Hm]. }
    destruct (Z.ltb_spec 0 (dropped_since b m hist)), (Z.eqb_spec (dropped_since b m hist) 0); try lia; by split_and!.
Qed.

Lemma outputs_match d hist evs :
  matches_history d hist -> Z.of_nat (length hist + length evs) < 2 ^ 64 ->
  dedup_outputs d evs = ref_outputs (Window d) hist evs.
Proof.
  revert d hist. induction evs as [|[now r] evs IH]; intros d hist Hm Hb; [done|]. cbn [dedup_outputs ref_outputs length] in *.
  pose proof (process_matches d hist now r Hm ltac:(lia)) as Hp. destruct (DedupProcessor_Process d now r) as [[d' r'] e].
  destruct Hp as (<- & <- & Hm'). cbn [snd]. f_equal. apply IH; [done|]. cbn [length]. lia.
Qed.

(** C34. Deduplication is what its comment says, record by record: over any sequence of
    fewer than 2^64 records with any clock readings, a new processor returns exactly
    what the reference does. It drops a record if and only if one of the same severity
    band and message last passed less than the window before (five seconds when none is
    given); otherwise the record passes, unchanged if none of its kind was dropped since
    the last that passed, and else with one field, deduped_count, that tells how many. *)
Theorem dedup_matches_reference window evs :
  Z.of_nat (length evs) < 2 ^ 64 ->
  dedup_outputs (NewDedupProcessor window) evs = ref_outputs (if window <=? 0 then 5 * Second else window) [] evs.
Proof.
  intros Hb. apply (outputs_match (NewDedupProcessor window) []); [|done].
  intros l m. unfold state_of. cbn [seen NewDedupProcessor]. by rewrite lookup_empty.
Qed.

Lemma dedup_matches_reference_witness :
  let evs := [at_time 1000 "a"; at_time 1010 "a"; at_time 1020 "b"; at_time 1030 "a"; at_time 1100 "a"; at_time 1150 "a"] in
  map snd (ref_outputs 100 [] evs) = [None; Some ErrDrop; None; Some ErrDrop; None; Some ErrDrop] /\
  map (fun o => r_Fields o.1) (ref_outputs 100 [] evs) = [[]; []; []; []; [FInt uint64_ "deduped_count" 2]; []] /\
  dedup_outputs (NewDedupProcessor 100) evs = ref_outputs 100 [] evs.
Proof.
  split; [vm_compute; reflexivity|]. split; [vm_compute; reflexivity|].
  apply (dedup_matches_reference 100 [at_time 1000 "a"; at_time 1010 "a"; at_time 1020 "b"; at_time 1030 "a"; at_time 1100 "a"; at_time 1150 "a"]).
  simpl. lia.
Defined.

(** ** Throttling *)
Lemma dedup_other d now r k :
  dedup_key (r_Level r) (r_Message r) <> k ->
  state_of (DedupProcessor_Process d now r).1.1 k = state_of d k.
Proof.
  intros Hk. unfold DedupProcessor_Process. repeat case_if; cbn [fst]; rewrite state_of_insert;
    destruct (String.eqb_spec (dedup_key (r_Level r) (r_Message r)) k); congruence.
Qed.

Lemma dedup_window_run d evs key t :
  ds_last (state_of d key) = t -> IsZero t = false ->
  Forall (fun ev => dedup_key (r_Level ev.2) (r_Message ev.2) = key -> Sub ev.1 t < Window d) evs ->
  Forall (fun ko => ko.1 = key -> ko.2 = ODropped) (dedup_run d evs).2.
Proof.
  revert d. induction evs as [|[now r] evs IH]; intros d Ht Hz Hev; cbn [dedup_run]; [constructor|].
  inversion_clear Hev as [|? ? H1 H2]. cbn [fst snd] in H1.
  assert (Hw : Window (DedupProcessor_Process d now r).1.1 = Window d)
    by (unfold DedupProcessor_Process; by repeat case_if).
  destruct (String.eqb_spec (dedup_key (r_Level r) (r_Message r)) key) as [Hk|Hk].
  - specialize (H1 Hk).
    assert (Hcond : negb (IsZero (ds_last (state_of d key))) && (Sub now (ds_last (state_of d key)) <? Window d) = true).
    { rewrite Ht, Hz. simpl. lia. }
    assert (Ho : outcome d now r = ODropped) by (unfold outcome, DedupProcessor_Process; by rewrite Hk, Hcond).
    assert (Hst : ds_last (state_of (DedupProcessor_Process d now r).1.1 key) = t).
    { unfold DedupProcessor_Process. rewrite Hk, Hcond. cbn [fst]. rewrite state_of_insert, String.eqb_refl. done. }
    destruct (DedupProcessor_Process d now r) as [[d1 r1] e1]. cbn [fst] in *.
    specialize (IH d1 Hst Hz). rewrite Hw in IH. specialize (IH H2).
    destruct (dedup_run d1 evs) as [d2 os]. cbn [snd] in *. constructor; [by rewrite Ho|done].
  - assert (Hst : ds_last (state_of (DedupProcessor_Process d now r).1.1 key) = t) by (by rewrite dedup_other).
    destruct (DedupProcessor_Process d now r) as [[d1 r1] e1]. cbn [fst] in *.
    specialize (IH d1 Hst Hz). rewrite Hw in IH. specialize (IH H2).
    destruct (dedup_run d1 evs) as [d2 os]. cbn [snd] in *. constructor; [by intros|done].
Qed.

(** The window throttles: once a record has passed at a (non-zero) time [t], every
    later record of the same severity band and message is dropped as long as the
    clock reads less than [Window] after [t], whatever other records are logged in
    between; and two records share a window only if band and message are equal. *)
Theorem dedup_window d evs l msg t :
  ds_last (state_of d (dedup_key l msg)) = t -> IsZero t = false ->
  Forall (fun ev => band_of (r_Level ev.2) = band_of l -> r_Message ev.2 = msg -> Sub ev.1 t < Window d) evs ->
  Forall (fun ko => ko.1 = dedup_key l msg -> ko.2 = ODropped) (dedup_run d evs).2.
Proof.
  intros Ht Hz Hev. apply dedup_window_run with t; [done|done|].
  eapply Forall_impl; [exact Hev|]. intros [now r] H Hk. apply dedup_key_inj in Hk as [Hb Hm]. auto.
Qed.

Definition after_pass : DedupProcessor := (DedupProcessor_Process (NewDedupProcessor 100) (mkTime 1000 UTC) (rec_at LevelInfo "a")).1.1.

Lemma dedup_window_witness :
  Forall (fun ko => ko.1 = dedup_key LevelInfo "a" -> ko.2 = ODropped)
    (dedup_run after_pass [at_time 1010 "a"; at_time 5000 "b"; at_time 1099 "a"]).2.
Proof.
  apply (dedup_window after_pass _ LevelInfo "a" (mkTime 1000 UTC)); [vm_compute; reflexivity|reflexivity|].
  repeat constructor; intros H1 H2; vm_compute in H2 |- *; congruence.
Defined.
