(* ===== verification/Pipeline.v ===== *)
(** * The processor pipeline (processor.go, enrich.go)

    The single extension seam: every built-in processor with its state, user
    functions, and [runPipeline]. *)
From S2P Require Import Prelude GoStd Level Field Record Redaction Sampling Dedup.
Import GoTime.
Local Open Scope Z_scope.

(** ** enrich.go *)
Definition ContextWith (ctx : Context) (fields : list Field) : Context :=
  let prev := default [] (ctx_fields ctx) in CFields (prev ++ fields) :: ctx.

(** [TraceExtractor]: trace and span id when the context carries them. *)
Abbreviation TraceExtractor := (list CtxVal -> option (string * string)).

Record EnrichProcessor := mkEnrich { Extractors : list TraceExtractor; TraceKey : string; SpanKey : string }.
Definition NewEnrichProcessor (ex : list TraceExtractor) : EnrichProcessor := mkEnrich ex "trace_id" "span_id".

Fixpoint extract_first (exs : list TraceExtractor) (ctx : Context) : option (string * string) :=
  match exs with
  | [] => None
  | ex :: exs' => match ex ctx with Some ids => Some ids | None => extract_first exs' ctx end
  end.

Definition EnrichProcessor_Process (e : EnrichProcessor) (ctx : option Context) (r : LogRecord) : LogRecord :=
  let ctx := match ctx with None => r_Ctx r | Some c => Some c end in
  match ctx with
  | None => r
  | Some c =>
      let r := match ctx_fields c with Some bound => set_Fields (r_Fields r ++ bound) r | None => r end in
      let tk := if String.eqb (TraceKey e) "" then "trace_id" else TraceKey e in
      let sk := if String.eqb (SpanKey e) "" then "span_id" else SpanKey e in
      match extract_first (Extractors e) c with
      | None => r
      | Some (tid, sid) =>
          let r := if String.eqb tid "" then r else AddField (FString tk tid) r in
          if String.eqb sid "" then r else AddField (FString sk sid) r
      end
  end.

(** ** processor.go [Processor], [ProcessorFunc], [runPipeline] *)
Inductive Processor :=
| PRedact (p : RedactProcessor)
| PPath (p : PathRedactor)
| PSample (p : SampleProcessor)
| PDedup (p : DedupProcessor)
| PEnrich (p : EnrichProcessor)
| PFunc (f : option (list CtxVal) -> LogRecord -> LogRecord * option error).

Section Pipe.
Context {env : GoEnv}.

(** [now] is the clock during the call. *)
Definition Process (now : Time) (p : Processor) (ctx : option Context) (r : LogRecord) :
    Processor * LogRecord * option error :=
  match p with
  | PRedact q => (p, RedactProcessor_Process q r, None)
  | PPath q => (p, PathRedactor_Process q r, None)
  | PSample q => let '(q', e) := SampleProcessor_Process q r in (PSample q', r, e)
  | PDedup q => let '(q', r', e) := DedupProcessor_Process q now r in (PDedup q', r', e)
  | PEnrich q => (p, EnrichProcessor_Process q ctx r, None)
  | PFunc f => let '(r', e) := f ctx r in (p, r', e)
  end.

Fixpoint runPipeline (now : Time) (ps : list Processor) (ctx : option Context) (r : LogRecord) :
    list Processor * LogRecord * option error :=
  match ps with
  | [] => ([], r, None)
  | p :: ps' =>
      let '(p', r', e) := Process now p ctx r in
      match e with
      | Some err => (p' :: ps', r', Some err)
      | None => let '(ps'', r'', e') := runPipeline now ps' ctx r' in (p' :: ps'', r'', e')
      end
  end.

Lemma runPipeline_app now ps1 ps2 ctx r :
  runPipeline now (ps1 ++ ps2) ctx r =
  let '(ps1', r1, e1) := runPipeline now ps1 ctx r in
  match e1 with
  | Some err => (ps1' ++ ps2, r1, Some err)
  | None => let '(ps2', r2, e2) := runPipeline now ps2 ctx r1 in (ps1' ++ ps2', r2, e2)
  end.
Proof.
  revert r. induction ps1 as [|p ps1 IH]; intros r; cbn [app runPipeline].
  - by destruct (runPipeline now ps2 ctx r) as [[ps2' r2] e2].
  - destruct (Process now p ctx r) as [[p' r'] [err|]]; [done|]. rewrite IH.
    destruct (runPipeline now ps1 ctx r') as [[ps1' r1] [err|]]; [done|].
    by destruct (runPipeline now ps2 ctx r1) as [[ps2' r2] e2].
Qed.

Lemma runPipeline_length now ps ctx r : length (runPipeline now ps ctx r).1.1 = length ps.
Proof.
  revert r. induction ps as [|p ps IH]; intros r; [done|]. cbn [runPipeline].
  destruct (Process now p ctx r) as [[p' r'] [err|]]; [done|].
  specialize (IH r'). destruct (runPipeline now ps ctx r') as [[ps'' r''] e']. simpl in *. lia.
Qed.

(** A drop short-circuits: if the processors before [p] pass the record and [p]
    returns an error, the pipeline returns that error and the processors after [p]
    are not run at all: their state (counters, windows) is what it was. A pipeline
    without an error runs all of them, in order, each on the previous one's record. *)
Theorem pipeline_short_circuit now ps1 p ps2 ctx r ps1' r1 p' r2 e :
  runPipeline now ps1 ctx r = (ps1', r1, None) ->
  Process now p ctx r1 = (p', r2, e) ->
  runPipeline now (ps1 ++ p :: ps2) ctx r =
  match e with
  | Some err => (ps1' ++ p' :: ps2, r2, Some err)
  | None => let '(ps2', r3, e') := runPipeline now ps2 ctx r2 in (ps1' ++ p' :: ps2', r3, e')
  end.
Proof.
  intros H1 H2. rewrite runPipeline_app, H1. cbn [runPipeline]. rewrite H2.
  destruct e; [done|]. by destruct (runPipeline now ps2 ctx r2) as [[? ?] ?].
Qed.

(** Redacting last: nothing denied leaves a pipeline that ends in a redactor. *)
Lemma redact_last now ps q ctx r ps' r' :
  runPipeline now (ps ++ [PRedact q]) ctx r = (ps', r', None) ->
  Forall (fun f => Key f ∈ Deny q -> exists c, Value f = VString c /\
            c = if String.eqb (Censor q) "" then "[REDACTED]" else Censor q) (r_Fields r').
Proof.
  rewrite runPipeline_app. destruct (runPipeline now ps ctx r) as [[ps1 r1] [err|]]; [done|].
  cbn [runPipeline Process]. intros [= _ <-]. cbn [RedactProcessor_Process r_Fields set_Fields].
  apply Forall_map, Forall_true. intros f. unfold redact_one. case_bool_decide; [|done].
  intros _. eauto.
Qed.

Lemma EnrichProcessor_fields e c r :
  exists extra, r_Fields (EnrichProcessor_Process e (Some c) r) = r_Fields r ++ default [] (ctx_fields c) ++ extra /\
    Forall (fun f => knd f = kindString) extra /\ (length extra <= 2)%nat.
Proof.
  unfold EnrichProcessor_Process.
  set (r0 := match ctx_fields c with Some bound => _ | None => r end).
  assert (Hr0 : r_Fields r0 = r_Fields r ++ default [] (ctx_fields c))
    by (unfold r0; destruct (ctx_fields c); simpl; [done|by rewrite app_nil_r]).
  destruct (extract_first _ _) as [[tid sid]|];
    [|exists []; rewrite !app_nil_r, Hr0; split_and!; [done|constructor|simpl; lia]].
  destruct (String.eqb tid ""), (String.eqb sid ""); cbn [AddField set_Fields r_Fields]; rewrite ?Hr0, <-?app_assoc.
  - exists []. rewrite !app_nil_r. split_and!; [done|constructor|simpl; lia].
  - eexists [_]. split_and!; [done|by repeat constructor|simpl; lia].
  - eexists [_]. split_and!; [done|by repeat constructor|simpl; lia].
  - eexists [_; _]. split_and!; [done|by repeat constructor|simpl; lia].
Qed.
End Pipe.

Lemma pipeline_short_circuit_witness :
  runPipeline (env:=demo_env) (mkTime 5 UTC) ([] ++ PSample (NewSampleProcessor 0 2) :: [PSample (NewSampleProcessor 9 9)]) None (rec_at 9 "m") =
  ([PSample (mkSample 0 2 LevelError 1 1); PSample (NewSampleProcessor 9 9)], rec_at 9 "m", Some ErrDrop).
Proof.
  exact (pipeline_short_circuit (env:=demo_env) (mkTime 5 UTC) [] (PSample (NewSampleProcessor 0 2))
    [PSample (NewSampleProcessor 9 9)] None (rec_at 9 "m") [] (rec_at 9 "m")
    (PSample (mkSample 0 2 LevelError 1 1)) (rec_at 9 "m") (Some ErrDrop) eq_refl eq_refl).
Defined.
