(* ===== verification/Memory.v ===== *)
(** * Records in memory (record.go and the processors of processor.go, redact_path.go,
    dedup.go and enrich.go on a pointer)

    A [*Record] is an address; its Fields are a slice of a backing array, which [reset]
    keeps and the next use of the pooled record overwrites.  The operations of the code
    on records, append with its in-place and its growing case included, are given on this
    memory, and each is shown to act on the record it is given as the value-level
    definition does and on no other record. *)
From S2P Require Import Prelude GoStd Level Field Record Redaction Sampling Dedup Pipeline.
Import GoTime.
Local Open Scope Z_scope.

(** A slice from the start of an array; its capacity is the array's length.  The nil
    slice is the one of the array 0, which has no slots. *)
Record Slice := mkSlice { sl_arr : Z; sl_len : nat }.
Definition nil_slice : Slice := mkSlice 0 0.

(** The fields of a Record but Fields ([r_Fields] of the header is not used). *)
Record Obj := mkObj { o_hdr : LogRecord; o_sl : Slice }.
Record Mem := mkMem { m_obj : gmap Z Obj; m_arr : gmap Z (list Field); m_next : Z }.

Definition arr_at (m : Mem) (a : Z) : list Field := default [] (m_arr m !! a).
Definition slice_fields (m : Mem) (s : Slice) : list Field := take (sl_len s) (arr_at m (sl_arr s)).
Definition obj_at (m : Mem) (a : Z) : Obj := default (mkObj zero_record nil_slice) (m_obj m !! a).
(** The record an address stands for. *)
Definition read_rec (m : Mem) (a : Z) : LogRecord := set_Fields (slice_fields m (o_sl (obj_at m a))) (o_hdr (obj_at m a)).

#[global] Arguments read_rec : simpl never.

Definition put_obj (a : Z) (o : Obj) (m : Mem) : Mem := mkMem (<[a := o]> (m_obj m)) (m_arr m) (m_next m).
Definition put_arr (a : Z) (l : list Field) (m : Mem) : Mem := mkMem (m_obj m) (<[a := l]> (m_arr m)) (m_next m).

(** [&Record{}]. *)
Definition alloc_rec (m : Mem) : Z * Mem :=
  (m_next m, mkMem (<[m_next m := mkObj zero_record nil_slice]> (m_obj m)) (m_arr m) (m_next m + 1)).

(** [append(s, fs...)]: in place when the capacity allows, else into a new array, with
    [extra] slots more than needed. *)
Definition zero_field : Field := mkField "" kindAny 0 "" VNil.
Definition go_append (extra : nat) (s : Slice) (fs : list Field) (m : Mem) : Slice * Mem :=
  let arr := arr_at m (sl_arr s) in
  let n := (sl_len s + length fs)%nat in
  if (n <=? length arr)%nat then
    (mkSlice (sl_arr s) n,
     match fs with [] => m | _ => put_arr (sl_arr s) (take (sl_len s) arr ++ fs ++ drop n arr) m end)
  else
    (mkSlice (m_next m) n,
     mkMem (m_obj m) (<[m_next m := take (sl_len s) arr ++ fs ++ replicate extra zero_field]> (m_arr m)) (m_next m + 1)).

(** Assignments to the scalar fields of [*a]. *)
Definition rec_hdr (f : LogRecord -> LogRecord) (a : Z) (m : Mem) : Mem :=
  put_obj a (mkObj (f (o_hdr (obj_at m a))) (o_sl (obj_at m a))) m.
(** [r.Fields = append(r.Fields, fs...)]. *)
Definition rec_append (extra : nat) (fs : list Field) (a : Z) (m : Mem) : Mem :=
  let '(s, m) := go_append extra (o_sl (obj_at m a)) fs m in put_obj a (mkObj (o_hdr (obj_at m a)) s) m.
(** Writes into the backing array of [r.Fields], and a new length for the slice. *)
Definition rec_arr (l : list Field) (n : nat) (a : Z) (m : Mem) : Mem :=
  let s := o_sl (obj_at m a) in
  put_obj a (mkObj (o_hdr (obj_at m a)) (mkSlice (sl_arr s) n)) (put_arr (sl_arr s) l m).

(** [for i := range r.Fields { ... r.Fields[i] = ... }]. *)
Fixpoint redact_range (p : RedactProcessor) (n i : nat) (arr : list Field) : list Field :=
  match n with
  | O => arr
  | S n' => redact_range p n' (S i) (match arr !! i with Some f => <[i := redact_one p f]> arr | None => arr end)
  end.

Section Processors.
Context {env : GoEnv}.

(** A user function on the record: it may replace scalars and fields, in place when the
    new fields fit. *)
Definition rec_store (extra : nat) (r : LogRecord) (a : Z) (m : Mem) : Mem :=
  let m := rec_hdr (fun h => set_pooled (r_pooled h) r) a m in
  let s := o_sl (obj_at m a) in
  rec_append extra (r_Fields r) a (put_obj a (mkObj (o_hdr (obj_at m a)) (mkSlice (sl_arr s) 0)) m).

(** enrich.go [Process]: up to three appends. *)
Definition mem_enrich (e : EnrichProcessor) (ctx : option Context) (extra : nat) (a : Z) (m : Mem) : Mem :=
  let ctx := match ctx with None => r_Ctx (o_hdr (obj_at m a)) | Some c => Some c end in
  match ctx with
  | None => m
  | Some c =>
      let m := match ctx_fields c with Some bound => rec_append extra bound a m | None => m end in
      let tk := if String.eqb (TraceKey e) "" then "trace_id" else TraceKey e in
      let sk := if String.eqb (SpanKey e) "" then "span_id" else SpanKey e in
      match extract_first (Extractors e) c with
      | None => m
      | Some (tid, sid) =>
          let m := if String.eqb tid "" then m else rec_append extra [FString tk tid] a m in
          if String.eqb sid "" then m else rec_append extra [FString sk sid] a m
      end
  end.

(** [p.Process(ctx, r)] for the record at [a]. *)
Definition mem_Process (now : Time) (p : Processor) (ctx : option Context) (extra : nat) (a : Z) (m : Mem) :
    Processor * Mem * option error :=
  let r := read_rec m a in
  let s := o_sl (obj_at m a) in
  let arr := arr_at m (sl_arr s) in
  match p with
  | PRedact q => (p, rec_arr (redact_range q (sl_len s) 0 arr) (sl_len s) a m, None)
  | PPath q => let '(arr', w) := redact_loop q (sl_len s) 0 0 arr in (p, rec_arr arr' w a m, None)
  | PSample q => let '(q', e) := SampleProcessor_Process q r in (PSample q', m, e)
  | PDedup q =>
      let n := ds_suppressed (state_of q (dedup_key (r_Level r) (r_Message r))) in
      let '(q', _, e) := DedupProcessor_Process q now r in
      (PDedup q', match e with None => if 0 <? n then rec_append extra [FInt uint64_ "deduped_count" n] a m else m | Some _ => m end, e)
  | PEnrich q => (p, mem_enrich q ctx extra a m, None)
  | PFunc f => let '(r', e) := f ctx r in (p, rec_store extra r' a m, e)
  end.
End Processors.

(** ** The pool *)
Record Store := mkStore { s_mem : Mem; s_pool : list Z }.

(** [newRecord]. *)
Definition mem_newRecord (pick : option nat) (s : Store) : Z * Store :=
  let '(a, s) :=
    match pick with
    | Some i =>
        match s_pool s !! i with
        | Some a => (a, mkStore (s_mem s) (delete i (s_pool s)))
        | None => let '(a, m) := alloc_rec (s_mem s) in (a, mkStore m (s_pool s))
        end
    | None => let '(a, m) := alloc_rec (s_mem s) in (a, mkStore m (s_pool s))
    end in
  (a, mkStore (rec_hdr (set_pooled true) a (s_mem s)) (s_pool s)).

(** [r.Clone()]: a new record, not pooled, with the scalars of [*a], and a copy of its
    fields appended to a new slice made with just their capacity. *)
Definition mem_Clone (a : Z) (m : Mem) : Z * Mem :=
  let r := obj_at m a in
  let fs := slice_fields m (o_sl r) in
  let '(c, m) := alloc_rec m in
  let m := rec_hdr (fun _ => set_pooled false (o_hdr r)) c m in
  let arr := m_next m in
  let m := mkMem (m_obj m) (<[arr := replicate (length fs) zero_field]> (m_arr m)) (arr + 1) in
  (c, rec_append 0 fs c (put_obj c (mkObj (o_hdr (obj_at m c)) (mkSlice arr 0)) m)).

(** [r.reset()]: the slice keeps its array. *)
Definition mem_reset (a : Z) (m : Mem) : Mem :=
  let s := o_sl (obj_at m a) in
  put_obj a (mkObj (reset (o_hdr (obj_at m a))) (mkSlice (sl_arr s) 0)) m.
Definition mem_release (a : Z) (s : Store) : Store :=
  if negb (r_pooled (o_hdr (obj_at (s_mem s) a))) then s
  else mkStore (mem_reset a (s_mem s)) (a :: s_pool s).

(** ** What the operations do *)
Record wf_mem (m : Mem) : Prop := {
  wm_next : 0 < m_next m;
  wm_zero : arr_at m 0 = [];
  wm_arr : forall a l, m_arr m !! a = Some l -> a < m_next m;
  wm_obj : forall a o, m_obj m !! a = Some o ->
    0 < a < m_next m /\ 0 <= sl_arr (o_sl o) < m_next m /\ (sl_len (o_sl o) <= length (arr_at m (sl_arr (o_sl o))))%nat;
  wm_sep : forall a b o o', m_obj m !! a = Some o -> m_obj m !! b = Some o' -> sl_arr (o_sl o) = sl_arr (o_sl o') ->
    a = b \/ sl_arr (o_sl o) = 0
}.

(** From [m] to [m'] the record at [a] becomes [r], and nothing else changes. *)
Record acts (m : Mem) (a : Z) (r : LogRecord) (m' : Mem) : Prop := {
  ac_wf : wf_mem m';
  ac_read : read_rec m' a = r;
  ac_here : is_Some (m_obj m' !! a);
  ac_obj : forall b, b <> a -> m_obj m' !! b = m_obj m !! b;
  ac_frame : forall b, b <> a -> is_Some (m_obj m !! b) -> read_rec m' b = read_rec m b
}.

Lemma obj_at_some m a o : m_obj m !! a = Some o -> obj_at m a = o.
Proof. intros E. unfold obj_at. by rewrite E. Qed.

Lemma acts_trans m1 m2 m3 a r2 r3 : acts m1 a r2 m2 -> acts m2 a r3 m3 -> acts m1 a r3 m3.
Proof.
  intros [_ _ _ O1 F1] [W2 R2 H2 O2 F2]. split; [done|done|done|intros b Hb; by rewrite O2, O1|].
  intros b Hb Hs. rewrite F2, F1; [done|done|done|done|by rewrite O1].
Qed.

(** One object gets a new header and slice, and the array of the slice a new content. *)
Lemma update_acts m a o hdr arr n l :
  wf_mem m -> m_obj m !! a = Some o -> (n <= length l)%nat ->
  ((arr = sl_arr (o_sl o) /\ length l = length (arr_at m arr)) \/ arr = m_next m) ->
  let m' := mkMem (<[a := mkObj hdr (mkSlice arr n)]> (m_obj m)) (<[arr := l]> (m_arr m)) (Z.max (m_next m) (arr + 1)) in
  acts m a (set_Fields (take n l) hdr) m'.
Proof.
  intros [W1 W2 W3 W4 W5] Ho Hn Harr m'. destruct (W4 a o Ho) as (Ha & Hs & Hl).
  assert (Hrange : 0 <= arr <= m_next m) by (destruct Harr as [[-> _]| ->]; lia).
  assert (Hother : forall b o', b <> a -> m_obj m !! b = Some o' -> sl_arr (o_sl o') = arr -> arr = 0 /\ l = []).
  { intros b o' Hb Hb' E. destruct (W4 b o' Hb') as (_ & Hs' & _). destruct Harr as [[-> Hlen]| ->]; [|lia].
    destruct (W5 b a o' o Hb' Ho E) as [|E0]; [done|]. rewrite E in E0. split; [done|]. rewrite E0, W2 in Hlen. by destruct l. }
  assert (Hat : forall b, b <> arr -> arr_at m' b = arr_at m b) by (intros b Hb; unfold arr_at, m'; simpl; by rewrite lookup_insert_ne).
  assert (Hself : arr_at m' arr = l) by (unfold arr_at, m'; simpl; by rewrite lookup_insert_eq).
  assert (Hsame : forall b o', b <> a -> m_obj m !! b = Some o' -> arr_at m' (sl_arr (o_sl o')) = arr_at m (sl_arr (o_sl o'))).
  { intros b o' Hb Hb'. destruct (decide (sl_arr (o_sl o') = arr)) as [E|]; [|by apply Hat].
    destruct (Hother b o' Hb Hb' E) as [E0 El]. rewrite E, Hself, El, E0. by rewrite W2. }
  split.
  - split; simpl.
    + lia.
    + destruct (decide (arr = 0)) as [E|]; [|by rewrite Hat by done]. rewrite E in Hself. rewrite Hself.
      destruct Harr as [[_ Hlen]|]; [|lia]. rewrite E, W2 in Hlen. by destruct l.
    + intros b l' [[<- _]|[_ Hb]]%lookup_insert_Some; [lia|]. apply W3 in Hb. lia.
    + intros b o'. destruct (decide (b = a)) as [->|Hb].
      * rewrite lookup_insert_eq. intros [= <-]. simpl. rewrite Hself. lia.
      * rewrite lookup_insert_ne by done. intros Hb'. rewrite (Hsame b o' Hb Hb'). destruct (W4 b o' Hb') as (? & ? & ?). lia.
    + intros b c o1 o2. destruct (decide (b = a)) as [->|Hb], (decide (c = a)) as [->|Hc];
        rewrite ?lookup_insert_eq, ?lookup_insert_ne by done; [by left| | |by apply W5].
      * intros [= <-] Hc' E. simpl in E. right. by apply (Hother c o2 Hc Hc').
      * intros Hb' [= <-] E. simpl in E. right. destruct (Hother b o1 Hb Hb' E). congruence.
  - unfold read_rec, slice_fields. rewrite (obj_at_some m' a (mkObj hdr (mkSlice arr n))) by apply lookup_insert_eq.
    cbn [o_sl o_hdr sl_len sl_arr]. by rewrite Hself.
  - simpl. rewrite lookup_insert_eq. by eexists.
  - intros b Hb. simpl. by rewrite lookup_insert_ne.
  - intros b Hb [o' Hb']. assert (E : m_obj m' !! b = Some o') by (simpl; by rewrite lookup_insert_ne).
    unfold read_rec, slice_fields. rewrite (obj_at_some _ _ _ E), (obj_at_some _ _ _ Hb'). by rewrite (Hsame b o').
Qed.

(** The header and the length of the slice change, no array does. *)
Lemma resize_acts m a o hdr n :
  wf_mem m -> m_obj m !! a = Some o -> (n <= length (arr_at m (sl_arr (o_sl o))))%nat ->
  acts m a (set_Fields (take n (arr_at m (sl_arr (o_sl o)))) hdr) (put_obj a (mkObj hdr (mkSlice (sl_arr (o_sl o)) n)) m).
Proof.
  intros [W1 W2 W3 W4 W5] Ho Hn. destruct (W4 a o Ho) as (Ha & Hs & Hl). split.
  - split; simpl; try done.
    + intros b o'. destruct (decide (b = a)) as [->|Hb]; [rewrite lookup_insert_eq; intros [= <-]; done|].
      rewrite lookup_insert_ne by done. apply W4.
    + intros b c o1 o2. destruct (decide (b = a)) as [->|Hb], (decide (c = a)) as [->|Hc];
        rewrite ?lookup_insert_eq, ?lookup_insert_ne by done; [by left| | |by apply W5].
      * intros [= <-] Hc' E. apply (W5 a c o o2 Ho Hc' E).
      * intros Hb' [= <-] E. apply (W5 b a o1 o Hb' Ho E).
  - unfold read_rec, slice_fields. rewrite (obj_at_some _ a (mkObj hdr (mkSlice (sl_arr (o_sl o)) n))) by apply lookup_insert_eq. done.
  - simpl. rewrite lookup_insert_eq. by eexists.
  - intros b Hb. simpl. by rewrite lookup_insert_ne.
  - intros b Hb _. unfold read_rec, slice_fields, obj_at. simpl. by rewrite lookup_insert_ne.
Qed.

Lemma read_fields_length m a o : wf_mem m -> m_obj m !! a = Some o -> length (r_Fields (read_rec m a)) = sl_len (o_sl o).
Proof.
  intros Hw Ho. destruct (wm_obj m Hw a o Ho) as (_ & _ & Hl). unfold read_rec, slice_fields. rewrite (obj_at_some _ _ _ Ho).
  cbn [r_Fields set_Fields]. rewrite length_take. lia.
Qed.
Lemma read_some m a o :
  m_obj m !! a = Some o -> read_rec m a = set_Fields (take (sl_len (o_sl o)) (arr_at m (sl_arr (o_sl o)))) (o_hdr o).
Proof. intros Ho. unfold read_rec, slice_fields. by rewrite (obj_at_some _ _ _ Ho). Qed.

(** Functions that only touch the scalar fields. *)
Definition scalar (f : LogRecord -> LogRecord) : Prop := forall fs r, set_Fields fs (f r) = f (set_Fields fs r).

Lemma hdr_acts f a m : scalar f -> wf_mem m -> is_Some (m_obj m !! a) -> acts m a (f (read_rec m a)) (rec_hdr f a m).
Proof.
  intros Hf Hw [o Ho]. unfold rec_hdr. rewrite (read_some _ _ _ Ho), (obj_at_some _ _ _ Ho), <-Hf.
  destruct (wm_obj m Hw a o Ho) as (_ & _ & Hl). pose proof (resize_acts m a o (f (o_hdr o)) (sl_len (o_sl o)) Hw Ho Hl) as Hx.
  by destruct (o_sl o).
Qed.

Lemma append_acts extra fs a m :
  wf_mem m -> is_Some (m_obj m !! a) ->
  acts m a (set_Fields (r_Fields (read_rec m a) ++ fs) (read_rec m a)) (rec_append extra fs a m).
Proof.
  intros Hw [o Ho]. pose proof (wm_obj m Hw a o Ho) as (Ha & Hs & Hl). unfold rec_append, go_append.
  rewrite (read_some _ _ _ Ho), (obj_at_some _ _ _ Ho). cbn [r_Fields set_Fields].
  set (arr := arr_at m (sl_arr (o_sl o))) in *. set (n := (sl_len (o_sl o) + length fs)%nat).
  change (set_Fields ?x (set_Fields ?y ?r)) with (set_Fields x r).
  destruct (Nat.leb_spec n (length arr)) as [Hle|Hgt].
  - destruct fs as [|f fs].
    + rewrite app_nil_r. unfold n. simpl. rewrite Nat.add_0_r, (obj_at_some _ _ _ Ho). by apply resize_acts.
    + set (l := take (sl_len (o_sl o)) arr ++ (f :: fs) ++ drop n arr).
      assert (Hlen : length l = length arr) by (unfold l; rewrite !length_app, length_take, length_drop; unfold n in *; lia).
      assert (obj_at (put_arr (sl_arr (o_sl o)) l m) a = o) as -> by (by apply obj_at_some).
      pose proof (update_acts m a o (o_hdr o) (sl_arr (o_sl o)) n l Hw Ho ltac:(lia) ltac:(by left)) as Hx.
      rewrite Z.max_l in Hx by lia.
      replace (take n l) with (take (sl_len (o_sl o)) arr ++ f :: fs) in Hx; [exact Hx|].
      unfold l. rewrite app_assoc, take_app_length'; [done|]. rewrite length_app, length_take. unfold n. lia.
  - set (l := take (sl_len (o_sl o)) arr ++ fs ++ replicate extra zero_field).
    set (m1 := mkMem (m_obj m) (<[m_next m := l]> (m_arr m)) (m_next m + 1)).
    assert (obj_at m1 a = o) as -> by (by apply obj_at_some).
    assert (Hn : (n <= length l)%nat) by (unfold l; rewrite !length_app, length_take; unfold n; lia).
    pose proof (update_acts m a o (o_hdr o) (m_next m) n l Hw Ho Hn ltac:(by right)) as Hx.
    rewrite Z.max_r in Hx by lia.
    replace (take n l) with (take (sl_len (o_sl o)) arr ++ fs) in Hx; [exact Hx|].
    unfold l. rewrite app_assoc, take_app_length'; [done|]. rewrite length_app, length_take. unfold n. lia.
Qed.

(** Writing the backing array in place. *)
Lemma arr_acts l n a m o :
  wf_mem m -> m_obj m !! a = Some o -> length l = length (arr_at m (sl_arr (o_sl o))) -> (n <= length l)%nat ->
  acts m a (set_Fields (take n l) (read_rec m a)) (rec_arr l n a m).
Proof.
  intros Hw Ho Hlen Hn. pose proof (wm_obj m Hw a o Ho) as (Ha & Hs & Hl). unfold rec_arr.
  rewrite (read_some _ _ _ Ho), (obj_at_some _ _ _ Ho). change (set_Fields ?x (set_Fields ?y ?r)) with (set_Fields x r).
  pose proof (update_acts m a o (o_hdr o) (sl_arr (o_sl o)) n l Hw Ho Hn ltac:(by left)) as Hx. rewrite Z.max_l in Hx by lia. exact Hx.
Qed.

(** ** The in-place loops *)
Lemma redact_range_spec p n : forall i arr,
  (i + n <= length arr)%nat ->
  redact_range p n i arr = take i arr ++ (redact_one p <$> take n (drop i arr)) ++ drop (i + n) arr.
Proof.
  induction n as [|n IH]; intros i arr Hn; cbn [redact_range].
  { simpl. by rewrite Nat.add_0_r, take_drop. }
  destruct (lookup_lt_is_Some_2 arr i ltac:(lia)) as [f Hf]. rewrite Hf, IH by (rewrite length_insert; lia).
  rewrite (take_S_r (<[i:=redact_one p f]> arr) i (redact_one p f)) by (apply list_lookup_insert_eq; lia).
  rewrite take_insert_ge, !drop_insert_lt by lia. rewrite (drop_S arr f i Hf). cbn [take fmap list_fmap].
  rewrite <-app_assoc. cbn [app]. by rewrite Nat.add_succ_comm.
Qed.

Section ProcessorFacts.
Context {env : GoEnv}.

Lemma enrich_acts q ctx extra a m :
  wf_mem m -> is_Some (m_obj m !! a) -> acts m a (EnrichProcessor_Process q ctx (read_rec m a)) (mem_enrich q ctx extra a m).
Proof.
  intros Hw Hs. assert (Hid : acts m a (read_rec m a) m) by (by split).
  unfold mem_enrich, EnrichProcessor_Process. change (r_Ctx (o_hdr (obj_at m a))) with (r_Ctx (read_rec m a)).
  destruct (match ctx with None => _ | Some c => _ end) as [c|]; [|done].
  assert (Happ : forall m1 r1 fs, acts m a r1 m1 -> acts m a (set_Fields (r_Fields r1 ++ fs) r1) (rec_append extra fs a m1)).
  { intros m1 r1 fs Hx. eapply acts_trans; [exact Hx|]. rewrite <-(ac_read _ _ _ _ Hx). apply append_acts; apply Hx. }
  set (m1 := match ctx_fields c with Some bound => rec_append extra bound a m | None => m end).
  set (r1 := match ctx_fields c with Some bound => _ | None => _ end).
  assert (H1 : acts m a r1 m1) by (unfold m1, r1; destruct (ctx_fields c); [by apply Happ|done]).
  destruct (extract_first (Extractors q) c) as [[tid sid]|]; [|done].
  unfold AddField. destruct (String.eqb tid ""), (String.eqb sid ""); repeat apply Happ; exact H1.
Qed.

Lemma set_pooled_self r : set_pooled (r_pooled r) r = r.
Proof. by destruct r. Qed.
Lemma set_Fields_self r : set_Fields (r_Fields r) r = r.
Proof. by destruct r. Qed.

Lemma store_acts r extra a m :
  wf_mem m -> is_Some (m_obj m !! a) -> acts m a (set_pooled (r_pooled (read_rec m a)) r) (rec_store extra r a m).
Proof.
  intros Hw [o Ho]. unfold rec_store, rec_hdr. rewrite (obj_at_some _ _ _ Ho).
  set (o1 := mkObj (set_pooled (r_pooled (o_hdr o)) r) (o_sl o)).
  rewrite (obj_at_some (put_obj a o1 m) a o1) by apply lookup_insert_eq. cbn [o_sl o1 o_hdr].
  set (m1 := put_obj a _ (put_obj a o1 m)).
  assert (Hm1 : m1 = put_obj a (mkObj (set_pooled (r_pooled (o_hdr o)) r) (mkSlice (sl_arr (o_sl o)) 0)) m).
  { unfold m1, put_obj. simpl. by rewrite insert_insert_eq. }
  pose proof (resize_acts m a o (set_pooled (r_pooled (o_hdr o)) r) 0 Hw Ho ltac:(lia)) as H1. rewrite <-Hm1 in H1.
  eapply acts_trans; [exact H1|]. pose proof (append_acts extra (r_Fields r) a m1 (ac_wf _ _ _ _ H1) (ac_here _ _ _ _ H1)) as H2.
  rewrite (ac_read _ _ _ _ H1) in H2. rewrite (read_some _ _ _ Ho). cbn in H2. cbn. by destruct r.
Qed.

(** Every processor does to the record in memory what it does to the value. *)
Lemma process_acts now p ctx extra a m p' m' e :
  wf_mem m -> is_Some (m_obj m !! a) -> mem_Process now p ctx extra a m = (p', m', e) ->
  exists r', Process now p ctx (read_rec m a) = (p', r', e) /\ acts m a (set_pooled (r_pooled (read_rec m a)) r') m'.
Proof.
  intros Hw Hs. pose proof Hs as [o Ho]. assert (Hid : acts m a (set_pooled (r_pooled (read_rec m a)) (read_rec m a)) m) by (by rewrite set_pooled_self; split).
  pose proof (wm_obj m Hw a o Ho) as (_ & _ & Hl). pose proof (read_some _ _ _ Ho) as Hr.
  unfold mem_Process, Process. rewrite (obj_at_some _ _ _ Ho). set (arr := arr_at m (sl_arr (o_sl o))) in *.
  destruct p as [q|q|q|q|q|f].
  - intros [= <- <- <-]. eexists. split; [done|]. unfold RedactProcessor_Process. rewrite redact_range_spec by lia. rewrite drop_0, Nat.add_0_l, take_0, app_nil_l.
    set (l := _ ++ drop _ arr). assert (Hlen : length l = length arr) by (unfold l; rewrite length_app, length_fmap, length_take, length_drop; lia).
    pose proof (arr_acts l (sl_len (o_sl o)) a m o Hw Ho Hlen ltac:(lia)) as Hx.
    replace (take (sl_len (o_sl o)) l) with (map (redact_one q) (r_Fields (read_rec m a))) in Hx; [exact Hx|].
    rewrite Hr. cbn [r_Fields set_Fields]. unfold l. rewrite take_app_length'; [done|]. rewrite length_fmap, length_take. lia.
  - destruct (redact_loop q (sl_len (o_sl o)) 0 0 arr) as [arr' w] eqn:El. intros [= <- <- <-]. eexists. split; [done|].
    pose proof (redact_loop_spec q arr (sl_len (o_sl o)) 0 0 arr ltac:(lia) ltac:(lia) eq_refl eq_refl eq_refl) as Hx. rewrite El in Hx.
    destruct Hx as (H1 & H2 & H3). rewrite PathRedactor_Process_omap.
    pose proof (arr_acts arr' w a m o Hw Ho H2 ltac:(lia)) as Hx. rewrite H1 in Hx.
    replace (omap (redact_field q) (take (0 + sl_len (o_sl o)) arr)) with (omap (redact_field q) (r_Fields (read_rec m a))) in Hx; [exact Hx|].
    by rewrite Hr.
  - destruct (SampleProcessor_Process q (read_rec m a)) as [q' e']. intros [= <- <- <-]. by eexists.
  - unfold DedupProcessor_Process. set (st := state_of q _). destruct (_ && _); [intros [= <- <- <-]; by eexists|].
    destruct (0 <? ds_suppressed st) eqn:En; intros [= <- <- <-]; rewrite ?En; eexists; (split; [done|]); [|done].
    unfold AddField. exact (append_acts extra _ a m Hw Hs).
  - intros [= <- <- <-]. eexists. split; [done|].
    replace (set_pooled _ _) with (EnrichProcessor_Process q ctx (read_rec m a)); [by apply enrich_acts|].
    rewrite <-set_pooled_self at 1. f_equal. unfold EnrichProcessor_Process. by repeat case_match.
  - destruct (f ctx (read_rec m a)) as [r' e'] eqn:Ef. intros [= <- <- <-]. exists r'. split; [done|]. by apply store_acts.
Qed.
End ProcessorFacts.

(** ** Allocation *)
Lemma alloc_spec m a m1 :
  wf_mem m -> alloc_rec m = (a, m1) ->
  wf_mem m1 /\ m_obj m !! a = None /\ is_Some (m_obj m1 !! a) /\ read_rec m1 a = zero_record /\
  forall b, b <> a -> m_obj m1 !! b = m_obj m !! b /\ read_rec m1 b = read_rec m b.
Proof.
  intros [W1 W2 W3 W4 W5]. unfold alloc_rec. intros [= <- <-].
  assert (Hn : m_obj m !! m_next m = None) by (destruct (m_obj m !! m_next m) eqn:E; [apply W4 in E; lia|done]).
  split_and!; [|done|simpl; rewrite lookup_insert_eq; by eexists| |].
  - split; simpl.
    + lia.
    + done.
    + intros b l Hb. apply W3 in Hb. lia.
    + intros b o [[<- <-]|[Hb Ho]]%lookup_insert_Some; [simpl; lia|]. destruct (W4 b o Ho) as (H1 & H2 & H3). unfold arr_at in *. simpl. lia.
    + intros b c o o' [[<- <-]|[Hb Ho]]%lookup_insert_Some [[<- <-]|[Hc Ho']]%lookup_insert_Some; simpl; auto. apply (W5 b c o o' Ho Ho').
  - rewrite (read_some _ _ (mkObj zero_record nil_slice)) by apply lookup_insert_eq. done.
  - intros b Hb. split; [simpl; by rewrite lookup_insert_ne|]. unfold read_rec, slice_fields, obj_at. simpl. by rewrite lookup_insert_ne.
Qed.

Lemma scalar_set_pooled b : scalar (set_pooled b).
Proof. by intros fs r. Qed.

Lemma reset_acts a m :
  wf_mem m -> is_Some (m_obj m !! a) -> acts m a (reset (read_rec m a)) (mem_reset a m).
Proof.
  intros Hw [o Ho]. unfold mem_reset. rewrite (obj_at_some _ _ _ Ho).
  pose proof (resize_acts m a o (reset (o_hdr o)) 0 Hw Ho ltac:(lia)) as Hx.
  by rewrite (read_some _ _ _ Ho).
Qed.

(** A clone is a copy: it reads as [Clone] of the record, shares its array with nobody,
    and nothing else changes. *)
Lemma clone_acts a m c m' :
  wf_mem m -> is_Some (m_obj m !! a) -> mem_Clone a m = (c, m') ->
  m_obj m !! c = None /\ acts m' c (Clone (read_rec m a)) m' /\ forall b, b <> c -> m_obj m' !! b = m_obj m !! b /\ read_rec m' b = read_rec m b.
Proof.
  intros Hw [o Ho]. unfold mem_Clone. rewrite (obj_at_some _ _ _ Ho). set (fs := slice_fields m (o_sl o)).
  destruct (alloc_rec m) as [c0 m1] eqn:Ea. destruct (alloc_spec m c0 m1 Hw Ea) as (W1 & Hfresh & [o1 Ho1] & Hz & Hold).
  set (h := set_pooled false (o_hdr o)). unfold rec_hdr. rewrite (obj_at_some _ _ _ Ho1).
  set (m2 := put_obj c0 (mkObj h (o_sl o1)) m1).
  assert (Hm2 : m_obj m2 !! c0 = Some (mkObj h (o_sl o1))) by apply lookup_insert_eq.
  set (m3 := mkMem _ (<[_ := _]> _) _). rewrite (obj_at_some m3 c0 (mkObj h (o_sl o1))) by done. cbn [o_hdr].
  set (m4 := put_obj c0 _ m3). intros [= <- <-].
  assert (A4 : acts m1 c0 (set_Fields [] h) m4).
  { pose proof (update_acts m1 c0 o1 h (m_next m1) 0 (replicate (length fs) zero_field) W1 Ho1 ltac:(lia) ltac:(by right)) as Hx.
    rewrite Z.max_r in Hx by lia. replace m4 with (mkMem (<[c0:=mkObj h (mkSlice (m_next m1) 0)]> (m_obj m1))
      (<[m_next m1:=replicate (length fs) zero_field]> (m_arr m1)) (m_next m1 + 1)); [exact Hx|].
    unfold m4, m3, m2, put_obj. simpl. by rewrite insert_insert_eq. }
  pose proof (append_acts 0 fs c0 m4 (ac_wf _ _ _ _ A4) (ac_here _ _ _ _ A4)) as A5. rewrite (ac_read _ _ _ _ A4) in A5.
  pose proof (acts_trans _ _ _ _ _ _ A4 A5) as A. destruct A as [B1 B2 B3 B4 B5].
  split; [done|]. split.
  - split; [done| |done|done|done]. rewrite B2, (read_some _ _ _ Ho). by destruct (o_hdr o).
  - intros b Hb. destruct (Hold b Hb) as [E1 E2]. split; [by rewrite B4|]. destruct (m_obj m1 !! b) as [o'|] eqn:Eb.
    + rewrite B5 by (by rewrite ?Eb). done.
    + rewrite <-E2. assert (E4 : m_obj (rec_append 0 fs c0 m4) !! b = None) by (by rewrite B4).
      unfold read_rec, slice_fields, obj_at. by rewrite E4, Eb.
Qed.

(** So whatever is then done to the record it was made from, or to any other, the clone
    keeps the values it was made with. *)
Lemma clone_isolated a m c m' b r m'' :
  wf_mem m -> is_Some (m_obj m !! a) -> mem_Clone a m = (c, m') -> b <> c -> acts m' b r m'' -> read_rec m'' c = Clone (read_rec m a).
Proof.
  intros Hw Ha Hc Hb Hx. destruct (clone_acts a m c m' Hw Ha Hc) as (_ & Hacts & _).
  rewrite (ac_frame _ _ _ _ Hx) by (congruence || apply Hacts). apply Hacts.
Qed.
