(* ===== verification/Ring.v ===== *)
(** * Circular arrays

    The two rings of the program (the FingersCrossed buffer and the ring transport)
    address [count] slots from [start] modulo the capacity; this file relates such a
    window to a list. *)
From S2P Require Import Prelude.

(** Bounded queues: the last [n] elements. *)
Definition lastn {B} (n : nat) (l : list B) : list B := drop (length l - n) l.

Lemma lastn_all {B} n (l : list B) : length l <= n -> lastn n l = l.
Proof. intros. unfold lastn. replace (length l - n) with 0 by lia. apply drop_0. Qed.

Lemma length_lastn {B} n (l : list B) : length (lastn n l) = min n (length l).
Proof. unfold lastn. rewrite length_drop. lia. Qed.

Lemma lastn_snoc {B} n (l : list B) x : 0 < n -> lastn n (lastn n l ++ [x]) = lastn n (l ++ [x]).
Proof.
  intros Hn. unfold lastn. rewrite !length_app, length_drop. simpl.
  destruct (Nat.le_gt_cases (length l) n) as [H|H].
  - replace (length l - n) with 0 by lia. rewrite drop_0. f_equal. lia.
  - rewrite !drop_app_le by (rewrite ?length_drop; lia). rewrite drop_drop. do 2 f_equal. lia.
Qed.

Lemma mod_wrap a c : a < 2 * c -> a mod c = if a <? c then a else a - c.
Proof.
  intros H. destruct (Nat.ltb_spec a c); [by apply Nat.mod_small|].
  symmetry. apply Nat.mod_unique with 1; lia.
Qed.

(** The slot before the next slot. *)
Lemma prev_slot h c : h < c -> h = ((h + 1) mod c + c - 1) mod c.
Proof.
  intros Hh. destruct (Nat.eq_dec (h + 1) c) as [E|E].
  - rewrite E, Nat.Div0.mod_same. rewrite Nat.mod_small; lia.
  - rewrite (Nat.mod_small (h + 1)) by lia. rewrite mod_wrap by lia.
    destruct (Nat.ltb_spec (h + 1 + c - 1) c); lia.
Qed.

Section Window.
Context {B : Type}.
Implicit Types (arr : list B) (cap start count : nat).

Definition window arr cap start count : list (option B) :=
  map (fun i => arr !! ((start + i) mod cap)) (seq 0 count).

Lemma length_window arr cap start count : length (window arr cap start count) = count.
Proof. unfold window. by rewrite length_map, length_seq. Qed.

Lemma window_push arr cap start count x :
  length arr = cap -> start < cap -> count < cap ->
  window (<[(start + count) mod cap := x]> arr) cap start (S count) = window arr cap start count ++ [Some x].
Proof.
  intros Hl Hs Hc. unfold window. rewrite seq_S, map_app. f_equal.
  - apply map_ext_in. intros i Hi. apply in_seq in Hi. rewrite list_lookup_insert_ne; [done|].
    rewrite !mod_wrap by lia. destruct (Nat.ltb_spec (start + count) cap), (Nat.ltb_spec (start + i) cap); lia.
  - simpl. rewrite list_lookup_insert_eq; [done|]. rewrite Hl. apply Nat.mod_upper_bound. lia.
Qed.

Lemma window_pop arr cap start count :
  start < cap -> window arr cap start (S count) = arr !! start :: window arr cap ((start + 1) mod cap) count.
Proof.
  intros Hs. unfold window. simpl. f_equal; [rewrite Nat.add_0_r, Nat.mod_small; done|].
  rewrite <-seq_shift, map_map. apply map_ext. intros i. f_equal.
  rewrite Nat.Div0.add_mod_idemp_l. f_equal. lia.
Qed.

(** Writing a slot outside the window. *)
Lemma window_insert_out arr cap start count k x :
  start < cap -> count < cap -> k = (start + cap - 1) mod cap \/ count = 0 ->
  window (<[k := x]> arr) cap start count = window arr cap start count.
Proof.
  intros Hs Hc Hk. unfold window. apply map_ext_in. intros i Hi. apply in_seq in Hi.
  apply list_lookup_insert_ne. destruct Hk as [->|]; [|lia].
  rewrite !mod_wrap by lia.
  destruct (Nat.ltb_spec (start + cap - 1) cap), (Nat.ltb_spec (start + i) cap); lia.
Qed.
End Window.
