(* ===== verification/Sink.v ===== *)
(** * Sinks (sink.go, the file/console constructors built on WriterSink, and the
    capturing sink of logtest)

    A sink is any state with the three operations of the [Sink] interface.  [Emit]
    also threads the [Heap], because decorators reach buffers through the record's
    context. *)
From S2P Require Import Prelude GoStd Level Field Record Buffer Encoder.
Local Open Scope Z_scope.

(** sink.go [Sink]. *)
Class Sink (A : Type) := {
  sink_emit : LogRecord -> A -> Heap -> A * Heap * option error;
  sink_sync : A -> A * option error;
  sink_close : A -> A * option error
}.

(** What most sinks promise to a decorator: [Emit] neither reads nor changes the
    shared buffers. *)
Class HeapFree (A : Type) {HS : Sink A} : Prop := {
  emit_heap : forall r a h, (sink_emit r a h).1.2 = h;
  emit_indep : forall r a h h', (sink_emit r a h).1.1 = (sink_emit r a h').1.1 /\ (sink_emit r a h).2 = (sink_emit r a h').2
}.

(** [io.Writer], with the optional [Sync] and [Close] the sink looks for by type assertion. *)
Class Writer (W : Type) := {
  w_write : string -> W -> W * option error;
  w_sync : option (W -> W * option error);
  w_close : option (W -> W * option error)
}.

(** ** WriterSink *)
Record WriterSink (W : Type) := mkWriterSink { ws_W : W; ws_Enc : Encoder; ws_MinLvl : Leveler }.
Arguments mkWriterSink {W}.
Arguments ws_W {W}.
Arguments ws_Enc {W}.
Arguments ws_MinLvl {W}.

Section WriterSinks.
Context {W : Type} `{Writer W}.

Definition NewWriterSink (w : W) (enc : Encoder) (minLevel : Level) : WriterSink W :=
  mkWriterSink w enc (staticLevel minLevel).
Definition set_W (w : W) (s : WriterSink W) : WriterSink W := mkWriterSink w (ws_Enc s) (ws_MinLvl s).

(** [Emit]: the pooled buffer is empty when [getBuffer] returns it. *)
Definition WriterSink_Emit (r : LogRecord) (s : WriterSink W) (h : Heap) : WriterSink W * Heap * option error :=
  if r_Level r <? Leveler_Level (ws_MinLvl s) (h_lv h) then (s, h, None)
  else
    let buf := Encode (ws_Enc s) (mkBuffer "") r in
    let '(w, err) := w_write (b_bytes buf) (ws_W s) in
    (set_W w s, h, err).
Definition WriterSink_Sync (s : WriterSink W) : WriterSink W * option error :=
  match w_sync with Some f => let '(w, e) := f (ws_W s) in (set_W w s, e) | None => (s, None) end.
Definition WriterSink_Close (s : WriterSink W) : WriterSink W * option error :=
  match w_close with Some f => let '(w, e) := f (ws_W s) in (set_W w s, e) | None => (s, None) end.

#[export] Instance WriterSink_Sink : Sink (WriterSink W) :=
  {| sink_emit := WriterSink_Emit; sink_sync := WriterSink_Sync; sink_close := WriterSink_Close |}.
End WriterSinks.

(** ** Fanout *)
Record Fanout (A : Type) := mkFanout {
  fan_sinks : list A;
  fan_hook : bool;                        (* OnError is set *)
  fan_reported : list (nat * error)       (* the calls OnError received *)
}.
Arguments mkFanout {A}.
Arguments fan_sinks {A}.
Arguments fan_hook {A}.
Arguments fan_reported {A}.

Section Fanouts.
Context {A : Type} `{Sink A}.

Definition NewFanout (sinks : list A) : Fanout A := mkFanout sinks false [].

(** The loop of [Emit]; [i] is the position of the sink. *)
Fixpoint fanout_emit (hook : bool) (r : LogRecord) (i : nat) (ss : list A) (h : Heap) : list A * Heap * list (nat * error) :=
  match ss with
  | [] => ([], h, [])
  | s :: ss' =>
      let '(s', h1, err) := sink_emit r s h in
      let '(ss'', h2, rep) := fanout_emit hook r (S i) ss' h1 in
      (s' :: ss'', h2,
       match err with Some e => if hook then (i, e) :: rep else rep | None => rep end)
  end.
Definition Fanout_Emit (r : LogRecord) (f : Fanout A) (h : Heap) : Fanout A * Heap * option error :=
  let '(ss, h', rep) := fanout_emit (fan_hook f) r 0 (fan_sinks f) h in
  (mkFanout ss (fan_hook f) (fan_reported f ++ rep), h', None).

(** [Sync] and [Close] visit every sink and keep the first error. *)
Fixpoint visit_all (op : A -> A * option error) (ss : list A) (first : option error) : list A * option error :=
  match ss with
  | [] => ([], first)
  | s :: ss' =>
      let '(s', err) := op s in
      let first' := match err, first with Some e, None => Some e | _, _ => first end in
      let '(ss'', e) := visit_all op ss' first' in
      (s' :: ss'', e)
  end.
Definition Fanout_Sync (f : Fanout A) : Fanout A * option error :=
  let '(ss, e) := visit_all sink_sync (fan_sinks f) None in (mkFanout ss (fan_hook f) (fan_reported f), e).
Definition Fanout_Close (f : Fanout A) : Fanout A * option error :=
  let '(ss, e) := visit_all sink_close (fan_sinks f) None in (mkFanout ss (fan_hook f) (fan_reported f), e).

#[export] Instance Fanout_Sink : Sink (Fanout A) :=
  {| sink_emit := Fanout_Emit; sink_sync := Fanout_Sync; sink_close := Fanout_Close |}.
End Fanouts.

(** ** logtest: the capturing sink *)
Record Entry := mkEntry { e_Level : Level; e_Message : string; e_Fields : gmap string GoVal }.
Record Capture := mkCapture { entries : list Entry }.

Definition capture_entry (r : LogRecord) : Entry :=
  mkEntry (r_Level r) (r_Message r) (fold_left (fun m f => <[Key f := Value f]> m) (r_Fields r) ∅).
Definition Capture_Emit (r : LogRecord) (c : Capture) (h : Heap) : Capture * Heap * option error :=
  (mkCapture (entries c ++ [capture_entry r]), h, None).
Definition Capture_Sync (c : Capture) : Capture * option error := (c, None).
Definition Capture_Close (c : Capture) : Capture * option error := (c, None).
#[export] Instance Capture_Sink : Sink Capture :=
  {| sink_emit := Capture_Emit; sink_sync := Capture_Sync; sink_close := Capture_Close |}.
(** A copy of the entries. *)
Definition Entries (c : Capture) : list Entry := [] ++ entries c.

#[export] Instance Capture_HeapFree : HeapFree Capture.
Proof. split; done. Qed.

(** logtest assertions: [true] when the test does not fail. *)
Definition AssertLogged (c : Capture) (level : Level) (sub : string) : bool :=
  existsb (fun e => (e_Level e =? level) && Strings.Contains (e_Message e) sub) (Entries c).
Definition AssertNoErrors (c : Capture) : bool :=
  negb (existsb (fun e => LevelError <=? e_Level e) (Entries c)).

(** ** Emitting a sequence to a heap-free sink *)
Section HeapFreeFacts.
Context {A : Type} `{HeapFree A}.

Definition emit1 (a : A) (r : LogRecord) : A := (sink_emit r a empty_heap).1.1.
Definition emits (a : A) (rs : list LogRecord) : A := fold_left emit1 rs a.

Lemma sink_emit_heapfree r a h : exists e, sink_emit r a h = (emit1 a r, h, e).
Proof.
  destruct (sink_emit r a h) as [[a' h'] e] eqn:E. exists e. unfold emit1.
  destruct (emit_indep r a h empty_heap) as [E1 _]. pose proof (emit_heap r a h) as E2.
  rewrite E in E1, E2. simpl in *. congruence.
Qed.

Lemma emits_app a rs1 rs2 : emits a (rs1 ++ rs2) = emits (emits a rs1) rs2.
Proof. apply fold_left_app. Qed.
End HeapFreeFacts.

(** ** Isolation *)
(** The heap as sink [j] finds it: after the sinks before it. *)
Definition heap_before {A} `{Sink A} (hook : bool) (r : LogRecord) (ss : list A) (h : Heap) (j : nat) : Heap :=
  (fanout_emit hook r 0 (take j ss) h).1.2.

Lemma fanout_heap_index {A} `{Sink A} hook r i i' ss h :
  (fanout_emit hook r i ss h).1.2 = (fanout_emit hook r i' ss h).1.2.
Proof.
  revert i i' h. induction ss as [|s ss IH]; intros i i' h; [done|]. cbn [fanout_emit].
  destruct (sink_emit r s h) as [[s' h1] err]. specialize (IH (S i) (S i') h1).
  destruct (fanout_emit hook r (S i) ss h1) as [[? ?] ?], (fanout_emit hook r (S i') ss h1) as [[? ?] ?]. done.
Qed.

Lemma fanout_emit_spec {A} `{Sink A} hook r i ss h :
  let '(ss', h', rep) := fanout_emit hook r i ss h in
  length ss' = length ss /\
  forall j s, ss !! j = Some s ->
    let '(s', _, e) := sink_emit r s (heap_before hook r ss h j) in
    ss' !! j = Some s' /\ (hook = true -> forall err, e = Some err -> ((i + j)%nat, err) ∈ rep).
Proof.
  revert i h. induction ss as [|s ss IH]; intros i h; cbn [fanout_emit]; [by split|].
  destruct (sink_emit r s h) as [[s' h1] err] eqn:E.
  specialize (IH (S i) h1). destruct (fanout_emit hook r (S i) ss h1) as [[ss'' h2] rep].
  destruct IH as [Hl IH]. split; [simpl; lia|]. intros [|j] s0 Hj; simpl in Hj.
  - injection Hj as <-. unfold heap_before. cbn. rewrite E. split; [done|].
    intros -> e ->. rewrite Nat.add_0_r. left.
  - specialize (IH j s0 Hj).
    assert (heap_before hook r (s :: ss) h (S j) = heap_before hook r ss h1 j) as ->.
    { unfold heap_before. cbn [take fanout_emit]. rewrite E.
      rewrite (fanout_heap_index hook r 0 1 (take j ss) h1).
      by destruct (fanout_emit hook r 1 (take j ss) h1) as [[? ?] ?]. }
    destruct (sink_emit r s0 (heap_before hook r ss h1 j)) as [[s0' ?] e0].
    destruct IH as [H1 H2]. split; [done|]. intros Hk e He. specialize (H2 Hk e He).
    replace (i + S j)%nat with (S i + j)%nat by lia.
    destruct err; [destruct hook; [by right|done]|done].
Qed.

(** C35. Failure isolation: a fan-out passes the record to every one of its sinks
    exactly once, as that sink would receive it directly after the ones before it,
    whatever errors the others return; each error reaches the hook (when one is
    installed) with the sink that raised it, and [Emit] itself never fails. *)
Theorem fanout_isolation {A} `{Sink A} r (f : Fanout A) h :
  let '(f', _, e) := Fanout_Emit r f h in
  e = None /\ length (fan_sinks f') = length (fan_sinks f) /\
  forall j s, fan_sinks f !! j = Some s ->
    let '(s', _, ej) := sink_emit r s (heap_before (fan_hook f) r (fan_sinks f) h j) in
    fan_sinks f' !! j = Some s' /\
    (fan_hook f = true -> forall err, ej = Some err -> (j, err) ∈ fan_reported f').
Proof.
  unfold Fanout_Emit. pose proof (fanout_emit_spec (fan_hook f) r 0 (fan_sinks f) h) as Hs.
  destruct (fanout_emit _ _ _ _ _) as [[ss h'] rep]. destruct Hs as [Hl Hs].
  split_and!; [done|done|]. intros j s Hj. specialize (Hs j s Hj).
  destruct (sink_emit r s _) as [[s' ?] ej]. destruct Hs as [H1 H2]. split; [done|].
  intros Hk err He. apply elem_of_app. right. by apply H2.
Qed.
