(* ===== verification/HttpSink.v ===== *)
(** * HTTP batch sinks (sink_http.go)

    The batching sink as a concurrent transition system: callers of [Emit], [Sync] and
    [Close], the timer, its callback, and the goroutines that send.  A step is one
    critical section of [h.mu], one HTTP exchange, or the firing of the timer.  The
    answer of the server is a parameter of the exchange.  Then the three request bodies. *)
From S2P Require Import Prelude GoStd Level Field Record Buffer Encoder EncoderSpec Sink.
Import GoTime.
Local Open Scope Z_scope.

(** [h.timer] when it is not nil: it has not fired yet, or it has. *)
Inductive Timer := Armed | Fired.

(** The fields Flush and Client are the environment's: an armed timer may fire at any
    later time, and the outcome of an exchange is a parameter of its step. *)
Record HTTPBatchSink := mkHTTP {
  hs_URL : string;
  hs_Headers : gmap string string;
  hs_MaxBatch : Z;
  hs_MinLvl : Level;
  hs_Build : list LogRecord -> string * string;
  hs_buf : list LogRecord;
  hs_timer : option Timer;
  hs_dropped : Z;
  hs_closed : bool
}.

Definition NewHTTPBatchSink (url : string) (minLevel : Level) (build : list LogRecord -> string * string) : HTTPBatchSink :=
  mkHTTP url ∅ 256 minLevel build [] None 0 false.

Definition WithHeader (k v : string) (h : HTTPBatchSink) : HTTPBatchSink :=
  mkHTTP (hs_URL h) (<[k := v]> (hs_Headers h)) (hs_MaxBatch h) (hs_MinLvl h) (hs_Build h) (hs_buf h) (hs_timer h)
    (hs_dropped h) (hs_closed h).

Definition hs_set (buf : list LogRecord) (tm : option Timer) (h : HTTPBatchSink) : HTTPBatchSink :=
  mkHTTP (hs_URL h) (hs_Headers h) (hs_MaxBatch h) (hs_MinLvl h) (hs_Build h) buf tm (hs_dropped h) (hs_closed h).
Definition hs_close (h : HTTPBatchSink) : HTTPBatchSink :=
  mkHTTP (hs_URL h) (hs_Headers h) (hs_MaxBatch h) (hs_MinLvl h) (hs_Build h) (hs_buf h) (hs_timer h) (hs_dropped h) true.
Definition addDropped (n : nat) (h : HTTPBatchSink) : HTTPBatchSink :=
  mkHTTP (hs_URL h) (hs_Headers h) (hs_MaxBatch h) (hs_MinLvl h) (hs_Build h) (hs_buf h) (hs_timer h)
    (u64 (hs_dropped h + Z.of_nat n)) (hs_closed h).
Definition HTTPBatchSink_Dropped (h : HTTPBatchSink) : Z := hs_dropped h.

(** [takeLocked]: stopping a timer that has fired does not stop its callback. *)
Definition takeLocked (h : HTTPBatchSink) : HTTPBatchSink * list LogRecord := (hs_set [] None h, hs_buf h).

(** The request of [send]: the headers in the order they are set (the map's order is
    the runtime's; it matters only for keys that differ in letter case). *)
Record Request := mkRequest { rq_url : string; rq_body : string; rq_headers : list (string * string) }.
Definition request (h : HTTPBatchSink) (recs : list LogRecord) : Request :=
  let '(body, ct) := hs_Build h recs in
  mkRequest (hs_URL h) body ((if String.eqb ct "" then [] else [("Content-Type", ct)]) ++ map_to_list (hs_Headers h)).

(** How the exchange ends: the request cannot be built, [Client.Do] fails, or an answer. *)
Inductive Outcome := BadRequest | DoFailed | Answer (status : Z).
Definition failed (o : Outcome) : bool :=
  match o with BadRequest | DoFailed => true | Answer c => 300 <=? c end.

(** Where a goroutine that sends is. *)
Inductive SendPC :=
| SendBatch (recs : list LogRecord)
| AddDropped (n : nat).

Inductive HObs :=
| HAccept (r : LogRecord)                              (* appended to the buffer *)
| HTake (recs : list LogRecord)                        (* a batch left the buffer *)
| HPost (recs : list LogRecord) (q : Request) (o : Outcome)
| HShut.

Record HSys := mkHSys {
  hy_h : HTTPBatchSink;
  hy_fired : nat;                                      (* callbacks of fired timers not yet run *)
  hy_sends : gmap Z SendPC
}.

(** [t] names the goroutine that sends the batch, if the step takes one. *)
Inductive HEvent :=
| HEmit (r : LogRecord) (t : Z)
| HFire
| HFlush (t : Z)
| HSync (t : Z)
| HClose (t : Z)
| HRun (t : Z) (o : Outcome).

Definition start_send (t : Z) (batch : list LogRecord) (s : HSys) : option (HSys * list HObs) :=
  match hy_sends s !! t with
  | None => Some (mkHSys (hy_h s) (hy_fired s) (<[t := SendBatch batch]> (hy_sends s)), [HTake batch])
  | Some _ => None
  end.

(** [batch := h.takeLocked(); ...; if len(batch) > 0 { h.send(batch) }]. *)
Definition flush (t : Z) (s : HSys) : option (HSys * list HObs) :=
  let '(h, batch) := takeLocked (hy_h s) in
  let s := mkHSys h (hy_fired s) (hy_sends s) in
  match batch with [] => Some (s, []) | _ => start_send t batch s end.

Definition HTTP_Emit (r : LogRecord) (t : Z) (s : HSys) : option (HSys * list HObs) :=
  let h := hy_h s in
  if r_Level r <? hs_MinLvl h then Some (s, [])
  else if hs_closed h then Some (s, [])
  else
    let buf := hs_buf h ++ [Clone r] in
    let h := hs_set buf (hs_timer h) h in
    if hs_MaxBatch h <=? Z.of_nat (length buf) then
      let '(h, batch) := takeLocked h in
      match start_send t batch (mkHSys h (hy_fired s) (hy_sends s)) with
      | Some (s', os) => Some (s', HAccept (Clone r) :: os)
      | None => None
      end
    else
      let tm := match hs_timer h with None => Some Armed | Some x => Some x end in
      Some (mkHSys (hs_set buf tm h) (hy_fired s) (hy_sends s), [HAccept (Clone r)]).

(** [send]. *)
Definition run_send (t : Z) (o : Outcome) (s : HSys) : option (HSys * list HObs) :=
  match hy_sends s !! t with
  | Some (SendBatch recs) =>
      let m := if failed o then <[t := AddDropped (length recs)]> (hy_sends s) else delete t (hy_sends s) in
      Some (mkHSys (hy_h s) (hy_fired s) m, [HPost recs (request (hy_h s) recs) o])
  | Some (AddDropped n) => Some (mkHSys (addDropped n (hy_h s)) (hy_fired s) (delete t (hy_sends s)), [])
  | None => None
  end.

Definition h_step (e : HEvent) (s : HSys) : option (HSys * list HObs) :=
  match e with
  | HEmit r t => HTTP_Emit r t s
  | HFire =>
      match hs_timer (hy_h s) with
      | Some Armed => Some (mkHSys (hs_set (hs_buf (hy_h s)) (Some Fired) (hy_h s)) (S (hy_fired s)) (hy_sends s), [])
      | _ => None
      end
  | HFlush t =>
      match hy_fired s with
      | S n => flush t (mkHSys (hy_h s) n (hy_sends s))
      | O => None
      end
  | HSync t => flush t s
  | HClose t =>
      match flush t (mkHSys (hs_close (hy_h s)) (hy_fired s) (hy_sends s)) with
      | Some (s', os) => Some (s', HShut :: os)
      | None => None
      end
  | HRun t o => run_send t o s
  end.

Abbreviation h_run := (run_steps h_step).
Abbreviation h_reach := (reaches h_step).

Definition h_start (h : HTTPBatchSink) : HSys := mkHSys h 0 ∅.


(** ** Readings of a trace *)
Definition h_accepted (tr : list HObs) : list LogRecord := omap (fun o => match o with HAccept r => Some r | _ => None end) tr.
Definition h_taken (tr : list HObs) : list (list LogRecord) := omap (fun o => match o with HTake b => Some b | _ => None end) tr.
Definition h_posted (tr : list HObs) : list (list LogRecord * Request * Outcome) :=
  omap (fun o => match o with HPost b q x => Some (b, q, x) | _ => None end) tr.
Definition h_shut (tr : list HObs) : bool := existsb (fun o => match o with HShut => true | _ => false end) tr.

(** The batches posted, and the records of those the server did not accept. *)
Definition posted_batches (tr : list HObs) : list (list LogRecord) := (fun p => p.1.1) <$> h_posted tr.
Definition lost (tr : list HObs) : nat :=
  sum_list_with (fun p => if failed p.2 then length p.1.1 else 0%nat) (h_posted tr).

Lemma h_accepted_app t1 t2 : h_accepted (t1 ++ t2) = h_accepted t1 ++ h_accepted t2.
Proof. apply omap_app. Qed.
Lemma h_taken_app t1 t2 : h_taken (t1 ++ t2) = h_taken t1 ++ h_taken t2.
Proof. apply omap_app. Qed.
Lemma h_posted_app t1 t2 : h_posted (t1 ++ t2) = h_posted t1 ++ h_posted t2.
Proof. apply omap_app. Qed.
Lemma h_shut_app t1 t2 : h_shut (t1 ++ t2) = h_shut t1 || h_shut t2.
Proof. apply existsb_app. Qed.
Lemma posted_batches_app t1 t2 : posted_batches (t1 ++ t2) = posted_batches t1 ++ posted_batches t2.
Proof. unfold posted_batches. by rewrite h_posted_app, fmap_app. Qed.
Lemma lost_app t1 t2 : lost (t1 ++ t2) = (lost t1 + lost t2)%nat.
Proof. unfold lost. by rewrite h_posted_app, sum_list_with_app. Qed.

Create Rewrite HintDb http.
#[export] Hint Rewrite h_accepted_app h_taken_app h_shut_app posted_batches_app lost_app @app_nil_r orb_false_r Nat.add_0_r : http.
Ltac http_norm := autorewrite with http; cbn [h_accepted h_taken h_shut omap list_omap existsb]; autorewrite with http.

(** The batches being sent, and the drops not yet counted. *)
Definition sending (m : gmap Z SendPC) : list (list LogRecord) :=
  omap (fun kv => match kv.2 with SendBatch b => Some b | _ => None end) (map_to_list m).
Definition uncounted (m : gmap Z SendPC) : nat :=
  sum_list_with (fun kv => match kv.2 with AddDropped n => n | _ => 0%nat end) (map_to_list m).

Lemma sending_insert m t pc :
  m !! t = None -> sending (<[t := pc]> m) ≡ₚ (match pc with SendBatch b => [b] | _ => [] end) ++ sending m.
Proof.
  intros Hn. unfold sending. rewrite (map_to_list_insert m t pc Hn). simpl. by destruct pc.
Qed.
Lemma uncounted_insert m t pc :
  m !! t = None -> uncounted (<[t := pc]> m) = ((match pc with AddDropped n => n | _ => 0 end) + uncounted m)%nat.
Proof. intros Hn. unfold uncounted. by rewrite (map_to_list_insert m t pc Hn). Qed.

(** Goroutine [t], at [pc], moves to [o] or ends. *)
Lemma sending_lookup m t pc :
  m !! t = Some pc -> sending m ≡ₚ (match pc with SendBatch b => [b] | _ => [] end) ++ sending (delete t m).
Proof. intros Ht. rewrite <-(insert_delete_id m t pc Ht) at 1. apply sending_insert, lookup_delete_eq. Qed.
Lemma uncounted_lookup m t pc :
  m !! t = Some pc -> uncounted m = ((match pc with AddDropped n => n | _ => 0 end) + uncounted (delete t m))%nat.
Proof. intros Ht. rewrite <-(insert_delete_id m t pc Ht) at 1. apply uncounted_insert, lookup_delete_eq. Qed.

(** ** The invariant *)
Section Inv.
Context (h0 : HTTPBatchSink).
Definition max_batch : nat := Z.to_nat (Z.max 1 (hs_MaxBatch h0)).

Record http_inv (s : HSys) (tr : list HObs) : Prop := {
  hi_cfg : hs_MaxBatch (hy_h s) = hs_MaxBatch h0 /\ hs_URL (hy_h s) = hs_URL h0 /\ hs_Headers (hy_h s) = hs_Headers h0 /\
           hs_Build (hy_h s) = hs_Build h0;
  hi_order : h_accepted tr = concat (h_taken tr) ++ hs_buf (hy_h s);
  hi_size : Forall (fun b => 1 <= length b <= max_batch)%nat (h_taken tr);
  hi_buf : (length (hs_buf (hy_h s)) < max_batch)%nat;
  hi_sends : h_taken tr ≡ₚ posted_batches tr ++ sending (hy_sends s);
  hi_requests : Forall (fun p => p.1.2 = request h0 p.1.1) (h_posted tr);
  hi_dropped : hs_dropped (hy_h s) = u64 (Z.of_nat (lost tr) - Z.of_nat (uncounted (hy_sends s)));
  hi_timer : hs_buf (hy_h s) <> [] -> hs_timer (hy_h s) <> None;
  hi_fired : hs_timer (hy_h s) = Some Fired -> (0 < hy_fired s)%nat;
  hi_closed : hs_closed (hy_h s) = h_shut tr;
  hi_shut : h_shut tr = true -> hs_buf (hy_h s) = []
}.

(** A step that first observes [os1] and leaves [s1], and then takes the buffer. *)
Lemma hi_flush s tr s1 os1 t s' os :
  http_inv s tr ->
  hs_MaxBatch (hy_h s1) = hs_MaxBatch (hy_h s) /\ hs_URL (hy_h s1) = hs_URL (hy_h s) /\
    hs_Headers (hy_h s1) = hs_Headers (hy_h s) /\ hs_Build (hy_h s1) = hs_Build (hy_h s) ->
  hs_dropped (hy_h s1) = hs_dropped (hy_h s) -> hy_sends s1 = hy_sends s ->
  h_taken os1 = [] -> h_posted os1 = [] ->
  h_accepted (tr ++ os1) = concat (h_taken tr) ++ hs_buf (hy_h s1) ->
  (length (hs_buf (hy_h s1)) <= max_batch)%nat -> hs_closed (hy_h s1) = h_shut (tr ++ os1) ->
  flush t s1 = Some (s', os) -> http_inv s' (tr ++ (os1 ++ os)).
Proof.
  intros [I1 I2 I3 I4 I5 I6 I7 I8 I9 I10 I11] (C1 & C2 & C3 & C4) Hd Hs Ht1 Hp1 Ha Hl Hc Hst.
  assert (Hmb : (0 < max_batch)%nat) by (unfold max_batch; lia).
  assert (Hpb : posted_batches os1 = []) by (unfold posted_batches; by rewrite Hp1).
  assert (Hlo : lost os1 = 0%nat) by (unfold lost; by rewrite Hp1).
  unfold flush in Hst. simpl in Hst. destruct (hs_buf (hy_h s1)) as [|b bs] eqn:Eb.
  - injection Hst as <- <-. rewrite app_nil_r in *.
    split; cbn [hy_h hy_sends hs_buf hs_timer hs_dropped hs_closed hs_set hs_MaxBatch hs_URL hs_Headers hs_Build]; try done;
      rewrite ?h_taken_app, ?posted_batches_app, ?lost_app, ?h_posted_app, ?Ht1, ?Hpb, ?Hlo, ?Hp1, ?Hd, ?Hs, ?app_nil_r, ?Nat.add_0_r; try done.
    + by rewrite C1, C2, C3, C4.
  - unfold start_send in Hst. simpl in Hst. destruct (hy_sends s1 !! t) eqn:Et; [done|]. injection Hst as <- <-.
    rewrite (assoc_L (++)). rewrite Hs in Et.
    split; cbn [hy_h hy_sends hs_buf hs_timer hs_dropped hs_closed hs_set hs_MaxBatch hs_URL hs_Headers hs_Build]; try done;
      http_norm; rewrite ?h_posted_app, ?Ht1, ?Hpb, ?Hlo, ?Hp1, ?Hd, ?Hs; simpl; rewrite ?app_nil_r, ?Nat.add_0_r; try done.
    + by rewrite C1, C2, C3, C4.
    + rewrite h_accepted_app in Ha. rewrite Ha, concat_app. simpl. by rewrite app_nil_r.
    + apply Forall_app. split; [done|]. apply Forall_singleton. simpl in *. lia.
    + rewrite sending_insert by done. simpl. rewrite I5. unfold posted_batches at 2. simpl. rewrite ?app_nil_r.
      rewrite <-(assoc_L (++)). apply Permutation_app_head. by rewrite Permutation_app_comm.
    + rewrite uncounted_insert by done. done.
    + by rewrite Hc, h_shut_app.
Qed.

Lemma hi_emit r t s tr s' os : http_inv s tr -> HTTP_Emit r t s = Some (s', os) -> http_inv s' (tr ++ os).
Proof.
  intros Hi. unfold HTTP_Emit. destruct (r_Level r <? _); [intros [= <- <-]; by rewrite app_nil_r|].
  destruct (hs_closed (hy_h s)) eqn:Hc; [intros [= <- <-]; by rewrite app_nil_r|].
  pose proof Hi as [I1 I2 I3 I4 I5 I6 I7 I8 I9 I10 I11].
  assert (Hshut : h_shut tr = false) by congruence.
  cbn [hs_set hs_MaxBatch]. destruct (Z.leb_spec (hs_MaxBatch (hy_h s)) (Z.of_nat (length (hs_buf (hy_h s) ++ [Clone r])))) as [Hle|Hlt].
  - intros Hst.
    set (s1 := mkHSys (hs_set (hs_buf (hy_h s) ++ [Clone r]) (hs_timer (hy_h s)) (hy_h s)) (hy_fired s) (hy_sends s)).
    assert (exists os', flush t s1 = Some (s', os') /\ os = [HAccept (Clone r)] ++ os') as (os' & Hfl & ->).
    { unfold flush. simpl in *. destruct (hs_buf (hy_h s) ++ [Clone r]) as [|b bs] eqn:E; [by destruct (hs_buf (hy_h s))|].
      destruct (start_send t (b :: bs) _) as [[s2 os2]|]; [|done]. injection Hst as <- <-. by exists os2. }
    apply (hi_flush s tr s1 [HAccept (Clone r)] t); try done; cbn [s1 hy_h hs_set hs_buf hs_closed].
    + rewrite h_accepted_app, I2, <-(assoc_L (++)). done.
    + rewrite length_app. simpl. lia.
    + by rewrite h_shut_app, Hshut.
  - intros [= <- <-]. rewrite length_app in Hlt. simpl in Hlt.
    split; cbn [hy_h hy_sends hy_fired hs_buf hs_timer hs_dropped hs_closed hs_set hs_MaxBatch hs_URL hs_Headers hs_Build]; try done;
      http_norm; rewrite ?h_posted_app; simpl; rewrite ?app_nil_r, ?Nat.add_0_r; try done.
    + by rewrite I2, <-(assoc_L (++)).
    + rewrite length_app. simpl. unfold max_batch. destruct I1 as [<- _]. lia.
    + intros _. by destruct (hs_timer (hy_h s)).
    + intros E. apply I9. by destruct (hs_timer (hy_h s)).
    + congruence.
Qed.

Lemma hi_run t o s tr s' os : http_inv s tr -> run_send t o s = Some (s', os) -> http_inv s' (tr ++ os).
Proof.
  intros [I1 I2 I3 I4 I5 I6 I7 I8 I9 I10 I11]. unfold run_send. destruct (hy_sends s !! t) as [[recs|n]|] eqn:Et; [| |done].
  - intros [= <- <-]. assert (Hrq : request (hy_h s) recs = request h0 recs).
    { unfold request. destruct I1 as (_ & -> & -> & ->). done. }
    split; cbn [hy_h hy_sends hy_fired]; http_norm; rewrite ?h_posted_app; simpl; rewrite ?app_nil_r; try done.
    + rewrite I5, (sending_lookup _ _ _ Et). unfold posted_batches at 3. simpl. rewrite <-(assoc_L (++)). apply Permutation_app_head. simpl.
      constructor. destruct (failed o); [|done]. rewrite <-insert_delete_eq, sending_insert by apply lookup_delete_eq. done.
    + apply Forall_app. split; [done|]. by apply Forall_singleton.
    + rewrite I7, (uncounted_lookup _ _ _ Et). simpl. unfold lost at 3. simpl. destruct (failed o); f_equal; [|lia].
      rewrite <-insert_delete_eq, uncounted_insert by apply lookup_delete_eq. lia.
  - intros [= <- <-]. rewrite app_nil_r. split; cbn [hy_h hy_sends hy_fired addDropped hs_buf hs_timer hs_dropped hs_closed hs_MaxBatch hs_URL hs_Headers hs_Build]; try done.
    + by rewrite I5, (sending_lookup _ _ _ Et).
    + rewrite I7, u64_add_l, (uncounted_lookup _ _ _ Et). f_equal. lia.
Qed.

Lemma hi_step e s tr s' os : http_inv s tr -> h_step e s = Some (s', os) -> http_inv s' (tr ++ os).
Proof.
  intros Hi. pose proof Hi as [I1 I2 I3 I4 I5 I6 I7 I8 I9 I10 I11].
  destruct e as [r t| |t|t|t|t o]; cbn [h_step]; [by apply hi_emit| | | | |by apply hi_run].
  - destruct (hs_timer (hy_h s)) as [[]|] eqn:Et; try done. intros [= <- <-]. rewrite app_nil_r.
    split; cbn [hy_h hy_sends hy_fired hs_buf hs_timer hs_dropped hs_closed hs_set hs_MaxBatch hs_URL hs_Headers hs_Build]; try done.
    intros _. lia.
  - destruct (hy_fired s) as [|n]; [done|]. intros Hst.
    apply (hi_flush s tr (mkHSys (hy_h s) n (hy_sends s)) [] t); rewrite ?app_nil_r; try done. simpl. lia.
  - intros Hst. apply (hi_flush s tr s [] t); rewrite ?app_nil_r; try done. lia.
  - destruct (flush t _) as [[s1 os1]|] eqn:E; [|done]. intros [= <- <-].
    apply (hi_flush s tr (mkHSys (hs_close (hy_h s)) (hy_fired s) (hy_sends s)) [HShut] t); try done; simpl; [|lia|].
    + rewrite h_accepted_app. by rewrite I2, app_nil_r.
    + by rewrite h_shut_app, orb_true_r.
Qed.

Lemma h_reach_inv s tr :
  hs_buf h0 = [] -> hs_timer h0 = None -> hs_dropped h0 = 0 -> hs_closed h0 = false ->
  h_reach (h_start h0) s tr -> http_inv s tr.
Proof.
  intros Hb Ht Hd Hc. induction 1 as [|s tr e s' os _ IH Hst]; [|by eapply hi_step].
  split; simpl; rewrite ?Hb, ?Ht, ?Hd; try done. unfold max_batch. simpl. lia.
Qed.
End Inv.

(** A sink as its constructor leaves it (its settings may have been changed). *)
Definition fresh (h : HTTPBatchSink) : Prop :=
  hs_buf h = [] /\ hs_timer h = None /\ hs_dropped h = 0 /\ hs_closed h = false.

(** The rest of a [send] by goroutine [t] after its exchange ends with [o]. *)
Definition send_events (t : Z) (o : Outcome) (batch : list LogRecord) : list HEvent :=
  match batch with [] => [] | _ => HRun t o :: (if failed o then [HRun t o] else []) end.

Lemma flush_sends s s1 os1 t o :
  flush t s = Some (s1, os1) -> hy_sends s !! t = None ->
  exists s2 os2, h_run (send_events t o (hs_buf (hy_h s))) s1 = Some (s2, os2) /\
    posted_batches (os1 ++ os2) = (match hs_buf (hy_h s) with [] => [] | b => [b] end) /\
    hy_sends s2 = hy_sends s /\ hs_buf (hy_h s2) = [].
Proof.
  unfold flush. simpl. intros Hst Ht. destruct (hs_buf (hy_h s)) as [|b bs].
  - injection Hst as <- <-. by exists (mkHSys (hs_set [] None (hy_h s)) (hy_fired s) (hy_sends s)), [].
  - unfold start_send in Hst. simpl in Hst. rewrite Ht in Hst. injection Hst as <- <-. simpl. unfold run_send. simpl.
    rewrite lookup_insert_eq. destruct (failed o); simpl.
    + unfold run_send. simpl. rewrite insert_insert_eq, lookup_insert_eq. eexists _, _. split; [done|]. simpl.
      by rewrite delete_insert_id.
    + eexists _, _. split; [done|]. simpl. by rewrite delete_insert_id.
Qed.

(** C14. The batch sink loses no record unnoticed.  Under every interleaving of callers,
    timer and senders: the records accepted are, in order, those of the batches taken
    followed by those in the buffer; every batch has between one record and MaxBatch;
    each batch taken is posted exactly once or still being sent, with the request its
    Build function, URL and headers give; the drop counter is the number of records in
    the batches that failed, less those not yet counted; while records wait, a timer is
    armed or its callback is due; after Close nothing waits.  And Sync by a goroutine
    that runs alone posts exactly the waiting records, whatever the server answers. *)
Theorem http_batch_accounting h0 s tr :
  fresh h0 -> h_reach (h_start h0) s tr ->
  h_accepted tr = concat (h_taken tr) ++ hs_buf (hy_h s) /\
  Forall (fun b => 1 <= length b <= max_batch h0)%nat (h_taken tr) /\
  h_taken tr ≡ₚ posted_batches tr ++ sending (hy_sends s) /\
  Forall (fun p => p.1.2 = request h0 p.1.1) (h_posted tr) /\
  hs_dropped (hy_h s) = u64 (Z.of_nat (lost tr) - Z.of_nat (uncounted (hy_sends s))) /\
  (hs_buf (hy_h s) <> [] -> hs_timer (hy_h s) = Some Armed \/ (0 < hy_fired s)%nat) /\
  (h_shut tr = true -> hs_buf (hy_h s) = []) /\
  (forall t o, hy_sends s !! t = None ->
     exists s' os, h_run (HSync t :: send_events t o (hs_buf (hy_h s))) s = Some (s', os) /\
       posted_batches os = (match hs_buf (hy_h s) with [] => [] | b => [b] end) /\
       hy_sends s' = hy_sends s /\ hs_buf (hy_h s') = []).
Proof.
  intros (Hb & Ht & Hd & Hc) Hr. destruct (h_reach_inv h0 s tr Hb Ht Hd Hc Hr) as [I1 I2 I3 I4 I5 I6 I7 I8 I9 I10 I11].
  split_and!; try done.
  - intros Hne. specialize (I8 Hne). destruct (hs_timer (hy_h s)) as [[]|]; [by left|right; auto|done].
  - intros t o Hn. destruct (flush t s) as [[s1 os1]|] eqn:E.
    + destruct (flush_sends s s1 os1 t o E Hn) as (s2 & os2 & Hrun & Hp & Hs & Hbuf). exists s2, (os1 ++ os2).
      simpl. rewrite E, Hrun. done.
    + exfalso. unfold flush in E. simpl in E. destruct (hs_buf (hy_h s)); [done|]. unfold start_send in E. simpl in E. by rewrite Hn in E.
Qed.

(** ** A run: batches of two, a timer that fires late, a failing server *)
Definition h_msg (m : string) : LogRecord := mkRecord zero_time LevelInfo m 0 "" [] (Some Background) false.
Definition demo_sink : HTTPBatchSink :=
  mkHTTP "http://logs" ∅ 2 LevelDebug (fun recs => (str_concat (map r_Message recs), "text/plain")) [] None 0 false.
Definition http_events : list HEvent :=
  [HEmit (h_msg "a") 1; HFire; HEmit (h_msg "b") 1; HEmit (h_msg "c") 2; HFlush 3; HRun 1 (Answer 503); HRun 3 (Answer 204);
   HEmit (h_msg "d") 2].
Definition http_end : HSys * list HObs := default (h_start demo_sink, []) (h_run http_events (h_start demo_sink)).

Lemma http_batch_accounting_witness :
  map (map r_Message) (h_taken http_end.2) = [["a"; "b"]; ["c"]]%string /\ lost http_end.2 = 2%nat /\
  h_accepted http_end.2 = concat (h_taken http_end.2) ++ hs_buf (hy_h http_end.1) /\
  hs_dropped (hy_h http_end.1) = u64 (Z.of_nat (lost http_end.2) - 2).
Proof.
  destruct (http_batch_accounting demo_sink http_end.1 http_end.2) as (H1 & _ & _ & _ & H5 & _).
  - repeat split.
  - apply (run_from_start http_events). vm_compute. reflexivity.
  - split_and!; [vm_compute; reflexivity|vm_compute; reflexivity|exact H1|exact H5].
Defined.
