(* ===== verification/FingersCrossed.v ===== *)
(** * Debug-on-error buffering (fingerscrossed.go)

    Buffers are objects of the shared heap: one per scope, reached through the
    record's context, and a global one per sink. *)
From S2P Require Import Prelude GoStd Level Field Record Ring Sink.
Local Open Scope Z_scope.

(** ** fcBuffer *)
Definition newFCBuffer (capacity : Z) : fcBuffer :=
  let c := if capacity <? 1 then 256%nat else Z.to_nat capacity in
  mkFC (replicate c None) 0 0 false c.

Definition push (r : LogRecord) (b : fcBuffer) : fcBuffer :=
  let idx := ((fc_start b + fc_count b) mod fc_cap b)%nat in
  if (fc_count b =? fc_cap b)%nat then
    mkFC (<[fc_start b := Some r]> (ring b)) ((fc_start b + 1) mod fc_cap b)%nat (fc_count b) (activated b) (fc_cap b)
  else
    mkFC (<[idx := Some r]> (ring b)) (fc_start b) (fc_count b + 1) (activated b) (fc_cap b).

(** The pointers [drain] collects, oldest first. *)
Definition drained (b : fcBuffer) : list (option LogRecord) :=
  map (fun i => default None (ring b !! ((fc_start b + i) mod fc_cap b)%nat)) (seq 0 (fc_count b)).
Definition drain (b : fcBuffer) : list (option LogRecord) * fcBuffer :=
  (drained b, mkFC (ring b) 0 0 (activated b) (fc_cap b)).

(** ** The sink decorator *)
Record FingersCrossed (A : Type) := mkFingers {
  fc_inner : A;
  Activation : Level;
  BufferSize : Z;
  PassThrough : Level;
  fc_global : Z              (* pointer to the global buffer *)
}.
Arguments mkFingers {A}.
Arguments fc_inner {A}.
Arguments Activation {A}.
Arguments BufferSize {A}.
Arguments PassThrough {A}.
Arguments fc_global {A}.

(** Allocation of a buffer. *)
Definition new_fc (b : fcBuffer) (h : Heap) : Z * Heap :=
  (h_next h, mkHeap (<[h_next h := b]> (h_fc h)) (h_span h) (h_lv h) (h_next h + 1)).

Definition FCScope (ctx : Context) (h : Heap) : list CtxVal * Heap :=
  let '(p, h') := new_fc (newFCBuffer 256) h in (CFC p :: ctx, h').

Section FC.
Context {A : Type} `{Sink A}.

Definition NewFingersCrossed (inner : A) (h : Heap) : FingersCrossed A * Heap :=
  let '(p, h') := new_fc (newFCBuffer 256) h in (mkFingers inner LevelError 256 0 p, h').

Definition bufFor (f : FingersCrossed A) (r : LogRecord) : Z :=
  match r_Ctx r with
  | Some c => match ctx_fc c with Some p => p | None => fc_global f end
  | None => fc_global f
  end.

Definition get_fc (p : Z) (h : Heap) : fcBuffer := default (newFCBuffer 256) (h_fc h !! p).
Definition put_fc (p : Z) (b : fcBuffer) (h : Heap) : Heap := set_fc (<[p := b]> (h_fc h)) h.
Definition set_inner (a : A) (f : FingersCrossed A) : FingersCrossed A :=
  mkFingers a (Activation f) (BufferSize f) (PassThrough f) (fc_global f).

Definition act_level (f : FingersCrossed A) : Level := if Activation f =? 0 then LevelError else Activation f.

(** [for _, hr := range held { _ = f.inner.Emit(hr) }]. *)
Fixpoint flush (held : list (option LogRecord)) (a : A) (h : Heap) : A * Heap :=
  match held with
  | [] => (a, h)
  | hr :: held' =>
      match hr with
      | Some r => let '(a', h', _) := sink_emit r a h in flush held' a' h'
      | None => flush held' a h
      end
  end.

Definition FC_Emit (r : LogRecord) (f : FingersCrossed A) (h : Heap) : FingersCrossed A * Heap * option error :=
  let act := act_level f in
  let p := bufFor f r in
  let b := get_fc p h in
  let pass h := let '(a, h', e) := sink_emit r (fc_inner f) h in (set_inner a f, h', e) in
  if activated b then pass h
  else if act <=? r_Level r then
    let b := mkFC (ring b) (fc_start b) (fc_count b) true (fc_cap b) in
    let '(held, b) := drain b in
    let h := put_fc p b h in
    let '(a, h) := flush held (fc_inner f) h in
    let '(a, h, e) := sink_emit r a h in
    (set_inner a f, h, e)
  else if negb (PassThrough f =? 0) && (PassThrough f <=? r_Level r) then pass h
  else (f, put_fc p (push (Clone r) b) h, None).

Definition FC_Sync (f : FingersCrossed A) : FingersCrossed A * option error :=
  let '(a, e) := sink_sync (fc_inner f) in (set_inner a f, e).
Definition FC_Close (f : FingersCrossed A) : FingersCrossed A * option error :=
  let '(a, e) := sink_close (fc_inner f) in (set_inner a f, e).

#[export] Instance FC_Sink : Sink (FingersCrossed A) :=
  {| sink_emit := FC_Emit; sink_sync := FC_Sync; sink_close := FC_Close |}.
End FC.

(** ** The ring is a bounded queue that forgets its oldest element *)
Definition fc_repr (b : fcBuffer) (l : list LogRecord) : Prop :=
  (0 < fc_cap b)%nat /\ length (ring b) = fc_cap b /\ (fc_start b < fc_cap b)%nat /\ (fc_count b <= fc_cap b)%nat /\
  window (ring b) (fc_cap b) (fc_start b) (fc_count b) = map (fun r => Some (Some r)) l.

Lemma fc_repr_length b l : fc_repr b l -> length l = fc_count b.
Proof.
  intros (_ & _ & _ & _ & Hw). apply (f_equal length) in Hw. rewrite length_window, length_map in Hw. done.
Qed.

Lemma newFCBuffer_repr c : fc_repr (newFCBuffer c) [].
Proof.
  unfold newFCBuffer, fc_repr. simpl. rewrite length_replicate.
  destruct (Z.ltb_spec c 1); split_and!; try lia; done.
Qed.

Lemma push_repr b l r : fc_repr b l -> fc_repr (push r b) (lastn (fc_cap b) (l ++ [r])).
Proof.
  intros Hr. pose proof (fc_repr_length b l Hr) as Hl. destruct Hr as (Hc & Hlen & Hs & Hn & Hw).
  unfold push. destruct (Nat.eqb_spec (fc_count b) (fc_cap b)) as [E|E]; unfold fc_repr; simpl.
  - destruct l as [|x l]; [simpl in Hl; lia|]. simpl in Hl.
    assert (lastn (fc_cap b) ((x :: l) ++ [r]) = l ++ [r]) as ->.
    { unfold lastn. rewrite length_app. simpl. by replace (length l + 1 - fc_cap b + 0)%nat with 0%nat by lia;
      replace (S (length l + 1) - fc_cap b)%nat with 1%nat by lia. }
    split_and!; [done|by rewrite length_insert|apply Nat.mod_upper_bound; lia|lia|].
    rewrite <-Hl, window_pop in Hw by done. injection Hw as Hx Hw.
    assert (Hlt : ((fc_start b + 1) mod fc_cap b < fc_cap b)%nat) by (apply Nat.mod_upper_bound; lia).
    pose proof (window_push (ring b) (fc_cap b) ((fc_start b + 1) mod fc_cap b) (length l) (Some r) Hlen Hlt ltac:(lia)) as Hp.
    replace (((fc_start b + 1) mod fc_cap b + length l) mod fc_cap b)%nat with (fc_start b) in Hp.
    + rewrite <-Hl. rewrite Hp, Hw, map_app. done.
    + rewrite Nat.Div0.add_mod_idemp_l. replace (fc_start b + 1 + length l)%nat with (fc_start b + fc_cap b)%nat by lia.
      rewrite mod_wrap by lia. destruct (Nat.ltb_spec (fc_start b + fc_cap b) (fc_cap b)); lia.
  - rewrite lastn_all by (rewrite length_app; simpl; lia).
    split_and!; [done|by rewrite length_insert|done|lia|].
    rewrite Nat.add_1_r, window_push by (done || lia). by rewrite Hw, map_app.
Qed.

Lemma push_cap r b : fc_cap (push r b) = fc_cap b /\ activated (push r b) = activated b.
Proof. unfold push. by case_if. Qed.

Lemma drain_repr b l : fc_repr b l -> drained b = map Some l /\ fc_repr (drain b).2 [].
Proof.
  intros (Hc & Hlen & Hs & Hn & Hw). split; [|by unfold fc_repr; simpl; split_and!; try lia].
  unfold drained. unfold window in Hw.
  apply (f_equal (map (default None))) in Hw. rewrite !map_map in Hw. exact Hw.
Qed.

#[export] Hint Resolve push_repr newFCBuffer_repr : golog.

(** ** Emit, case by case, over a heap-free inner sink *)
Section Behaviour.
Context {A : Type} {HA : Sink A} {HF : HeapFree A}.
Implicit Types (f : FingersCrossed A) (h : Heap).

Fixpoint fc_run (f : FingersCrossed A) (h : Heap) (rs : list LogRecord) : FingersCrossed A * Heap :=
  match rs with
  | [] => (f, h)
  | r :: rs' => let '(f', h', _) := FC_Emit r f h in fc_run f' h' rs'
  end.

Lemma fc_run_app f h rs1 rs2 :
  fc_run f h (rs1 ++ rs2) = let '(f', h') := fc_run f h rs1 in fc_run f' h' rs2.
Proof.
  revert f h. induction rs1 as [|r rs1 IH]; intros f h; cbn [app fc_run]; [done|].
  destruct (FC_Emit r f h) as [[f' h'] e]. apply IH.
Qed.

Lemma get_put_fc p b h : get_fc p (put_fc p b h) = b.
Proof. unfold get_fc, put_fc. simpl. by rewrite lookup_insert_eq. Qed.

Lemma bufFor_set_inner a f r : bufFor (set_inner a f) r = bufFor f r.
Proof. done. Qed.

Lemma flush_emits l (a : A) h : flush (map Some l) a h = (emits a l, h).
Proof.
  revert a. induction l as [|r l IH]; intros a; [done|]. cbn [map flush].
  destruct (sink_emit_heapfree r a h) as [e ->]. apply IH.
Qed.

Lemma FC_Emit_open r f h :
  activated (get_fc (bufFor f r) h) = true ->
  exists e, FC_Emit r f h = (set_inner (emit1 (fc_inner f) r) f, h, e).
Proof.
  intros Ha. unfold FC_Emit. rewrite Ha.
  destruct (sink_emit_heapfree r (fc_inner f) h) as [e ->]. by exists e.
Qed.

Lemma FC_Emit_hold r f h :
  activated (get_fc (bufFor f r) h) = false -> r_Level r < act_level f -> PassThrough f = 0 ->
  FC_Emit r f h = (f, put_fc (bufFor f r) (push (Clone r) (get_fc (bufFor f r) h)) h, None).
Proof.
  intros Ha Hl Hp. unfold FC_Emit. rewrite Ha, Hp.
  replace (act_level f <=? r_Level r) with false by lia. done.
Qed.

Lemma FC_Emit_activate r f h l :
  activated (get_fc (bufFor f r) h) = false -> act_level f <= r_Level r ->
  fc_repr (get_fc (bufFor f r) h) l ->
  exists e b, FC_Emit r f h = (set_inner (emits (fc_inner f) (l ++ [r])) f, put_fc (bufFor f r) b h, e) /\
    activated b = true /\ fc_repr b [].
Proof.
  intros Ha Hl Hr. unfold FC_Emit. rewrite Ha.
  replace (act_level f <=? r_Level r) with true by lia.
  set (b := get_fc (bufFor f r) h) in *.
  set (b1 := mkFC (ring b) (fc_start b) (fc_count b) true (fc_cap b)).
  destruct (drain_repr b1 l Hr) as [Hd Hb].
  destruct (drain b1) as [held b'] eqn:E. unfold drain in E. injection E as <- <-.
  rewrite Hd, flush_emits.
  match goal with |- context [sink_emit r ?a ?hh] => destruct (sink_emit_heapfree r a hh) as [e ->] end.
  eexists e, _. rewrite emits_app. split; [done|]. split; [done|exact Hb].
Qed.

Lemma fc_run_hold f h p l rs :
  fc_repr (get_fc p h) l -> (length l <= fc_cap (get_fc p h))%nat -> activated (get_fc p h) = false ->
  PassThrough f = 0 -> Forall (fun r => bufFor f r = p /\ r_Level r < act_level f) rs ->
  exists h', fc_run f h rs = (f, h') /\ activated (get_fc p h') = false /\
    fc_repr (get_fc p h') (lastn (fc_cap (get_fc p h)) (l ++ map Clone rs)) /\
    fc_cap (get_fc p h') = fc_cap (get_fc p h).
Proof.
  intros Hr Hll Ha Hp Hrs. revert h l Hr Hll Ha. induction Hrs as [|r rs [Hb Hl] _ IH]; intros h l Hr Hll Ha; cbn [fc_run map].
  - exists h. rewrite app_nil_r, lastn_all by done. done.
  - rewrite FC_Emit_hold by (rewrite ?Hb; done). rewrite Hb.
    set (b := get_fc p h) in *. destruct (push_cap (Clone r) b) as [Hc Hact].
    destruct (IH (put_fc p (push (Clone r) b) h) (lastn (fc_cap b) (l ++ [Clone r]))) as (h' & Hrun & Ha' & Hr' & Hc').
    + rewrite get_put_fc. by apply push_repr.
    + rewrite get_put_fc, Hc, length_lastn. lia.
    + rewrite get_put_fc. congruence.
    + exists h'. rewrite get_put_fc, Hc in *. split_and!; [done|done| |done].
      assert (E : forall k (l1 l2 : list LogRecord), (0 < k)%nat -> lastn k (lastn k l1 ++ l2) = lastn k (l1 ++ l2)).
      { intros k l1 l2 Hk. revert l1. induction l2 as [|y l2 IH2] using rev_ind; intros l1.
        - rewrite !app_nil_r, lastn_all; [done|rewrite length_lastn; lia].
        - rewrite !app_assoc, <-(lastn_snoc k (lastn k l1 ++ l2)), IH2 by done. by apply lastn_snoc. }
      rewrite E in Hr' by apply Hr. rewrite <-app_assoc in Hr'. exact Hr'.
Qed.

Lemma fc_run_open f h p rs :
  activated (get_fc p h) = true -> Forall (fun r => bufFor f r = p) rs ->
  (fc_run f h rs) = (set_inner (emits (fc_inner f) rs) f, h).
Proof.
  intros Ha Hrs. revert f Hrs. induction rs as [|r rs IH]; intros f Hrs; cbn [fc_run].
  - by destruct f.
  - inversion_clear Hrs as [|? ? Hb Hrs'].
    destruct (FC_Emit_open r f h ltac:(by rewrite Hb)) as [e ->]. by rewrite IH.
Qed.

(** C19. Debug on error: in a scope that has not activated, records below the activation
    level reach the inner sink not at all; the first record at or above it makes the
    inner sink receive, in order, the last [cap] buffered records (copies), then that
    record, then everything logged in the scope afterwards. *)
Theorem fc_debug_on_error f h p l pre x post :
  fc_repr (get_fc p h) l -> activated (get_fc p h) = false -> PassThrough f = 0 ->
  Forall (fun r => bufFor f r = p /\ r_Level r < act_level f) pre ->
  bufFor f x = p -> act_level f <= r_Level x -> Forall (fun r => bufFor f r = p) post ->
  fc_inner (fc_run f h pre).1 = fc_inner f /\
  fc_inner (fc_run f h (pre ++ x :: post)).1 =
    emits (fc_inner f) (lastn (fc_cap (get_fc p h)) (l ++ map Clone pre) ++ x :: post).
Proof.
  intros Hr Ha Hp Hpre Hx Hlx Hpost.
  assert (Hll : (length l <= fc_cap (get_fc p h))%nat) by (rewrite (fc_repr_length _ _ Hr); apply Hr).
  destruct (fc_run_hold f h p l pre Hr Hll Ha Hp Hpre) as (h1 & Hrun & Ha1 & Hr1 & _).
  rewrite fc_run_app, Hrun. split; [done|]. cbn [fc_run].
  destruct (FC_Emit_activate x f h1 _ ltac:(by rewrite Hx) Hlx ltac:(rewrite Hx; exact Hr1)) as (e & b & -> & Hb & _).
  rewrite Hx, (fc_run_open _ _ p) by (rewrite ?get_put_fc; done).
  cbn [fst fc_inner set_inner]. rewrite <-emits_app, <-app_assoc. done.
Qed.

(** Scopes are isolated: emitting a record touches no buffer but the one of its own
    scope (or the global one when its context carries none). *)
Theorem fc_scope_isolation r f h p :
  p <> bufFor f r -> get_fc p (FC_Emit r f h).1.2 = get_fc p h.
Proof.
  intros Hp. unfold FC_Emit.
  assert (Hput : forall b, get_fc p (put_fc (bufFor f r) b h) = get_fc p h)
    by (intros b; unfold get_fc, put_fc; simpl; by rewrite lookup_insert_ne).
  destruct (activated _).
  { by destruct (sink_emit_heapfree r (fc_inner f) h) as [e ->]. }
  case_if.
  - destruct (drain _) as [held b'].
    assert (Hfl : forall held (a : A) h0, (flush held a h0).2 = h0).
    { induction held0 as [|[r0|] held0 IH]; intros a h0; cbn [flush]; [done| |apply IH].
      destruct (sink_emit_heapfree r0 a h0) as [e ->]. apply IH. }
    specialize (Hfl held (fc_inner f) (put_fc (bufFor f r) b' h)).
    destruct (flush _ _ _) as [a h1]. simpl in Hfl. subst h1.
    destruct (sink_emit_heapfree r a (put_fc (bufFor f r) b' h)) as [e ->]. apply Hput.
  - case_if; [by destruct (sink_emit_heapfree r (fc_inner f) h) as [e ->]|]. apply Hput.
Qed.
End Behaviour.

(** ** Witnesses *)
Definition scoped (p : Z) (l : Level) (msg : string) : LogRecord := mkRecord GoTime.zero_time l msg 0 "" [] (Some [CFC p]) true.
Definition fc_demo : FingersCrossed Capture * Heap := NewFingersCrossed (mkCapture []) (FCScope [] empty_heap).2.

Lemma fc_debug_on_error_witness :
  fc_inner (fc_run fc_demo.1 fc_demo.2 ([scoped 1 5 "cfg"; scoped 1 5 "db"] ++ scoped 1 17 "boom" :: [scoped 1 9 "after"])).1 =
  emits (mkCapture []) [Clone (scoped 1 5 "cfg"); Clone (scoped 1 5 "db"); scoped 1 17 "boom"; scoped 1 9 "after"].
Proof.
  refine (proj2 (fc_debug_on_error fc_demo.1 fc_demo.2 1 [] [scoped 1 5 "cfg"; scoped 1 5 "db"]
    (scoped 1 17 "boom") [scoped 1 9 "after"] _ _ _ _ _ _ _)).
  - apply (newFCBuffer_repr 256).
  - reflexivity.
  - reflexivity.
  - repeat constructor.
  - reflexivity.
  - vm_compute. congruence.
  - repeat constructor.
Defined.

Lemma fc_scope_isolation_witness :
  get_fc 2 (FC_Emit (scoped 1 17 "boom") fc_demo.1 fc_demo.2).1.2 = get_fc 2 fc_demo.2.
Proof. apply fc_scope_isolation. vm_compute. congruence. Defined.

(** ** Two FingersCrossed sinks in one fan-out

    The scope's buffer is found by the context key alone, so both sinks use the same
    one. *)
Definition two_fc : Fanout (FingersCrossed Capture) * Heap :=
  let '(ctx, h) := FCScope [] empty_heap in
  let '(f1, h) := NewFingersCrossed (mkCapture []) h in
  let '(f2, h) := NewFingersCrossed (mkCapture []) h in
  (NewFanout [f1; f2], h).

Definition emit_all {B} `{Sink B} (st : B * Heap) (rs : list LogRecord) : B * Heap :=
  fold_left (fun '(b, h) r => let '(b', h', _) := sink_emit r b h in (b', h')) rs st.

(** A scope shared by two FingersCrossed sinks breaks both: with one debug record
    and one error logged in the scope, the first sink delivers the debug record twice
    and the second sink delivers it not at all, only the error. *)
Theorem fc_shared_scope_mixes_sinks :
  map (fun f => map e_Message (entries (fc_inner f)))
      (fan_sinks (emit_all two_fc [scoped 1 5 "debug"; scoped 1 17 "boom"]).1) =
  [["debug"; "debug"; "boom"]; ["boom"]].
Proof. vm_compute. reflexivity. Qed.
