(* ===== verification/Transport.v ===== *)
(** * Transports: the interface, the inline transport and the vocabulary of traces
    (transport.go)

    The asynchronous transports are modelled in files of their own as transition
    systems; what they promise is stated on the trace of observations defined here. *)
From S2P Require Import Prelude GoStd Level Field Record Sink.
Local Open Scope Z_scope.

(** transport.go [OverflowPolicy]. *)
Inductive OverflowPolicy := Block | DropNewest | DropOldest.

#[export] Instance OverflowPolicy_eq_dec : EqDecision OverflowPolicy.
Proof. solve_decision. Defined.

(** transport.go [Transport], as a log call sees it. *)
Class Transport (T : Type) := {
  tr_dispatch : LogRecord -> T -> Heap -> T * Heap;
  tr_dropped : T -> Z;
  tr_sync : T -> T * option error;
  tr_close : T -> T * option error
}.

(** ** SyncTransport *)
Record SyncTransport (A : Type) := mkSync { st_sink : A }.
Arguments mkSync {A}.
Arguments st_sink {A}.

Section SyncT.
Context {A : Type} `{Sink A}.

Definition NewSyncTransport (s : A) : SyncTransport A := mkSync s.
Definition SyncTransport_Dispatch (r : LogRecord) (t : SyncTransport A) (h : Heap) : SyncTransport A * Heap :=
  let '(a, h', _) := sink_emit r (st_sink t) h in (mkSync a, h').
Definition SyncTransport_Dropped (t : SyncTransport A) : Z := 0.
Definition SyncTransport_Sync (t : SyncTransport A) : SyncTransport A * option error :=
  let '(a, e) := sink_sync (st_sink t) in (mkSync a, e).
Definition SyncTransport_Close (t : SyncTransport A) : SyncTransport A * option error :=
  let '(a, e) := sink_close (st_sink t) in (mkSync a, e).

#[export] Instance SyncTransport_Transport : Transport (SyncTransport A) :=
  {| tr_dispatch := SyncTransport_Dispatch; tr_dropped := SyncTransport_Dropped;
     tr_sync := SyncTransport_Sync; tr_close := SyncTransport_Close |}.
End SyncT.

(** ** Observations of an asynchronous transport *)
Inductive Obs :=
| OAccept (r : LogRecord)     (* a record entered the queue *)
| OTake (r : LogRecord)       (* the worker removed it *)
| OEvict (r : LogRecord)      (* DropOldest removed it *)
| OReject (r : LogRecord)     (* DropNewest discarded it *)
| ORefuse (r : LogRecord)     (* Dispatch returned without queueing: transport closed *)
| OEmit (r : LogRecord)       (* the sink received it *)
| OSync | OClose              (* the sink was flushed, closed *)
| OShut                       (* the transport stopped accepting *)
| OPanic (r : LogRecord).     (* Dispatch panicked *)

Abbreviation Trace := (list Obs) (only parsing).

Definition pick (f : Obs -> option LogRecord) (tr : Trace) : list LogRecord := omap f tr.
Definition accepted (tr : Trace) : list LogRecord := pick (fun o => match o with OAccept r => Some r | _ => None end) tr.
Definition taken (tr : Trace) : list LogRecord := pick (fun o => match o with OTake r => Some r | _ => None end) tr.
Definition evicted (tr : Trace) : list LogRecord := pick (fun o => match o with OEvict r => Some r | _ => None end) tr.
Definition rejected (tr : Trace) : list LogRecord := pick (fun o => match o with OReject r => Some r | _ => None end) tr.
Definition refused (tr : Trace) : list LogRecord := pick (fun o => match o with ORefuse r => Some r | _ => None end) tr.
Definition emitted (tr : Trace) : list LogRecord := pick (fun o => match o with OEmit r => Some r | _ => None end) tr.
(** What left the queue, in the order it left it. *)
Definition removed (tr : Trace) : list LogRecord :=
  pick (fun o => match o with OTake r | OEvict r => Some r | _ => None end) tr.

Lemma pick_cons f o tr : pick f (o :: tr) = match f o with Some r => r :: pick f tr | None => pick f tr end.
Proof. done. Qed.

Lemma pick_app f tr1 tr2 : pick f (tr1 ++ tr2) = pick f tr1 ++ pick f tr2.
Proof. apply omap_app. Qed.

(** The sink and the heap after the sink operations of a trace. *)
Section SinkOps.
Context {A : Type} `{Sink A}.

Definition sink_op (ah : A * Heap) (o : Obs) : A * Heap :=
  match o with
  | OEmit r => (sink_emit r ah.1 ah.2).1
  | OSync => ((sink_sync ah.1).1, ah.2)
  | OClose => ((sink_close ah.1).1, ah.2)
  | _ => ah
  end.
Definition sink_after (ah : A * Heap) (tr : Trace) : A * Heap := fold_left sink_op tr ah.

Lemma sink_after_app ah tr1 tr2 : sink_after ah (tr1 ++ tr2) = sink_after (sink_after ah tr1) tr2.
Proof. apply fold_left_app. Qed.
End SinkOps.

(** Evicted and taken records together are the removed ones. *)
Lemma removed_length tr : length (removed tr) = (length (taken tr) + length (evicted tr))%nat.
Proof.
  unfold removed, taken, evicted in *.
  induction tr as [|[] tr IH]; rewrite ?pick_cons; cbn [length]; rewrite ?IH; done || lia.
Qed.

Lemma removed_no_evict tr : evicted tr = [] -> removed tr = taken tr.
Proof.
  unfold removed, taken, evicted.
  induction tr as [|[] tr IH]; rewrite ?pick_cons; intros E; try discriminate; rewrite ?IH; done.
Qed.

(** Projections of a trace extended by a known list of observations. *)
Lemma accepted_app tr1 tr2 : accepted (tr1 ++ tr2) = accepted tr1 ++ accepted tr2.
Proof. apply pick_app. Qed.
Lemma taken_app tr1 tr2 : taken (tr1 ++ tr2) = taken tr1 ++ taken tr2.
Proof. apply pick_app. Qed.
Lemma evicted_app tr1 tr2 : evicted (tr1 ++ tr2) = evicted tr1 ++ evicted tr2.
Proof. apply pick_app. Qed.
Lemma rejected_app tr1 tr2 : rejected (tr1 ++ tr2) = rejected tr1 ++ rejected tr2.
Proof. apply pick_app. Qed.
Lemma refused_app tr1 tr2 : refused (tr1 ++ tr2) = refused tr1 ++ refused tr2.
Proof. apply pick_app. Qed.
Lemma emitted_app tr1 tr2 : emitted (tr1 ++ tr2) = emitted tr1 ++ emitted tr2.
Proof. apply pick_app. Qed.
Lemma removed_app tr1 tr2 : removed (tr1 ++ tr2) = removed tr1 ++ removed tr2.
Proof. apply pick_app. Qed.

Create Rewrite HintDb trace.
#[export] Hint Rewrite accepted_app taken_app evicted_app rejected_app refused_app emitted_app removed_app
  @sink_after_app @length_app @app_nil_r : trace.
#[global] Arguments pick f !tr /.
#[global] Arguments accepted !tr /.
#[global] Arguments taken !tr /.
#[global] Arguments evicted !tr /.
#[global] Arguments rejected !tr /.
#[global] Arguments refused !tr /.
#[global] Arguments emitted !tr /.
#[global] Arguments removed !tr /.

Ltac trace_norm := autorewrite with trace in *; simpl in *; autorewrite with trace in *.

(** ** The abstract transport

    What every queueing transport of capacity [n] may do, one observation at a time:
    a bounded FIFO queue, one record in the worker's hands, and a flag. *)
Record QSpec := mkQ { q_items : list LogRecord; q_hand : option LogRecord; q_closed : bool }.

Inductive qstep (n : nat) (policy : OverflowPolicy) : QSpec -> Obs -> QSpec -> Prop :=
| q_accept r q hd : (length q < n)%nat -> qstep n policy (mkQ q hd false) (OAccept r) (mkQ (q ++ [r]) hd false)
| q_take r q cl : qstep n policy (mkQ (r :: q) None cl) (OTake r) (mkQ q (Some r) cl)
| q_evict r q hd cl : policy = DropOldest -> qstep n policy (mkQ (r :: q) hd cl) (OEvict r) (mkQ q hd cl)
| q_reject r q hd : policy = DropNewest -> length q = n -> qstep n policy (mkQ q hd false) (OReject r) (mkQ q hd false)
| q_refuse r q hd : qstep n policy (mkQ q hd true) (ORefuse r) (mkQ q hd true)
| q_panic r q hd : qstep n policy (mkQ q hd true) (OPanic r) (mkQ q hd true)
| q_emit r q cl : qstep n policy (mkQ q (Some r) cl) (OEmit r) (mkQ q None cl)
| q_sync s : qstep n policy s OSync s
| q_shut q hd : qstep n policy (mkQ q hd false) OShut (mkQ q hd true)
| q_close : qstep n policy (mkQ [] None true) OClose (mkQ [] None true).

(** The traces the specification allows, from the empty open queue. *)
Inductive qtrace (n : nat) (policy : OverflowPolicy) : Trace -> QSpec -> Prop :=
| qt_nil : qtrace n policy [] (mkQ [] None false)
| qt_snoc tr q o q' : qtrace n policy tr q -> qstep n policy q o q' -> qtrace n policy (tr ++ [o]) q'.

Lemma qt_snoc2 n policy tr q o1 q1 o2 q2 :
  qtrace n policy tr q -> qstep n policy q o1 q1 -> qstep n policy q1 o2 q2 -> qtrace n policy (tr ++ [o1; o2]) q2.
Proof. intros. change [o1; o2] with ([o1] ++ [o2]). rewrite (assoc_L (++)). eauto using qt_snoc. Qed.

Definition hand (q : QSpec) : list LogRecord := match q_hand q with Some r => [r] | None => [] end.

(** *** What the specification guarantees *)
Lemma qtrace_fifo n policy tr q :
  qtrace n policy tr q -> accepted tr = removed tr ++ q_items q /\ taken tr = emitted tr ++ hand q.
Proof.
  induction 1 as [|tr q o q' _ [IH1 IH2] Hst]; [done|].
  destruct Hst; unfold hand in *; trace_norm; rewrite ?IH1, ?IH2, <-?(assoc_L (++)); done.
Qed.

Lemma qtrace_policy n policy tr q :
  qtrace n policy tr q ->
  (policy <> DropOldest -> evicted tr = []) /\ (policy <> DropNewest -> rejected tr = []) /\
  (q_closed q = false -> refused tr = []).
Proof.
  induction 1 as [|tr q o q' _ (IH1 & IH2 & IH3) Hst]; [done|].
  destruct Hst; trace_norm; split_and!; intros; simplify_eq/=; auto.
Qed.

Lemma qtrace_bounded n policy tr q : qtrace n policy tr q -> (length (q_items q) <= n)%nat.
Proof. induction 1 as [|tr q o q' _ IH Hst]; [simpl; lia|]. destruct Hst; simpl in *; rewrite ?length_app; simpl; lia. Qed.

(** Under Block nothing accepted is lost. *)
Lemma qtrace_block n tr q :
  qtrace n Block tr q -> evicted tr = [] /\ rejected tr = [] /\ accepted tr = emitted tr ++ hand q ++ q_items q.
Proof.
  intros Hq. destruct (qtrace_fifo _ _ _ _ Hq) as [H1 H2]. destruct (qtrace_policy _ _ _ _ Hq) as (H3 & H4 & _).
  specialize (H3 ltac:(done)). split_and!; [done|auto|].
  by rewrite H1, (removed_no_evict _ H3), H2, <-(assoc_L (++)).
Qed.

Lemma qtrace_snoc_inv n policy tr o q' :
  qtrace n policy (tr ++ [o]) q' -> exists q, qtrace n policy tr q /\ qstep n policy q o q'.
Proof.
  intros Hq. inversion Hq as [E|tr0 q o0 q0 H1 H2 E].
  - by destruct tr.
  - apply app_inj_tail in E as [-> ->]. eauto.
Qed.

(** Once the sink is closed the worker's hands and the queue stay empty. *)
Lemma qtrace_close_final n policy tr1 tr2 q :
  qtrace n policy (tr1 ++ OClose :: tr2) q -> emitted tr2 = [] /\ q = mkQ [] None true.
Proof.
  revert q. induction tr2 as [|o tr2 IH] using rev_ind; intros q Hq.
  - apply qtrace_snoc_inv in Hq as (q0 & _ & Hst). by inversion Hst.
  - replace (tr1 ++ OClose :: tr2 ++ [o]) with ((tr1 ++ OClose :: tr2) ++ [o]) in Hq by (by rewrite <-(assoc_L (++))).
    apply qtrace_snoc_inv in Hq as (q0 & Hq & Hst). destruct (IH _ Hq) as [E ->].
    inversion Hst; subst; trace_norm; rewrite E; done.
Qed.

(** The drops a trace shows, of which [pending] are not yet counted. *)
Definition drops (tr : Trace) (pending : nat) : Z :=
  u64 (Z.of_nat (length (evicted tr) + length (rejected tr)) - Z.of_nat pending).

(** What the abstract transport guarantees, and with it every transport that
    refines it: the accepted records are, in order, those that left the queue followed
    by those in it, and those taken are those emitted followed by the one in hand; the
    queue never exceeds its capacity; only DropOldest evicts, only DropNewest rejects,
    and nothing is refused while the transport is open; under Block no accepted record
    is lost; and after the sink is closed nothing is emitted to it. *)
Theorem queue_guarantees n policy tr q :
  qtrace n policy tr q ->
  accepted tr = removed tr ++ q_items q /\ taken tr = emitted tr ++ hand q /\
  (length (q_items q) <= n)%nat /\
  (policy <> DropOldest -> evicted tr = []) /\ (policy <> DropNewest -> rejected tr = []) /\
  (q_closed q = false -> refused tr = []) /\
  (policy = Block -> accepted tr = emitted tr ++ hand q ++ q_items q) /\
  (forall tr1 tr2, tr = tr1 ++ OClose :: tr2 -> emitted tr2 = []).
Proof.
  intros Hq. destruct (qtrace_fifo _ _ _ _ Hq) as [H1 H2]. destruct (qtrace_policy _ _ _ _ Hq) as (H3 & H4 & H5).
  split_and!; try done.
  - by eapply qtrace_bounded.
  - intros ->. by eapply qtrace_block.
  - intros tr1 tr2 ->. by eapply qtrace_close_final.
Qed.

Definition q_msg (m : string) : LogRecord := mkRecord GoTime.zero_time LevelInfo m 0 "" [] (Some Background) false.

Lemma queue_guarantees_witness :
  exists q, qtrace 1 DropOldest [OAccept (q_msg "a"); OEvict (q_msg "a"); OAccept (q_msg "b")] q /\
    (length (q_items q) <= 1)%nat /\ q_items q = [q_msg "b"].
Proof.
  assert (Hq : qtrace 1 DropOldest ((([] ++ [OAccept (q_msg "a")]) ++ [OEvict (q_msg "a")]) ++ [OAccept (q_msg "b")])
                 (mkQ ([] ++ [q_msg "b"]) None false)).
  { eapply qt_snoc; [eapply qt_snoc; [eapply qt_snoc; [constructor|]|]|];
      [apply (q_accept _ _ _ []); simpl; lia|by apply q_evict|apply q_accept; simpl; lia]. }
  eexists. split; [exact Hq|]. split; [|reflexivity]. apply (queue_guarantees _ _ _ _ Hq).
Defined.
