(* ===== verification/RingTransport.v ===== *)
(** * The ring transport (transport_ring.go) as a concurrent transition system

    Every goroutine is a thread of the system: any number of callers of [Dispatch],
    [Sync] and [Close], and the worker.  A step is one critical section of [t.mu],
    one sink operation, or one atomic addition outside the lock.  A condition
    variable is the set of threads parked on it: [Signal] moves one of them (the
    schedule chooses which) to the woken state, [Broadcast] all of them, and a woken
    thread re-acquires the lock and tests its condition again. *)
From S2P Require Import Prelude GoStd Level Field Record Ring Sink Transport.
Local Open Scope Z_scope.

Record RingTransport (A : Type) := mkRing {
  rt_sink : A;
  rt_buf : list (option LogRecord);
  rt_head : nat;
  rt_tail : nat;
  rt_count : nat;
  rt_policy : OverflowPolicy;
  rt_closed : bool;
  rt_dropped : Z
}.
Arguments mkRing {A}.
Arguments rt_sink {A}.
Arguments rt_buf {A}.
Arguments rt_head {A}.
Arguments rt_tail {A}.
Arguments rt_count {A}.
Arguments rt_policy {A}.
Arguments rt_closed {A}.
Arguments rt_dropped {A}.

(** Where the worker goroutine is in [run]. *)
Inductive WorkerPC :=
| WLoop                          (* about to lock, at the top of the loop *)
| WWait                          (* parked on notEmpty *)
| WWoken                         (* signalled; about to re-lock *)
| WEmit (r : option LogRecord)   (* unlocked, about to Emit the slot it took *)
| WDone                          (* returned; done is closed *)
| WPanic.                        (* Emit of a nil record *)

(** Where a caller is. *)
Inductive CallPC :=
| CDispatch (c : LogRecord)      (* Dispatch, cloned, about to lock *)
| CWait (c : LogRecord)          (* parked on notFull *)
| CWoken (c : LogRecord)         (* signalled; about to re-lock *)
| CDrop                          (* DropNewest: unlocked, about to count the drop *)
| CSync                          (* Sync *)
| CClose                         (* Close, about to lock *)
| CDrain.                        (* Close, receiving from done *)

#[export] Instance CallPC_drain_dec (pc : CallPC) : Decision (pc = CDrain).
Proof. destruct pc; (left; done) || (right; done). Defined.

Inductive Event :=
| ECall (t : Z) (pc : CallPC)    (* goroutine t enters the transport *)
| ERun (t : Z)                   (* caller t makes its next step *)
| EWorker (wake : option Z).     (* the worker makes its next step; a Signal wakes [wake] *)

(** Steps of goroutines already in the transport. *)
Definition internal (e : Event) : bool := match e with ECall _ _ => false | _ => true end.

Record Sys (A : Type) := mkSys {
  sys_t : RingTransport A;
  sys_heap : Heap;
  sys_worker : WorkerPC;
  sys_calls : gmap Z CallPC
}.
Arguments mkSys {A}.
Arguments sys_t {A}.
Arguments sys_heap {A}.
Arguments sys_worker {A}.
Arguments sys_calls {A}.

Definition is_wait (pc : CallPC) : bool := match pc with CWait _ => true | _ => false end.
Definition is_woken (pc : CallPC) : bool := match pc with CWoken _ => true | _ => false end.
Definition wake_pc (pc : CallPC) : CallPC := match pc with CWait c => CWoken c | _ => pc end.
Definition wake_worker (w : WorkerPC) : WorkerPC := match w with WWait => WWoken | _ => w end.

(** The calls a goroutine can make, from their first step: [Dispatch] clones first. *)
Definition entry_pc (pc : CallPC) : option CallPC :=
  match pc with
  | CDispatch r => Some (CDispatch (Clone r))
  | CSync => Some CSync
  | CClose => Some CClose
  | _ => None
  end.

Section RingT.
Context {A : Type} `{Sink A}.

Definition NewRingTransport (s : A) (capacity : Z) (policy : OverflowPolicy) : RingTransport A :=
  let capacity := if capacity <? 2 then 1024 else capacity in
  mkRing s (replicate (Z.to_nat capacity) None) 0 0 0 policy false 0.

Definition cap (t : RingTransport A) : nat := length (rt_buf t).

Definition set_sink (a : A) (t : RingTransport A) : RingTransport A :=
  mkRing a (rt_buf t) (rt_head t) (rt_tail t) (rt_count t) (rt_policy t) (rt_closed t) (rt_dropped t).
Definition set_closed (t : RingTransport A) : RingTransport A :=
  mkRing (rt_sink t) (rt_buf t) (rt_head t) (rt_tail t) (rt_count t) (rt_policy t) true (rt_dropped t).
Definition add_dropped (t : RingTransport A) : RingTransport A :=
  mkRing (rt_sink t) (rt_buf t) (rt_head t) (rt_tail t) (rt_count t) (rt_policy t) (rt_closed t) (u64 (rt_dropped t + 1)).

(** [buf[head] = nil; head = (head+1) % len(buf); count--]. *)
Definition pop_head (t : RingTransport A) : RingTransport A :=
  mkRing (rt_sink t) (<[rt_head t := None]> (rt_buf t)) ((rt_head t + 1) mod cap t)%nat (rt_tail t) (rt_count t - 1)
    (rt_policy t) (rt_closed t) (rt_dropped t).
(** [buf[tail] = c; tail = (tail+1) % len(buf); count++]. *)
Definition push_tail (c : LogRecord) (t : RingTransport A) : RingTransport A :=
  mkRing (rt_sink t) (<[rt_tail t := Some c]> (rt_buf t)) (rt_head t) ((rt_tail t + 1) mod cap t)%nat (rt_count t + 1)
    (rt_policy t) (rt_closed t) (rt_dropped t).
Definition head_slot (t : RingTransport A) : option LogRecord := default None (rt_buf t !! rt_head t).

(** The end of [Dispatch]: store, signal [notEmpty], unlock, return. *)
Definition finish_push (tid : Z) (c : LogRecord) (s : Sys A) : Sys A :=
  mkSys (push_tail c (sys_t s)) (sys_heap s) (wake_worker (sys_worker s)) (delete tid (sys_calls s)).
Definition set_call (tid : Z) (pc : CallPC) (s : Sys A) : Sys A :=
  mkSys (sys_t s) (sys_heap s) (sys_worker s) (<[tid := pc]> (sys_calls s)).
Definition ret_call (tid : Z) (s : Sys A) : Sys A :=
  mkSys (sys_t s) (sys_heap s) (sys_worker s) (delete tid (sys_calls s)).
Definition set_t (t : RingTransport A) (s : Sys A) : Sys A :=
  mkSys t (sys_heap s) (sys_worker s) (sys_calls s).

Definition full (t : RingTransport A) : bool := (rt_count t =? cap t)%nat.

(** [Dispatch] from its first [mu.Lock]. *)
Definition Dispatch (tid : Z) (c : LogRecord) (s : Sys A) : Sys A * Trace :=
  let t := sys_t s in
  if rt_closed t then (ret_call tid s, [ORefuse c])
  else if full t then
    match rt_policy t with
    | Block => (set_call tid (CWait c) s, [])
    | DropNewest => (set_call tid CDrop s, [OReject c])
    | DropOldest =>
        let old := head_slot t in
        let s := set_t (add_dropped (pop_head t)) s in
        (finish_push tid c s, match old with Some o => [OEvict o] | None => [] end ++ [OAccept c])
    end
  else (finish_push tid c s, [OAccept c]).

(** [Dispatch] after [notFull.Wait] returns: the loop condition, then the closed test. *)
Definition Dispatch_woken (tid : Z) (c : LogRecord) (s : Sys A) : Sys A * Trace :=
  let t := sys_t s in
  if full t && negb (rt_closed t) then (set_call tid (CWait c) s, [])
  else if rt_closed t then (ret_call tid s, [ORefuse c])
  else (finish_push tid c s, [OAccept c]).

Definition Sync (tid : Z) (s : Sys A) : Sys A * Trace :=
  let '(a, _) := sink_sync (rt_sink (sys_t s)) in (ret_call tid (set_t (set_sink a (sys_t s)) s), [OSync]).

Definition Close (tid : Z) (s : Sys A) : Sys A * Trace :=
  if rt_closed (sys_t s) then (ret_call tid s, [])
  else (mkSys (set_closed (sys_t s)) (sys_heap s) (wake_worker (sys_worker s))
          (<[tid := CDrain]> (wake_pc <$> sys_calls s)), [OShut]).

(** [<-t.done; _ = t.sink.Sync(); return t.sink.Close()]. *)
Definition Close_drained (tid : Z) (s : Sys A) : Sys A * Trace :=
  let '(a, _) := sink_sync (rt_sink (sys_t s)) in
  let '(a, _) := sink_close a in
  (ret_call tid (set_t (set_sink a (sys_t s)) s), [OSync; OClose]).

(** The next step of a caller; [None] when it is blocked. *)
Definition run_call (tid : Z) (s : Sys A) : option (Sys A * Trace) :=
  match sys_calls s !! tid with
  | None | Some (CWait _) => None
  | Some (CDispatch c) => Some (Dispatch tid c s)
  | Some (CWoken c) => Some (Dispatch_woken tid c s)
  | Some CDrop => Some (ret_call tid (set_t (add_dropped (sys_t s)) s), [])
  | Some CSync => Some (Sync tid s)
  | Some CClose => Some (Close tid s)
  | Some CDrain => match sys_worker s with WDone => Some (Close_drained tid s) | _ => None end
  end.

(** [notFull.Signal()]: some parked caller, if there is one. *)
Definition signal_full (wake : option Z) (m : gmap Z CallPC) : option (gmap Z CallPC) :=
  match wake with
  | Some t => match m !! t with Some (CWait c) => Some (<[t := CWoken c]> m) | _ => None end
  | None => if bool_decide (map_Forall (fun _ pc => is_wait pc = false) m) then Some m else None
  end.

(** One pass of the worker's critical section. *)
Definition worker_locked (wake : option Z) (s : Sys A) : option (Sys A * Trace) :=
  let t := sys_t s in
  if (rt_count t =? 0)%nat && negb (rt_closed t) then
    Some (mkSys t (sys_heap s) WWait (sys_calls s), [])
  else if (rt_count t =? 0)%nat && rt_closed t then
    Some (mkSys t (sys_heap s) WDone (sys_calls s), [])
  else
    match signal_full wake (sys_calls s) with
    | Some m =>
        let r := head_slot t in
        Some (mkSys (pop_head t) (sys_heap s) (WEmit r) m, match r with Some x => [OTake x] | None => [] end)
    | None => None
    end.

(** [_ = t.sink.Emit(r); r.release()]: the record is a clone, which [release] ignores. *)
Definition worker_emit (r : option LogRecord) (s : Sys A) : Sys A * Trace :=
  match r with
  | Some x =>
      let '(a, h, _) := sink_emit x (rt_sink (sys_t s)) (sys_heap s) in
      (mkSys (set_sink a (sys_t s)) h WLoop (sys_calls s), [OEmit x])
  | None => (mkSys (sys_t s) (sys_heap s) WPanic (sys_calls s), [])
  end.

Definition run_worker (wake : option Z) (s : Sys A) : option (Sys A * Trace) :=
  match sys_worker s with
  | WLoop | WWoken => worker_locked wake s
  | WEmit r => Some (worker_emit r s)
  | WWait | WDone | WPanic => None
  end.

Definition RingTransport_Dropped (t : RingTransport A) : Z := rt_dropped t.

Definition step (e : Event) (s : Sys A) : option (Sys A * Trace) :=
  match e with
  | ECall t pc =>
      match sys_calls s !! t, entry_pc pc with
      | None, Some pc' => Some (set_call t pc' s, [])
      | _, _ => None
      end
  | ERun t => run_call t s
  | EWorker wake => run_worker wake s
  end.

Definition start (a : A) (h : Heap) (capacity : Z) (policy : OverflowPolicy) : Sys A :=
  mkSys (NewRingTransport a capacity policy) h WLoop ∅.
End RingT.

Abbreviation run := (run_steps step).
Abbreviation reach := (reaches step).


Section Reach.
Context {A : Type} `{Sink A}.

(** ** The ring holds a queue *)
Definition ring_repr (t : RingTransport A) (q : list LogRecord) : Prop :=
  (0 < cap t)%nat /\ (rt_head t < cap t)%nat /\ rt_tail t = ((rt_head t + rt_count t) mod cap t)%nat /\
  (rt_count t <= cap t)%nat /\
  window (rt_buf t) (cap t) (rt_head t) (rt_count t) = map (fun r => Some (Some r)) q.

Lemma ring_repr_length t q : ring_repr t q -> length q = rt_count t.
Proof.
  intros (_ & _ & _ & _ & Hw). apply (f_equal length) in Hw. by rewrite length_window, length_map in Hw.
Qed.

Lemma push_tail_repr t q c : ring_repr t q -> (rt_count t < cap t)%nat -> ring_repr (push_tail c t) (q ++ [c]).
Proof.
  intros (Hc & Hh & Ht & Hn & Hw) Hlt. unfold ring_repr, cap, push_tail in *. simpl. rewrite length_insert.
  split_and!; [done|done| |lia|].
  - rewrite Ht, Nat.Div0.add_mod_idemp_l. f_equal. lia.
  - rewrite Ht, Nat.add_1_r, window_push by done. by rewrite Hw, map_app.
Qed.

Lemma pop_head_repr t q :
  ring_repr t q -> (0 < rt_count t)%nat -> exists x q', q = x :: q' /\ head_slot t = Some x /\ ring_repr (pop_head t) q'.
Proof.
  intros (Hc & Hh & Ht & Hn & Hw) Hlt. unfold ring_repr, cap, pop_head, head_slot in *. simpl. rewrite length_insert.
  destruct (rt_count t) as [|n] eqn:En; [lia|]. rewrite window_pop in Hw by done.
  destruct q as [|x q']; [done|]. injection Hw as Hx Hw. exists x, q'. rewrite Hx.
  split_and!; [done|done|done|apply Nat.mod_upper_bound; lia| |lia|].
  - rewrite Ht, Nat.Div0.add_mod_idemp_l. f_equal. lia.
  - replace (S n - 1)%nat with n by lia. rewrite window_insert_out; [done|apply Nat.mod_upper_bound; lia|lia|].
    left. by apply prev_slot.
Qed.

Lemma ring_repr_mono (t t' : RingTransport A) q :
  rt_buf t' = rt_buf t -> rt_head t' = rt_head t -> rt_tail t' = rt_tail t -> rt_count t' = rt_count t ->
  ring_repr t q -> ring_repr t' q.
Proof. unfold ring_repr, cap. intros -> -> -> ->. done. Qed.

Lemma start_repr (a : A) c p : ring_repr (NewRingTransport a c p) [].
Proof.
  unfold ring_repr, cap, NewRingTransport. simpl. rewrite length_replicate.
  destruct (Z.ltb_spec c 2); split_and!; try lia; try done; by rewrite Nat.Div0.mod_0_l.
Qed.

(** ** The data invariant *)
Definition inflight (w : WorkerPC) : option LogRecord := match w with WEmit r => r | _ => None end.
Definition worker_ok (s : Sys A) : Prop :=
  match sys_worker s with
  | WWait => rt_count (sys_t s) = 0%nat /\ rt_closed (sys_t s) = false
  | WDone => rt_count (sys_t s) = 0%nat /\ rt_closed (sys_t s) = true
  | WEmit None | WPanic => False
  | _ => True
  end.
Definition is_drop (pc : CallPC) : bool := match pc with CDrop => true | _ => false end.

Record data_inv (ah : A * Heap) (n : nat) (policy : OverflowPolicy) (s : Sys A) (tr : Trace) : Prop := {
  di_spec : exists q, ring_repr (sys_t s) q /\
    qtrace n policy tr (mkQ q (inflight (sys_worker s)) (rt_closed (sys_t s)));
  di_worker : worker_ok s;
  di_sink : (rt_sink (sys_t s), sys_heap s) = sink_after ah tr;
  di_dropped : rt_dropped (sys_t s) = drops tr (mcount is_drop (sys_calls s));
  di_policy : rt_policy (sys_t s) = policy;
  di_cap : cap (sys_t s) = n
}.

(** *** Each kind of step preserves it *)
Section Steps.
Context (ah : A * Heap) (n : nat) (policy : OverflowPolicy).
Implicit Types (s : Sys A) (tr : Trace).

Ltac di_start :=
  intros [(q & Hq & Ha) Hw Hs Hd Hp Hn]; split; unfold drops in *; trace_norm; eauto.

Lemma di_calls s tr m :
  mcount is_drop m = mcount is_drop (sys_calls s) -> data_inv ah n policy s tr ->
  data_inv ah n policy (mkSys (sys_t s) (sys_heap s) (sys_worker s) m) tr.
Proof. intros E. di_start. by rewrite E. Qed.

Lemma drop_delete (m : gmap Z CallPC) tid pc :
  m !! tid = Some pc -> is_drop pc = false -> mcount is_drop (delete tid m) = mcount is_drop m.
Proof. intros Hm E. by rewrite (mcount_lookup is_drop m tid pc Hm), E. Qed.

Lemma drop_insert (m : gmap Z CallPC) tid pc pc' :
  m !! tid = Some pc -> is_drop pc = is_drop pc' -> mcount is_drop (<[tid := pc']> m) = mcount is_drop m.
Proof. intros Hm E. by rewrite mcount_insert, (mcount_lookup is_drop m tid pc Hm), E. Qed.

Lemma drop_entry (m : gmap Z CallPC) tid pc :
  m !! tid = None -> is_drop pc = false -> mcount is_drop (<[tid := pc]> m) = mcount is_drop m.
Proof. intros Hm E. by rewrite mcount_insert, E, delete_id. Qed.

Lemma drop_wake (m : gmap Z CallPC) : mcount is_drop (wake_pc <$> m) = mcount is_drop m.
Proof.
  unfold mcount. induction m as [|k pc m Hk IH] using map_ind; [by rewrite fmap_empty|].
  rewrite fmap_insert, !map_filter_insert. cbn [snd].
  replace (is_drop (wake_pc pc)) with (is_drop pc) by (by destruct pc).
  destruct (is_drop pc).
  - rewrite !decide_True by done. rewrite !map_size_insert_None;
      [by rewrite IH|apply map_lookup_filter_None_2; by left|apply map_lookup_filter_None_2; left; by rewrite lookup_fmap, Hk].
  - rewrite !decide_False by done. rewrite !delete_id; [done|done|by rewrite lookup_fmap, Hk].
Qed.

Lemma inflight_wake w : inflight (wake_worker w) = inflight w.
Proof. by destruct w. Qed.

Lemma di_push s tr tid c pc :
  sys_calls s !! tid = Some pc -> is_drop pc = false -> rt_closed (sys_t s) = false -> (rt_count (sys_t s) < cap (sys_t s))%nat ->
  data_inv ah n policy s tr -> data_inv ah n policy (finish_push tid c s) (tr ++ [OAccept c]).
Proof.
  intros Hc Hpc Hcl Hlt. di_start.
  - exists (q ++ [c]). split; [by apply push_tail_repr|]. rewrite inflight_wake, Hcl in *.
    eapply qt_snoc; [done|]. apply q_accept. rewrite (ring_repr_length _ _ Hq). lia.
  - unfold worker_ok in *. simpl. destruct (sys_worker s) as [| | |[]| |]; simpl; intuition congruence.
  - by rewrite (drop_delete _ _ _ Hc Hpc).
  - unfold cap. simpl. by rewrite length_insert.
Qed.

Lemma not_full s tr : data_inv ah n policy s tr -> full (sys_t s) = false -> (rt_count (sys_t s) < cap (sys_t s))%nat.
Proof.
  intros [(q & (_ & _ & _ & Hn & _) & _) _ _ _ _ _] E. unfold full in E. apply Nat.eqb_neq in E. lia.
Qed.

Lemma di_evict_step s tr :
  policy = DropOldest -> full (sys_t s) = true -> data_inv ah n policy s tr ->
  exists o, head_slot (sys_t s) = Some o /\ (rt_count (pop_head (sys_t s)) < cap (pop_head (sys_t s)))%nat /\
    data_inv ah n policy (set_t (add_dropped (pop_head (sys_t s))) s) (tr ++ [OEvict o]).
Proof.
  intros -> Hfull [(q & Hq & Ha) Hw Hs Hd Hp Hn].
  assert (Hpos : (0 < rt_count (sys_t s) <= cap (sys_t s))%nat).
  { destruct Hq as (? & _). unfold full in Hfull. apply Nat.eqb_eq in Hfull. lia. }
  destruct (pop_head_repr _ _ Hq (proj1 Hpos)) as (x & q' & -> & Hx & Hq'). exists x. split; [done|].
  assert (Hcap : cap (pop_head (sys_t s)) = cap (sys_t s)) by (unfold cap; simpl; by rewrite length_insert).
  split; [rewrite Hcap; simpl; lia|].
  split; unfold drops in *; trace_norm; eauto.
  - exists q'. split; [done|]. eapply qt_snoc; [done|]. by apply q_evict.
  - unfold worker_ok in *. simpl. destruct (sys_worker s) as [| | |[]| |]; simpl; intuition lia.
  - rewrite Hd, u64_add_l. f_equal. lia.
  - by rewrite <-Hn.
Qed.

Lemma di_refuse_step s tr tid c pc :
  sys_calls s !! tid = Some pc -> is_drop pc = false -> rt_closed (sys_t s) = true ->
  data_inv ah n policy s tr -> data_inv ah n policy (ret_call tid s) (tr ++ [ORefuse c]).
Proof.
  intros Hc Hpc Hcl. di_start; [|by rewrite (drop_delete _ _ _ Hc Hpc)].
  exists q. split; [done|]. rewrite Hcl in *. eapply qt_snoc; [done|]. apply q_refuse.
Qed.

Lemma di_reject_step s tr tid c :
  sys_calls s !! tid = Some (CDispatch c) -> policy = DropNewest -> rt_closed (sys_t s) = false -> full (sys_t s) = true ->
  data_inv ah n policy s tr -> data_inv ah n policy (set_call tid CDrop s) (tr ++ [OReject c]).
Proof.
  intros Hc Hpol Hcl Hfull. di_start.
  - exists q. split; [done|]. rewrite Hcl in *. eapply qt_snoc; [done|]. apply q_reject; [done|].
    rewrite (ring_repr_length _ _ Hq), <-Hn. by apply Nat.eqb_eq in Hfull.
  - rewrite mcount_insert. simpl. rewrite Hd, (mcount_lookup is_drop _ _ _ Hc). simpl. f_equal. lia.
Qed.

Lemma di_dispatch s tr tid c :
  sys_calls s !! tid = Some (CDispatch c) -> data_inv ah n policy s tr ->
  data_inv ah n policy (Dispatch tid c s).1 (tr ++ (Dispatch tid c s).2).
Proof.
  intros Hc Hdi. pose proof (di_policy _ _ _ _ _ Hdi) as Hp. unfold Dispatch.
  destruct (rt_closed (sys_t s)) eqn:Hcl; [by eapply di_refuse_step|].
  destruct (full (sys_t s)) eqn:Hfull; [|eapply di_push; eauto using not_full].
  destruct (rt_policy (sys_t s)); simpl.
  - rewrite app_nil_r. apply di_calls; [by eapply drop_insert|done].
  - by eapply di_reject_step.
  - destruct (di_evict_step s tr (eq_sym Hp) Hfull Hdi) as (o & -> & Hlt & Hdi'). simpl.
    change [OEvict o; OAccept c] with ([OEvict o] ++ [OAccept c]). rewrite (assoc_L (++)).
    by eapply di_push.
Qed.

Lemma di_woken s tr tid c :
  sys_calls s !! tid = Some (CWoken c) -> data_inv ah n policy s tr ->
  data_inv ah n policy (Dispatch_woken tid c s).1 (tr ++ (Dispatch_woken tid c s).2).
Proof.
  intros Hc Hdi. unfold Dispatch_woken.
  destruct (full (sys_t s)) eqn:Hfull, (rt_closed (sys_t s)) eqn:Hcl; simpl; try by eapply di_refuse_step.
  - rewrite app_nil_r. apply di_calls; [by eapply drop_insert|done].
  - eapply di_push; eauto using not_full.
Qed.

Lemma di_count_drop s tr tid :
  sys_calls s !! tid = Some CDrop -> data_inv ah n policy s tr ->
  data_inv ah n policy (ret_call tid (set_t (add_dropped (sys_t s)) s)) tr.
Proof.
  intros Hc. di_start. rewrite Hd, u64_add_l, (mcount_lookup is_drop _ _ _ Hc). simpl. f_equal. lia.
Qed.

Lemma di_sync s tr tid :
  sys_calls s !! tid = Some CSync -> data_inv ah n policy s tr ->
  data_inv ah n policy (Sync tid s).1 (tr ++ (Sync tid s).2).
Proof.
  intros Hc. unfold Sync. destruct (sink_sync (rt_sink (sys_t s))) as [a e] eqn:E. di_start.
  - exists q. split; [done|]. eapply qt_snoc; [done|]. apply q_sync.
  - rewrite <-Hs. simpl. by rewrite E.
  - by rewrite (drop_delete _ _ _ Hc eq_refl).
Qed.

Lemma di_close s tr tid :
  sys_calls s !! tid = Some CClose -> data_inv ah n policy s tr ->
  data_inv ah n policy (Close tid s).1 (tr ++ (Close tid s).2).
Proof.
  intros Hc. unfold Close. destruct (rt_closed (sys_t s)) eqn:Hcl; di_start.
  - by rewrite (drop_delete _ _ _ Hc eq_refl).
  - exists q. split; [done|]. rewrite inflight_wake, Hcl in *. eapply qt_snoc; [done|]. apply q_shut.
  - unfold worker_ok in *. simpl. destruct (sys_worker s) as [| | |[]| |]; simpl; intuition congruence.
  - rewrite (drop_insert _ tid CClose), drop_wake; [done| |done]. by rewrite lookup_fmap, Hc.
Qed.

Lemma di_drained s tr tid :
  sys_calls s !! tid = Some CDrain -> sys_worker s = WDone -> data_inv ah n policy s tr ->
  data_inv ah n policy (Close_drained tid s).1 (tr ++ (Close_drained tid s).2).
Proof.
  intros Hc Hd0. unfold Close_drained. destruct (sink_sync (rt_sink (sys_t s))) as [a e] eqn:E.
  destruct (sink_close a) as [a' e'] eqn:E'. di_start.
  - exists q. split; [done|]. unfold worker_ok in Hw. rewrite Hd0 in *. destruct Hw as [H0 Hcl].
    pose proof (ring_repr_length _ _ Hq) as Hl. rewrite H0 in Hl. destruct q; [|done]. simpl in *. rewrite Hcl in *.
    eapply qt_snoc2; [done|apply q_sync|apply q_close].
  - rewrite <-Hs. simpl. by rewrite E; simpl; rewrite E'.
  - by rewrite (drop_delete _ _ _ Hc eq_refl).
Qed.

Lemma signal_full_drop wake m m' : signal_full wake m = Some m' -> mcount is_drop m' = mcount is_drop m.
Proof.
  unfold signal_full. destruct wake as [t|]; [|by case_if; intros [= <-]].
  destruct (m !! t) as [[]|] eqn:E; try done. intros [= <-]. by eapply drop_insert.
Qed.

Lemma di_locked s tr wake s' tr' :
  inflight (sys_worker s) = None -> worker_locked wake s = Some (s', tr') ->
  data_inv ah n policy s tr -> data_inv ah n policy s' (tr ++ tr').
Proof.
  unfold worker_locked. intros Hin Hrun [(q & Hq & Ha) Hw Hs Hd Hp Hn]. rewrite Hin in Ha.
  destruct (Nat.eqb_spec (rt_count (sys_t s)) 0) as [E0|E0]; destruct (rt_closed (sys_t s)) eqn:Hcl; simpl in Hrun.
  1,2: injection Hrun as <- <-; rewrite app_nil_r; split; simpl; try rewrite Hcl; eauto; done.
  all: destruct (signal_full wake (sys_calls s)) as [m|] eqn:Hm; [|done]; injection Hrun as <- <-;
    destruct (pop_head_repr _ _ Hq ltac:(lia)) as (x & q' & -> & -> & Hq');
    split; unfold drops in *; trace_norm; rewrite ?(signal_full_drop _ _ _ Hm); eauto.
  all: try (unfold cap in *; simpl; by rewrite length_insert).
  all: try (exists q'; split; [done|]; rewrite Hcl; eapply qt_snoc; [done|]; apply q_take).
  all: done.
Qed.

Lemma di_emit s tr r :
  sys_worker s = WEmit (Some r) -> data_inv ah n policy s tr ->
  data_inv ah n policy (worker_emit (Some r) s).1 (tr ++ (worker_emit (Some r) s).2).
Proof.
  intros Ew. unfold worker_emit. destruct (sink_emit r (rt_sink (sys_t s)) (sys_heap s)) as [[a h] e] eqn:E.
  intros [(q & Hq & Ha) Hw Hs Hd Hp Hn]; rewrite Ew in Ha; split; unfold drops in *; trace_norm; eauto.
  - exists q. split; [done|]. eapply qt_snoc; [done|]. apply q_emit.
  - done.
  - rewrite <-Hs. simpl. by rewrite E.
Qed.

Lemma of_pair (p : Sys A * Trace) tr s' tr' :
  data_inv ah n policy p.1 (tr ++ p.2) -> Some p = Some (s', tr') -> data_inv ah n policy s' (tr ++ tr').
Proof. by intros ? [= ->]. Qed.

Lemma di_step s tr e s' tr' :
  step e s = Some (s', tr') -> data_inv ah n policy s tr -> data_inv ah n policy s' (tr ++ tr').
Proof.
  destruct e as [t pc|t|wake]; simpl; intros Hst Hdi.
  - destruct (sys_calls s !! t) eqn:Hc; [done|]. destruct (entry_pc pc) as [pc'|] eqn:Hp; [|done].
    injection Hst as <- <-. rewrite app_nil_r. apply di_calls; [|done]. apply drop_entry; [done|].
    by destruct pc; try discriminate; injection Hp as <-.
  - unfold run_call in Hst. destruct (sys_calls s !! t) as [[]|] eqn:Hc; try done.
    + by eapply of_pair; [apply (di_dispatch s tr t c Hc Hdi)|].
    + by eapply of_pair; [apply (di_woken s tr t c Hc Hdi)|].
    + injection Hst as <- <-. rewrite app_nil_r. by apply di_count_drop.
    + by eapply of_pair; [apply (di_sync s tr t Hc Hdi)|].
    + by eapply of_pair; [apply (di_close s tr t Hc Hdi)|].
    + destruct (sys_worker s) eqn:Ew; try done. by eapply of_pair; [apply (di_drained s tr t Hc Ew Hdi)|].
  - unfold run_worker in Hst. destruct (sys_worker s) as [| | |[x|]| |] eqn:Ew; try done.
    + eapply di_locked; [by rewrite Ew|done|done].
    + eapply di_locked; [by rewrite Ew|done|done].
    + by eapply of_pair; [apply (di_emit s tr x Ew Hdi)|].
    + pose proof (di_worker _ _ _ _ _ Hdi) as Hw. unfold worker_ok in Hw. by rewrite Ew in Hw.
Qed.

Lemma di_start_ok (a : A) h c : data_inv (a, h) (cap (NewRingTransport a c policy)) policy (start a h c policy) [].
Proof.
  split; simpl; try done. exists []. split; [apply start_repr|constructor].
Qed.

(** ** No wakeup is lost *)
Definition wake_inv (s : Sys A) : Prop :=
  (rt_closed (sys_t s) = true -> mcount is_wait (sys_calls s) = 0%nat) /\
  ((0 < mcount is_wait (sys_calls s))%nat ->
   (cap (sys_t s) <= rt_count (sys_t s) + mcount is_woken (sys_calls s))%nat).

Lemma wait_wake (m : gmap Z CallPC) : mcount is_wait (wake_pc <$> m) = 0%nat.
Proof.
  destruct (Nat.eq_dec (mcount is_wait (wake_pc <$> m)) 0%nat) as [|E]; [done|].
  destruct (mcount_pos is_wait (wake_pc <$> m)) as (k & v & Hk & Hv); [lia|].
  rewrite lookup_fmap in Hk. by destruct (m !! k) as [[]|]; simplify_eq/=.
Qed.

(** Counting both kinds of blocked caller around one entry of the call map. *)
Ltac calls_at Hc :=
  rewrite ?mcount_insert in *;
  rewrite ?(mcount_lookup is_wait _ _ _ Hc), ?(mcount_lookup is_woken _ _ _ Hc) in *; simpl in *.

Ltac wi_tac Hc :=
  intros [= <- <-] [W1 W2]; unfold wake_inv, full, cap in *; simpl; rewrite ?length_insert; calls_at Hc; bool_to_prop;
  (split; [intros; try congruence; try (specialize (W1 ltac:(done)); lia)|lia]).

Lemma wi_call s t s' tr' : run_call t s = Some (s', tr') -> wake_inv s -> wake_inv s'.
Proof.
  unfold run_call, wake_inv. destruct (sys_calls s !! t) as [[]|] eqn:Hc; try done.
  - intros [= Hst]. revert Hst. unfold Dispatch. destruct (rt_closed (sys_t s)) eqn:Hcl.
    { wi_tac Hc. }
    destruct (full (sys_t s)) eqn:Hf; [destruct (rt_policy (sys_t s))|]; wi_tac Hc.
  - intros [= Hst]. revert Hst. unfold Dispatch_woken.
    destruct (full (sys_t s)) eqn:Hf, (rt_closed (sys_t s)) eqn:Hcl; simpl; wi_tac Hc.
  - wi_tac Hc.
  - unfold Sync. destruct (sink_sync _). wi_tac Hc.
  - unfold Close. destruct (rt_closed (sys_t s)) eqn:Hcl; [wi_tac Hc|].
    intros [= <- <-] _. unfold wake_inv. simpl. rewrite !mcount_insert, <-!fmap_delete, !wait_wake. simpl. lia.
  - destruct (sys_worker s); try done. unfold Close_drained. destruct (sink_sync _). destruct (sink_close _). wi_tac Hc.
Qed.

Lemma wi_worker wake s s' tr' : run_worker wake s = Some (s', tr') -> wake_inv s -> wake_inv s'.
Proof.
  assert (Hlocked : worker_locked wake s = Some (s', tr') -> wake_inv s -> wake_inv s').
  { unfold worker_locked. destruct (Nat.eqb_spec (rt_count (sys_t s)) 0) as [E0|E0], (rt_closed (sys_t s)) eqn:Hcl; simpl.
    1,2: by intros [= <- <-].
    all: destruct (signal_full wake (sys_calls s)) as [m|] eqn:Hm; [|done]; intros [= <- <-];
      unfold wake_inv, signal_full in *; unfold cap; simpl; rewrite length_insert; destruct wake as [t|];
      [destruct (sys_calls s !! t) as [[]|] eqn:Hc; try done; injection Hm as <-|case_bool_decide as Hall; [|done]; injection Hm as <-];
      intros [W1 W2]; unfold cap in W2; (split; [intros Hx; specialize (W1 Hx)|]).
    all: try (calls_at Hc; lia).
    all: try lia; intros Hpos; apply mcount_pos in Hpos as (k & v & Hk & Hv); by rewrite (Hall k v Hk) in Hv. }
  unfold run_worker. destruct (sys_worker s) as [| | |[x|]| |]; try done; unfold worker_emit.
  - destruct (sink_emit _ _ _) as [[a h] e]. by intros [= <- <-].
  - by intros [= <- <-].
Qed.

Lemma wi_step e s s' tr' : step e s = Some (s', tr') -> wake_inv s -> wake_inv s'.
Proof.
  destruct e as [t pc|t|wake]; simpl; [|apply wi_call|apply wi_worker].
  destruct (sys_calls s !! t) eqn:Hc; [done|]. destruct (entry_pc pc) as [pc'|] eqn:Hp; [|done].
  intros [= <- <-]. unfold wake_inv. simpl. rewrite !mcount_insert, delete_id by done.
  by destruct pc; try discriminate; injection Hp as <-.
Qed.

End Steps.

Lemma reach_inv a h c policy s tr :
  reach (start a h c policy) s tr ->
  data_inv (a, h) (cap (NewRingTransport a c policy)) policy s tr /\ wake_inv s.
Proof.
  induction 1 as [|s tr e s' tr' _ [IH1 IH2] Hst].
  - split; [apply di_start_ok|]. unfold wake_inv. simpl. rewrite mcount_empty. lia.
  - split; [by eapply di_step|by eapply wi_step].
Qed.

(** A goroutine waits for [done] only after it has closed the transport. *)
Definition drain_inv (s : Sys A) : Prop := forall t, sys_calls s !! t = Some CDrain -> rt_closed (sys_t s) = true.

Lemma lookup_delete_drain (m : gmap Z CallPC) tid t : delete tid m !! t = Some CDrain -> m !! t = Some CDrain.
Proof. intros E. by apply lookup_delete_Some in E as [_ E]. Qed.

Lemma lookup_insert_drain (m : gmap Z CallPC) tid t pc :
  pc <> CDrain -> <[tid := pc]> m !! t = Some CDrain -> m !! t = Some CDrain.
Proof. intros Hn E. apply lookup_insert_Some in E as [[_ E]|[_ E]]; [congruence|done]. Qed.

Lemma drain_step_inv e s s' tr' : step e s = Some (s', tr') -> drain_inv s -> drain_inv s'.
Proof.
  intros Hst Hi t. destruct e as [t' pc|t'|wake]; simpl in Hst.
  - destruct (sys_calls s !! t') eqn:Hc; [done|]. destruct (entry_pc pc) as [pc'|] eqn:Hp; [|done].
    injection Hst as <- <-. simpl. intros E. apply (Hi t). apply lookup_insert_drain in E; [done|].
    by destruct pc; try discriminate; injection Hp as <-.
  - unfold run_call in Hst. destruct (sys_calls s !! t') as [[]|] eqn:Hc; try done;
      unfold Dispatch, Dispatch_woken, Sync, Close, Close_drained in Hst;
      repeat (first [case_match|progress simplify_eq/=]; try done); simpl; intros E; apply (Hi t);
      first [by eapply lookup_delete_drain|eapply lookup_insert_drain; [|exact E]; done].
  - unfold run_worker, worker_locked, worker_emit, signal_full in Hst.
    repeat (first [case_match|progress simplify_eq/=]; try done); simpl; intros E; apply (Hi t); try done;
      (eapply lookup_insert_drain; [|exact E]; done).
Qed.

Lemma reach_drain_inv a h c policy s tr : reach (start a h c policy) s tr -> drain_inv s.
Proof. induction 1; [done|by eapply drain_step_inv]. Qed.

(** The records still queued, oldest first. *)
Definition queue (t : RingTransport A) : list LogRecord :=
  omap (fun x => mjoin x) (window (rt_buf t) (cap t) (rt_head t) (rt_count t)).

Lemma queue_repr t q : ring_repr t q -> queue t = q.
Proof.
  intros (_ & _ & _ & _ & Hw). unfold queue. rewrite Hw. clear Hw. induction q as [|x q IH]; [done|].
  csimpl. by rewrite IH.
Qed.

(** ** Progress *)
Lemma signal_enabled (m : gmap Z CallPC) : exists wake m', signal_full wake m = Some m'.
Proof.
  destruct (Nat.eq_dec (mcount is_wait m) 0%nat) as [E|E].
  - exists None, m. simpl. rewrite bool_decide_true; [done|]. intros k v Hk.
    destruct (is_wait v) eqn:Ev; [|done]. pose proof (mcount_ge is_wait m k v Hk Ev). lia.
  - destruct (mcount_pos is_wait m) as (k & v & Hk & Hv); [lia|]. destruct v; try done.
    exists (Some k), (<[k := CWoken c]> m). simpl. by rewrite Hk.
Qed.

Lemma worker_enabled (s : Sys A) :
  sys_worker s = WLoop \/ sys_worker s = WWoken \/ (exists r, sys_worker s = WEmit r) ->
  exists wake s' tr', step (EWorker wake) s = Some (s', tr').
Proof.
  intros Hw. destruct (signal_enabled (sys_calls s)) as (wake & m' & Hm). exists wake. simpl. unfold run_worker.
  assert (exists s' tr', worker_locked wake s = Some (s', tr')) as (s' & tr' & Hl).
  { unfold worker_locked. repeat case_if; eauto. rewrite Hm. eauto. }
  destruct Hw as [-> | [-> | [r ->]]]; eauto. destruct (worker_emit r s) as [s2 tr2]; eauto.
Qed.

Lemma worker_can_run a h c policy s tr :
  reach (start a h c policy) s tr -> sys_worker s <> WDone ->
  (0 < rt_count (sys_t s))%nat \/ rt_closed (sys_t s) = true ->
  sys_worker s = WLoop \/ sys_worker s = WWoken \/ (exists r, sys_worker s = WEmit r).
Proof.
  intros Hr Hd Hor. destruct (reach_inv _ _ _ _ _ _ Hr) as [[_ Hw _ _ _ _] _]. unfold worker_ok in Hw.
  destruct (sys_worker s) as [| | |r| |]; try done; eauto. destruct Hw as [H0 H1]. destruct Hor; [lia|congruence].
Qed.

(** A worker step of a closed transport, which has no parked caller to choose. *)
Lemma worker_enabled_closed (s : Sys A) :
  wake_inv s -> rt_closed (sys_t s) = true ->
  signal_full None (sys_calls s) = Some (sys_calls s).
Proof.
  intros [W _] Hcl. specialize (W Hcl). simpl. rewrite bool_decide_true; [done|]. intros k v Hk.
  destruct (is_wait v) eqn:Ev; [|done]. pose proof (mcount_ge is_wait _ k v Hk Ev). lia.
Qed.

Lemma drain_loop a h c policy k s tr :
  reach (start a h c policy) s tr -> rt_closed (sys_t s) = true -> rt_count (sys_t s) = k ->
  sys_worker s = WLoop \/ sys_worker s = WWoken ->
  exists s' tr', run (replicate (2 * k + 1) (EWorker None)) s = Some (s', tr') /\ sys_worker s' = WDone.
Proof.
  revert s tr. induction k as [|k IH]; intros s tr Hr Hcl Hk Hw.
  - exists (mkSys (sys_t s) (sys_heap s) WDone (sys_calls s)), []. simpl. unfold run_worker, worker_locked.
    rewrite Hk, Hcl. by destruct Hw as [-> | ->].
  - destruct (reach_inv _ _ _ _ _ _ Hr) as [[(q & Hq & _) _ _ _ _ _] Hwi].
    destruct (pop_head_repr _ _ Hq ltac:(lia)) as (x & q' & -> & Hx & Hq').
    set (s1 := mkSys (pop_head (sys_t s)) (sys_heap s) (WEmit (Some x)) (sys_calls s)).
    assert (H1 : step (EWorker None) s = Some (s1, [OTake x])).
    { simpl. unfold run_worker, worker_locked. rewrite (worker_enabled_closed s Hwi Hcl), Hk, Hcl, Hx.
      by destruct Hw as [-> | ->]. }
    set (p2 := worker_emit (Some x) s1).
    assert (H2 : step (EWorker None) s1 = Some (p2.1, p2.2)) by (change (Some p2 = Some (p2.1, p2.2)); by rewrite <-surjective_pairing).
    assert (Hr2 : reach (start a h c policy) p2.1 ((tr ++ [OTake x]) ++ p2.2)) by eauto using reaches_step.
    assert (Hp2 : rt_closed (sys_t p2.1) = true /\ rt_count (sys_t p2.1) = k /\ sys_worker p2.1 = WLoop).
    { unfold p2, worker_emit, s1. simpl. destruct (sink_emit _ _ _) as [[? ?] ?]. simpl. split_and!; [done|lia|done]. }
    destruct Hp2 as (Hcl2 & Hk2 & Hw2).
    destruct (IH p2.1 _ Hr2 Hcl2 Hk2 (or_introl Hw2)) as (s' & tr' & Hrun & Hd).
    exists s', ([OTake x] ++ p2.2 ++ tr'). split; [|done].
    replace (2 * S k + 1)%nat with (S (S (2 * k + 1))) by lia. cbn [replicate run_steps].
    by rewrite H1, H2, Hrun.
Qed.
End Reach.

(** ** What the transport promises *)
Section Promises.
Context {A : Type} `{Sink A}.

(** C1. The ring refines the bounded FIFO queue.  Whatever the interleaving of
    callers and worker, the observations so far are a trace of the abstract transport
    of that capacity, which ends with exactly the records in the ring, the one in the
    worker's hands and the closed flag; the sink is in the state its emissions, flushes
    and closes put it in; the drop counter is the number of evicted and rejected
    records, less the rejections their callers have not yet counted, modulo 2^64; and
    the worker never emits an empty slot. *)
Theorem ring_refines_queue (a : A) h c policy s tr :
  reach (start a h c policy) s tr ->
  qtrace (if c <? 2 then 1024%nat else Z.to_nat c) policy tr
    (mkQ (queue (sys_t s)) (inflight (sys_worker s)) (rt_closed (sys_t s))) /\
  (rt_sink (sys_t s), sys_heap s) = sink_after (a, h) tr /\
  rt_dropped (sys_t s) = drops tr (mcount is_drop (sys_calls s)) /\
  sys_worker s <> WPanic /\ sys_worker s <> WEmit None.
Proof.
  intros Hr. destruct (reach_inv _ _ _ _ _ _ Hr) as [[(q & Hq & Ha) Hw Hs Hd Hp Hn] _].
  unfold cap, NewRingTransport in Ha. simpl in Ha. rewrite length_replicate in Ha.
  rewrite (queue_repr _ _ Hq). split_and!; try done.
  - by destruct (c <? 2).
  - unfold worker_ok in Hw. intros E. by rewrite E in Hw.
  - unfold worker_ok in Hw. intros E. by rewrite E in Hw.
Qed.

(** C20. No deadlock and no lost wakeup: in every reachable state in which some
    goroutine is inside Dispatch, Sync or Close, some goroutine already in the
    transport (a caller or the worker) can make a step, although every wait is woken
    by a single Signal that a later caller may overtake. *)
Theorem ring_no_deadlock (a : A) h c policy s tr t pc :
  reach (start a h c policy) s tr -> sys_calls s !! t = Some pc ->
  exists e s' tr', internal e = true /\ step e s = Some (s', tr').
Proof.
  intros Hr Hc. destruct (reach_inv _ _ _ _ _ _ Hr) as [Hdi Hwi].
  assert (Hrun : forall k v, sys_calls s !! k = Some v -> is_wait v = false -> v <> CDrain ->
    exists s' tr', step (ERun k) s = Some (s', tr')).
  { intros k v Hk Hv Hn. simpl. unfold run_call. rewrite Hk.
    destruct v; try done; [destruct (Dispatch k c0 s)|destruct (Dispatch_woken k c0 s)| |destruct (Sync k s)|destruct (Close k s)]; eauto. }
  assert (Hworker : sys_worker s <> WDone -> (0 < rt_count (sys_t s))%nat \/ rt_closed (sys_t s) = true ->
    exists e s' tr', internal e = true /\ step e s = Some (s', tr')).
  { intros H1 H2. destruct (worker_enabled s (worker_can_run _ _ _ _ _ _ Hr H1 H2)) as (wake & s' & tr' & Hst). by exists (EWorker wake), s', tr'. }
  destruct (is_wait pc) eqn:Ew.
  - destruct Hwi as [W1 W2]. pose proof (mcount_ge is_wait _ _ _ Hc Ew) as Hpos. specialize (W2 Hpos).
    destruct (rt_closed (sys_t s)) eqn:Hcl; [specialize (W1 eq_refl); lia|].
    destruct (Nat.eq_dec (rt_count (sys_t s)) 0%nat) as [E0|E0].
    + destruct (di_spec _ _ _ _ _ Hdi) as (q & (Hcap & _) & _).
      destruct (mcount_pos is_woken (sys_calls s)) as (k & v & Hk & Hv); [lia|].
      destruct (Hrun k v Hk) as (s' & tr' & Hst); [by destruct v|by destruct v|]. by exists (ERun k), s', tr'.
    + apply Hworker; [|left; lia]. intros E. pose proof (di_worker _ _ _ _ _ Hdi) as Hw. unfold worker_ok in Hw.
      rewrite E in Hw. lia.
  - destruct (decide (pc = CDrain)) as [->|Hn]; [|destruct (Hrun t pc Hc Ew Hn) as (s' & tr' & Hst); by exists (ERun t), s', tr'].
    destruct (sys_worker s) eqn:Ewk.
    5: { exists (ERun t). simpl. unfold run_call. rewrite Hc, Ewk. destruct (Close_drained t s). by eexists _, _. }
    all: apply Hworker; [done|right]; eapply reach_drain_inv; eauto.
Qed.

(** C22. Close drains: once closed, from any reachable state the worker alone
    reaches its end within twice the queue length plus two of its own steps, and then
    every record ever taken has been emitted, nothing is queued or in flight, and
    under Block the sink has received exactly the accepted records, in order. *)
Theorem ring_close_drains (a : A) h c policy s tr :
  reach (start a h c policy) s tr -> rt_closed (sys_t s) = true ->
  exists n s' tr', (n <= 2 * rt_count (sys_t s) + 2)%nat /\
    run (replicate n (EWorker None)) s = Some (s', tr') /\ sys_worker s' = WDone /\
    queue (sys_t s') = [] /\ emitted (tr ++ tr') = taken (tr ++ tr') /\
    (policy = Block -> emitted (tr ++ tr') = accepted (tr ++ tr')).
Proof.
  intros Hr Hcl.
  assert (exists n s' tr', (n <= 2 * rt_count (sys_t s) + 2)%nat /\
    run (replicate n (EWorker None)) s = Some (s', tr') /\ sys_worker s' = WDone) as (n & s' & tr' & Hn & Hrun & Hd).
  { assert (sys_worker s = WDone \/ sys_worker s <> WDone) as [E|E] by (destruct (sys_worker s); eauto); [by exists 0%nat, s, []; split; [lia|]|].
    destruct (worker_can_run _ _ _ _ _ _ Hr E (or_intror Hcl)) as [Hw|[Hw|[r Hw]]].
    1,2: destruct (drain_loop _ _ _ _ _ _ _ Hr Hcl eq_refl ltac:(eauto)) as (s' & tr' & Hrun & Hd); eexists _, s', tr'; split; [|done]; lia.
    set (p := worker_emit r s).
    assert (H1 : step (EWorker None) s = Some (p.1, p.2)) by (simpl; unfold run_worker; rewrite Hw; by rewrite <-surjective_pairing).
    destruct (drain_loop a h c policy (rt_count (sys_t s)) p.1 (tr ++ p.2)) as (s' & tr' & Hrun & Hd); [by eapply reaches_step| | | |].
    1-3: unfold p, worker_emit; destruct r; [destruct (sink_emit _ _ _) as [[? ?] ?]|]; simpl; eauto.
    { pose proof (di_worker _ _ _ _ _ (proj1 (reach_inv _ _ _ _ _ _ Hr))) as Hok. unfold worker_ok in Hok. by rewrite Hw in Hok. }
    exists (S (2 * rt_count (sys_t s) + 1)), s', (p.2 ++ tr'). split; [lia|]. cbn [replicate run_steps]. by rewrite H1, Hrun. }
  exists n, s', tr'. split_and!; try done.
  all: destruct (reach_inv _ _ _ _ _ _ (run_reaches _ _ _ _ _ _ Hr Hrun)) as [[(q & Hq & Ha) Hw _ _ _ _] _];
    unfold worker_ok in Hw; rewrite Hd in Hw, Ha; destruct Hw as [H0 _];
    pose proof (ring_repr_length _ _ Hq) as Hl; rewrite H0 in Hl; destruct q; [|done].
  - by apply queue_repr.
  - destruct (qtrace_fifo _ _ _ _ Ha) as [_ ->]. unfold hand. simpl. by rewrite app_nil_r.
  - intros ->. destruct (qtrace_block _ _ _ Ha) as (_ & _ & ->). unfold hand. simpl. by rewrite app_nil_r.
Qed.
End Promises.

(** ** A run: two producers on a ring of two slots, one of them blocked, then Close *)
Definition msg (m : string) : LogRecord := mkRecord GoTime.zero_time LevelInfo m 0 "" [] (Some Background) false.

Definition demo_events : list Event :=
  [ECall 1 (CDispatch (msg "a")); ERun 1; ECall 1 (CDispatch (msg "b")); ERun 1;
   ECall 2 (CDispatch (msg "c")); ERun 2;            (* full: goroutine 2 parks *)
   EWorker (Some 2); EWorker None;                   (* takes a, wakes 2, emits *)
   ECall 1 (CDispatch (msg "d")); ERun 1;            (* overtakes goroutine 2 *)
   ERun 2;                                           (* parks again *)
   ECall 3 CClose; ERun 3; ERun 2].                  (* 2 returns: its record is refused *)
Definition demo_start (p : OverflowPolicy) : Sys Capture := start (mkCapture []) empty_heap 2 p.
Definition demo_end (p : OverflowPolicy) : Sys Capture * Trace := default (demo_start p, []) (run demo_events (demo_start p)).

Lemma demo_reach : reach (demo_start Block) (demo_end Block).1 (demo_end Block).2.
Proof.
  apply (run_reaches demo_events (demo_start Block) (demo_start Block) []); [constructor|].
  vm_compute. reflexivity.
Qed.

Lemma ring_refines_queue_witness :
  map r_Message (refused (demo_end Block).2) = ["c"%string] /\
  map r_Message (accepted (demo_end Block).2) = ["a"; "b"; "d"]%string /\
  qtrace 2 Block (demo_end Block).2
    (mkQ (queue (sys_t (demo_end Block).1)) (inflight (sys_worker (demo_end Block).1)) (rt_closed (sys_t (demo_end Block).1))).
Proof.
  split_and!; [vm_compute; reflexivity|vm_compute; reflexivity|].
  exact (proj1 (ring_refines_queue (mkCapture []) empty_heap 2 Block _ _ demo_reach)).
Defined.

Lemma ring_no_deadlock_witness :
  exists e s' tr', internal e = true /\ step e (demo_end Block).1 = Some (s', tr').
Proof.
  apply (ring_no_deadlock (mkCapture []) empty_heap 2 Block _ _ 3 CDrain demo_reach).
  vm_compute. reflexivity.
Defined.

Lemma ring_close_drains_witness :
  exists n s' tr', (n <= 2 * 2 + 2)%nat /\
    run (replicate n (EWorker None)) (demo_end Block).1 = Some (s', tr') /\
    emitted ((demo_end Block).2 ++ tr') = accepted ((demo_end Block).2 ++ tr').
Proof.
  destruct (ring_close_drains (mkCapture []) empty_heap 2 Block _ _ demo_reach) as (n & s' & tr' & Hn & Hrun & _ & _ & _ & HB).
  { vm_compute. reflexivity. }
  exists n, s', tr'. split_and!; [vm_compute in Hn; exact Hn|exact Hrun|exact (HB eq_refl)].
Defined.
