(* ===== verification/ChannelTransport.v ===== *)
(** * The channel transport (transport.go) as a concurrent transition system

    The buffered Go channel is a bounded list with a closed flag: a send blocks while
    it is full and panics when it is closed, a receive takes the oldest element, and
    yields the zero value at once when the channel is closed and empty; a [select]
    with a [default] tests and acts in one step. *)
From S2P Require Import Prelude GoStd Level Field Record Sink Transport.
Local Open Scope Z_scope.

(** The state of a [sync.Once]: a second caller waits while the first runs. *)
Inductive OnceState := OnceNew | OnceRunning | OnceDone.

Record ChannelTransport (A : Type) := mkChannel {
  ct_sink : A;
  ct_ch : list LogRecord;
  ct_cap : nat;
  ct_closed : bool;          (* close(t.ch) has happened *)
  ct_policy : OverflowPolicy;
  ct_dropped : Z;
  ct_once : OnceState
}.
Arguments mkChannel {A}.
Arguments ct_sink {A}.
Arguments ct_ch {A}.
Arguments ct_cap {A}.
Arguments ct_closed {A}.
Arguments ct_policy {A}.
Arguments ct_dropped {A}.
Arguments ct_once {A}.

Inductive ChWorkerPC :=
| CWRecv                        (* at the range over the channel *)
| CWEmit (r : LogRecord)        (* about to Emit *)
| CWDone.                       (* done is closed *)

Inductive ChCallPC :=
| HSend (c : LogRecord)         (* Dispatch: about to send (a plain send, or the select) *)
| HCount                        (* DropNewest: about to count the drop, then return *)
| HEvict (c : LogRecord)        (* DropOldest: the send failed, about to receive *)
| HCountRetry (c : LogRecord)   (* DropOldest: evicted, about to count and retry *)
| HSync
| HClose                        (* Close: at once.Do *)
| HDrain                        (* in once.Do, channel closed, receiving from done *)
| HFinish                       (* after once.Do *)
| HPanic (c : LogRecord).       (* send on closed channel *)

Inductive ChEvent :=
| HECall (t : Z) (pc : ChCallPC)
| HERun (t : Z)
| HEWorker.
Definition ch_internal (e : ChEvent) : bool := match e with HECall _ _ => false | _ => true end.

Definition ch_entry (pc : ChCallPC) : option ChCallPC :=
  match pc with
  | HSend r => Some (HSend (Clone r))
  | HSync => Some HSync
  | HClose => Some HClose
  | _ => None
  end.

Record ChSys (A : Type) := mkChSys {
  cs_t : ChannelTransport A;
  cs_heap : Heap;
  cs_worker : ChWorkerPC;
  cs_calls : gmap Z ChCallPC
}.
Arguments mkChSys {A}.
Arguments cs_t {A}.
Arguments cs_heap {A}.
Arguments cs_worker {A}.
Arguments cs_calls {A}.

Section ChannelT.
Context {A : Type} `{Sink A}.

Definition NewChannelTransport (s : A) (capacity : Z) (policy : OverflowPolicy) : ChannelTransport A :=
  let capacity := if capacity <? 1 then 1024 else capacity in
  mkChannel s [] (Z.to_nat capacity) false policy 0 OnceNew.

Definition set_ch (q : list LogRecord) (t : ChannelTransport A) : ChannelTransport A :=
  mkChannel (ct_sink t) q (ct_cap t) (ct_closed t) (ct_policy t) (ct_dropped t) (ct_once t).
Definition ch_add_dropped (t : ChannelTransport A) : ChannelTransport A :=
  mkChannel (ct_sink t) (ct_ch t) (ct_cap t) (ct_closed t) (ct_policy t) (u64 (ct_dropped t + 1)) (ct_once t).
Definition ch_set_sink (a : A) (t : ChannelTransport A) : ChannelTransport A :=
  mkChannel a (ct_ch t) (ct_cap t) (ct_closed t) (ct_policy t) (ct_dropped t) (ct_once t).
Definition set_once (cl : bool) (o : OnceState) (t : ChannelTransport A) : ChannelTransport A :=
  mkChannel (ct_sink t) (ct_ch t) (ct_cap t) cl (ct_policy t) (ct_dropped t) o.

Definition ch_upd (t : ChannelTransport A) (tid : Z) (pc : option ChCallPC) (s : ChSys A) : ChSys A :=
  mkChSys t (cs_heap s) (cs_worker s) (match pc with Some p => <[tid := p]> (cs_calls s) | None => delete tid (cs_calls s) end).

(** The send of [Dispatch], under each policy. *)
Definition ch_send (tid : Z) (c : LogRecord) (s : ChSys A) : option (ChSys A * Trace) :=
  let t := cs_t s in
  if ct_closed t then Some (ch_upd t tid (Some (HPanic c)) s, [OPanic c])
  else if (length (ct_ch t) <? ct_cap t)%nat then
    Some (ch_upd (set_ch (ct_ch t ++ [c]) t) tid None s, [OAccept c])
  else match ct_policy t with
       | Block => None
       | DropNewest => Some (ch_upd t tid (Some HCount) s, [OReject c])
       | DropOldest => Some (ch_upd t tid (Some (HEvict c)) s, [])
       end.

(** [select { case <-t.ch: ...; default: }]. *)
Definition ch_evict (tid : Z) (c : LogRecord) (s : ChSys A) : ChSys A * Trace :=
  let t := cs_t s in
  match ct_ch t with
  | x :: q => (ch_upd (set_ch q t) tid (Some (HCountRetry c)) s, [OEvict x])
  | [] => if ct_closed t then (ch_upd t tid (Some (HCountRetry c)) s, [])
          else (ch_upd t tid (Some (HSend c)) s, [])
  end.

Definition ChannelTransport_Sync (tid : Z) (s : ChSys A) : ChSys A * Trace :=
  let '(a, _) := sink_sync (ct_sink (cs_t s)) in (ch_upd (ch_set_sink a (cs_t s)) tid None s, [OSync]).

(** [Close]: the body of [once.Do], then [Sync] and [Close] of the sink. *)
Definition ch_close (tid : Z) (s : ChSys A) : option (ChSys A * Trace) :=
  match ct_once (cs_t s) with
  | OnceNew => Some (ch_upd (set_once true OnceRunning (cs_t s)) tid (Some HDrain) s, [OShut])
  | OnceRunning => None
  | OnceDone => Some (ch_upd (cs_t s) tid (Some HFinish) s, [])
  end.
Definition ch_finish (tid : Z) (s : ChSys A) : ChSys A * Trace :=
  let '(a, _) := sink_sync (ct_sink (cs_t s)) in
  let '(a, _) := sink_close a in
  (ch_upd (ch_set_sink a (cs_t s)) tid None s, [OSync; OClose]).

Definition ch_run_call (tid : Z) (s : ChSys A) : option (ChSys A * Trace) :=
  match cs_calls s !! tid with
  | None | Some (HPanic _) => None
  | Some (HSend c) => ch_send tid c s
  | Some HCount => Some (ch_upd (ch_add_dropped (cs_t s)) tid None s, [])
  | Some (HEvict c) => Some (ch_evict tid c s)
  | Some (HCountRetry c) => Some (ch_upd (ch_add_dropped (cs_t s)) tid (Some (HSend c)) s, [])
  | Some HSync => Some (ChannelTransport_Sync tid s)
  | Some HClose => ch_close tid s
  | Some HDrain =>
      match cs_worker s with
      | CWDone => Some (ch_upd (set_once (ct_closed (cs_t s)) OnceDone (cs_t s)) tid (Some HFinish) s, [])
      | _ => None
      end
  | Some HFinish => Some (ch_finish tid s)
  end.

(** [run]: the record is a clone, which [release] ignores. *)
Definition ch_run_worker (s : ChSys A) : option (ChSys A * Trace) :=
  let t := cs_t s in
  match cs_worker s with
  | CWRecv =>
      match ct_ch t with
      | x :: q => Some (mkChSys (set_ch q t) (cs_heap s) (CWEmit x) (cs_calls s), [OTake x])
      | [] => if ct_closed t then Some (mkChSys t (cs_heap s) CWDone (cs_calls s), []) else None
      end
  | CWEmit r =>
      let '(a, h, _) := sink_emit r (ct_sink t) (cs_heap s) in
      Some (mkChSys (ch_set_sink a t) h CWRecv (cs_calls s), [OEmit r])
  | CWDone => None
  end.

Definition ChannelTransport_Dropped (t : ChannelTransport A) : Z := ct_dropped t.

Definition ch_step (e : ChEvent) (s : ChSys A) : option (ChSys A * Trace) :=
  match e with
  | HECall t pc =>
      match cs_calls s !! t, ch_entry pc with
      | None, Some pc' => Some (ch_upd (cs_t s) t (Some pc') s, [])
      | _, _ => None
      end
  | HERun t => ch_run_call t s
  | HEWorker => ch_run_worker s
  end.

Abbreviation ch_run := (run_steps ch_step).
Abbreviation ch_reach := (reaches ch_step).

Definition ch_start (a : A) (h : Heap) (capacity : Z) (policy : OverflowPolicy) : ChSys A :=
  mkChSys (NewChannelTransport a capacity policy) h CWRecv ∅.

(** ** The invariant *)
Definition ch_hand (w : ChWorkerPC) : option LogRecord := match w with CWEmit r => Some r | _ => None end.
Definition ch_pending (pc : ChCallPC) : bool := match pc with HCount | HCountRetry _ => true | _ => false end.

(** What the position of a call implies. *)
Definition call_ok (s : ChSys A) (pc : ChCallPC) : Prop :=
  match pc with
  | HEvict _ => ct_policy (cs_t s) = DropOldest
  | HCountRetry _ => ct_policy (cs_t s) = DropOldest
  | HDrain => ct_closed (cs_t s) = true
  | HFinish => cs_worker s = CWDone
  | HPanic _ => ct_closed (cs_t s) = true
  | _ => True
  end.
Definition once_ok (s : ChSys A) : Prop :=
  match ct_once (cs_t s) with
  | OnceNew => ct_closed (cs_t s) = false
  | OnceRunning => ct_closed (cs_t s) = true /\ exists t, cs_calls s !! t = Some HDrain
  | OnceDone => ct_closed (cs_t s) = true /\ cs_worker s = CWDone
  end.

Record ch_inv (ah : A * Heap) (n : nat) (policy : OverflowPolicy) (s : ChSys A) (tr : Trace) : Prop := {
  ci_spec : qtrace n policy tr (mkQ (ct_ch (cs_t s)) (ch_hand (cs_worker s)) (ct_closed (cs_t s)));
  ci_done : cs_worker s = CWDone -> ct_ch (cs_t s) = [] /\ ct_closed (cs_t s) = true;
  ci_sink : (ct_sink (cs_t s), cs_heap s) = sink_after ah tr;
  ci_dropped : exists ph, ct_dropped (cs_t s) =
      u64 (Z.of_nat (length (evicted tr) + length (rejected tr)) + ph - Z.of_nat (mcount ch_pending (cs_calls s))) /\
      0 <= ph /\ (ct_closed (cs_t s) = false \/ policy <> DropOldest -> ph = 0);
  ci_policy : ct_policy (cs_t s) = policy;
  ci_cap : ct_cap (cs_t s) = n;
  ci_calls : map_Forall (fun _ pc => call_ok s pc) (cs_calls s);
  ci_once : once_ok s
}.

(** *** Each kind of step preserves it *)
Section Steps.
Context (ah : A * Heap) (n : nat) (policy : OverflowPolicy).
Implicit Types (s : ChSys A) (tr : Trace).

(** The transport keeps its policy and stays closed. *)
Definition extends (t t' : ChannelTransport A) : Prop :=
  ct_policy t' = ct_policy t /\ (ct_closed t = true -> ct_closed t' = true).

Lemma call_ok_mono s s' pc :
  extends (cs_t s) (cs_t s') -> (cs_worker s = CWDone -> cs_worker s' = CWDone) -> call_ok s pc -> call_ok s' pc.
Proof. intros [H1 H2] H3. destruct pc; simpl; intros; try done; try congruence; auto. Qed.

Lemma calls_upd s t' tid pc :
  extends (cs_t s) t' -> (forall p, pc = Some p -> call_ok (ch_upd t' tid pc s) p) ->
  map_Forall (fun _ p => call_ok s p) (cs_calls s) ->
  map_Forall (fun _ p => call_ok (ch_upd t' tid pc s) p) (cs_calls (ch_upd t' tid pc s)).
Proof.
  intros He Hp Hall k v. simpl. destruct pc as [p|].
  - intros [[-> <-]|[_ Hk]]%lookup_insert_Some; [by apply Hp|]. eapply call_ok_mono; [done|done|by eapply Hall].
  - intros [_ Hk]%lookup_delete_Some. eapply call_ok_mono; [done|done|by eapply Hall].
Qed.

(** [once_ok] survives a call that neither starts nor ends the body of the [Once]. *)
Lemma once_upd s t' tid pc old :
  ct_once t' = ct_once (cs_t s) -> ct_closed t' = ct_closed (cs_t s) ->
  cs_calls s !! tid = Some old -> old <> HDrain -> once_ok s -> once_ok (ch_upd t' tid pc s).
Proof.
  intros E1 E2 Hc Hn. unfold once_ok. simpl. rewrite E1, E2. destruct (ct_once (cs_t s)); try done.
  intros [H1 [t Ht]]. split; [done|]. exists t. assert (t <> tid) by congruence.
  destruct pc; [by rewrite lookup_insert_ne|by rewrite lookup_delete_ne].
Qed.

Definition b2n (b : bool) : nat := if b then 1 else 0.
Definition pend (pc : option ChCallPC) : nat := match pc with Some p => b2n (ch_pending p) | None => 0 end.

Lemma pending_upd s t' tid pc old :
  cs_calls s !! tid = Some old ->
  (mcount ch_pending (cs_calls (ch_upd t' tid pc s)) + b2n (ch_pending old) = mcount ch_pending (cs_calls s) + pend pc)%nat.
Proof.
  intros Hc. rewrite (mcount_lookup ch_pending _ _ _ Hc). unfold ch_upd, pend, b2n. simpl.
  destruct pc as [p|]; [rewrite mcount_insert|]; lia.
Qed.

(** A call makes a step that follows the specification; the counter grows by [d], as
    many as the drops that show in the trace, the counts that were pending, and [ph]
    receives of the zero value from the closed channel. *)
Lemma ci_call s tr tid old pc t' os :
  cs_calls s !! tid = Some old -> old <> HDrain ->
  extends (cs_t s) t' -> (forall p, pc = Some p -> call_ok (ch_upd t' tid pc s) p) ->
  ct_once t' = ct_once (cs_t s) -> ct_closed t' = ct_closed (cs_t s) -> ct_cap t' = ct_cap (cs_t s) ->
  (cs_worker s = CWDone -> ct_ch t' = []) ->
  (qtrace n policy tr (mkQ (ct_ch (cs_t s)) (ch_hand (cs_worker s)) (ct_closed (cs_t s))) ->
   qtrace n policy (tr ++ os) (mkQ (ct_ch t') (ch_hand (cs_worker s)) (ct_closed t'))) ->
  (ct_sink t', cs_heap s) = sink_after (ct_sink (cs_t s), cs_heap s) os ->
  (exists d ph, (ct_dropped t' = u64 (ct_dropped (cs_t s) + d) \/ ct_dropped t' = ct_dropped (cs_t s) /\ d = 0) /\ 0 <= ph /\
     d + Z.of_nat (pend pc) = Z.of_nat (length (evicted os) + length (rejected os)) + ph + Z.of_nat (b2n (ch_pending old)) /\
     (ct_closed t' = false \/ policy <> DropOldest -> ph = 0)) ->
  ch_inv ah n policy s tr -> ch_inv ah n policy (ch_upd t' tid pc s) (tr ++ os).
Proof.
  intros Hc Hn He Hp Ho Hcl Hcap Hdone Hq Hsk (d & ph & Hd & Hph & Heq & Hz) [I1 I2 I3 (ph0 & I4 & I4' & I4z) I5 I6 I7 I8].
  split; simpl.
  - by apply Hq.
  - intros Hw. rewrite Hcl. split; [by apply Hdone|by apply I2].
  - rewrite sink_after_app, <-I3. done.
  - exists (ph0 + ph).
    assert (ct_dropped t' = u64 (ct_dropped (cs_t s) + d)) as ->.
    { destruct Hd as [?|[-> ->]]; [done|]. rewrite I4, u64_add_l. f_equal. lia. }
    rewrite I4, u64_add_l, evicted_app, rejected_app, !length_app. split; [|split; [lia|]].
    + f_equal. pose proof (pending_upd s t' tid pc old Hc) as Hpu. simpl in Hpu. lia.
    + rewrite Hcl in *. intros Hor. rewrite (Hz Hor), (I4z Hor). lia.
  - rewrite <-I5. apply He.
  - congruence.
  - by apply calls_upd.
  - by eapply once_upd.
Qed.

Ltac ci_upd Hc I2 d ph :=
  eapply (ci_call _ _ _ _ _ _ _ Hc);
  [done|by split|intros ? [= <-]; done|done|done|done|intros Hwd; destruct (I2 Hwd); simpl in *; congruence
  |simpl; intros Hqt; first [eapply qt_snoc; [exact Hqt|]|rewrite app_nil_r; exact Hqt]|done
  |exists d, ph; simpl; split_and!; [auto|lia|lia|try done]|try done].

Lemma ci_send s tr tid c s' tr' :
  cs_calls s !! tid = Some (HSend c) -> ch_send tid c s = Some (s', tr') ->
  ch_inv ah n policy s tr -> ch_inv ah n policy s' (tr ++ tr').
Proof.
  intros Hc Hs Hi. pose proof Hi as [I1 I2 _ _ I5 I6 _ _]. unfold ch_send in Hs.
  destruct (ct_closed (cs_t s)) eqn:Hcl.
  { injection Hs as <- <-. ci_upd Hc I2 0 0. rewrite Hcl. apply q_panic. }
  pose proof (qtrace_bounded _ _ _ _ I1) as Hb. simpl in Hb.
  destruct (Nat.ltb_spec (length (ct_ch (cs_t s))) (ct_cap (cs_t s))) as [Hlt|Hge].
  { injection Hs as <- <-. ci_upd Hc I2 0 0. rewrite Hcl. apply q_accept. lia. }
  destruct (ct_policy (cs_t s)) eqn:Hp; [done| |]; injection Hs as <- <-.
  - ci_upd Hc I2 0 0. rewrite Hcl. apply q_reject; [done|]. lia.
  - ci_upd Hc I2 0 0.
Qed.

Lemma ci_evict s tr tid c :
  cs_calls s !! tid = Some (HEvict c) -> ch_inv ah n policy s tr ->
  ch_inv ah n policy (ch_evict tid c s).1 (tr ++ (ch_evict tid c s).2).
Proof.
  intros Hc Hi. pose proof Hi as [I1 I2 _ _ I5 I6 I7 _]. specialize (I7 tid _ Hc). simpl in I7. unfold ch_evict.
  destruct (ct_ch (cs_t s)) as [|x q] eqn:Hq; [destruct (ct_closed (cs_t s)) eqn:Hcl|]; simpl.
  - ci_upd Hc I2 0 1. rewrite Hcl. intros [|]; congruence.
  - ci_upd Hc I2 0 0.
  - ci_upd Hc I2 0 0. rewrite Hq. apply q_evict. congruence.
Qed.

Lemma ci_sync s tr tid :
  cs_calls s !! tid = Some HSync -> ch_inv ah n policy s tr ->
  ch_inv ah n policy (ChannelTransport_Sync tid s).1 (tr ++ (ChannelTransport_Sync tid s).2).
Proof.
  intros Hc Hi. pose proof Hi as [I1 I2 _ _ I5 I6 I7 _]. unfold ChannelTransport_Sync.
  destruct (sink_sync (ct_sink (cs_t s))) as [a e] eqn:E. simpl.
  eapply (ci_call _ _ _ _ _ _ _ Hc); try done; [intros Hwd; by destruct (I2 Hwd)|intros; eapply qt_snoc; [done|apply q_sync]|simpl; by rewrite E|].
  exists 0, 0. simpl. split_and!; auto; lia.
Qed.

Lemma ci_finish s tr tid :
  cs_calls s !! tid = Some HFinish -> ch_inv ah n policy s tr ->
  ch_inv ah n policy (ch_finish tid s).1 (tr ++ (ch_finish tid s).2).
Proof.
  intros Hc Hi. pose proof Hi as [I1 I2 _ _ I5 I6 I7 _]. specialize (I7 tid _ Hc). simpl in I7. unfold ch_finish.
  destruct (sink_sync (ct_sink (cs_t s))) as [a e] eqn:E. destruct (sink_close a) as [a' e'] eqn:E'. simpl.
  destruct (I2 I7) as [H1 H2].
  eapply (ci_call _ _ _ _ _ _ _ Hc); try done.
  - simpl. rewrite I7, H1, H2. intros. eapply qt_snoc2; [done|apply q_sync|apply q_close].
  - simpl. by rewrite E; simpl; rewrite E'.
  - exists 0, 0. simpl. split_and!; auto; lia.
Qed.

Lemma ci_close s tr tid s' tr' :
  cs_calls s !! tid = Some HClose -> ch_close tid s = Some (s', tr') -> ch_inv ah n policy s tr ->
  ch_inv ah n policy s' (tr ++ tr').
Proof.
  intros Hc Hs Hi. pose proof Hi as [I1 I2 I3 (ph & I4 & I4' & I4z) I5 I6 I7 I8]. unfold ch_close in Hs. unfold once_ok in I8.
  destruct (ct_once (cs_t s)) eqn:Ho; [|done|]; injection Hs as <- <-.
  - split; simpl; try done.
    + eapply qt_snoc; [done|]. rewrite I8. apply q_shut.
    + intros Hw. destruct (I2 Hw). congruence.
    + by rewrite sink_after_app, <-I3.
    + exists ph. rewrite evicted_app, rejected_app. simpl. rewrite !app_nil_r.
      pose proof (pending_upd s (cs_t s) tid (Some HDrain) HClose Hc) as Hpu. simpl in Hpu.
      split; [rewrite I4; f_equal; lia|]. split; [done|]. intros [|]; [done|]. apply I4z. by right.
    + apply calls_upd; [by split|intros ? [= <-]; done|done].
    + unfold once_ok. simpl. split; [done|]. exists tid. by rewrite lookup_insert_eq.
  - destruct I8 as [Hcl Hw]. ci_upd Hc I2 0 0.
Qed.

Lemma ci_drain s tr tid :
  cs_calls s !! tid = Some HDrain -> cs_worker s = CWDone -> ch_inv ah n policy s tr ->
  ch_inv ah n policy (ch_upd (set_once (ct_closed (cs_t s)) OnceDone (cs_t s)) tid (Some HFinish) s) tr.
Proof.
  intros Hc Hw [I1 I2 I3 (ph & I4 & I4' & I4z) I5 I6 I7 I8]. split; simpl; try done.
  - exists ph. pose proof (pending_upd s (cs_t s) tid (Some HFinish) HDrain Hc) as Hpu. simpl in Hpu.
    split; [rewrite I4; f_equal; lia|done].
  - apply calls_upd; [by split|intros ? [= <-]; done|done].
  - unfold once_ok. simpl. split; [apply (I7 tid _ Hc)|done].
Qed.

Lemma ci_worker s tr s' tr' : ch_run_worker s = Some (s', tr') -> ch_inv ah n policy s tr -> ch_inv ah n policy s' (tr ++ tr').
Proof.
  intros Hs [I1 I2 I3 (ph & I4 & I4' & I4z) I5 I6 I7 I8]. unfold ch_run_worker in Hs.
  assert (Hcalls : forall t' h' w', ct_policy t' = ct_policy (cs_t s) -> ct_closed t' = ct_closed (cs_t s) -> cs_worker s <> CWDone ->
    map_Forall (fun _ p => call_ok (mkChSys t' h' w' (cs_calls s)) p) (cs_calls s)).
  { intros t' h' w' E1 E2 E3 k v Hk. eapply (call_ok_mono s); [split; simpl; congruence|by intros|by eapply I7]. }
  assert (Honce : forall t' h' w', ct_once t' = ct_once (cs_t s) -> ct_closed t' = ct_closed (cs_t s) -> cs_worker s <> CWDone ->
    once_ok (mkChSys t' h' w' (cs_calls s))).
  { intros t' h' w' E1 E2 E3. unfold once_ok in *. simpl. rewrite E1, E2. destruct (ct_once (cs_t s)); [done|done|]. by destruct I8. }
  destruct (cs_worker s) as [|r|] eqn:Hw; [|destruct (sink_emit r (ct_sink (cs_t s)) (cs_heap s)) as [[a h] e] eqn:E|done].
  - destruct (ct_ch (cs_t s)) as [|x q] eqn:Hq; [destruct (ct_closed (cs_t s)) eqn:Hcl; [|done]|]; injection Hs as <- <-.
    + rewrite app_nil_r. split; simpl; rewrite ?Hq, ?Hcl; eauto.
    + split; simpl; autorewrite with trace; simpl; try done; eauto. eapply qt_snoc; [done|]. apply q_take.
  - injection Hs as <- <-. split; simpl; autorewrite with trace; simpl; eauto.
    + eapply qt_snoc; [done|]. apply q_emit.
    + done.
    + rewrite <-I3. simpl. by rewrite E.
Qed.

Lemma ci_of_pair (p : ChSys A * Trace) tr s' tr' :
  ch_inv ah n policy p.1 (tr ++ p.2) -> Some p = Some (s', tr') -> ch_inv ah n policy s' (tr ++ tr').
Proof. by intros ? [= ->]. Qed.

Lemma ci_entry s tr t pc pc' :
  cs_calls s !! t = None -> ch_entry pc = Some pc' -> ch_inv ah n policy s tr ->
  ch_inv ah n policy (ch_upd (cs_t s) t (Some pc') s) tr.
Proof.
  intros Hc Hp [I1 I2 I3 (ph & I4 & I4' & I4z) I5 I6 I7 I8].
  assert (ch_pending pc' = false /\ forall s0 : ChSys A, call_ok s0 pc') as [Hpe Hok].
  { destruct pc; try discriminate; injection Hp as <-; done. }
  split; simpl; try done.
  - exists ph. rewrite mcount_insert, delete_id, Hpe by done. done.
  - apply calls_upd; [by split|intros ? [= <-]; apply Hok|done].
  - unfold once_ok in *. simpl. destruct (ct_once (cs_t s)); try done. destruct I8 as [H1 [t' Ht']].
    split; [done|]. exists t'. rewrite lookup_insert_ne; [done|congruence].
Qed.

Lemma ci_step s tr e s' tr' :
  ch_step e s = Some (s', tr') -> ch_inv ah n policy s tr -> ch_inv ah n policy s' (tr ++ tr').
Proof.
  destruct e as [t pc|t|]; simpl; [|unfold ch_run_call|apply ci_worker]; intros Hst Hi.
  - destruct (cs_calls s !! t) eqn:Hc; [done|]. destruct (ch_entry pc) as [pc'|] eqn:Hp; [|done].
    injection Hst as <- <-. rewrite app_nil_r. by eapply ci_entry.
  - pose proof Hi as [I1 I2 _ _ _ _ I7 _]. destruct (cs_calls s !! t) as [[]|] eqn:Hc; try done.
    + by eapply ci_send.
    + injection Hst as <- <-. ci_upd Hc I2 1 0.
    + by eapply ci_of_pair; [apply (ci_evict s tr t c Hc Hi)|].
    + injection Hst as <- <-. ci_upd Hc I2 1 0.
    + by eapply ci_of_pair; [apply (ci_sync s tr t Hc Hi)|].
    + by eapply ci_close.
    + destruct (cs_worker s) eqn:Hw; try done. injection Hst as <- <-. rewrite app_nil_r. by apply ci_drain.
    + by eapply ci_of_pair; [apply (ci_finish s tr t Hc Hi)|].
Qed.
End Steps.

Lemma ch_reach_inv a h c policy s tr :
  ch_reach (ch_start a h c policy) s tr ->
  ch_inv (a, h) (if c <? 1 then 1024%nat else Z.to_nat c) policy s tr.
Proof.
  induction 1 as [|s tr e s' tr' _ IH Hst]; [|by eapply ci_step].
  split; simpl; try done; [constructor|by exists 0|by destruct (c <? 1)].
Qed.

Lemma ch_drain_loop a h c policy s tr :
  ch_reach (ch_start a h c policy) s tr -> ct_closed (cs_t s) = true -> cs_worker s = CWRecv ->
  exists s' tr', ch_run (replicate (2 * length (ct_ch (cs_t s)) + 1) HEWorker) s = Some (s', tr') /\ cs_worker s' = CWDone.
Proof.
  remember (ct_ch (cs_t s)) as q eqn:Hq. revert s tr Hq. induction q as [|x q IH]; intros s tr Hq Hr Hcl Hw.
  - simpl. unfold ch_run_worker. rewrite Hw, <-Hq, Hcl. by eexists _, _.
  - replace (2 * length (x :: q) + 1)%nat with (S (S (2 * length q + 1))) by (simpl; lia). cbn [replicate run_steps].
    set (s1 := mkChSys (set_ch q (cs_t s)) (cs_heap s) (CWEmit x) (cs_calls s)).
    assert (H1 : ch_step HEWorker s = Some (s1, [OTake x])) by (simpl; unfold ch_run_worker; by rewrite Hw, <-Hq).
    destruct (sink_emit x (ct_sink (cs_t s)) (cs_heap s)) as [[a' h'] e] eqn:E.
    set (s2 := mkChSys (ch_set_sink a' (cs_t s1)) h' CWRecv (cs_calls s)).
    assert (H2 : ch_step HEWorker s1 = Some (s2, [OEmit x])) by (simpl; unfold ch_run_worker; simpl; by rewrite E).
    destruct (IH s2 ((tr ++ [OTake x]) ++ [OEmit x])) as (s' & tr' & Hrun & Hd); [done|by eauto using reaches_step|done|done|].
    rewrite H1, H2, Hrun. by eexists _, _.
Qed.
End ChannelT.

Abbreviation ch_run := (run_steps ch_step).
Abbreviation ch_reach := (reaches ch_step).

Section Promises.
Context {A : Type} `{Sink A}.

(** C6. The channel transport refines the same bounded FIFO queue as the ring: its
    observations are a trace of the abstract transport ending with the channel's
    contents, the record in the worker's hands and the closed flag; the sink is where
    the emissions put it; and the drop counter equals the evicted and rejected records
    less those not yet counted, except that callers evicting from the closed, empty
    channel may have counted [ph] drops too many (never while open, and only under
    DropOldest). *)
Theorem channel_refines_queue (a : A) h c policy s tr :
  ch_reach (ch_start a h c policy) s tr ->
  qtrace (if c <? 1 then 1024%nat else Z.to_nat c) policy tr
    (mkQ (ct_ch (cs_t s)) (ch_hand (cs_worker s)) (ct_closed (cs_t s))) /\
  (ct_sink (cs_t s), cs_heap s) = sink_after (a, h) tr /\
  exists ph, ct_dropped (cs_t s) =
      u64 (Z.of_nat (length (evicted tr) + length (rejected tr)) + ph - Z.of_nat (mcount ch_pending (cs_calls s))) /\
    0 <= ph /\ (ct_closed (cs_t s) = false \/ policy <> DropOldest -> ph = 0).
Proof. intros Hr. destruct (ch_reach_inv _ _ _ _ _ _ Hr) as [I1 _ I3 I4 _ _ _ _]. done. Qed.

(** C21. No deadlock: whenever a goroutine is inside Dispatch, Sync or Close of the
    channel transport (and has not panicked), some goroutine in it can make a step. *)
Theorem channel_no_deadlock (a : A) h c policy s tr t pc :
  ch_reach (ch_start a h c policy) s tr -> cs_calls s !! t = Some pc -> (forall r, pc <> HPanic r) ->
  exists e s' tr', ch_internal e = true /\ ch_step e s = Some (s', tr').
Proof.
  intros Hr Hc Hnp. destruct (ch_reach_inv _ _ _ _ _ _ Hr) as [I1 I2 _ _ I5 I6 I7 I8].
  assert (Hworker : cs_worker s <> CWDone -> ct_ch (cs_t s) <> [] \/ ct_closed (cs_t s) = true ->
    exists e s' tr', ch_internal e = true /\ ch_step e s = Some (s', tr')).
  { intros Hw Hor. exists HEWorker. simpl. unfold ch_run_worker. destruct (cs_worker s); [| |done].
    - destruct (ct_ch (cs_t s)); [|by eexists _, _]. destruct Hor as [? | ->]; [done|]. by eexists _, _.
    - destruct (sink_emit _ _ _) as [[? ?] ?]. by eexists _, _. }
  assert (Hdrain : forall k, cs_calls s !! k = Some HDrain -> exists e s' tr', ch_internal e = true /\ ch_step e s = Some (s', tr')).
  { intros k Hk. specialize (I7 k _ Hk) as Hcl. simpl in Hcl.
    destruct (cs_worker s) eqn:Hw; [apply Hworker; auto..|].
    exists (HERun k). simpl. unfold ch_run_call. rewrite Hk, Hw. by eexists _, _. }
  assert (Hrun : forall p, ch_run_call t s = Some p -> exists e s' tr', ch_internal e = true /\ ch_step e s = Some (s', tr')).
  { intros [s' tr'] E. by exists (HERun t), s', tr'. }
  unfold ch_run_call in Hrun. rewrite Hc in Hrun. destruct pc; try (by eapply Hrun).
  - unfold ch_send in Hrun. destruct (ct_closed (cs_t s)) eqn:Hcl; [by eapply Hrun|].
    destruct (Nat.ltb_spec (length (ct_ch (cs_t s))) (ct_cap (cs_t s))); [by eapply Hrun|].
    destruct (ct_policy (cs_t s)); [|by eapply Hrun..].
    apply Hworker; [intros Hw; destruct (I2 Hw); congruence|]. left. intros E. rewrite E, I6 in *. simpl in *.
    destruct (Z.ltb_spec c 1); lia.
  - unfold ch_close in Hrun. destruct (ct_once (cs_t s)) eqn:Ho; [by eapply Hrun| |by eapply Hrun].
    unfold once_ok in I8. rewrite Ho in I8. destruct I8 as [_ [k Hk]]. by eapply Hdrain.
  - by eapply Hdrain.
  - by destruct (Hnp c0).
Qed.

(** C23. Close of the channel transport: the worker alone drains what was accepted
    within twice the queue length plus two steps, and then the sink has received every
    record taken (under Block: every record accepted, in order).  But a Dispatch that
    has not yet sent, or that was blocked, panics on the closed channel. *)
Theorem channel_close_drains (a : A) h c policy s tr :
  ch_reach (ch_start a h c policy) s tr -> ct_closed (cs_t s) = true ->
  (exists n s' tr', (n <= 2 * length (ct_ch (cs_t s)) + 2)%nat /\
    ch_run (replicate n HEWorker) s = Some (s', tr') /\ cs_worker s' = CWDone /\
    ct_ch (cs_t s') = [] /\ emitted (tr ++ tr') = taken (tr ++ tr') /\
    (policy = Block -> emitted (tr ++ tr') = accepted (tr ++ tr'))) /\
  (forall t r, cs_calls s !! t = Some (HSend r) ->
    exists s', ch_step (HERun t) s = Some (s', [OPanic r]) /\ cs_calls s' !! t = Some (HPanic r)).
Proof.
  intros Hr Hcl. split.
  2: { intros t r Ht. simpl. unfold ch_run_call, ch_send. rewrite Ht, Hcl. eexists. split; [done|]. simpl. by rewrite lookup_insert_eq. }
  assert (exists n s' tr', (n <= 2 * length (ct_ch (cs_t s)) + 2)%nat /\
    ch_run (replicate n HEWorker) s = Some (s', tr') /\ cs_worker s' = CWDone) as (n & s' & tr' & Hn & Hrun & Hd).
  { destruct (cs_worker s) as [|r|] eqn:Hw.
    - destruct (ch_drain_loop _ _ _ _ _ _ Hr Hcl Hw) as (s' & tr' & ? & ?). eexists _, s', tr'. split; [|done]. lia.
    - destruct (sink_emit r (ct_sink (cs_t s)) (cs_heap s)) as [[a' h'] e] eqn:E.
      set (s1 := mkChSys (ch_set_sink a' (cs_t s)) h' CWRecv (cs_calls s)).
      assert (H1 : ch_step HEWorker s = Some (s1, [OEmit r])) by (simpl; unfold ch_run_worker; by rewrite Hw, E).
      destruct (ch_drain_loop a h c policy s1 (tr ++ [OEmit r])) as (s' & tr' & Hrun & Hd); [by eapply reaches_step|done|done|].
      exists (S (2 * length (ct_ch (cs_t s)) + 1)), s', ([OEmit r] ++ tr'). split; [lia|].
      cbn [replicate run_steps]. rewrite H1. change (ct_ch (cs_t s1)) with (ct_ch (cs_t s)) in Hrun. by rewrite Hrun.
    - exists 0%nat, s, []. split; [lia|done]. }
  exists n, s', tr'. split_and!; try done.
  all: destruct (ch_reach_inv _ _ _ _ _ _ (run_reaches _ _ _ _ _ _ Hr Hrun)) as [I1 I2 _ _ _ _ _ _];
    destruct (I2 Hd) as [E _]; rewrite Hd, E in I1.
  - done.
  - destruct (qtrace_fifo _ _ _ _ I1) as [_ ->]. unfold hand. simpl. by rewrite app_nil_r.
  - intros ->. destruct (qtrace_block _ _ _ I1) as (_ & _ & ->). unfold hand. simpl. by rewrite app_nil_r.
Qed.
End Promises.

(** ** A run: DropOldest on a channel of one slot, then Close with a late Dispatch *)
Definition ch_msg (m : string) : LogRecord := mkRecord GoTime.zero_time LevelInfo m 0 "" [] (Some Background) false.
Definition ch_demo_events : list ChEvent :=
  [HECall 1 (HSend (ch_msg "a")); HERun 1; HECall 1 (HSend (ch_msg "b")); HERun 1;   (* full *)
   HERun 1; HERun 1; HERun 1;                                                        (* evicts a, counts, sends b *)
   HEWorker;                                                                         (* takes b *)
   HECall 2 (HSend (ch_msg "c")); HECall 1 HClose; HERun 1].
Definition ch_demo_start : ChSys Capture := ch_start (mkCapture []) empty_heap 1 DropOldest.
Definition ch_demo_end : ChSys Capture * Trace := default (ch_demo_start, []) (ch_run ch_demo_events ch_demo_start).

Lemma ch_demo_reach : ch_reach ch_demo_start ch_demo_end.1 ch_demo_end.2.
Proof.
  apply (run_reaches ch_demo_events ch_demo_start ch_demo_start []); [constructor|]. vm_compute. reflexivity.
Qed.

Lemma channel_refines_queue_witness :
  map r_Message (evicted ch_demo_end.2) = ["a"%string] /\ map r_Message (taken ch_demo_end.2) = ["b"%string] /\
  qtrace 1 DropOldest ch_demo_end.2 (mkQ [] (ch_hand (cs_worker ch_demo_end.1)) true).
Proof.
  split_and!; [vm_compute; reflexivity|vm_compute; reflexivity|].
  exact (proj1 (channel_refines_queue (mkCapture []) empty_heap 1 DropOldest _ _ ch_demo_reach)).
Defined.

Lemma channel_no_deadlock_witness :
  exists e s' tr', ch_internal e = true /\ ch_step e ch_demo_end.1 = Some (s', tr').
Proof.
  apply (channel_no_deadlock (mkCapture []) empty_heap 1 DropOldest _ _ 1 HDrain ch_demo_reach); [|done].
  vm_compute. reflexivity.
Defined.

Lemma channel_close_drains_witness :
  exists s', ch_step (HERun 2) ch_demo_end.1 = Some (s', [OPanic (Clone (ch_msg "c"))]) /\
             cs_calls s' !! 2 = Some (HPanic (Clone (ch_msg "c"))).
Proof.
  apply (channel_close_drains (mkCapture []) empty_heap 1 DropOldest _ _ ch_demo_reach); vm_compute; reflexivity.
Defined.
