(* ===== verification/Mpmc.v ===== *)
(** * The bounded MPMC queue (transport_disruptor.go), one atomic access at a time

    Any number of goroutines run [enqueue] and [dequeue] concurrently.  A step is one
    access to shared memory (an atomic load, store or compare-and-swap, or the plain
    read and writes of a cell's value); between steps the schedule is arbitrary.
    Cursors and sequence numbers are 64-bit words. *)
From S2P Require Import Prelude GoStd Level Field Record.
Local Open Scope Z_scope.

Record cell := mkCell { seq : Z; val : option LogRecord }.
Record mpmc := mkMpmc { buf : list cell; mask : Z; enq : Z; deq : Z }.

(** [n := 2; for n < size { n <<= 1 }], on 64-bit ints; [fuel] bounds the doublings
    (61 reach 2^62, beyond which no slice can be allocated and the shift overflows). *)
Fixpoint round_up (fuel : nat) (n size : Z) : Z :=
  match fuel with
  | O => n
  | S f => if n <? size then round_up f (i64 (Z.shiftl n 1)) size else n
  end.
Definition newMPMC (size : Z) : mpmc :=
  let n := round_up 61 2 size in
  mkMpmc (map (fun i => mkCell (u64 (Z.of_nat i)) None) (List.seq 0 (Z.to_nat n))) (u64 (n - 1)) 0 0.

(** Where a call to [enqueue v] or [dequeue] is. *)
Inductive QPC :=
| EStart (v : LogRecord)              (* about to load enq *)
| ELoop (v : LogRecord) (pos : Z)     (* about to load the cell's seq *)
| ECas (v : LogRecord) (pos : Z)      (* dif = 0: about to CompareAndSwap enq *)
| EWrite (v : LogRecord) (pos : Z)    (* claimed: about to write the cell's value *)
| EPub (v : LogRecord) (pos : Z)      (* about to store seq *)
| DStart
| DLoop (pos : Z)
| DCas (pos : Z)
| DRead (pos : Z)                     (* claimed: about to read the cell's value *)
| DClear (pos : Z) (x : option LogRecord)
| DRel (pos : Z) (x : option LogRecord).

Inductive QRes :=
| RGo (pc : QPC)                      (* still running *)
| REnq (ok : bool)                    (* enqueue returned *)
| RDeq (x : option LogRecord) (ok : bool).

(** What the queue did at a step. *)
Inductive QObs :=
| QClaim (v : LogRecord)              (* enqueue claimed the next position for v *)
| QTake                               (* dequeue claimed the next position *)
| QRet (pos : Z) (x : option LogRecord).  (* dequeue of position pos returned x *)

Definition idx (q : mpmc) (pos : Z) : nat := Z.to_nat (Z.land pos (mask q)).
Definition cell_at (q : mpmc) (pos : Z) : cell := default (mkCell 0 None) (buf q !! idx q pos).
Definition set_cell (pos : Z) (c : cell) (q : mpmc) : mpmc := mkMpmc (<[idx q pos := c]> (buf q)) (mask q) (enq q) (deq q).
Definition set_enq (z : Z) (q : mpmc) : mpmc := mkMpmc (buf q) (mask q) z (deq q).
Definition set_deq (z : Z) (q : mpmc) : mpmc := mkMpmc (buf q) (mask q) (enq q) z.

(** The next shared access of a call. *)
Definition qpc_step (pc : QPC) (q : mpmc) : mpmc * QRes * list QObs :=
  match pc with
  | EStart v => (q, RGo (ELoop v (enq q)), [])
  | ELoop v pos =>
      let dif := i64 (i64 (seq (cell_at q pos)) - i64 pos) in
      if dif =? 0 then (q, RGo (ECas v pos), [])
      else if dif <? 0 then (q, REnq false, [])
      else (q, RGo (EStart v), [])
  | ECas v pos =>
      if enq q =? pos then (set_enq (u64 (pos + 1)) q, RGo (EWrite v pos), [QClaim v])
      else (q, RGo (ELoop v pos), [])
  | EWrite v pos => (set_cell pos (mkCell (seq (cell_at q pos)) (Some v)) q, RGo (EPub v pos), [])
  | EPub v pos => (set_cell pos (mkCell (u64 (pos + 1)) (val (cell_at q pos))) q, REnq true, [])
  | DStart => (q, RGo (DLoop (deq q)), [])
  | DLoop pos =>
      let dif := i64 (i64 (seq (cell_at q pos)) - i64 (u64 (pos + 1))) in
      if dif =? 0 then (q, RGo (DCas pos), [])
      else if dif <? 0 then (q, RDeq None false, [])
      else (q, RGo DStart, [])
  | DCas pos =>
      if deq q =? pos then (set_deq (u64 (pos + 1)) q, RGo (DRead pos), [QTake])
      else (q, RGo (DLoop pos), [])
  | DRead pos => (q, RGo (DClear pos (val (cell_at q pos))), [])
  | DClear pos x => (set_cell pos (mkCell (seq (cell_at q pos)) None) q, RGo (DRel pos x), [])
  | DRel pos x =>
      (set_cell pos (mkCell (u64 (pos + mask q + 1)) (val (cell_at q pos))) q, RDeq x true, [QRet pos x])
  end.

(** ** The queue under any number of concurrent callers *)
Record QSys := mkQSys { qs_q : mpmc; qs_calls : gmap Z QPC }.

Inductive QEvent :=
| QEnqueue (t : Z) (v : LogRecord)
| QDequeue (t : Z)
| QStep (t : Z).

Definition qsys_step (e : QEvent) (s : QSys) : option (QSys * list QObs) :=
  match e with
  | QEnqueue t v => match qs_calls s !! t with None => Some (mkQSys (qs_q s) (<[t := EStart v]> (qs_calls s)), []) | _ => None end
  | QDequeue t => match qs_calls s !! t with None => Some (mkQSys (qs_q s) (<[t := DStart]> (qs_calls s)), []) | _ => None end
  | QStep t =>
      match qs_calls s !! t with
      | Some pc =>
          let '(q', r, os) := qpc_step pc (qs_q s) in
          Some (mkQSys q' (match r with RGo pc' => <[t := pc']> (qs_calls s) | _ => delete t (qs_calls s) end), os)
      | None => None
      end
  end.

Abbreviation qsys_run := (run_steps qsys_step).
Abbreviation qreach := (reaches qsys_step).

(** The values claimed, by position, and the positions dequeues returned. *)
Definition claims (tr : list QObs) : list LogRecord := omap (fun o => match o with QClaim v => Some v | _ => None end) tr.
Definition returned (tr : list QObs) : list (Z * option LogRecord) :=
  omap (fun o => match o with QRet p x => Some (p, x) | _ => None end) tr.

Lemma claims_app tr1 tr2 : claims (tr1 ++ tr2) = claims tr1 ++ claims tr2.
Proof. apply omap_app. Qed.
Lemma returned_app tr1 tr2 : returned (tr1 ++ tr2) = returned tr1 ++ returned tr2.
Proof. apply omap_app. Qed.

(** ** The size of the ring *)
Lemma round_up_pow2 fuel k size :
  (1 <= k)%Z -> k + Z.of_nat fuel <= 62 -> size <= 2 ^ (k + Z.of_nat fuel) ->
  exists k', k <= k' <= k + Z.of_nat fuel /\ round_up fuel (2 ^ k) size = 2 ^ k' /\ size <= 2 ^ k'.
Proof.
  revert k. induction fuel as [|f IH]; intros k Hk Hf Hs.
  - exists k. rewrite Z.add_0_r in Hs. split; [lia|done].
  - simpl round_up. destruct (Z.ltb_spec (2 ^ k) size) as [Hlt|Hge]; [|exists k; split; [lia|done]].
    assert (i64 (Z.shiftl (2 ^ k) 1) = 2 ^ (k + 1)) as ->.
    { rewrite Z.shiftl_mul_pow2, <-Z.pow_add_r by lia. apply i64_small. unfold is_i64.
      assert (0 < 2 ^ (k + 1) <= 2 ^ 62) by (split; [apply Z.pow_pos_nonneg; lia|apply Z.pow_le_mono_r; lia]). lia. }
    destruct (IH (k + 1)) as (k' & H1 & H2 & H3); [lia|lia|replace (k + 1 + Z.of_nat f) with (k + Z.of_nat (S f)) by lia; done|].
    exists k'. split; [lia|done].
Qed.

(** ** The invariant *)
Section Inv.
Context (k : Z) (Hk : 1 <= k <= 62).
Abbreviation n := (2 ^ k).

Lemma n_bounds : 2 <= n <= 2 ^ 62.
Proof.
  split; [change 2 with (2 ^ 1) at 1; apply Z.pow_le_mono_r; lia|apply Z.pow_le_mono_r; lia].
Qed.

(** Where each kind of claim holder is. *)
Definition writer (pc : QPC) : option (Z * LogRecord) := match pc with EWrite v p | EPub v p => Some (p, v) | _ => None end.
Definition reader (pc : QPC) : option Z := match pc with DRead p | DClear p _ | DRel p _ => Some p | _ => None end.

(** No call holds a claim. *)
Definition idle (m : gmap Z QPC) : Prop := map_Forall (fun _ pc => writer pc = None /\ reader pc = None) m.

Definition pc_ok (q : mpmc) (cl : list LogRecord) (pc : QPC) : Prop :=
  match pc with
  | EStart _ | DStart => True
  | ELoop _ p => 0 <= p <= enq q
  | ECas _ p => 0 <= p <= enq q /\ (p = enq q -> seq (cell_at q p) = p)
  | EWrite v p => 0 <= p < enq q /\ seq (cell_at q p) = p /\ cl !! Z.to_nat p = Some v
  | EPub v p => 0 <= p < enq q /\ seq (cell_at q p) = p /\ cl !! Z.to_nat p = Some v /\ val (cell_at q p) = Some v
  | DLoop p => 0 <= p <= deq q
  | DCas p => 0 <= p <= deq q /\ (p = deq q -> seq (cell_at q p) = p + 1)
  | DRead p => 0 <= p < deq q /\ seq (cell_at q p) = p + 1 /\ val (cell_at q p) = cl !! Z.to_nat p
  | DClear p x | DRel p x => 0 <= p < deq q /\ seq (cell_at q p) = p + 1 /\ x = cl !! Z.to_nat p
  end.

(** The cell at [i] serves position [p]: either free or being written for it, or
    published and being read or not. *)
Definition slot_ok (q : mpmc) (calls : gmap Z QPC) (cl : list LogRecord) (p : Z) : Prop :=
  0 <= p /\ p < deq q + n /\ enq q <= p + n /\
  ((seq (cell_at q p) = p /\ deq q <= p /\ (p < enq q -> exists t pc v, calls !! t = Some pc /\ writer pc = Some (p, v))) \/
   (seq (cell_at q p) = p + 1 /\ p < enq q /\ (p < deq q -> exists t pc, calls !! t = Some pc /\ reader pc = Some p) /\
    (deq q <= p -> val (cell_at q p) = cl !! Z.to_nat p))).

Record qinv (s : QSys) (tr : list QObs) : Prop := {
  qi_buf : length (buf (qs_q s)) = Z.to_nat n;
  qi_mask : mask (qs_q s) = n - 1;
  qi_enq : enq (qs_q s) = Z.of_nat (length (claims tr));
  qi_deq : 0 <= deq (qs_q s) <= enq (qs_q s);
  qi_pc : map_Forall (fun _ pc => pc_ok (qs_q s) (claims tr) pc) (qs_calls s);
  qi_slot : forall i, 0 <= i < n -> exists p, p mod n = i /\ slot_ok (qs_q s) (qs_calls s) (claims tr) p;
  qi_wuniq : forall t t' pc pc' p v v', qs_calls s !! t = Some pc -> qs_calls s !! t' = Some pc' ->
    writer pc = Some (p, v) -> writer pc' = Some (p, v') -> t = t';
  qi_runiq : forall t t' pc pc' p, qs_calls s !! t = Some pc -> qs_calls s !! t' = Some pc' ->
    reader pc = Some p -> reader pc' = Some p -> t = t';
  qi_ret : forall p x, (p, x) ∈ returned tr -> 0 <= p < deq (qs_q s) /\ x = claims tr !! Z.to_nat p /\
    forall t pc, qs_calls s !! t = Some pc -> reader pc <> Some p;
  qi_nodup : NoDup (returned tr).*1;
  qi_all : forall p, 0 <= p < deq (qs_q s) -> p ∈ (returned tr).*1 \/ exists t pc, qs_calls s !! t = Some pc /\ reader pc = Some p
}.

(** *** Cells *)
Definition shape (q : mpmc) : Prop := length (buf q) = Z.to_nat n /\ mask q = n - 1.

Lemma idx_mod q p : shape q -> idx q p = Z.to_nat (p mod n).
Proof.
  intros [_ Hm]. unfold idx. rewrite Hm. replace (n - 1) with (Z.ones k) by (rewrite Z.ones_equiv; lia).
  by rewrite Z.land_ones by lia.
Qed.

Lemma cell_at_set q p p' c :
  shape q -> cell_at (set_cell p c q) p' = if decide (p mod n = p' mod n) then c else cell_at q p'.
Proof.
  intros Hsh. pose proof n_bounds. unfold cell_at. rewrite (idx_mod (set_cell p c q)), (idx_mod q) by (destruct Hsh; split; simpl; rewrite ?length_insert; done).
  pose proof (Z.mod_pos_bound p n ltac:(lia)). pose proof (Z.mod_pos_bound p' n ltac:(lia)).
  unfold set_cell. simpl. rewrite idx_mod by done. destruct (decide (p mod n = p' mod n)) as [E|E].
  - rewrite E, list_lookup_insert_eq; [done|]. destruct Hsh as [-> _]. lia.
  - rewrite list_lookup_insert_ne; [done|]. intros E'. apply E. by apply Z2Nat.inj; [apply Z.mod_pos_bound; lia..|].
Qed.

Lemma cell_at_congr q p p' : shape q -> p mod n = p' mod n -> cell_at q p = cell_at q p'.
Proof. intros Hs E. unfold cell_at. by rewrite !idx_mod, E by done. Qed.

Lemma mod_succ p : (p + 1) mod n <> p mod n.
Proof.
  pose proof n_bounds. intros E. assert ((p + 1 - p) mod n = 0) as E'.
  { rewrite Zminus_mod, E, Z.sub_diag. by apply Z.mod_0_l; lia. }
  replace (p + 1 - p) with 1 in E' by lia. rewrite Z.mod_small in E'; lia.
Qed.

Lemma mod_close p p' : p mod n = p' mod n -> - n < p - p' < n -> p = p'.
Proof.
  pose proof n_bounds. intros E Hr. assert ((p - p') mod n = 0) as E'.
  { rewrite Zminus_mod, E, Z.sub_diag. by apply Z.mod_0_l; lia. }
  apply Z.mod_divide in E' as [c Hc]; [|lia]. clear E. revert Hc Hr. generalize dependent n. intros m ? ? ?.
  assert (c = 0) by nia. lia.
Qed.

(** *** Threads *)
Definition upd (t : Z) (o : option QPC) (m : gmap Z QPC) : gmap Z QPC :=
  match o with Some pc => <[t := pc]> m | None => delete t m end.

#[global] Arguments upd : simpl never.

Lemma upd_lookup t o m t' : upd t o m !! t' = if decide (t' = t) then o else m !! t'.
Proof.
  unfold upd. destruct o as [pc|], (decide (t' = t)) as [->|Hn];
    by rewrite ?lookup_insert_eq, ?lookup_insert_ne, ?lookup_delete_eq, ?lookup_delete_ne by congruence.
Qed.

(** The thread that owns position [p0]'s cell. *)
Definition owner (pc : QPC) (p0 : Z) : Prop := (exists v, writer pc = Some (p0, v)) \/ reader pc = Some p0.

Lemma owner_ok q cl pc p0 :
  owner pc p0 -> pc_ok q cl pc ->
  0 <= p0 /\ (((exists v, writer pc = Some (p0, v)) /\ seq (cell_at q p0) = p0 /\ p0 < enq q) \/
              (reader pc = Some p0 /\ seq (cell_at q p0) = p0 + 1 /\ p0 < deq q)).
Proof.
  intros [[v Ho]|Ho] Hok; destruct pc; simpl in Ho; try discriminate; injection Ho; intros; subst; simpl in Hok;
    (split; [lia|]); [left|left|right|right|right]; (split; [by eauto|split; [apply Hok|lia]]).
Qed.

(** An owner may change its cell at will: no other call depends on it. *)
Lemma other_pc_ok s tr t t' pc pc' p0 c :
  qinv s tr -> qs_calls s !! t = Some pc -> qs_calls s !! t' = Some pc' -> t <> t' -> owner pc p0 ->
  pc_ok (set_cell p0 c (qs_q s)) (claims tr) pc'.
Proof.
  intros Hi Ht Ht' Hne Ho. assert (Hsh : shape (qs_q s)) by (split; apply Hi).
  pose proof (qi_pc _ _ Hi _ _ Ht) as Hok. pose proof (qi_pc _ _ Hi _ _ Ht') as Hok'. simpl in Hok, Hok'.
  pose proof (qi_deq _ _ Hi) as Hde.
  destruct (owner_ok _ _ _ _ Ho Hok) as (Hp0 & Hcase).
  assert (Hcell : forall p, (p mod n = p0 mod n -> False) -> cell_at (set_cell p0 c (qs_q s)) p = cell_at (qs_q s) p).
  { intros p Hp. rewrite cell_at_set by done. destruct (decide _); [exfalso; auto|done]. }
  assert (Hw : forall p, p mod n = p0 mod n -> seq (cell_at (qs_q s) p) = p ->
    (exists v, writer pc = Some (p, v)) /\ p < enq (qs_q s)).
  { intros p Hp Hs. rewrite (cell_at_congr _ p p0) in Hs by done. destruct Hcase as [(Hv & H1 & H2)|(Hv & H1 & H2)].
    - assert (p = p0) as -> by congruence. done.
    - exfalso. apply (mod_succ p0). congruence. }
  assert (Hr : forall p, p mod n = p0 mod n -> seq (cell_at (qs_q s) p) = p + 1 ->
    reader pc = Some p /\ p < deq (qs_q s)).
  { intros p Hp Hs. rewrite (cell_at_congr _ p p0) in Hs by done. destruct Hcase as [(Hv & H1 & H2)|(Hv & H1 & H2)].
    - exfalso. apply (mod_succ p). congruence.
    - assert (p = p0) as -> by lia. done. }
  destruct pc'; simpl in *; try done.
  - destruct Hok' as [H1 H2]. split; [done|]. intros E. rewrite Hcell; [auto|]. intros Hm. destruct (Hw _ Hm (H2 E)). lia.
  - destruct Hok' as (H1 & H2 & H3). rewrite Hcell; [done|]. intros Hm. destruct (Hw _ Hm H2) as [[v' Hv'] _].
    apply Hne. by eapply (qi_wuniq _ _ Hi).
  - destruct Hok' as (H1 & H2 & H3). rewrite Hcell; [done|]. intros Hm. destruct (Hw _ Hm H2) as [[v' Hv'] _].
    apply Hne. by eapply (qi_wuniq _ _ Hi).
  - destruct Hok' as [H1 H2]. split; [done|]. intros E. rewrite Hcell; [auto|]. intros Hm. destruct (Hr _ Hm (H2 E)). lia.
  - destruct Hok' as (H1 & H2 & H3). rewrite Hcell; [done|]. intros Hm. destruct (Hr _ Hm H2) as [Hv' _].
    apply Hne. by eapply (qi_runiq _ _ Hi).
  - destruct Hok' as (H1 & H2 & H3). rewrite Hcell; [done|]. intros Hm. destruct (Hr _ Hm H2) as [Hv' _].
    apply Hne. by eapply (qi_runiq _ _ Hi).
  - destruct Hok' as (H1 & H2 & H3). rewrite Hcell; [done|]. intros Hm. destruct (Hr _ Hm H2) as [Hv' _].
    apply Hne. by eapply (qi_runiq _ _ Hi).
Qed.

(** The position a cell serves is determined by its sequence number. *)
Lemma slot_of s tr p0 :
  qinv s tr -> 0 <= p0 -> exists p, p mod n = p0 mod n /\ slot_ok (qs_q s) (qs_calls s) (claims tr) p.
Proof. intros Hi Hp. pose proof n_bounds. apply (qi_slot _ _ Hi). apply Z.mod_pos_bound. lia. Qed.

(** *** Neutral steps: a call that owns no cell moves on. *)
Definition no_own (o : option QPC) : Prop := forall pc, o = Some pc -> writer pc = None /\ reader pc = None.

Lemma inv_neutral s tr t o :
  no_own (qs_calls s !! t) -> no_own o -> (forall pc, o = Some pc -> pc_ok (qs_q s) (claims tr) pc) ->
  qinv s tr -> qinv (mkQSys (qs_q s) (upd t o (qs_calls s))) tr.
Proof.
  intros Hold Hnew Hok Hi.
  assert (Hown : forall t' pc, upd t o (qs_calls s) !! t' = Some pc -> writer pc <> None \/ reader pc <> None -> qs_calls s !! t' = Some pc).
  { intros t' pc. rewrite upd_lookup. destruct (decide (t' = t)); [|done]. intros E [|]; by destruct (Hnew _ E). }
  assert (Hown' : forall t' pc, qs_calls s !! t' = Some pc -> writer pc <> None \/ reader pc <> None -> upd t o (qs_calls s) !! t' = Some pc).
  { intros t' pc E Hor. rewrite upd_lookup. destruct (decide (t' = t)) as [->|]; [|done]. destruct (Hold _ E). by destruct Hor. }
  destruct Hi as [I1 I2 I3 I4 I5 I6 I7 I8 I9 I10 I11]. split; simpl; try done.
  - intros t' pc. rewrite upd_lookup. destruct (decide (t' = t)); [intros; by apply Hok|apply I5].
  - intros i Hi. destruct (I6 i Hi) as (p & Hp & H1 & H2 & H3 & Hs). exists p. split; [done|]. split_and!; try done.
    destruct Hs as [(Ha & Hb & Hc)|(Ha & Hb & Hc & Hd)]; [left|right]; split_and!; try done.
    + intros Hlt. destruct (Hc Hlt) as (t' & pc & v & E & Ev). exists t', pc, v. split; [|done]. apply Hown'; [done|left; congruence].
    + intros Hlt. destruct (Hc Hlt) as (t' & pc & E & Ev). exists t', pc. split; [|done]. apply Hown'; [done|right; congruence].
  - intros t1 t2 pc pc' p v v' E1 E2 W1 W2. apply Hown in E1; [|left; congruence]. apply Hown in E2; [|left; congruence]. eauto.
  - intros t1 t2 pc pc' p E1 E2 W1 W2. apply Hown in E1; [|right; congruence]. apply Hown in E2; [|right; congruence]. eauto.
  - intros p x Hin. destruct (I9 p x Hin) as (H1 & H2 & H3). split_and!; try done; try lia.
    intros t' pc E Hr. apply Hown in E; [|right; congruence]. by apply (H3 t' pc).
  - intros p Hp. destruct (I11 p Hp) as [|(t' & pc & E & Hr)]; [by left|right]. exists t', pc. split; [|done].
    apply Hown'; [done|right; congruence].
Qed.

(** *** Owner steps: the owner of a cell changes it, and keeps or gives up the cell. *)
Lemma owner_pos pc p0 p : owner pc p0 -> (exists v, writer pc = Some (p, v)) \/ reader pc = Some p -> p = p0.
Proof. intros [[v Ho]|Ho] [[v' Ho']|Ho']; destruct pc; simplify_eq/=; done. Qed.

Lemma inv_owner s tr t pc o p0 c os :
  qinv s tr -> qs_calls s !! t = Some pc -> owner pc p0 ->
  (forall pc', o = Some pc' -> writer pc' = writer pc /\ reader pc' = reader pc /\ pc_ok (set_cell p0 c (qs_q s)) (claims tr) pc') ->
  (exists p, p mod n = p0 mod n /\ slot_ok (set_cell p0 c (qs_q s)) (upd t o (qs_calls s)) (claims tr) p) ->
  (os = [] /\ (reader pc = None \/ o <> None)) \/
    (exists x, os = [QRet p0 x] /\ o = None /\ reader pc = Some p0 /\ x = claims tr !! Z.to_nat p0) ->
  qinv (mkQSys (set_cell p0 c (qs_q s)) (upd t o (qs_calls s))) (tr ++ os).
Proof.
  intros Hi Ht Ho Hnew Hslot Hret. assert (Hsh : shape (qs_q s)) by (split; apply Hi).
  assert (Hcl : claims (tr ++ os) = claims tr).
  { rewrite claims_app. destruct Hret as [[-> _]|(x & -> & _)]; simpl; by rewrite app_nil_r. }
  assert (Hsub : forall t' pc', upd t o (qs_calls s) !! t' = Some pc' ->
    exists pc0, qs_calls s !! t' = Some pc0 /\ writer pc' = writer pc0 /\ reader pc' = reader pc0).
  { intros t' pc'. rewrite upd_lookup. destruct (decide (t' = t)) as [->|]; [|by eauto].
    intros E. destruct (Hnew _ E) as (? & ? & _). eauto. }
  assert (Hsup : forall t' pc', t' <> t -> qs_calls s !! t' = Some pc' -> upd t o (qs_calls s) !! t' = Some pc').
  { intros t' pc' Hn E. rewrite upd_lookup. by destruct (decide (t' = t)). }
  pose proof Hi as [I1 I2 I3 I4 I5 I6 I7 I8 I9 I10 I11]. split; rewrite ?Hcl; simpl; try done.
  - by rewrite length_insert.
  - intros t' pc'. rewrite upd_lookup. destruct (decide (t' = t)) as [->|Hn]; [intros E; by apply Hnew|].
    intros E. eapply (other_pc_ok s tr t t' pc pc'); done.
  - intros i Hib. destruct (decide (i = p0 mod n)) as [->|Hin]; [done|].
    destruct (I6 i Hib) as (p & Hp & H1 & H2 & H3 & Hs). exists p. split; [done|].
    unfold slot_ok. rewrite cell_at_set by done. rewrite decide_False by congruence. split_and!; try done.
    assert (Hpp : p <> p0) by congruence.
    destruct Hs as [(Ha & Hb & Hc)|(Ha & Hb & Hc & Hd)]; [left|right]; split_and!; try done.
    + intros Hlt. destruct (Hc Hlt) as (t' & pc' & v & E & Ev). exists t', pc', v. split; [|done]. apply Hsup; [|done].
      intros ->. simplify_eq. apply Hpp. eapply owner_pos; eauto.
    + intros Hlt. destruct (Hc Hlt) as (t' & pc' & E & Ev). exists t', pc'. split; [|done]. apply Hsup; [|done].
      intros ->. simplify_eq. apply Hpp. eapply owner_pos; eauto.
  - intros t1 t2 pc1 pc2 p v v' E1 E2 W1 W2. destruct (Hsub _ _ E1) as (pa & Ea & Wa & _), (Hsub _ _ E2) as (pb & Eb & Wb & _).
    rewrite Wa in W1. rewrite Wb in W2. eauto.
  - intros t1 t2 pc1 pc2 p E1 E2 W1 W2. destruct (Hsub _ _ E1) as (pa & Ea & _ & Wa), (Hsub _ _ E2) as (pb & Eb & _ & Wb).
    rewrite Wa in W1. rewrite Wb in W2. eauto.
  - intros p x Hin. rewrite returned_app in Hin. apply elem_of_app in Hin as [Hin|Hin].
    + destruct (I9 p x Hin) as (H1 & H2 & H3). split_and!; try done; try lia.
      intros t' pc' E Hr. destruct (Hsub _ _ E) as (pa & Ea & _ & Wa). rewrite Wa in Hr. by apply (H3 t' pa).
    + destruct Hret as [[-> _]|(x0 & -> & -> & Hrd & Hx)]; simpl in Hin; [by apply not_elem_of_nil in Hin|].
      apply list_elem_of_singleton in Hin. simplify_eq.
      destruct (owner_ok _ _ _ _ Ho (I5 _ _ Ht)) as (Hp0 & [([v Hv] & _)|(_ & _ & Hlt)]).
      { exfalso. by destruct pc. }
      split_and!; [lia|lia|done|]. intros t' pc' E Hr. rewrite upd_lookup in E.
      destruct (decide (t' = t)) as [|Hn]; [done|]. apply Hn. by eapply I8.
  - rewrite returned_app, fmap_app. destruct Hret as [[-> _]|(x0 & -> & -> & Hrd & Hx)]; simpl; [by rewrite app_nil_r|].
    apply NoDup_app. split_and!; [done| |apply NoDup_singleton]. intros p Hin Hin'. apply list_elem_of_singleton in Hin'. subst p.
    apply list_elem_of_fmap in Hin as ([p x] & -> & Hin). destruct (I9 p x Hin) as (_ & _ & H3). by apply (H3 t pc).
  - intros p Hp. rewrite returned_app, fmap_app, elem_of_app. destruct (I11 p Hp) as [|(t' & pc' & E & Hr)]; [by left; left|].
    destruct (decide (t' = t)) as [->|Hn].
    + simplify_eq. assert (p = p0) as -> by (eapply owner_pos; eauto).
      destruct Hret as [[-> [Hrd|Hon]]|(x0 & -> & -> & Hrd & Hx)].
      * congruence.
      * right. destruct o as [pc''|]; [|done]. exists t, pc''. rewrite upd_lookup, decide_True by done.
        split; [done|]. destruct (Hnew _ eq_refl) as (_ & -> & _). done.
      * left. right. simpl. apply list_elem_of_singleton. done.
    + right. exists t', pc'. split; [by apply Hsup|done].
Qed.

(** The owner knows which position its cell serves. *)
Lemma owner_slot s tr t pc p0 :
  qinv s tr -> qs_calls s !! t = Some pc -> owner pc p0 -> slot_ok (qs_q s) (qs_calls s) (claims tr) p0.
Proof.
  intros Hi Ht Ho. assert (Hsh : shape (qs_q s)) by (split; apply Hi).
  destruct (owner_ok _ _ _ _ Ho (qi_pc _ _ Hi _ _ Ht)) as (Hp0 & Hcase).
  destruct (slot_of s tr p0 Hi Hp0) as (p & Hp & Hs). assert (p = p0) as <-; [|done].
  destruct Hs as (_ & _ & _ & Hs). rewrite (cell_at_congr _ p p0) in Hs by done.
  destruct Hcase as [(_ & H1 & H2)|(_ & H1 & H2)], Hs as [(Ha & _)|(Ha & _)]; try lia;
    exfalso; [apply (mod_succ p)|apply (mod_succ p0)]; congruence.
Qed.

Lemma inv_stay s tr t pc pc' p0 c :
  qinv s tr -> qs_calls s !! t = Some pc -> owner pc p0 -> seq c = seq (cell_at (qs_q s) p0) ->
  writer pc' = writer pc -> reader pc' = reader pc -> pc_ok (set_cell p0 c (qs_q s)) (claims tr) pc' ->
  qinv (mkQSys (set_cell p0 c (qs_q s)) (upd t (Some pc') (qs_calls s))) tr.
Proof.
  intros Hi Ht Ho Hc Hw Hr Hok. rewrite <-(app_nil_r tr).
  assert (Hsh : shape (qs_q s)) by (split; apply Hi).
  eapply inv_owner; [done|done|done|intros ? [= <-]; done| |left; split; [done|by right]].
  exists p0. split; [done|]. pose proof (owner_slot _ _ _ _ _ Hi Ht Ho) as (H1 & H2 & H3 & Hs).
  unfold slot_ok. rewrite cell_at_set, decide_True, Hc by done. simpl. split_and!; try done.
  assert (Hkeep : forall t' pc0, qs_calls s !! t' = Some pc0 -> exists pc1, upd t (Some pc') (qs_calls s) !! t' = Some pc1 /\
    writer pc1 = writer pc0 /\ reader pc1 = reader pc0).
  { intros t' pc0 E. rewrite upd_lookup. destruct (decide (t' = t)) as [->|]; [|by eauto]. simplify_eq. eauto. }
  destruct Hs as [(Ha & Hb & Hx)|(Ha & Hb & Hx & Hd)]; [left|right]; split_and!; try done.
  - intros Hlt. destruct (Hx Hlt) as (t' & pc0 & v & E & Ev). destruct (Hkeep _ _ E) as (pc1 & E1 & W & _).
    exists t', pc1, v. by rewrite W.
  - intros Hlt. destruct (Hx Hlt) as (t' & pc0 & E & Ev). destruct (Hkeep _ _ E) as (pc1 & E1 & _ & W).
    exists t', pc1. by rewrite W.
  - destruct (owner_ok _ _ _ _ Ho (qi_pc _ _ Hi _ _ Ht)) as (_ & [(_ & E & _)|(_ & _ & E)]); [|lia]. lia.
Qed.

Lemma inv_pub s tr t v p0 :
  qinv s tr -> qs_calls s !! t = Some (EPub v p0) -> enq (qs_q s) < 2 ^ 63 ->
  qinv (mkQSys (set_cell p0 (mkCell (u64 (p0 + 1)) (val (cell_at (qs_q s) p0))) (qs_q s)) (upd t None (qs_calls s))) tr.
Proof.
  intros Hi Ht Hb. rewrite <-(app_nil_r tr). assert (Hsh : shape (qs_q s)) by (split; apply Hi).
  assert (Ho : owner (EPub v p0) p0) by (left; by exists v).
  eapply inv_owner; [done|done|done|done| |left; split; [done|by left]].
  pose proof (owner_slot _ _ _ _ _ Hi Ht Ho) as (H1 & H2 & H3 & Hs). destruct (qi_pc _ _ Hi _ _ Ht) as (Hp & Hseq & Hcl & Hv).
  exists p0. split; [done|]. unfold slot_ok. rewrite cell_at_set, decide_True by done. simpl.
  rewrite u64_small by (unfold is_u64; lia). split_and!; try done. right.
  destruct Hs as [(_ & Hd & _)|(Hs & _)]; [|lia]. split_and!; [done|lia|lia|]. intros _. congruence.
Qed.

Lemma inv_rel s tr t x p0 :
  qinv s tr -> qs_calls s !! t = Some (DRel p0 x) -> enq (qs_q s) + n < 2 ^ 63 ->
  qinv (mkQSys (set_cell p0 (mkCell (u64 (p0 + mask (qs_q s) + 1)) (val (cell_at (qs_q s) p0))) (qs_q s)) (upd t None (qs_calls s)))
       (tr ++ [QRet p0 x]).
Proof.
  intros Hi Ht Hb. assert (Hsh : shape (qs_q s)) by (split; apply Hi).
  assert (Ho : owner (DRel p0 x) p0) by (by right).
  destruct (qi_pc _ _ Hi _ _ Ht) as (Hp & Hseq & Hx). pose proof (qi_deq _ _ Hi) as Hde.
  eapply inv_owner; [done|done|done|done| |right; exists x; done].
  pose proof (owner_slot _ _ _ _ _ Hi Ht Ho) as (H1 & H2 & H3 & Hs). pose proof n_bounds.
  assert (Hm : (p0 + n) mod n = p0 mod n).
  { replace (p0 + n) with (p0 + 1 * n) by lia. apply Z.mod_add. lia. }
  exists (p0 + n). split; [done|]. unfold slot_ok. rewrite cell_at_set, decide_True by done. simpl.
  rewrite (qi_mask _ _ Hi). replace (p0 + (n - 1) + 1) with (p0 + n) by lia.
  rewrite u64_small by (unfold is_u64; lia). split_and!; lia.
Qed.

(** *** Claims *)
Lemma claim_lookup tr v p : 0 <= p < Z.of_nat (length (claims tr)) -> claims (tr ++ [QClaim v]) !! Z.to_nat p = claims tr !! Z.to_nat p.
Proof. intros Hp. rewrite claims_app. apply lookup_app_l. lia. Qed.

Lemma inv_claim s tr t v :
  qinv s tr -> qs_calls s !! t = Some (ECas v (enq (qs_q s))) -> enq (qs_q s) < 2 ^ 63 ->
  qinv (mkQSys (set_enq (u64 (enq (qs_q s) + 1)) (qs_q s)) (upd t (Some (EWrite v (enq (qs_q s)))) (qs_calls s))) (tr ++ [QClaim v]).
Proof.
  intros Hi Ht Hb. set (E := enq (qs_q s)) in *.
  assert (Hsh : shape (qs_q s)) by (split; apply Hi).
  pose proof Hi as [I1 I2 I3 I4 I5 I6 I7 I8 I9 I10 I11]. fold E in I3, I4.
  rewrite u64_small by (unfold is_u64; lia).
  assert (Hret : returned (tr ++ [QClaim v]) = returned tr) by (rewrite returned_app; simpl; by rewrite app_nil_r).
  destruct (I5 _ _ Ht) as [_ Hseq]. specialize (Hseq eq_refl). fold E in Hseq.
  assert (Hlk : forall p, 0 <= p < E -> claims (tr ++ [QClaim v]) !! Z.to_nat p = claims tr !! Z.to_nat p).
  { intros p Hp. apply claim_lookup. lia. }
  assert (Hothers : forall t' pc', t' <> t -> qs_calls s !! t' = Some pc' -> upd t (Some (EWrite v E)) (qs_calls s) !! t' = Some pc').
  { intros t' pc' Hn Ht'. rewrite upd_lookup. by destruct (decide (t' = t)). }
  split; rewrite ?Hret; simpl; try done.
  - rewrite claims_app, length_app. simpl. lia.
  - lia.
  - intros t' pc'. rewrite upd_lookup. destruct (decide (t' = t)) as [->|Hn].
    + intros [= <-]. simpl. split_and!; [lia|lia|done|]. rewrite claims_app, I3, Nat2Z.id. by apply list_lookup_middle.
    + intros Ht'. specialize (I5 _ _ Ht'). destruct pc'; simpl in *; fold E in I5; rewrite ?Hlk by lia; try (intuition lia); done.
  - intros i Hib. destruct (I6 i Hib) as (p & Hp & H1 & H2 & H3 & Hs). fold E in H3. exists p. split; [done|].
    destruct (decide (p = E)) as [->|HpE].
    + split_and!; simpl; try lia. left. destruct Hs as [(Ha & Hb' & _)|(Ha & Hb' & _)]; [|fold E in Hb'; lia].
      split_and!; [done|done|]. intros _. exists t, (EWrite v E), v. split; [|done]. by rewrite upd_lookup, decide_True.
    + assert (HpE' : E <> p + n).
      { intros Heq. apply HpE. exfalso.
        assert (Hm : E mod n = p mod n) by (rewrite Heq; replace (p + n) with (p + 1 * n) by lia; apply Z.mod_add; pose proof n_bounds; lia).
        rewrite (cell_at_congr _ E p) in Hseq by done. destruct Hs as [(Ha & _)|(Ha & _)]; pose proof n_bounds; lia. }
      split_and!; simpl; try lia.
      destruct Hs as [(Ha & Hb' & Hc)|(Ha & Hb' & Hc & Hd)]; [left|right].
      * split_and!; [done|done|]. intros Hlt. destruct Hc as (t' & pc' & v' & Ht' & Hw); [fold E; lia|].
        exists t', pc', v'. split; [|done]. apply Hothers; [|done]. intros ->. simplify_eq.
      * fold E in Hb'. split_and!; [done|lia| |intros; rewrite Hlk by lia; auto].
        intros Hlt. destruct (Hc Hlt) as (t' & pc' & Ht' & Hr). exists t', pc'. split; [|done]. apply Hothers; [|done].
        intros ->. simplify_eq.
  - assert (Hw : forall t' pc' p v', qs_calls s !! t' = Some pc' -> writer pc' = Some (p, v') -> p < E).
    { intros t' pc' p v' Ht' Hwr. specialize (I5 _ _ Ht'). destruct pc'; try discriminate; injection Hwr as <- <-; simpl in I5; fold E in I5; lia. }
    intros t1 t2 pc1 pc2 p v1 v2. rewrite !upd_lookup.
    destruct (decide (t1 = t)) as [->|], (decide (t2 = t)) as [->|]; try done; intros E1 E2 W1 W2; [| |by eauto].
    + injection E1 as <-. injection W1 as <- <-. pose proof (Hw _ _ _ _ E2 W2). lia.
    + injection E2 as <-. injection W2 as <- <-. pose proof (Hw _ _ _ _ E1 W1). lia.
  - intros t1 t2 pc1 pc2 p. rewrite !upd_lookup.
    destruct (decide (t1 = t)) as [->|], (decide (t2 = t)) as [->|]; try done; intros E1 E2 W1 W2; [by injection E1 as <-|by injection E2 as <-|by eauto].
  - intros p x Hin. destruct (I9 p x Hin) as (H1 & H2 & H3). split_and!; [lia|lia|rewrite Hlk by lia; done|].
    intros t' pc'. rewrite upd_lookup. destruct (decide (t' = t)); [by intros [= <-]|]. apply H3.
  - intros p Hp. destruct (I11 p Hp) as [|(t' & pc' & Ht' & Hr)]; [by left|right]. exists t', pc'. split; [|done].
    apply Hothers; [|done]. intros ->. simplify_eq.
Qed.

Lemma inv_take s tr t :
  qinv s tr -> qs_calls s !! t = Some (DCas (deq (qs_q s))) -> enq (qs_q s) < 2 ^ 63 ->
  qinv (mkQSys (set_deq (u64 (deq (qs_q s) + 1)) (qs_q s)) (upd t (Some (DRead (deq (qs_q s)))) (qs_calls s))) (tr ++ [QTake]).
Proof.
  intros Hi Ht Hb. set (D := deq (qs_q s)) in *.
  assert (Hsh : shape (qs_q s)) by (split; apply Hi).
  pose proof Hi as [I1 I2 I3 I4 I5 I6 I7 I8 I9 I10 I11]. fold D in I4.
  rewrite u64_small by (unfold is_u64; lia).
  assert (Hret : returned (tr ++ [QTake]) = returned tr) by (rewrite returned_app; simpl; by rewrite app_nil_r).
  assert (Hcl : claims (tr ++ [QTake]) = claims tr) by (rewrite claims_app; simpl; by rewrite app_nil_r).
  destruct (I5 _ _ Ht) as [_ Hseq]. specialize (Hseq eq_refl). fold D in Hseq.
  assert (HD : slot_ok (qs_q s) (qs_calls s) (claims tr) D).
  { destruct (slot_of s tr D Hi ltac:(lia)) as (p & Hp & Hs). assert (p = D) as <-; [|done].
    destruct Hs as (_ & _ & _ & Hs). rewrite (cell_at_congr _ D p) in Hseq by done.
    destruct Hs as [(Ha & _)|(Ha & _)]; [|lia]. exfalso. apply (mod_succ D). congruence. }
  assert (HDfull : D < enq (qs_q s) /\ val (cell_at (qs_q s) D) = claims tr !! Z.to_nat D).
  { destruct HD as (_ & _ & _ & [(Ha & _)|(_ & Hlt & _ & Hv)]); [lia|]. split; [done|]. apply Hv. fold D. lia. }
  assert (Hothers : forall t' pc', t' <> t -> qs_calls s !! t' = Some pc' -> upd t (Some (DRead D)) (qs_calls s) !! t' = Some pc').
  { intros t' pc' Hn Ht'. rewrite upd_lookup. by destruct (decide (t' = t)). }
  assert (Hrd : forall t' pc' p, qs_calls s !! t' = Some pc' -> reader pc' = Some p -> p < D).
  { intros t' pc' p Ht' Hr. specialize (I5 _ _ Ht'). destruct pc'; try discriminate; injection Hr as <-; simpl in I5; fold D in I5; lia. }
  split; rewrite ?Hret, ?Hcl; simpl; try done.
  - lia.
  - intros t' pc'. rewrite upd_lookup. destruct (decide (t' = t)) as [->|Hn].
    + intros [= <-]. simpl. split_and!; [lia|lia|done|apply HDfull].
    + intros Ht'. specialize (I5 _ _ Ht'). destruct pc'; simpl in *; fold D in I5; try (intuition lia); done.
  - intros i Hib. destruct (I6 i Hib) as (p & Hp & H1 & H2 & H3 & Hs). fold D in H2. exists p. split; [done|].
    split_and!; simpl; try lia. destruct (decide (p = D)) as [->|HpD].
    + right. split_and!; [done|apply HDfull| |lia]. intros _. exists t, (DRead D). split; [|done]. by rewrite upd_lookup, decide_True.
    + destruct Hs as [(Ha & Hb' & Hc)|(Ha & Hb' & Hc & Hd)]; [left|right].
      * fold D in Hb'. split_and!; [done|lia|]. intros Hlt. destruct (Hc Hlt) as (t' & pc' & v' & Ht' & Hw).
        exists t', pc', v'. split; [|done]. apply Hothers; [|done]. intros ->. simplify_eq.
      * split_and!; [done|done| |intros; apply Hd; fold D; lia].
        intros Hlt. destruct Hc as (t' & pc' & Ht' & Hr); [fold D; lia|]. exists t', pc'. split; [|done]. apply Hothers; [|done].
        intros ->. simplify_eq.
  - intros t1 t2 pc1 pc2 p v1 v2. rewrite !upd_lookup.
    destruct (decide (t1 = t)) as [->|], (decide (t2 = t)) as [->|]; try done; intros E1 E2 W1 W2; [by injection E1 as <-|by injection E2 as <-|by eauto].
  - intros t1 t2 pc1 pc2 p. rewrite !upd_lookup.
    destruct (decide (t1 = t)) as [->|], (decide (t2 = t)) as [->|]; try done; intros E1 E2 W1 W2; [| |by eauto].
    + injection E1 as <-. injection W1 as <-. pose proof (Hrd _ _ _ E2 W2). lia.
    + injection E2 as <-. injection W2 as <-. pose proof (Hrd _ _ _ E1 W1). lia.
  - intros p x Hin. destruct (I9 p x Hin) as (H1 & H2 & H3). fold D in H1. split_and!; [lia|lia|done|].
    intros t' pc'. rewrite upd_lookup. destruct (decide (t' = t)); [intros [= <-]; simpl; intros [= ?]; lia|]. apply H3.
  - intros p Hp. destruct (decide (p = D)) as [->|].
    { right. exists t, (DRead D). split; [|done]. by rewrite upd_lookup, decide_True. }
    destruct (I11 p) as [|(t' & pc' & Ht' & Hr)]; [fold D; lia|by left|right]. exists t', pc'. split; [|done].
    apply Hothers; [|done]. intros ->. simplify_eq.
Qed.

(** *** Every step *)
Lemma set_cell_id q p : shape q -> set_cell p (mkCell (seq (cell_at q p)) (val (cell_at q p))) q = q.
Proof.
  intros Hsh. unfold set_cell, cell_at. destruct q as [b m e d]. simpl. f_equal. apply list_insert_id.
  destruct (b !! idx _ p) as [c|] eqn:E; [by destruct c|]. exfalso. apply lookup_ge_None in E.
  rewrite idx_mod in E by done. destruct Hsh as [Hl _]. simpl in Hl. rewrite Hl in E.
  pose proof n_bounds. pose proof (Z.mod_pos_bound p n ltac:(lia)). lia.
Qed.

Lemma seq_range s tr p : qinv s tr -> 0 <= p -> 0 <= seq (cell_at (qs_q s) p) <= enq (qs_q s) + n.
Proof.
  intros Hi Hp. assert (Hsh : shape (qs_q s)) by (split; apply Hi). pose proof (qi_deq _ _ Hi). pose proof n_bounds.
  destruct (slot_of s tr p Hi Hp) as (p' & Hp' & H1 & H2 & H3 & Hs). rewrite (cell_at_congr _ p p') by done.
  destruct Hs as [(-> & _)|(-> & Hlt & _)]; lia.
Qed.

Lemma dif_exact a b : 0 <= a < 2 ^ 63 -> 0 <= b < 2 ^ 63 -> i64 (i64 a - i64 b) = a - b.
Proof. intros. rewrite !(i64_small a), (i64_small b), i64_small; unfold is_i64; lia. Qed.

Lemma inv_pc_step s tr t pc q' r os :
  qinv s tr -> qs_calls s !! t = Some pc -> enq (qs_q s) + n < 2 ^ 63 -> qpc_step pc (qs_q s) = (q', r, os) ->
  qinv (mkQSys q' (upd t (match r with RGo pc' => Some pc' | _ => None end) (qs_calls s))) (tr ++ os).
Proof.
  intros Hi Ht Hb Hst. pose proof n_bounds as Hn. assert (Hsh : shape (qs_q s)) by (split; apply Hi).
  pose proof (qi_pc _ _ Hi _ _ Ht) as Hok. pose proof (qi_deq _ _ Hi) as Hde.
  assert (Hneutral : forall o, no_own (Some pc) -> no_own o -> (forall pc', o = Some pc' -> pc_ok (qs_q s) (claims tr) pc') ->
    qinv (mkQSys (qs_q s) (upd t o (qs_calls s))) (tr ++ [])).
  { intros o H1 H2 H3. rewrite app_nil_r. apply inv_neutral; try done. by rewrite Ht. }
  assert (Hno : no_own None) by done.
  destruct pc as [v|v p|v p|v p|v p| |p|p|p|p x|p x]; simpl in Hst.
  - injection Hst as <- <- <-. apply Hneutral; [by intros ? [= <-]|by intros ? [= <-]|intros ? [= <-]; simpl; lia].
  - destruct (_ =? 0) eqn:Ez; [|destruct (_ <? 0)]; injection Hst as <- <- <-;
      (apply Hneutral; [by intros ? [= <-]|by intros ? [= <-]|intros ? [= <-]]); simpl; [|done].
    simpl in Hok. split; [done|]. intros ->. apply Z.eqb_eq in Ez.
    pose proof (seq_range s tr (enq (qs_q s)) Hi ltac:(lia)). rewrite dif_exact in Ez; lia.
  - destruct (Z.eqb_spec (enq (qs_q s)) p) as [<-|]; injection Hst as <- <- <-.
    + apply inv_claim; [done|done|lia].
    + apply Hneutral; [by intros ? [= <-]|by intros ? [= <-]|intros ? [= <-]; apply Hok].
  - injection Hst as <- <- <-. rewrite app_nil_r. destruct Hok as (H1 & H2 & H3).
    eapply inv_stay; [done|done|left; by exists v|done|done|done|].
    simpl. rewrite cell_at_set, decide_True by done. done.
  - injection Hst as <- <- <-. rewrite app_nil_r. apply (inv_pub _ _ _ v); [done|done|lia].
  - injection Hst as <- <- <-. apply Hneutral; [by intros ? [= <-]|by intros ? [= <-]|intros ? [= <-]; simpl; lia].
  - destruct (_ =? 0) eqn:Ez; [|destruct (_ <? 0)]; injection Hst as <- <- <-;
      (apply Hneutral; [by intros ? [= <-]|by intros ? [= <-]|intros ? [= <-]]); simpl; [|done].
    simpl in Hok. split; [done|]. intros ->. apply Z.eqb_eq in Ez.
    pose proof (seq_range s tr (deq (qs_q s)) Hi ltac:(lia)). rewrite u64_small in Ez by (unfold is_u64; lia).
    rewrite dif_exact in Ez; lia.
  - destruct (Z.eqb_spec (deq (qs_q s)) p) as [<-|]; injection Hst as <- <- <-.
    + apply inv_take; [done|done|lia].
    + apply Hneutral; [by intros ? [= <-]|by intros ? [= <-]|intros ? [= <-]; apply Hok].
  - injection Hst as <- <- <-. rewrite app_nil_r, <-(set_cell_id (qs_q s) p Hsh) at 1. destruct Hok as (H1 & H2 & H3).
    eapply inv_stay; [done|done|by right|done|done|done|]. rewrite set_cell_id by done. done.
  - injection Hst as <- <- <-. rewrite app_nil_r. destruct Hok as (H1 & H2 & H3).
    eapply inv_stay; [done|done|by right|done|done|done|]. simpl. rewrite cell_at_set, decide_True by done. done.
  - injection Hst as <- <- <-. apply inv_rel; [done|done|lia].
Qed.

Lemma inv_step s tr e s' os :
  qinv s tr -> enq (qs_q s) + n < 2 ^ 63 -> qsys_step e s = Some (s', os) -> qinv s' (tr ++ os).
Proof.
  intros Hi Hb. destruct e as [t v|t|t]; simpl; destruct (qs_calls s !! t) as [pc|] eqn:Ht; try done.
  - intros [= <- <-]. rewrite app_nil_r. apply (inv_neutral s tr t (Some (EStart v))); [by rewrite Ht|by intros ? [= <-]|by intros ? [= <-]|done].
  - intros [= <- <-]. rewrite app_nil_r. apply (inv_neutral s tr t (Some DStart)); [by rewrite Ht|by intros ? [= <-]|by intros ? [= <-]|done].
  - destruct (qpc_step pc (qs_q s)) as [[q' r] os'] eqn:E. intros [= <- <-].
    pose proof (inv_pc_step s tr t pc q' r os' Hi Ht Hb E) as Hq. by destruct r.
Qed.

Lemma claims_prefix tr os : Z.of_nat (length (claims tr)) <= Z.of_nat (length (claims (tr ++ os))).
Proof. rewrite claims_app, length_app. lia. Qed.

Lemma inv_reach s0 s tr :
  qinv s0 [] -> qreach s0 s tr -> Z.of_nat (length (claims tr)) + n < 2 ^ 63 -> qinv s tr.
Proof.
  intros H0 Hr. induction Hr as [|s tr e s' os Hr IH Hst]; [done|]. intros Hb.
  pose proof (claims_prefix tr os). specialize (IH ltac:(lia)). eapply inv_step; [done| |done].
  rewrite (qi_enq _ _ IH). lia.
Qed.
End Inv.

(** ** A new queue *)
Lemma newMPMC_shape size : size <= 2 ^ 62 ->
  exists k, 1 <= k <= 62 /\ round_up 61 2 size = 2 ^ k /\ size <= 2 ^ k.
Proof.
  intros Hs. destruct (round_up_pow2 61 1 size) as (k & H1 & H2 & H3); [lia|lia|done|]. exists k. split; [lia|done].
Qed.

Lemma new_cell k p :
  1 <= k <= 62 -> 0 <= p < 2 ^ k ->
  cell_at (mkMpmc (map (fun i => mkCell (u64 (Z.of_nat i)) None) (List.seq 0 (Z.to_nat (2 ^ k)))) (u64 (2 ^ k - 1)) 0 0) p = mkCell p None.
Proof.
  intros Hk Hp. pose proof (n_bounds k Hk). unfold cell_at.
  rewrite (idx_mod k Hk) by (split; simpl; [by rewrite length_map, length_seq|apply u64_small; unfold is_u64; lia]).
  rewrite Z.mod_small by lia. simpl. rewrite list_lookup_fmap, lookup_seq_lt by lia. simpl.
  rewrite Z2Nat.id, u64_small by (unfold is_u64; lia). done.
Qed.

Lemma new_inv size k : 1 <= k <= 62 -> round_up 61 2 size = 2 ^ k -> qinv k (mkQSys (newMPMC size) ∅) [].
Proof.
  intros Hk Hr. pose proof (n_bounds k Hk). unfold newMPMC. rewrite Hr.
  split; cbn [qs_q qs_calls buf mask enq deq]; try done.
  - by rewrite length_map, length_seq.
  - apply u64_small. unfold is_u64. lia.
  - intros i Hi. exists i. split; [by apply Z.mod_small|]. unfold slot_ok. rewrite new_cell by done. simpl.
    split_and!; [lia|lia|lia|]. left. split_and!; [done|lia|lia].
  - intros p x Hin. by apply not_elem_of_nil in Hin.
  - constructor.
  - simpl. lia.
Qed.

Lemma new_reach_inv size s tr :
  size <= 2 ^ 62 -> qreach (mkQSys (newMPMC size) ∅) s tr -> Z.of_nat (length (claims tr)) < 2 ^ 62 ->
  exists k, 1 <= k <= 62 /\ size <= 2 ^ k /\ qinv k s tr.
Proof.
  intros Hs Hr Hb. destruct (newMPMC_shape size Hs) as (k & Hk & Hru & Hsz). exists k. split; [done|]. split; [done|].
  pose proof (n_bounds k Hk). eapply (inv_reach k Hk); [by apply new_inv|done|]. lia.
Qed.

Section Facts.
Context (k : Z) (Hk : 1 <= k <= 62).

Lemma inv_bounded s tr : qinv k s tr -> enq (qs_q s) - deq (qs_q s) <= 2 ^ k.
Proof.
  intros Hi. pose proof (n_bounds k Hk) as Hn. pose proof (qi_deq _ _ _ Hi) as Hde.
  destruct (slot_of k Hk s tr (deq (qs_q s)) Hi ltac:(lia)) as (p & Hp & H1 & H2 & H3 & _).
  destruct (Z.le_gt_cases p (deq (qs_q s))); [lia|].
  assert (p = deq (qs_q s)); [|lia]. apply (mod_close k Hk); [done|lia].
Qed.

(** With no claim in progress every claimed position is published or released. *)
Lemma quiescent_slot s tr p :
  qinv k s tr -> idle (qs_calls s) -> deq (qs_q s) <= p < enq (qs_q s) ->
  seq (cell_at (qs_q s) p) = p + 1 /\ val (cell_at (qs_q s) p) = claims tr !! Z.to_nat p.
Proof.
  intros Hi Hc Hp. pose proof (n_bounds k Hk) as Hn. pose proof (qi_deq _ _ _ Hi) as Hde. pose proof (inv_bounded s tr Hi) as Hbd.
  destruct (slot_of k Hk s tr p Hi ltac:(lia)) as (p' & Hp' & H1 & H2 & H3 & Hs).
  assert (p' = p) as -> by (apply (mod_close k Hk); [done|lia]).
  destruct Hs as [(_ & _ & Hw)|(Hs & _ & _ & Hv)]; [|split; [done|apply Hv; lia]].
  destruct (Hw ltac:(lia)) as (t & pc & v & Ht & Hwr). destruct (Hc _ _ Ht). congruence.
Qed.

(** A released position's cell has moved on to a later one. *)
Lemma stale_slot s tr p :
  qinv k s tr -> idle (qs_calls s) -> 0 <= p < deq (qs_q s) -> p + 1 < seq (cell_at (qs_q s) p).
Proof.
  intros Hi Hc Hp. pose proof (n_bounds k Hk) as Hn. pose proof (qi_deq _ _ _ Hi) as Hde.
  destruct (slot_of k Hk s tr p Hi ltac:(lia)) as (p' & Hp' & H1 & H2 & H3 & Hs).
  rewrite (cell_at_congr k Hk _ p p') by (done || (split; apply Hi)).
  destruct (decide (p' = p)) as [->|Hne].
  - exfalso. destruct Hs as [(_ & Hs & _)|(_ & _ & Hs & _)]; [lia|].
    destruct (Hs ltac:(lia)) as (t & pc & Ht & Hrd). destruct (Hc _ _ Ht). congruence.
  - assert (p + 2 ^ k <= p').
    { destruct (Z.le_gt_cases (p + 2 ^ k) p'); [done|]. destruct Hne. apply (mod_close k Hk); [done|lia]. }
    destruct Hs as [(-> & _)|(-> & _)]; lia.
Qed.

Lemma idle_empty (s : QSys) : qs_calls s = ∅ -> idle (qs_calls s).
Proof. intros ->. apply map_Forall_empty. Qed.

Lemma quiescent_returned s tr :
  qinv k s tr -> idle (qs_calls s) -> (returned tr).*1 ≡ₚ seqZ 0 (deq (qs_q s)).
Proof.
  intros Hi Hc. apply NoDup_Permutation; [apply (qi_nodup _ _ _ Hi)|apply NoDup_seqZ|]. intros p. rewrite elem_of_seqZ. split.
  - intros ([p' x] & -> & Hin)%list_elem_of_fmap. destruct (qi_ret _ _ _ Hi p' x Hin) as (H1 & _). simpl. lia.
  - intros Hp. destruct (qi_all _ _ _ Hi p) as [|(t & pc & Ht & Hrd)]; [lia|done|]. destruct (Hc _ _ Ht). congruence.
Qed.
End Facts.

(** C5. The lock-free queue is a FIFO queue.  Under every interleaving of any number
    of concurrent enqueue and dequeue calls (fewer than 2^62 in all), at the
    granularity of single memory accesses: positions are claimed one by one, dequeues
    never overtake enqueues and at most the ring's size is outstanding; the dequeue
    that claimed position p returns exactly the record of the enqueue that claimed
    position p, and no position is returned twice; and whenever no call is in progress
    the returned positions are exactly 0..deq-1 and the cells hold exactly the rest. *)
Theorem mpmc_fifo size s tr :
  size <= 2 ^ 62 -> qreach (mkQSys (newMPMC size) ∅) s tr -> Z.of_nat (length (claims tr)) < 2 ^ 62 ->
  let q := qs_q s in
  enq q = Z.of_nat (length (claims tr)) /\ 0 <= deq q <= enq q /\ enq q - deq q <= Z.of_nat (length (buf q)) /\
  size <= Z.of_nat (length (buf q)) /\
  (forall p x, (p, x) ∈ returned tr -> 0 <= p < deq q /\ exists v, x = Some v /\ claims tr !! Z.to_nat p = Some v) /\
  NoDup (returned tr).*1 /\
  (qs_calls s = ∅ ->
     (returned tr).*1 ≡ₚ seqZ 0 (deq q) /\
     forall p, deq q <= p < enq q -> val (cell_at q p) = claims tr !! Z.to_nat p).
Proof.
  intros Hs Hr Hb. destruct (new_reach_inv size s tr Hs Hr Hb) as (k & Hk & Hsz & Hi). simpl.
  pose proof (inv_bounded k Hk s tr Hi) as Hbd. pose proof (qi_enq _ _ _ Hi) as He. pose proof (qi_deq _ _ _ Hi) as Hd.
  rewrite (qi_buf _ _ _ Hi), Z2Nat.id by (pose proof (n_bounds k Hk); lia).
  split_and!; try done; try lia.
  - intros p x Hin. destruct (qi_ret _ _ _ Hi p x Hin) as (H1 & H2 & _). split; [done|].
    destruct (claims tr !! Z.to_nat p) as [v|] eqn:E; [by exists v|]. apply lookup_ge_None in E. lia.
  - apply (qi_nodup _ _ _ Hi).
  - intros Hc. split; [by apply (quiescent_returned k), idle_empty|]. intros p Hp. apply (quiescent_slot k Hk); by try apply idle_empty.
Qed.

(** ** A call that runs alone *)
Section Free.
Context (k : Z) (Hk : 1 <= k <= 62).

Lemma solo_free_cell s tr :
  qinv k s tr -> idle (qs_calls s) -> enq (qs_q s) - deq (qs_q s) < 2 ^ k -> seq (cell_at (qs_q s) (enq (qs_q s))) = enq (qs_q s).
Proof.
  intros Hi Hc Hlt. pose proof (n_bounds k Hk) as Hn. pose proof (qi_deq _ _ _ Hi) as Hd.
  destruct (slot_of k Hk s tr (enq (qs_q s)) Hi ltac:(lia)) as (p & Hp & H1 & H2 & H3 & Hs).
  assert (p = enq (qs_q s)) as ->.
  { destruct (decide (enq (qs_q s) = p + 2 ^ k)) as [E|E]; [|apply (mod_close k Hk); [done|lia]].
    exfalso. destruct Hs as [(_ & Hs & _)|(_ & _ & Hs & _)]; [lia|].
    destruct (Hs ltac:(lia)) as (t & pc & Ht & Hrd). destruct (Hc _ _ Ht). congruence. }
  destruct Hs as [(Hs & _)|(_ & Hs & _)]; [done|lia].
Qed.

Lemma full_cell s tr :
  qinv k s tr -> idle (qs_calls s) -> enq (qs_q s) - deq (qs_q s) = 2 ^ k -> seq (cell_at (qs_q s) (enq (qs_q s))) = deq (qs_q s) + 1.
Proof.
  intros Hi Hc Hf. pose proof (n_bounds k Hk) as Hn. pose proof (qi_deq _ _ _ Hi) as Hd.
  rewrite (cell_at_congr k Hk _ _ (deq (qs_q s))); [by apply (quiescent_slot k Hk s tr); [..|lia]|split; apply Hi|].
  replace (enq (qs_q s)) with (deq (qs_q s) + 1 * 2 ^ k) by lia. apply Z.mod_add. lia.
Qed.
End Free.

Ltac solo_step :=
  cbn [qs_calls qs_q run_steps qsys_step]; rewrite lookup_insert_eq; cbn [qpc_step qs_calls qs_q enq deq set_enq set_deq].
Ltac solo_start Hc := cbn [run_steps qsys_step]; rewrite Hc, lookup_empty; solo_step; solo_step.
Ltac solo_end := cbn [qs_calls qs_q app]; rewrite ?insert_insert_eq; by rewrite delete_insert_id.

Section Solo.
Context (k : Z) (Hk : 1 <= k <= 62).

Lemma solo_enq_full s tr t v :
  qinv k s tr -> qs_calls s = ∅ -> enq (qs_q s) + 2 ^ k < 2 ^ 63 -> enq (qs_q s) - deq (qs_q s) = 2 ^ k ->
  qsys_run [QEnqueue t v; QStep t; QStep t] s = Some (mkQSys (qs_q s) ∅, []).
Proof.
  intros Hi Hc Hb Hf. pose proof (n_bounds k Hk) as Hn. pose proof (qi_deq _ _ _ Hi) as Hd.
  pose proof (full_cell k Hk s tr Hi (idle_empty s Hc) Hf) as Hseq.
  solo_start Hc. rewrite Hseq, dif_exact by lia.
  destruct (Z.eqb_spec (deq (qs_q s) + 1 - enq (qs_q s)) 0); [lia|].
  destruct (Z.ltb_spec (deq (qs_q s) + 1 - enq (qs_q s)) 0); [|lia]. solo_end.
Qed.

Lemma solo_enq s tr t v :
  qinv k s tr -> qs_calls s = ∅ -> enq (qs_q s) + 2 ^ k < 2 ^ 63 -> enq (qs_q s) - deq (qs_q s) < 2 ^ k ->
  exists q', qsys_run (QEnqueue t v :: replicate 5 (QStep t)) s = Some (mkQSys q' ∅, [QClaim v]).
Proof.
  intros Hi Hc Hb Hlt. pose proof (n_bounds k Hk) as Hn. pose proof (qi_deq _ _ _ Hi) as Hd.
  pose proof (solo_free_cell k Hk s tr Hi (idle_empty s Hc) Hlt) as Hseq. eexists. cbn [replicate].
  solo_start Hc. rewrite Hseq, dif_exact, Z.sub_diag by lia. cbn [Z.eqb].
  solo_step. rewrite Z.eqb_refl. solo_step. solo_step. solo_end.
Qed.

Lemma solo_deq s tr t :
  qinv k s tr -> qs_calls s = ∅ -> enq (qs_q s) + 2 ^ k < 2 ^ 63 -> deq (qs_q s) < enq (qs_q s) ->
  exists q', qsys_run (QDequeue t :: replicate 6 (QStep t)) s =
    Some (mkQSys q' ∅, [QTake; QRet (deq (qs_q s)) (claims tr !! Z.to_nat (deq (qs_q s)))]).
Proof.
  intros Hi Hc Hb Hlt. pose proof (n_bounds k Hk) as Hn. pose proof (qi_deq _ _ _ Hi) as Hd.
  destruct (quiescent_slot k Hk s tr (deq (qs_q s)) Hi (idle_empty s Hc) ltac:(lia)) as [Hseq Hval]. eexists. cbn [replicate].
  solo_start Hc. rewrite Hseq, (u64_small (deq (qs_q s) + 1)), dif_exact, Z.sub_diag by (unfold is_u64; lia). cbn [Z.eqb].
  solo_step. rewrite Z.eqb_refl. solo_step. solo_step. solo_step. rewrite <-Hval. solo_end.
Qed.

Lemma solo_deq_empty s tr t :
  qinv k s tr -> qs_calls s = ∅ -> enq (qs_q s) + 2 ^ k < 2 ^ 63 -> deq (qs_q s) = enq (qs_q s) ->
  qsys_run [QDequeue t; QStep t; QStep t] s = Some (mkQSys (qs_q s) ∅, []).
Proof.
  intros Hi Hc Hb Heq. pose proof (n_bounds k Hk) as Hn. pose proof (qi_deq _ _ _ Hi) as Hd.
  pose proof (solo_free_cell k Hk s tr Hi (idle_empty s Hc) ltac:(lia)) as Hseq.
  solo_start Hc. rewrite Heq, Hseq, (u64_small (enq (qs_q s) + 1)), dif_exact by (unfold is_u64; lia).
  destruct (Z.eqb_spec (enq (qs_q s) - (enq (qs_q s) + 1)) 0); [lia|].
  destruct (Z.ltb_spec (enq (qs_q s) - (enq (qs_q s) + 1)) 0); [|lia]. solo_end.
Qed.
End Solo.

(** A call that runs alone on an idle queue finishes and answers correctly:
    enqueue succeeds in five memory accesses exactly when fewer than the ring's size
    are outstanding (and otherwise reports full in two, changing nothing), and dequeue
    returns the oldest outstanding record in six exactly when there is one (and
    otherwise reports empty in two). *)
Theorem mpmc_solo size s tr t v :
  size <= 2 ^ 62 -> qreach (mkQSys (newMPMC size) ∅) s tr -> Z.of_nat (length (claims tr)) < 2 ^ 62 -> qs_calls s = ∅ ->
  (if enq (qs_q s) - deq (qs_q s) <? Z.of_nat (length (buf (qs_q s))) then
     exists q', qsys_run (QEnqueue t v :: replicate 5 (QStep t)) s = Some (mkQSys q' ∅, [QClaim v])
   else qsys_run [QEnqueue t v; QStep t; QStep t] s = Some (mkQSys (qs_q s) ∅, [])) /\
  (if deq (qs_q s) <? enq (qs_q s) then
     exists q' x, claims tr !! Z.to_nat (deq (qs_q s)) = Some x /\
       qsys_run (QDequeue t :: replicate 6 (QStep t)) s = Some (mkQSys q' ∅, [QTake; QRet (deq (qs_q s)) (Some x)])
   else qsys_run [QDequeue t; QStep t; QStep t] s = Some (mkQSys (qs_q s) ∅, [])).
Proof.
  intros Hs Hr Hb Hc. destruct (new_reach_inv size s tr Hs Hr Hb) as (k & Hk & _ & Hi).
  pose proof (n_bounds k Hk) as Hn. pose proof (qi_enq _ _ _ Hi) as He. pose proof (qi_deq _ _ _ Hi) as Hd.
  pose proof (inv_bounded k Hk s tr Hi) as Hbd. rewrite (qi_buf _ _ _ Hi), Z2Nat.id by lia. split.
  - destruct (Z.ltb_spec (enq (qs_q s) - deq (qs_q s)) (2 ^ k)).
    + eapply (solo_enq k Hk); [done|done|lia|done].
    + eapply (solo_enq_full k Hk); [done|done|lia|lia].
  - destruct (Z.ltb_spec (deq (qs_q s)) (enq (qs_q s))).
    + destruct (solo_deq k Hk s tr t Hi Hc ltac:(lia) ltac:(done)) as [q' Hq'].
      destruct (claims tr !! Z.to_nat (deq (qs_q s))) as [x|] eqn:E; [by exists q', x|]. apply lookup_ge_None in E. lia.
    + eapply (solo_deq_empty k Hk); [done|done|lia|lia].
Qed.

(** ** A run: two producers race for a position while a consumer polls *)
Definition qmsg (m : string) : LogRecord := mkRecord GoTime.zero_time LevelInfo m 0 "" [] (Some Background) false.
Definition mp_events : list QEvent :=
  [QEnqueue 1 (qmsg "a"); QEnqueue 2 (qmsg "b"); QStep 1; QStep 2; QStep 1; QStep 2;   (* both saw position 0 free *)
   QStep 2; QStep 1;                                                                  (* 2 claims it, 1 loses *)
   QDequeue 3; QStep 3; QStep 3;                                                      (* nothing published yet: empty *)
   QStep 2; QStep 2;                                                                  (* 2 publishes b *)
   QStep 1; QStep 1; QStep 1; QStep 1; QStep 1; QStep 1;                               (* 1 reloads, claims 1, publishes a *)
   QDequeue 3; QStep 3; QStep 3; QStep 3; QStep 3; QStep 3; QStep 3].
Definition mp_start : QSys := mkQSys (newMPMC 2) ∅.
Definition mp_end : QSys * list QObs := default (mp_start, []) (qsys_run mp_events mp_start).

Lemma mp_reach : qreach mp_start mp_end.1 mp_end.2.
Proof.
  apply (run_reaches mp_events mp_start mp_start [] mp_end.1 mp_end.2 (reaches_refl mp_start)).
  vm_compute. reflexivity.
Qed.

Lemma mpmc_fifo_witness :
  map r_Message (claims mp_end.2) = ["b"; "a"]%string /\ returned mp_end.2 = [(0, Some (qmsg "b"))] /\
  (returned mp_end.2).*1 ≡ₚ seqZ 0 (deq (qs_q mp_end.1)).
Proof.
  split_and!; [vm_compute; reflexivity|vm_compute; reflexivity|].
  destruct (mpmc_fifo 2 mp_end.1 mp_end.2) as (_ & _ & _ & _ & _ & _ & Hq); [lia|exact mp_reach|vm_compute; reflexivity|].
  apply Hq. vm_compute. reflexivity.
Defined.

Lemma mpmc_solo_witness :
  exists q' x, claims mp_end.2 !! 1%nat = Some x /\
    qsys_run (QDequeue 7 :: replicate 6 (QStep 7)) mp_end.1 = Some (mkQSys q' ∅, [QTake; QRet 1 (Some x)]).
Proof.
  destruct (mpmc_solo 2 mp_end.1 mp_end.2 7 (qmsg "c")) as [_ Hd];
    [lia|exact mp_reach|vm_compute; reflexivity|vm_compute; reflexivity|]. exact Hd.
Defined.
