(* ===== verification/Disruptor.v ===== *)
(** * The disruptor transport (transport_disruptor.go) over the lock-free queue

    Any number of callers of [Dispatch], [Sync] and [Close], and the consumer
    goroutine.  Each goroutine has an outer frame (its place in the transport's code)
    and, while it is inside [enqueue] or [dequeue], an inner one, which advances by
    single memory accesses as in [Mpmc].  The consumer is goroutine 0. *)
From Stdlib Require Import Sorted.
From S2P Require Import Prelude GoStd Level Field Record Sink Transport Mpmc.
Local Open Scope Z_scope.

Record DisruptorTransport (A : Type) := mkDisruptor {
  dt_sink : A;
  dt_q : mpmc;
  dt_policy : OverflowPolicy;
  dt_dropped : Z;
  dt_closed : bool
}.
Arguments mkDisruptor {A}.
Arguments dt_sink {A}.
Arguments dt_q {A}.
Arguments dt_policy {A}.
Arguments dt_dropped {A}.
Arguments dt_closed {A}.

(** Where the consumer is in [run]. The counter [idle] only chooses between two calls
    of [runtime.Gosched]. *)
Inductive DWorkerPC :=
| VDequeue                          (* inside the dequeue of the loop *)
| VEmit (r : option LogRecord)      (* about to Emit *)
| VClosed                           (* empty: about to load closed *)
| VDrain                            (* inside the dequeue of the final loop *)
| VDrainEmit (r : option LogRecord)
| VDone                             (* done is closed *)
| VPanic.                           (* Emit of a nil record *)

#[export] Instance DWorkerPC_done_dec (w : DWorkerPC) : Decision (w = VDone).
Proof. destruct w; (left; done) || (right; done). Defined.

Inductive DCallPC :=
| PEnqueue (c : LogRecord)          (* Dispatch, inside enqueue(c) *)
| PEvict (c : LogRecord)            (* DropOldest: inside dequeue, after a failed enqueue *)
| PCount                            (* DropNewest: about to count the drop *)
| PCountRetry (c : LogRecord)       (* DropOldest: about to count the eviction *)
| PSync
| PClose                            (* Close, about to swap the flag *)
| PDrain.                           (* Close, receiving from done *)

Inductive DEvent :=
| DECall (t : Z) (pc : DCallPC)
| DERun (t : Z)
| DEWorker.

(** What a step shows: an access of goroutine [t] to the queue, or an observation of
    the transport. *)
Inductive DObs :=
| DQ (t : Z) (o : QObs)
| DO (o : Obs).

Definition consumer : Z := 0.

Definition d_entry (pc : DCallPC) : option (DCallPC * option QPC) :=
  match pc with
  | PEnqueue r => Some (PEnqueue (Clone r), Some (EStart (Clone r)))
  | PSync => Some (PSync, None)
  | PClose => Some (PClose, None)
  | _ => None
  end.

Record DSys (A : Type) := mkDSys {
  ds_t : DisruptorTransport A;
  ds_heap : Heap;
  ds_inner : gmap Z QPC;            (* the calls into the queue in progress *)
  ds_worker : DWorkerPC;
  ds_calls : gmap Z DCallPC
}.
Arguments mkDSys {A}.
Arguments ds_t {A}.
Arguments ds_heap {A}.
Arguments ds_inner {A}.
Arguments ds_worker {A}.
Arguments ds_calls {A}.

Section DisruptorT.
Context {A : Type} `{Sink A}.

Definition NewDisruptorTransport (s : A) (capacity : Z) (policy : OverflowPolicy) : DisruptorTransport A :=
  let capacity := if capacity <? 2 then 1024 else capacity in
  mkDisruptor s (newMPMC capacity) policy 0 false.

Definition d_set_q (q : mpmc) (t : DisruptorTransport A) : DisruptorTransport A :=
  mkDisruptor (dt_sink t) q (dt_policy t) (dt_dropped t) (dt_closed t).
Definition d_set_sink (a : A) (t : DisruptorTransport A) : DisruptorTransport A :=
  mkDisruptor a (dt_q t) (dt_policy t) (dt_dropped t) (dt_closed t).
Definition d_add_dropped (t : DisruptorTransport A) : DisruptorTransport A :=
  mkDisruptor (dt_sink t) (dt_q t) (dt_policy t) (u64 (dt_dropped t + 1)) (dt_closed t).
Definition d_set_closed (t : DisruptorTransport A) : DisruptorTransport A :=
  mkDisruptor (dt_sink t) (dt_q t) (dt_policy t) (dt_dropped t) true.

Definition d_with (t : DisruptorTransport A) (s : DSys A) : DSys A :=
  mkDSys t (ds_heap s) (ds_inner s) (ds_worker s) (ds_calls s).
Definition d_inner (t : Z) (o : option QPC) (s : DSys A) : DSys A :=
  mkDSys (ds_t s) (ds_heap s) (match o with Some pc => <[t := pc]> (ds_inner s) | None => delete t (ds_inner s) end)
    (ds_worker s) (ds_calls s).
Definition d_frame (t : Z) (o : option DCallPC) (s : DSys A) : DSys A :=
  mkDSys (ds_t s) (ds_heap s) (ds_inner s) (ds_worker s)
    (match o with Some pc => <[t := pc]> (ds_calls s) | None => delete t (ds_calls s) end).
Definition d_goto (w : DWorkerPC) (s : DSys A) : DSys A :=
  mkDSys (ds_t s) (ds_heap s) (ds_inner s) w (ds_calls s).

(** The next memory access of goroutine [t] inside the queue. *)
Definition d_access (t : Z) (s : DSys A) : option (DSys A * QRes * list DObs) :=
  match ds_inner s !! t with
  | Some pc =>
      let '(q, r, os) := qpc_step pc (dt_q (ds_t s)) in
      Some (d_inner t (match r with RGo pc' => Some pc' | _ => None end) (d_with (d_set_q q (ds_t s)) s), r, DQ t <$> os)
  | None => None
  end.

(** [Dispatch] once its [enqueue(c)] has answered. *)
Definition d_enqueued (t : Z) (c : LogRecord) (ok : bool) (s : DSys A) : DSys A * list DObs :=
  if ok then (d_frame t None s, [])
  else match dt_policy (ds_t s) with
       | Block => (d_inner t (Some (EStart c)) s, [])
       | DropNewest => (d_frame t (Some PCount) s, [DO (OReject c)])
       | DropOldest => (d_frame t (Some (PEvict c)) (d_inner t (Some DStart) s), [])
       end.

(** [Dispatch] under DropOldest once its [dequeue] has answered. *)
Definition d_evicted (t : Z) (c : LogRecord) (ok : bool) (s : DSys A) : DSys A :=
  if ok then d_frame t (Some (PCountRetry c)) s
  else d_frame t (Some (PEnqueue c)) (d_inner t (Some (EStart c)) s).

Definition DisruptorTransport_Sync (t : Z) (s : DSys A) : DSys A * list DObs :=
  let '(a, _) := sink_sync (dt_sink (ds_t s)) in (d_frame t None (d_with (d_set_sink a (ds_t s)) s), [DO OSync]).

(** [if t.closed.Swap(true) { return nil }]. *)
Definition d_close (t : Z) (s : DSys A) : DSys A * list DObs :=
  if dt_closed (ds_t s) then (d_frame t None s, [])
  else (d_frame t (Some PDrain) (d_with (d_set_closed (ds_t s)) s), [DO OShut]).
(** [<-t.done; _ = t.sink.Sync(); return t.sink.Close()]. *)
Definition d_finish (t : Z) (s : DSys A) : DSys A * list DObs :=
  let '(a, _) := sink_sync (dt_sink (ds_t s)) in
  let '(a, _) := sink_close a in
  (d_frame t None (d_with (d_set_sink a (ds_t s)) s), [DO OSync; DO OClose]).

Definition d_run_call (t : Z) (s : DSys A) : option (DSys A * list DObs) :=
  match ds_calls s !! t with
  | None => None
  | Some (PEnqueue c) =>
      match d_access t s with
      | Some (s1, RGo _, os) => Some (s1, os)
      | Some (s1, REnq ok, os) => let '(s2, os2) := d_enqueued t c ok s1 in Some (s2, os ++ os2)
      | _ => None
      end
  | Some (PEvict c) =>
      match d_access t s with
      | Some (s1, RGo _, os) => Some (s1, os)
      | Some (s1, RDeq _ ok, os) => Some (d_evicted t c ok s1, os)
      | _ => None
      end
  | Some PCount => Some (d_frame t None (d_with (d_add_dropped (ds_t s)) s), [])
  | Some (PCountRetry c) =>
      Some (d_frame t (Some (PEnqueue c)) (d_inner t (Some (EStart c)) (d_with (d_add_dropped (ds_t s)) s)), [])
  | Some PSync => Some (DisruptorTransport_Sync t s)
  | Some PClose => Some (d_close t s)
  | Some PDrain => match ds_worker s with VDone => Some (d_finish t s) | _ => None end
  end.

(** [_ = t.sink.Emit(r); r.release()], then back into [next]'s dequeue: the record is
    a clone, which [release] ignores. *)
Definition d_emit (r : option LogRecord) (next : DWorkerPC) (s : DSys A) : DSys A * list DObs :=
  match r with
  | Some x =>
      let '(a, h, _) := sink_emit x (dt_sink (ds_t s)) (ds_heap s) in
      (mkDSys (d_set_sink a (ds_t s)) h (<[consumer := DStart]> (ds_inner s)) next (ds_calls s), [DO (OEmit x)])
  | None => (d_goto VPanic s, [])
  end.

Definition d_run_worker (s : DSys A) : option (DSys A * list DObs) :=
  match ds_worker s with
  | VDequeue =>
      match d_access consumer s with
      | Some (s1, RGo _, os) => Some (s1, os)
      | Some (s1, RDeq x ok, os) => Some (d_goto (if ok then VEmit x else VClosed) s1, os)
      | _ => None
      end
  | VEmit r => Some (d_emit r VDequeue s)
  | VClosed =>
      Some (d_goto (if dt_closed (ds_t s) then VDrain else VDequeue) (d_inner consumer (Some DStart) s), [])
  | VDrain =>
      match d_access consumer s with
      | Some (s1, RGo _, os) => Some (s1, os)
      | Some (s1, RDeq x ok, os) => Some (d_goto (if ok then VDrainEmit x else VDone) s1, os)
      | _ => None
      end
  | VDrainEmit r => Some (d_emit r VDrain s)
  | VDone | VPanic => None
  end.

Definition d_step (e : DEvent) (s : DSys A) : option (DSys A * list DObs) :=
  match e with
  | DECall t pc =>
      match ds_calls s !! t, d_entry pc with
      | None, Some (pc', inner) =>
          if t =? consumer then None else
          Some (d_frame t (Some pc') (match inner with Some i => d_inner t (Some i) s | None => s end), [])
      | _, _ => None
      end
  | DERun t => d_run_call t s
  | DEWorker => d_run_worker s
  end.

(** A new transport: the consumer enters its first dequeue. *)
Definition d_start (a : A) (h : Heap) (capacity : Z) (policy : OverflowPolicy) : DSys A :=
  mkDSys (NewDisruptorTransport a capacity policy) h {[consumer := DStart]} VDequeue ∅.

Definition DisruptorTransport_Dropped (t : DisruptorTransport A) : Z := dt_dropped t.

End DisruptorT.

Abbreviation d_run := (run_steps d_step).
Abbreviation d_reach := (reaches d_step).

(** ** Readings of a trace *)
Definition qobs (tr : list DObs) : list QObs := omap (fun o => match o with DQ _ q => Some q | _ => None end) tr.
Definition tobs (tr : list DObs) : Trace := omap (fun o => match o with DO o => Some o | _ => None end) tr.
(** The positions and records the consumer dequeued, and those evicted by callers. *)
Definition wret (tr : list DObs) : list (Z * option LogRecord) :=
  omap (fun o => match o with DQ t (QRet p x) => if t =? consumer then Some (p, x) else None | _ => None end) tr.
Definition eret (tr : list DObs) : list (Z * option LogRecord) :=
  omap (fun o => match o with DQ t (QRet p x) => if t =? consumer then None else Some (p, x) | _ => None end) tr.

Lemma qobs_app tr1 tr2 : qobs (tr1 ++ tr2) = qobs tr1 ++ qobs tr2.
Proof. apply omap_app. Qed.
Lemma tobs_app tr1 tr2 : tobs (tr1 ++ tr2) = tobs tr1 ++ tobs tr2.
Proof. apply omap_app. Qed.
Lemma wret_app tr1 tr2 : wret (tr1 ++ tr2) = wret tr1 ++ wret tr2.
Proof. apply omap_app. Qed.
Lemma eret_app tr1 tr2 : eret (tr1 ++ tr2) = eret tr1 ++ eret tr2.
Proof. apply omap_app. Qed.

#[export] Hint Rewrite qobs_app tobs_app wret_app eret_app : trace.

Lemma qobs_DQ t os : qobs (DQ t <$> os) = os.
Proof. induction os as [|o os IH]; [done|]. simpl. f_equal. exact IH. Qed.
Lemma tobs_DQ t os : tobs (DQ t <$> os) = [].
Proof. induction os as [|o os IH]; [done|]. exact IH. Qed.

(** Every returned position went to the consumer or to an evicting caller. *)
Lemma returned_split tr : returned (qobs tr) ≡ₚ wret tr ++ eret tr.
Proof.
  induction tr as [|[t [v| |p x]|o] tr IH]; [done|exact IH|exact IH| |exact IH].
  unfold wret, eret, returned, qobs in *. simpl in *. destruct (t =? consumer); simpl.
  - by rewrite IH.
  - rewrite IH. apply Permutation_middle.
Qed.

Lemma wret_DQ t os : wret (DQ t <$> os) = if t =? consumer then returned os else [].
Proof.
  unfold wret, returned. induction os as [|[v| |p x] os IH]; [by destruct (t =? consumer)|exact IH|exact IH|].
  simpl in *. destruct (t =? consumer); [f_equal; exact IH|exact IH].
Qed.
Lemma eret_DQ t os : eret (DQ t <$> os) = if t =? consumer then [] else returned os.
Proof.
  unfold eret, returned. induction os as [|[v| |p x] os IH]; [by destruct (t =? consumer)|exact IH|exact IH|].
  simpl in *. destruct (t =? consumer); [exact IH|f_equal; exact IH].
Qed.

#[export] Hint Rewrite qobs_DQ tobs_DQ wret_DQ eret_DQ : trace.

(** ** Outer and inner frames agree *)
Definition enq_pc (c : LogRecord) (pc : QPC) : Prop :=
  match pc with EStart v | ELoop v _ | ECas v _ | EWrite v _ | EPub v _ => v = c | _ => False end.
Definition deq_pc (pc : QPC) : Prop :=
  match pc with DStart | DLoop _ | DCas _ | DRead _ | DClear _ _ | DRel _ _ => True | _ => False end.

Lemma enq_pc_step c pc q q' r os :
  enq_pc c pc -> qpc_step pc q = (q', r, os) ->
  returned os = [] /\ match r with RGo pc' => enq_pc c pc' | REnq _ => True | RDeq _ _ => False end.
Proof.
  destruct pc; simpl; try done; intros -> Hst; repeat case_match; simplify_eq/=; done.
Qed.

Lemma deq_pc_step pc q q' r os :
  deq_pc pc -> qpc_step pc q = (q', r, os) ->
  claims os = [] /\
  match r with
  | RGo pc' => deq_pc pc' /\ returned os = []
  | REnq _ => False
  | RDeq x true => exists p, pc = DRel p x /\ returned os = [(p, x)]
  | RDeq x false => x = None /\ returned os = []
  end.
Proof.
  destruct pc; simpl; try done; intros _ Hst; repeat case_match; simplify_eq/=; eauto.
Qed.

Definition frame_ok (f : option DCallPC) (i : option QPC) : Prop :=
  match f with
  | Some (PEnqueue c) => exists pc, i = Some pc /\ enq_pc c pc
  | Some (PEvict _) => exists pc, i = Some pc /\ deq_pc pc
  | _ => i = None
  end.
Definition worker_ok (w : DWorkerPC) (i : option QPC) : Prop :=
  match w with VDequeue | VDrain => exists pc, i = Some pc /\ deq_pc pc | _ => i = None end.

Section Frames.
Context {A : Type} `{Sink A}.

Record frames (s : DSys A) : Prop := {
  fr_consumer : ds_calls s !! consumer = None;
  fr_calls : forall t, t <> consumer -> frame_ok (ds_calls s !! t) (ds_inner s !! t);
  fr_worker : worker_ok (ds_worker s) (ds_inner s !! consumer)
}.

Definition d_qs (s : DSys A) : QSys := mkQSys (dt_q (ds_t s)) (ds_inner s).

(** All frames but those of caller [t] agree. *)
Definition frames_but (t : Z) (s : DSys A) : Prop :=
  ds_calls s !! consumer = None /\
  (forall t', t' <> consumer -> t' <> t -> frame_ok (ds_calls s !! t') (ds_inner s !! t')) /\
  worker_ok (ds_worker s) (ds_inner s !! consumer).

Lemma frames_frames_but t s : frames s -> frames_but t s.
Proof. intros [F1 F2 F3]. split_and!; auto. Qed.

(** Changing one caller's frames. *)
Lemma frames_call t s s' :
  frames_but t s -> t <> consumer -> ds_worker s' = ds_worker s ->
  (forall t', t' <> t -> ds_calls s' !! t' = ds_calls s !! t' /\ ds_inner s' !! t' = ds_inner s !! t') ->
  frame_ok (ds_calls s' !! t) (ds_inner s' !! t) -> frames s'.
Proof.
  intros (F1 & F2 & F3) Ht Hw Ho Hok. split.
  - by rewrite (proj1 (Ho _ ltac:(done))).
  - intros t' Ht'. destruct (decide (t' = t)) as [->|Hn]; [done|]. destruct (Ho t' Hn) as [-> ->]. auto.
  - rewrite Hw, (proj2 (Ho _ ltac:(done))). done.
Qed.

Lemma frames_worker s s' :
  frames s -> ds_calls s' = ds_calls s ->
  (forall t', t' <> consumer -> ds_inner s' !! t' = ds_inner s !! t') ->
  worker_ok (ds_worker s') (ds_inner s' !! consumer) -> frames s'.
Proof.
  intros [F1 F2 F3] Hc Ho Hok. split; [by rewrite Hc| |done].
  intros t' Ht'. rewrite Hc, Ho by done. auto.
Qed.

Lemma access_inv t s s1 r os :
  d_access t s = Some (s1, r, os) ->
  exists pc q os', ds_inner s !! t = Some pc /\ qpc_step pc (dt_q (ds_t s)) = (q, r, os') /\ os = DQ t <$> os' /\
    s1 = d_inner t (match r with RGo pc' => Some pc' | _ => None end) (d_with (d_set_q q (ds_t s)) s) /\
    qsys_step (QStep t) (d_qs s) = Some (d_qs s1, os').
Proof.
  unfold d_access. destruct (ds_inner s !! t) as [pc|] eqn:E; [|done].
  destruct (qpc_step pc (dt_q (ds_t s))) as [[q r'] os'] eqn:Eq. intros [= <- <- <-].
  exists pc, q, os'. split_and!; try done. simpl. rewrite E, Eq. unfold d_qs. simpl. by destruct r'.
Qed.

End Frames.

Ltac lk := rewrite ?lookup_insert_eq, ?lookup_delete_eq, ?lookup_insert_ne, ?lookup_delete_ne by congruence.
(** What a queue access did. *)
Ltac d_access_cases Hst :=
  match type of Hst with
  | context [d_access ?t ?s] =>
      let s1 := fresh "s1" in let r := fresh "r" in let os1 := fresh "os1" in let E := fresh "E" in
      destruct (d_access t s) as [[[s1 r] os1]|] eqn:E; [|done];
      apply access_inv in E as (pc & q & qs & Hpc & Hqs & -> & -> & Hq)
  end.

Section FrameSteps.
Context {A : Type} `{Sink A}.

Lemma lookup_step (m : gmap Z QPC) t o t' :
  t' <> t -> match o with Some pc => <[t := pc]> m | None => delete t m end !! t' = m !! t'.
Proof. intros. destruct o; by rewrite ?lookup_insert_ne, ?lookup_delete_ne by congruence. Qed.

(** The steps of a caller keep the frames in agreement and are steps of the queue. *)
Definition qsim (s s' : DSys A) (os : list DObs) : Prop :=
  exists es, qsys_run es (d_qs s) = Some (d_qs s', qobs os).

Lemma qsim_one e s s' os : qsys_step e (d_qs s) = Some (d_qs s', qobs os) -> qsim s s' os.
Proof. intros E. exists [e]. simpl. by rewrite E, app_nil_r. Qed.

Lemma qsim_trans s1 s2 s3 os1 os2 : qsim s1 s2 os1 -> qsim s2 s3 os2 -> qsim s1 s3 (os1 ++ os2).
Proof.
  intros [es1 E1] [es2 E2]. exists (es1 ++ es2). rewrite qobs_app. eapply run_steps_app; eauto.
Qed.

(** Entering the queue. *)
Lemma qsim_enter s s' t pc :
  d_qs s' = mkQSys (dt_q (ds_t s)) (<[t := pc]> (ds_inner s)) -> ds_inner s !! t = None ->
  (pc = DStart \/ exists v, pc = EStart v) -> qsim s s' [].
Proof.
  intros E Hn [->|[v ->]]; [exists [QDequeue t]|exists [QEnqueue t v]]; simpl; rewrite Hn; simpl; by rewrite E.
Qed.

Lemma qsim_same s s' os : d_qs s' = d_qs s -> qobs os = [] -> qsim s s' os.
Proof. intros E Eo. exists []. simpl. by rewrite E, Eo. Qed.

(** [s'] differs from [s] in the frames of [t] only, which agree. *)
Ltac frames_of s t := apply (frames_call t s); [done|done|done|intros; simpl; lk; done|simpl; lk; eauto].

Lemma fr_enqueued t c ok s :
  frames_but t s -> ds_calls s !! t = Some (PEnqueue c) -> ds_inner s !! t = None -> t <> consumer ->
  let '(s', os) := d_enqueued t c ok s in frames s' /\ qsim s s' os.
Proof.
  intros Hf Hfr Hi Ht. unfold d_enqueued. destruct ok; [|destruct (dt_policy (ds_t s))]; simpl.
  - split; [frames_of s t|by apply qsim_same].
  - split; [frames_of s t|by eapply qsim_enter; [..|right; eauto]]. rewrite Hfr. by eexists.
  - split; [frames_of s t|by apply qsim_same].
  - split; [frames_of s t|by eapply qsim_enter; [..|left]]. by eexists.
Qed.

Lemma fr_evicted t c ok s :
  frames_but t s -> ds_inner s !! t = None -> t <> consumer ->
  frames (d_evicted t c ok s) /\ qsim s (d_evicted t c ok s) [].
Proof.
  intros Hf Hi Ht. unfold d_evicted. destruct ok; simpl.
  - split; [frames_of s t|by apply qsim_same].
  - split; [frames_of s t|by eapply qsim_enter; [..|right; eauto]]. by eexists.
Qed.

(** The state after an access of caller [t]. *)
Lemma frames_access t (s : DSys A) tr o : frames s -> t <> consumer -> frames_but t (d_inner t o (d_with tr s)).
Proof.
  intros [F1 F2 F3] Ht. split_and!; simpl; [done| |].
  - intros t' H1 H2. rewrite lookup_step by done. auto.
  - by rewrite lookup_step by done.
Qed.

Lemma fr_run_call t s s' os : frames s -> d_run_call t s = Some (s', os) -> frames s' /\ qsim s s' os.
Proof.
  intros Hf Hst. pose proof (frames_frames_but t s Hf) as Hfb. unfold d_run_call in Hst.
  destruct (ds_calls s !! t) as [f|] eqn:Hfr; [|done].
  assert (Ht : t <> consumer) by (intros ->; by rewrite (fr_consumer s Hf) in Hfr).
  pose proof (fr_calls s Hf t Ht) as Hok. rewrite Hfr in Hok.
  destruct f as [c|c| |c| | |]; simpl in Hok.
  - destruct Hok as (pc0 & Hi & Hk). d_access_cases Hst. rewrite Hi in Hpc. injection Hpc as ->.
    destruct (enq_pc_step _ _ _ _ _ _ Hk Hqs) as [_ Hr].
    destruct r as [pc'|ok|x ok]; [injection Hst as <- <-| |done].
    + split; [frames_of s t; rewrite Hfr; by eexists|]. apply (qsim_one (QStep t)). by rewrite qobs_DQ.
    + pose proof (fr_enqueued t c ok _ (frames_access t s (d_set_q q (ds_t s)) None Hf Ht) Hfr ltac:(simpl; lk; done) Ht) as Hn.
      destruct (d_enqueued t c ok _) as [s2 os2]. injection Hst as <- <-. destruct Hn as [Hn1 Hn2]. split; [done|].
      eapply qsim_trans; [|done]. apply (qsim_one (QStep t)). by rewrite qobs_DQ.
  - destruct Hok as (pc0 & Hi & Hk). d_access_cases Hst. rewrite Hi in Hpc. injection Hpc as ->.
    destruct (deq_pc_step _ _ _ _ _ Hk Hqs) as [_ Hr].
    destruct r as [pc'|ok|x ok]; [injection Hst as <- <-|done|injection Hst as <- <-].
    + split; [frames_of s t; rewrite Hfr; exists pc'; split; [done|apply Hr]|]. apply (qsim_one (QStep t)). by rewrite qobs_DQ.
    + destruct (fr_evicted t c ok _ (frames_access t s (d_set_q q (ds_t s)) None Hf Ht) ltac:(simpl; lk; done) Ht) as [Hn1 Hn2].
      split; [done|]. rewrite <-(app_nil_r (DQ t <$> qs)). eapply qsim_trans; [|done]. apply (qsim_one (QStep t)). by rewrite qobs_DQ.
  - injection Hst as <- <-. split; [frames_of s t|by apply qsim_same].
  - injection Hst as <- <-. split; [frames_of s t|by eapply qsim_enter; [..|right; eauto]]. by eexists.
  - unfold DisruptorTransport_Sync in Hst. destruct (sink_sync _) as [a e]. injection Hst as <- <-.
    split; [frames_of s t|by apply qsim_same].
  - unfold d_close in Hst. destruct (dt_closed _); injection Hst as <- <-; (split; [frames_of s t|by apply qsim_same]).
  - destruct (ds_worker s) eqn:Hw; try done. unfold d_finish in Hst. destruct (sink_sync _) as [a e], (sink_close a) as [a' e'].
    injection Hst as <- <-. split; [frames_of s t|by apply qsim_same].
Qed.

(** The same for the consumer. *)
Ltac worker_frames s := apply (frames_worker s); [done|done|intros; simpl; lk; done|simpl; lk; eauto].

(** A dequeue of the consumer that is at [w1] and continues at [w2 x ok]. *)
Lemma fr_worker_deq w2 s s' os :
  frames s -> (exists pc, ds_inner s !! consumer = Some pc /\ deq_pc pc) ->
  (forall x ok, worker_ok (w2 x ok) None) -> worker_ok (ds_worker s) (Some DStart) ->
  match d_access consumer s with
  | Some (s1, RGo _, os) => Some (s1, os)
  | Some (s1, RDeq x ok, os) => Some (d_goto (w2 x ok) s1, os)
  | _ => None
  end = Some (s', os) -> frames s' /\ qsim s s' os.
Proof.
  intros Hf (pc0 & Hi & Hk) H2 Hw Hst. d_access_cases Hst. rewrite Hi in Hpc. injection Hpc as ->.
  destruct (deq_pc_step _ _ _ _ _ Hk Hqs) as [_ Hr].
  destruct r as [pc'|ok|x ok]; [|done|]; injection Hst as <- <-.
  - split; [worker_frames s|apply (qsim_one (QStep consumer)); by rewrite qobs_DQ].
    destruct (ds_worker s); simpl in *; try discriminate Hw; exists pc'; (split; [done|apply Hr]).
  - split; [worker_frames s|apply (qsim_one (QStep consumer)); by rewrite qobs_DQ].
Qed.

Lemma fr_emit r next s :
  frames s -> ds_inner s !! consumer = None -> worker_ok next (Some DStart) ->
  let '(s', os) := d_emit r next s in frames s' /\ qsim s s' os.
Proof.
  intros Hf Hi Hn. unfold d_emit. destruct r as [x|].
  - destruct (sink_emit x _ _) as [[a h] e]. split; [worker_frames s|].
    apply (qsim_trans _ (mkDSys (ds_t s) (ds_heap s) (<[consumer := DStart]> (ds_inner s)) next (ds_calls s)) _ [] [DO (OEmit x)]);
      [by eapply qsim_enter; [..|left]|by apply qsim_same].
  - split; [worker_frames s|by apply qsim_same].
Qed.

Lemma fr_run_worker s s' os : frames s -> d_run_worker s = Some (s', os) -> frames s' /\ qsim s s' os.
Proof.
  intros Hf Hst. pose proof (fr_worker s Hf) as Hw. unfold d_run_worker in Hst.
  destruct (ds_worker s) eqn:Ew; simpl in Hw; try done.
  - apply (fr_worker_deq (fun x ok => if ok then VEmit x else VClosed) s s' os); try done; [by intros ? []|by rewrite Ew; eexists].
  - injection Hst as Hst. pose proof (fr_emit r VDequeue s Hf Hw ltac:(by eexists)) as Hn. by rewrite Hst in Hn.
  - injection Hst as <- <-. split; [worker_frames s|by eapply qsim_enter; [..|left]]. destruct (dt_closed _); by eexists.
  - apply (fr_worker_deq (fun x ok => if ok then VDrainEmit x else VDone) s s' os); try done; [by intros ? []|by rewrite Ew; eexists].
  - injection Hst as Hst. pose proof (fr_emit r VDrain s Hf Hw ltac:(by eexists)) as Hn. by rewrite Hst in Hn.
Qed.

Lemma fr_step e s s' os : frames s -> d_step e s = Some (s', os) -> frames s' /\ qsim s s' os.
Proof.
  intros Hf. destruct e as [t pc|t|]; [|apply fr_run_call|apply fr_run_worker]; try done.
  cbn [d_step]. destruct (ds_calls s !! t) eqn:Hc; [done|]. destruct (d_entry pc) as [[pc' i]|] eqn:He; [|done].
  destruct (Z.eqb_spec t consumer) as [|Ht]; [done|]. intros [= <- <-].
  pose proof (frames_frames_but t s Hf) as Hfb. pose proof (fr_calls s Hf t Ht) as Hok. rewrite Hc in Hok. simpl in Hok.
  destruct pc; simplify_eq/=; (split; [frames_of s t|]); try (by apply qsim_same); try (by eapply qsim_enter; [..|right; eauto]).
  by eexists.
Qed.

Lemma frames_start (a : A) h c policy : frames (d_start a h c policy).
Proof.
  split; simpl; [done| |rewrite lookup_singleton_eq; by eexists].
  intros t Ht. by rewrite lookup_empty, lookup_singleton_ne by congruence.
Qed.

Definition ring_size (c : Z) : Z := if c <? 2 then 1024 else c.

Lemma d_reach_queue (a : A) h c policy s tr :
  d_reach (d_start a h c policy) s tr ->
  frames s /\ qreach (mkQSys (newMPMC (ring_size c)) ∅) (d_qs s) (qobs tr).
Proof.
  induction 1 as [|s tr e s' os _ [IH1 IH2] Hst].
  - split; [apply frames_start|]. by apply (reaches_step _ _ [] (QDequeue consumer) _ [] (reaches_refl _)).
  - destruct (fr_step e s s' os IH1 Hst) as [Hf [es Hes]]. split; [done|]. rewrite qobs_app. by eapply run_reaches.
Qed.
End FrameSteps.

(** ** The invariant of the transport *)
Definition d_hand (w : DWorkerPC) : list (option LogRecord) :=
  match w with VEmit r | VDrainEmit r => [r] | VPanic => [None] | _ => [] end.
Definition d_pending (f : DCallPC) : bool := match f with PCount | PCountRetry _ => true | _ => false end.
Definition d_pend (f : option DCallPC) : Z := match f with Some f => if d_pending f then 1 else 0 | None => 0 end.
Definition d_draining (w : DWorkerPC) : bool := match w with VDrain | VDrainEmit _ | VDone => true | _ => false end.

Section Inv.
Context {A : Type} `{Sink A} (ah : A * Heap) (policy : OverflowPolicy).

Definition call_ok (closed : bool) (f : DCallPC) : Prop :=
  match f with
  | PEvict _ | PCountRetry _ => policy = DropOldest
  | PCount => policy = DropNewest
  | PDrain => closed = true
  | _ => True
  end.

Record dinv (s : DSys A) (tr : list DObs) : Prop := {
  dv_policy : dt_policy (ds_t s) = policy;
  dv_hand : (Some <$> emitted (tobs tr)) ++ d_hand (ds_worker s) = (wret tr).*2;
  dv_sorted : StronglySorted Z.lt (wret tr).*1;
  dv_reader : forall pc p, ds_inner s !! consumer = Some pc -> reader pc = Some p -> Forall (fun p' => p' < p) (wret tr).*1;
  dv_calls : map_Forall (fun _ f => call_ok (dt_closed (ds_t s)) f) (ds_calls s);
  dv_evict : policy <> DropOldest -> eret tr = [];
  dv_reject : policy <> DropNewest -> rejected (tobs tr) = [];
  dv_dropped : dt_dropped (ds_t s) =
    u64 (Z.of_nat (length (eret tr) + length (rejected (tobs tr))) - Z.of_nat (mcount d_pending (ds_calls s)));
  dv_sink : (dt_sink (ds_t s), ds_heap s) = sink_after ah (tobs tr);
  dv_drain : d_draining (ds_worker s) = true -> dt_closed (ds_t s) = true
}.

Lemma mcount_frame (m : gmap Z DCallPC) t o :
  Z.of_nat (mcount d_pending (match o with Some f => <[t := f]> m | None => delete t m end)) =
  Z.of_nat (mcount d_pending m) - d_pend (m !! t) + d_pend o.
Proof.
  assert (E : Z.of_nat (mcount d_pending m) = Z.of_nat (mcount d_pending (delete t m)) + d_pend (m !! t)).
  { destruct (m !! t) as [f|] eqn:Ht; simpl; [rewrite (mcount_lookup d_pending m t f Ht); destruct (d_pending f); lia|].
    rewrite delete_id by done. lia. }
  destruct o as [f|]; simpl; [rewrite mcount_insert; destruct (d_pending f); lia|lia].
Qed.

(** A step of caller [t] that leaves it at frame [o] and counts [d] drops. *)
Lemma dv_call t o d s s' tr os :
  dinv s tr ->
  ds_calls s' = (match o with Some f => <[t := f]> (ds_calls s) | None => delete t (ds_calls s) end) ->
  ds_worker s' = ds_worker s -> ds_inner s' !! consumer = ds_inner s !! consumer ->
  dt_policy (ds_t s') = dt_policy (ds_t s) -> (dt_closed (ds_t s) = true -> dt_closed (ds_t s') = true) ->
  wret os = [] -> emitted (tobs os) = [] ->
  (policy <> DropOldest -> eret os = []) -> (policy <> DropNewest -> rejected (tobs os) = []) ->
  dt_dropped (ds_t s') = u64 (dt_dropped (ds_t s) + d) ->
  d = Z.of_nat (length (eret os) + length (rejected (tobs os))) + d_pend (ds_calls s !! t) - d_pend o ->
  (dt_sink (ds_t s'), ds_heap s') = sink_after (dt_sink (ds_t s), ds_heap s) (tobs os) ->
  (forall f, o = Some f -> call_ok (dt_closed (ds_t s')) f) ->
  dinv s' (tr ++ os).
Proof.
  intros [I1 I2 I3 I4 I5 I6 I7 I8 I9 I10] Hc Hw Hi Hp Hcl Hwr Hem Hev Hrj Hd Ed Hs Ho.
  split; autorewrite with trace; rewrite ?Hwr, ?Hem, ?app_nil_r, ?Hw, ?Hi; try done.
  - by rewrite Hp.
  - rewrite Hc. intros t' f Ht'. assert (t' = t /\ o = Some f \/ ds_calls s !! t' = Some f) as [[-> ->]|Hf].
    { destruct (decide (t' = t)) as [->|Hn]; [|right]; destruct o; revert Ht'; lk; intros; simplify_eq; auto. }
    + auto.
    + specialize (I5 t' f Hf). destruct f; simpl in *; auto.
  - intros Hn. by rewrite I6, Hev.
  - intros Hn. by rewrite I7, Hrj.
  - rewrite Hd, I8, u64_add_l, Hc, mcount_frame. f_equal. lia.
  - by rewrite Hs, I9.
  - auto.
Qed.

(** An access of a caller to the queue. *)
Lemma dv_access t o q s tr :
  dinv s tr -> t <> consumer -> dinv (d_inner t o (d_with (d_set_q q (ds_t s)) s)) tr.
Proof.
  intros Hi Ht. rewrite <-(app_nil_r tr). apply (dv_call t (ds_calls s !! t) 0 s); simpl; try done.
  - destruct (ds_calls s !! t) as [f|] eqn:E; [by rewrite insert_id|by rewrite delete_id].
  - by rewrite lookup_step.
  - rewrite (dv_dropped s tr Hi), u64_add_l. by rewrite Z.add_0_r.
  - lia.
  - intros f Hf. apply (dv_calls s tr Hi t f Hf).
Qed.

Lemma dv_obs s tr t qs : dinv s tr -> returned qs = [] -> dinv s (tr ++ (DQ t <$> qs)).
Proof.
  intros [] Hr. split; autorewrite with trace; rewrite ?Hr; try done; destruct (t =? consumer); simpl; rewrite ?app_nil_r, ?Nat.add_0_r; done.
Qed.

Ltac dv_same s t o := apply (dv_call t o 0 s); simpl; rewrite ?lookup_insert_ne, ?lookup_delete_ne by congruence; try done;
  try (match goal with Hi : dinv s ?tr |- _ = u64 (_ + 0) => rewrite (dv_dropped s tr Hi), u64_add_l; by rewrite Z.add_0_r end);
  try (match goal with Hfr : ds_calls s !! t = _ |- _ => by rewrite ?Hfr, ?insert_id end); try (by intros ? [= <-]).

Lemma dv_enqueued t c ok s tr :
  dinv s tr -> ds_calls s !! t = Some (PEnqueue c) -> t <> consumer ->
  let '(s', os) := d_enqueued t c ok s in dinv s' (tr ++ os).
Proof.
  intros Hi Hfr Ht. pose proof (dv_policy s tr Hi) as Hp. unfold d_enqueued.
  destruct ok; [|destruct (dt_policy (ds_t s)) eqn:Ep].
  - dv_same s t (@None DCallPC).
  - dv_same s t (Some (PEnqueue c)).
  - dv_same s t (Some PCount).
  - dv_same s t (Some (PEvict c)).
Qed.

(** The dequeue of an evicting caller has answered. *)
Lemma dv_evicted t c x (ok : bool) q qs s tr :
  dinv s tr -> ds_calls s !! t = Some (PEvict c) -> t <> consumer -> policy = DropOldest ->
  (if ok then exists p, returned qs = [(p, x)] else returned qs = []) ->
  dinv (d_evicted t c ok (d_inner t None (d_with (d_set_q q (ds_t s)) s))) (tr ++ (DQ t <$> qs)).
Proof.
  intros Hi Hfr Ht Hp Hr. unfold d_evicted.
  assert (Hc : (t =? consumer) = false) by (by apply Z.eqb_neq). destruct ok.
  - destruct Hr as [p Hr]. dv_same s t (Some (PCountRetry c)); autorewrite with trace; rewrite ?Hc, ?Hr, ?Hfr; done.
  - dv_same s t (Some (PEnqueue c)); autorewrite with trace; rewrite ?Hc, ?Hr, ?Hfr; lk; done.
Qed.

Lemma dv_run_call t s tr s' os :
  frames s -> dinv s tr -> d_run_call t s = Some (s', os) -> dinv s' (tr ++ os).
Proof.
  intros Hf Hi Hst. unfold d_run_call in Hst. destruct (ds_calls s !! t) as [f|] eqn:Hfr; [|done].
  assert (Ht : t <> consumer) by (intros ->; by rewrite (fr_consumer s Hf) in Hfr).
  pose proof (fr_calls s Hf t Ht) as Hok. pose proof (dv_calls s tr Hi t f Hfr) as Hcl. rewrite Hfr in Hok.
  destruct f as [c|c| |c| | |]; simpl in Hok, Hcl.
  - destruct Hok as (pc0 & Hin & Hk). d_access_cases Hst. rewrite Hin in Hpc. injection Hpc as ->.
    destruct (enq_pc_step _ _ _ _ _ _ Hk Hqs) as [Hr0 Hr].
    destruct r as [pc'|ok|x ok]; [injection Hst as <- <-| |done].
    + by apply dv_obs, Hr0; apply dv_access.
    + pose proof (dv_enqueued t c ok (d_inner t None (d_with (d_set_q q (ds_t s)) s)) (tr ++ (DQ t <$> qs))
        (dv_obs _ _ _ _ (dv_access t None q s tr Hi Ht) Hr0) Hfr Ht) as Hn.
      destruct (d_enqueued t c ok _) as [s2 os2]. injection Hst as <- <-. by rewrite (assoc_L (++)).
  - destruct Hok as (pc0 & Hin & Hk). d_access_cases Hst. rewrite Hin in Hpc. injection Hpc as ->.
    destruct (deq_pc_step _ _ _ _ _ Hk Hqs) as [_ Hr].
    destruct r as [pc'|ok|x ok]; [injection Hst as <- <-|done|injection Hst as <- <-].
    + apply dv_obs, Hr. by apply dv_access.
    + apply (dv_evicted t c x ok q qs s tr); try done. destruct ok; [destruct Hr as (p & -> & ->); by eexists|apply Hr].
  - injection Hst as <- <-. apply (dv_call t None 1 s); simpl; rewrite ?Hfr; try done.
  - injection Hst as <- <-. apply (dv_call t (Some (PEnqueue c)) 1 s); simpl; rewrite ?Hfr; lk; try done. by intros ? [= <-].
  - unfold DisruptorTransport_Sync in Hst. destruct (sink_sync _) as [a e] eqn:E. injection Hst as <- <-.
    dv_same s t (@None DCallPC). by rewrite E.
  - unfold d_close in Hst. destruct (dt_closed _) eqn:E; injection Hst as <- <-; [dv_same s t (@None DCallPC)|dv_same s t (Some PDrain)].
  - destruct (ds_worker s) eqn:Hw; try done. unfold d_finish in Hst.
    destruct (sink_sync _) as [a e] eqn:E, (sink_close a) as [a' e'] eqn:E'. injection Hst as <- <-.
    dv_same s t (@None DCallPC). rewrite E. simpl. by rewrite E'.
Qed.

Lemma sorted_snoc (l : list Z) p : StronglySorted Z.lt l -> Forall (fun p' => p' < p) l -> StronglySorted Z.lt (l ++ [p]).
Proof.
  induction 1 as [|x l Hs IH Hx]; simpl; intros Hl; [by repeat constructor|]. inversion Hl; subst.
  constructor; [auto|]. apply Forall_app. split; [done|]. by repeat constructor.
Qed.

(** A dequeue of the consumer, which continues at [w2 x ok]. *)
Lemma dv_worker_deq w2 s tr s' os :
  frames s -> dinv s tr -> Forall (fun p => p < deq (dt_q (ds_t s))) (wret tr).*1 ->
  (exists pc, ds_inner s !! consumer = Some pc /\ deq_pc pc) ->
  d_hand (ds_worker s) = [] -> (forall x (ok : bool), d_hand (w2 x ok) = if ok then [x] else []) ->
  (forall x ok, d_draining (w2 x ok) = true -> d_draining (ds_worker s) = true) ->
  match d_access consumer s with
  | Some (s1, RGo _, os) => Some (s1, os)
  | Some (s1, RDeq x ok, os) => Some (d_goto (w2 x ok) s1, os)
  | _ => None
  end = Some (s', os) -> dinv s' (tr ++ os).
Proof.
  intros Hf [I1 I2 I3 I4 I5 I6 I7 I8 I9 I10] Hret (pc0 & Hi & Hk) Hh H2 Hdr Hst.
  d_access_cases Hst. rewrite Hi in Hpc. injection Hpc as ->.
  destruct (deq_pc_step _ _ _ _ _ Hk Hqs) as [_ Hr]. rewrite Hh, app_nil_r in I2.
  destruct r as [pc'|ok|x ok]; [|done|]; injection Hst as <- <-.
  - destruct Hr as [Hk' Hr]. split; simpl; autorewrite with trace; rewrite ?Hr, ?Hh; simpl; rewrite ?app_nil_r, ?Nat.add_0_r; try done.
    lk. intros ? p [= <-] Hrd. destruct pc; simpl in Hqs; repeat case_match; simplify_eq/=; eauto.
    match goal with E : (_ =? _) = true |- _ => apply Z.eqb_eq in E as <- end. done.
  - destruct ok.
    + destruct Hr as (p & -> & Hr). specialize (I4 _ p Hi eq_refl).
      split; simpl; autorewrite with trace; rewrite ?Hr, ?H2; simpl; rewrite ?app_nil_r, ?Nat.add_0_r; try done.
      * by rewrite I2, fmap_app.
      * rewrite fmap_app. by apply sorted_snoc.
      * lk. done.
      * eauto.
    + destruct Hr as [-> Hr].
      split; simpl; autorewrite with trace; rewrite ?Hr, ?H2; simpl; rewrite ?app_nil_r, ?Nat.add_0_r; try done; [by lk|eauto].
Qed.

Lemma dv_emit r next s tr :
  dinv s tr -> d_hand (ds_worker s) = [r] -> d_hand next = [] -> (d_draining next = true -> d_draining (ds_worker s) = true) ->
  let '(s', os) := d_emit r next s in dinv s' (tr ++ os).
Proof.
  intros [I1 I2 I3 I4 I5 I6 I7 I8 I9 I10] Hh Hn Hdr. unfold d_emit. rewrite Hh in I2. destruct r as [x|].
  - destruct (sink_emit x _ _) as [[a h] e] eqn:E.
    split; simpl; autorewrite with trace; rewrite ?Hn; simpl; rewrite ?app_nil_r, ?Nat.add_0_r; try done.
    + by rewrite fmap_app.
    + lk. intros ? p [= <-]. done.
    + rewrite <-I9. simpl. by rewrite E.
    + auto.
  - rewrite app_nil_r. split; simpl; try done.
Qed.

Lemma dv_run_worker s tr s' os :
  frames s -> dinv s tr -> Forall (fun p => p < deq (dt_q (ds_t s))) (wret tr).*1 ->
  d_run_worker s = Some (s', os) -> dinv s' (tr ++ os).
Proof.
  intros Hf Hi Hret Hst. pose proof (fr_worker s Hf) as Hw. unfold d_run_worker in Hst.
  destruct (ds_worker s) eqn:Ew; simpl in Hw; try done.
  - eapply (dv_worker_deq (fun x ok => if ok then VEmit x else VClosed)); try done; [by rewrite Ew|by intros ? []|by intros ? []].
  - injection Hst as Hst. pose proof (dv_emit r VDequeue s tr Hi) as Hn. rewrite Ew, Hst in Hn. by apply Hn.
  - injection Hst as <- <-. rewrite app_nil_r. destruct Hi as [I1 I2 I3 I4 I5 I6 I7 I8 I9 I10]. rewrite Ew in *.
    split; simpl; try done; [by destruct (dt_closed _)|lk; intros ? p [= <-]; done|by destruct (dt_closed _)].
  - eapply (dv_worker_deq (fun x ok => if ok then VDrainEmit x else VDone)); try done; [by rewrite Ew|by intros ? []|by rewrite Ew].
  - injection Hst as Hst. pose proof (dv_emit r VDrain s tr Hi) as Hn. rewrite Ew, Hst in Hn. by apply Hn.
Qed.
End Inv.

(** ** Positions and records *)
Lemma sublist_positions (acc : list LogRecord) ps xs :
  StronglySorted Z.lt ps -> Forall2 (fun p x => 0 <= p /\ acc !! Z.to_nat p = Some x) ps xs -> xs `sublist_of` acc.
Proof.
  assert (Hgen : forall m, Forall2 (fun p x => m <= p /\ acc !! Z.to_nat p = Some x) ps xs -> 0 <= m -> StronglySorted Z.lt ps ->
    xs `sublist_of` drop (Z.to_nat m) acc); [|intros Hs Hf; by apply (Hgen 0)].
  intros m Hf. revert m Hf. revert xs. induction ps as [|p ps IH]; intros xs m Hf Hm Hs; inversion Hf as [|? x ? xs' [Hp Hx] Hf']; subst.
  - apply sublist_nil_l.
  - inversion Hs as [|? ? Hs' Hlt]; subst.
    replace (drop (Z.to_nat m) acc) with (take (Z.to_nat p - Z.to_nat m) (drop (Z.to_nat m) acc) ++ drop (Z.to_nat p) acc).
    2: { rewrite <-(take_drop (Z.to_nat p - Z.to_nat m) (drop (Z.to_nat m) acc)) at 2. rewrite drop_drop. do 2 f_equal. lia. }
    apply sublist_inserts_l. rewrite (drop_S acc x) by done. apply sublist_skip.
    replace (S (Z.to_nat p)) with (Z.to_nat (p + 1)) by lia. apply IH; [|lia|done].
    clear -Hf' Hlt. revert Hlt. induction Hf' as [|p' x' ps' xs'' [H1 H2] _ IH]; intros Hlt; constructor; inversion Hlt; subst; auto.
    split; [lia|done].
Qed.

(** A sorted list of positions without gaps is an initial segment. *)
Lemma sorted_dense (l : list Z) :
  StronglySorted Z.lt l -> Forall (fun p => 0 <= p) l -> (forall p p', p ∈ l -> 0 <= p' < p -> p' ∈ l) ->
  l = seqZ 0 (Z.of_nat (length l)).
Proof.
  induction l as [|p l IH] using rev_ind; [done|]. intros Hs Hn Hd. apply Forall_app in Hn as [Hn Hp].
  inversion Hp as [|? ? Hp0 _]; subst.
  assert (StronglySorted Z.lt l /\ Forall (fun p' => p' < p) l) as [Hs' Hlt].
  { clear -Hs. induction l as [|x l IH]; [by repeat constructor|]. inversion Hs as [|? ? Hs1 Hf]; subst.
    apply Forall_app in Hf as [Hf1 Hf2]. inversion Hf2; subst. destruct (IH Hs1). split; by constructor. }
  assert (E : l = seqZ 0 (Z.of_nat (length l))).
  { apply IH; [done|done|]. intros x x' Hx Hx'. assert (x' ∈ l ++ [p]) as Hin by (apply (Hd x); [apply elem_of_app; by left|done]).
    apply elem_of_app in Hin as [|Heq]; [done|]. apply list_elem_of_singleton in Heq as ->.
    rewrite Forall_forall in Hlt. specialize (Hlt x Hx). simpl in Hlt. lia. }
  assert (p = Z.of_nat (length l)) as ->.
  { apply Z.le_antisymm.
    - destruct (Z.le_gt_cases p (Z.of_nat (length l))); [done|].
      assert (Z.of_nat (length l) ∈ l ++ [p]) as Hin by (eapply (Hd p); [set_solver|lia]).
      apply elem_of_app in Hin as [Hin|Heq]; [|apply list_elem_of_singleton in Heq; lia].
      rewrite E, elem_of_seqZ, length_seqZ in Hin. lia.
    - destruct (decide (length l = 0%nat)) as [->|Hne]; [done|].
      assert (Z.of_nat (length l) - 1 ∈ l) as Hin by (rewrite E at 2; apply elem_of_seqZ; lia).
      rewrite Forall_forall in Hlt. specialize (Hlt _ Hin). simpl in Hlt. lia. }
  rewrite length_app. simpl. replace (Z.of_nat (length l + 1)) with (Z.of_nat (length l) + 1) by lia.
  rewrite seqZ_app by lia. by rewrite <-E.
Qed.

Lemma prefix_positions (acc : list LogRecord) xs :
  Forall2 (fun p x => 0 <= p /\ acc !! Z.to_nat p = Some x) (seqZ 0 (Z.of_nat (length xs))) xs -> xs = take (length xs) acc.
Proof.
  intros Hf. apply list_eq. intros i. destruct (decide (i < length xs)%nat) as [Hi|Hi].
  - rewrite lookup_take_lt by done. destruct (lookup_lt_is_Some_2 xs i Hi) as [x Hx].
    destruct (Forall2_lookup_r _ _ _ _ _ Hf Hx) as (p & Hp & _ & Hl). rewrite Hx.
    apply lookup_seqZ in Hp as [-> _]. rewrite <-Hl. f_equal. lia.
  - by rewrite (lookup_ge_None_2 xs), lookup_take_ge by lia.
Qed.

(** The record the consumer is about to emit. *)
Definition in_hand (w : DWorkerPC) : list LogRecord :=
  match w with VEmit (Some x) | VDrainEmit (Some x) => [x] | _ => [] end.

Section Promises.
Context {A : Type} `{Sink A} (a : A) (h : Heap) (c : Z) (policy : OverflowPolicy).
Abbreviation start := (d_start a h c policy).
Abbreviation acc tr := (claims (qobs tr)).

Context (Hc : ring_size c <= 2 ^ 62).

Lemma acc_mono tr os : Z.of_nat (length (acc tr)) <= Z.of_nat (length (acc (tr ++ os))).
Proof. rewrite qobs_app. apply claims_prefix. Qed.

Lemma d_qinv s tr :
  d_reach start s tr -> Z.of_nat (length (acc tr)) < 2 ^ 62 ->
  exists k, 1 <= k <= 62 /\ ring_size c <= 2 ^ k /\ qinv k (d_qs s) (qobs tr).
Proof. intros Hr Hb. destruct (d_reach_queue _ _ _ _ _ _ Hr) as [_ Hq]. by apply (new_reach_inv (ring_size c)). Qed.

Lemma wret_returned p x tr : (p, x) ∈ wret tr -> (p, x) ∈ returned (qobs tr).
Proof. rewrite returned_split. intros. apply elem_of_app. by left. Qed.

Lemma d_reach_inv s tr :
  d_reach start s tr -> Z.of_nat (length (acc tr)) < 2 ^ 62 -> dinv (a, h) policy s tr.
Proof.
  induction 1 as [|s tr e s' os Hr IH Hst]; intros Hb.
  - split; simpl; rewrite ?mcount_empty; try done; constructor.
  - pose proof (acc_mono tr os). specialize (IH ltac:(lia)).
    destruct (d_reach_queue _ _ _ _ _ _ Hr) as [Hf _]. destruct (d_qinv s tr Hr ltac:(lia)) as (k & Hk & _ & Hq).
    destruct e as [t pc|t|]; [|by eapply dv_run_call|eapply dv_run_worker; try done].
    + cbn [d_step] in Hst. destruct (ds_calls s !! t) eqn:Ht; [done|]. destruct (d_entry pc) as [[pc' i]|] eqn:He; [|done].
      destruct (Z.eqb_spec t consumer) as [|Hne]; [done|]. injection Hst as <- <-.
      assert (d_pending pc' = false /\ (forall cl, call_ok policy cl pc')) as [Hp Hcl].
      { destruct pc; try discriminate; injection He as <- <-; done. }
      apply (dv_call (a, h) policy t (Some pc') 0 s); try done; destruct i; simpl; lk; try done.
      1,2: rewrite (dv_dropped _ _ _ _ IH), u64_add_l; by rewrite Z.add_0_r.
      1,2: rewrite Ht, Hp; done.
      1,2: by intros ? [= <-].
    + apply Forall_fmap, Forall_forall. intros [p x] Hin%wret_returned. destruct (qi_ret _ _ _ Hq p x Hin) as [Hlt _].
      simpl in *. lia.
Qed.

(** What the consumer has received is what was claimed at the positions it took. *)
Lemma wret_records s tr :
  d_reach start s tr -> Z.of_nat (length (acc tr)) < 2 ^ 62 ->
  Forall2 (fun p x => 0 <= p /\ acc tr !! Z.to_nat p = Some x) (wret tr).*1 (emitted (tobs tr) ++ in_hand (ds_worker s)) /\
  ds_worker s <> VPanic.
Proof.
  intros Hr Hb. pose proof (d_reach_inv s tr Hr Hb) as Hi. destruct (d_qinv s tr Hr Hb) as (k & Hk & _ & Hq).
  assert (Hall : Forall (fun px => 0 <= px.1 /\ px.2 = acc tr !! Z.to_nat px.1 /\ is_Some px.2) (wret tr)).
  { apply Forall_forall. intros [p x] Hin%wret_returned. destruct (qi_ret _ _ _ Hq p x Hin) as (Hp & -> & _). simpl.
    split_and!; [lia|done|]. apply lookup_lt_is_Some_2. pose proof (qi_deq _ _ _ Hq). pose proof (qi_enq _ _ _ Hq). simpl in *. lia. }
  assert (Hh : d_hand (ds_worker s) = Some <$> in_hand (ds_worker s)).
  { pose proof (dv_hand _ _ _ _ Hi) as E.
    assert (Hs : Forall is_Some (d_hand (ds_worker s))).
    { eapply (Forall_app _ (Some <$> emitted (tobs tr))). rewrite E. apply Forall_fmap. eapply Forall_impl; [done|]. by intros ? (_ & _ & ?). }
    destruct (ds_worker s) as [|[]| | |[]| |]; simpl in *; try done; inversion Hs as [|? ? []]; done. }
  split; [|intros Ew; by rewrite Ew in Hh].
  assert (E : (wret tr).*2 = Some <$> (emitted (tobs tr) ++ in_hand (ds_worker s))) by (by rewrite fmap_app, <-Hh, (dv_hand _ _ _ _ Hi)).
  revert E Hall. generalize (emitted (tobs tr) ++ in_hand (ds_worker s)). generalize (wret tr) as l. clear.
  induction l as [|[p x] l IH]; intros [|y ys] E Hall; simplify_eq/=; [by constructor|].
  inversion Hall as [|? ? (H1 & H2 & _) Hall']; subst. constructor; [by split|auto].
Qed.

(** Without evictions the consumer takes every position in order. *)
Lemma wret_dense s tr :
  d_reach start s tr -> Z.of_nat (length (acc tr)) < 2 ^ 62 -> policy <> DropOldest ->
  (wret tr).*1 = seqZ 0 (Z.of_nat (length (wret tr))).
Proof.
  intros Hr Hb Hp. pose proof (d_reach_inv s tr Hr Hb) as Hi. destruct (d_qinv s tr Hr Hb) as (k & Hk & _ & Hq).
  destruct (d_reach_queue _ _ _ _ _ _ Hr) as [Hf _].
  assert (Hre : forall p, p ∈ (returned (qobs tr)).*1 <-> p ∈ (wret tr).*1).
  { intros p. by rewrite returned_split, (dv_evict _ _ _ _ Hi Hp), app_nil_r. }
  rewrite <-(length_fmap fst). apply sorted_dense.
  - apply (dv_sorted _ _ _ _ Hi).
  - apply Forall_fmap, Forall_forall. intros [p x] Hin%wret_returned. destruct (qi_ret _ _ _ Hq p x Hin) as [? _]. simpl. lia.
  - intros p p' Hin Hlt. assert (p < deq (qs_q (d_qs s))) as Hpd.
    { apply Hre in Hin. apply list_elem_of_fmap in Hin as ([p0 x] & -> & Hin). destruct (qi_ret _ _ _ Hq p0 x Hin) as [? _]. simpl in *. lia. }
    destruct (qi_all _ _ _ Hq p') as [Hin'|(t & pc & Ht & Hrd)]; [lia|by apply Hre|]. exfalso.
    destruct (decide (t = consumer)) as [->|Hne].
    + pose proof (dv_reader _ _ _ _ Hi pc p' Ht Hrd) as Hall. rewrite Forall_forall in Hall. specialize (Hall p Hin). simpl in Hall. lia.
    + pose proof (fr_calls s Hf t Hne) as Hok. simpl in Ht. rewrite Ht in Hok.
      destruct (ds_calls s !! t) as [[]|] eqn:Ef; simpl in Hok; try done.
      * destruct Hok as (pc' & [= <-] & Hk'). by destruct pc.
      * by apply Hp, (dv_calls _ _ _ _ Hi t _ Ef).
Qed.

Lemma got_length s tr :
  d_reach start s tr -> Z.of_nat (length (acc tr)) < 2 ^ 62 ->
  length (emitted (tobs tr) ++ in_hand (ds_worker s)) = length (wret tr).
Proof. intros Hr Hb. destruct (wret_records s tr Hr Hb) as [Hf _]. by rewrite <-(Forall2_length _ _ _ Hf), length_fmap. Qed.

(** With no claim in progress every accepted record is accounted for. *)
Lemma accounting s tr :
  d_reach start s tr -> Z.of_nat (length (acc tr)) < 2 ^ 62 -> idle (ds_inner s) ->
  Z.of_nat (length (acc tr)) =
  Z.of_nat (length (emitted (tobs tr) ++ in_hand (ds_worker s)) + length (eret tr)) + (enq (dt_q (ds_t s)) - deq (dt_q (ds_t s))).
Proof.
  intros Hr Hb Hid. destruct (d_qinv s tr Hr Hb) as (k & Hk & _ & Hq). rewrite (got_length s tr Hr Hb).
  pose proof (Permutation_length (quiescent_returned k _ _ Hq Hid)) as Hperm.
  rewrite length_fmap, (Permutation_length (returned_split tr)), length_app, length_seqZ in Hperm.
  pose proof (qi_deq _ _ _ Hq) as Hd. pose proof (qi_enq _ _ _ Hq) as He. simpl in *. lia.
Qed.

(** Without evictions the consumer has received an initial segment. *)
Lemma got_prefix s tr :
  d_reach start s tr -> Z.of_nat (length (acc tr)) < 2 ^ 62 -> policy <> DropOldest ->
  let got := emitted (tobs tr) ++ in_hand (ds_worker s) in got = take (length got) (acc tr).
Proof.
  intros Hr Hb Hp got. apply prefix_positions. unfold got. rewrite (got_length s tr Hr Hb), <-(wret_dense s tr Hr Hb Hp).
  apply (wret_records s tr Hr Hb).
Qed.

(** *** The consumer alone *)
#[local] Arguments Nat.mul : simpl never.

Definition quiet (s : DSys A) : Prop :=
  map_Forall (fun _ f => match f with PEnqueue _ | PEvict _ => False | _ => True end) (ds_calls s).

(** How far the consumer is from the end of its dequeue, and from its own end. *)
Definition deq_weight (q : mpmc) (pc : QPC) : nat :=
  match pc with
  | DStart => 3
  | DLoop p => if p =? deq q then 2 else 4
  | DCas p => if p =? deq q then 1 else 5
  | DRead _ => 8 | DClear _ _ => 7 | DRel _ _ => 6
  | _ => 0
  end.
Definition inner_weight (s : DSys A) : nat :=
  match ds_inner s !! consumer with Some pc => deq_weight (dt_q (ds_t s)) pc | None => 0 end.
Definition measure (s : DSys A) : nat :=
  20 * Z.to_nat (enq (dt_q (ds_t s)) - deq (dt_q (ds_t s))) +
  match ds_worker s with
  | VDequeue => 10 + inner_weight s
  | VEmit _ => 15
  | VClosed => 10
  | VDrain => inner_weight s
  | VDrainEmit _ => 5
  | VDone | VPanic => 0
  end.

Lemma quiet_inner s t : frames s -> quiet s -> t <> consumer -> ds_inner s !! t = None.
Proof.
  intros Hf Hq Ht. pose proof (fr_calls s Hf t Ht) as Hok. destruct (ds_calls s !! t) as [f|] eqn:E; [|done].
  specialize (Hq t f E). by destruct f.
Qed.

(** What a memory access of the consumer's dequeue does when nobody else is inside the
    queue: it comes closer to the answer, which is empty only if the queue is. *)
Lemma quiet_access s tr pc q' r os :
  d_reach start s tr -> Z.of_nat (length (acc tr)) < 2 ^ 62 -> quiet s ->
  ds_inner s !! consumer = Some pc -> deq_pc pc -> qpc_step pc (dt_q (ds_t s)) = (q', r, os) ->
  let n q := Z.to_nat (enq q - deq q) in
  let q := dt_q (ds_t s) in
  match r with
  | RGo pc' => (20 * n q' + deq_weight q' pc' < 20 * n q + deq_weight q pc)%nat
  | RDeq x true => n q' = n q /\ deq_weight q pc = 6%nat
  | RDeq x false => q' = q /\ deq q = enq q /\ deq_weight q pc = 2%nat
  | REnq _ => False
  end.
Proof.
  intros Hr Hb Hqu Hpc Hk Hst n q. destruct (d_reach_queue _ _ _ _ _ _ Hr) as [Hf _].
  destruct (d_qinv s tr Hr Hb) as (k & Hk' & _ & Hq). pose proof (n_bounds k Hk') as Hn.
  pose proof (qi_deq _ _ _ Hq) as Hd. pose proof (qi_enq _ _ _ Hq) as He. simpl in Hd, He. fold q in Hst, Hd, He.
  pose proof (qi_pc _ _ _ Hq _ _ Hpc) as Hok. pose proof (inv_bounded k Hk' _ _ Hq) as Hbd. simpl in Hok, Hbd. fold q in Hok, Hbd.
  assert (Hid : writer pc = None -> reader pc = None -> idle (ds_inner s)).
  { intros H1 H2 t pc' Ht. destruct (decide (t = consumer)) as [->|Hne]; [rewrite Hpc in Ht; by injection Ht as <-|].
    by rewrite quiet_inner in Ht. }
  destruct pc as [| | | | | |p|p|p|p x|p x]; simpl in Hk, Hok; try done; simpl in Hst.
  - injection Hst as <- <- <-. simpl. rewrite Z.eqb_refl. lia.
  - specialize (Hid eq_refl eq_refl). destruct (Z.eqb_spec p (deq q)) as [->|Hne].
    + destruct (decide (deq q = enq q)) as [E|E].
      * pose proof (solo_free_cell k Hk' _ _ Hq Hid ltac:(simpl; fold q; lia)) as Hs. simpl in Hs. fold q in Hs.
        rewrite E, Hs, (u64_small (enq q + 1)), dif_exact in Hst by (unfold is_u64; lia).
        destruct (Z.eqb_spec (enq q - (enq q + 1)) 0); [lia|]. destruct (Z.ltb_spec (enq q - (enq q + 1)) 0); [|lia].
        injection Hst as <- <- <-. simpl. by rewrite E, Z.eqb_refl.
      * destruct (quiescent_slot k Hk' _ _ (deq q) Hq Hid ltac:(simpl; fold q; lia)) as [Hs _]. simpl in Hs. fold q in Hs.
        rewrite Hs, (u64_small (deq q + 1)), dif_exact, Z.sub_diag in Hst by (unfold is_u64; lia).
        injection Hst as <- <- <-. simpl. rewrite Z.eqb_refl. lia.
    + pose proof (stale_slot k Hk' _ _ p Hq Hid ltac:(simpl; fold q; lia)) as Hs. simpl in Hs. fold q in Hs.
      pose proof (seq_range k Hk' _ _ p Hq ltac:(lia)) as Hsr. simpl in Hsr. fold q in Hsr.
      rewrite (u64_small (p + 1)), dif_exact in Hst by (unfold is_u64; lia).
      destruct (Z.eqb_spec (seq (cell_at q p) - (p + 1)) 0); [lia|]. destruct (Z.ltb_spec (seq (cell_at q p) - (p + 1)) 0); [lia|].
      injection Hst as <- <- <-. simpl. destruct (Z.eqb_spec p (deq q)); [done|]. lia.
  - specialize (Hid eq_refl eq_refl). rewrite (Z.eqb_sym (deq q)) in Hst. destruct (Z.eqb_spec p (deq q)) as [->|Hne]; injection Hst as <- <- <-.
    + simpl. rewrite Z.eqb_refl, u64_small by (unfold is_u64; lia). unfold n. simpl.
      assert (deq q < enq q); [|lia]. destruct (decide (deq q = enq q)) as [E|]; [|lia].
      pose proof (solo_free_cell k Hk' _ _ Hq Hid ltac:(simpl; fold q; lia)) as Hs. simpl in Hs. fold q in Hs.
      destruct Hok as [_ Hok]. specialize (Hok eq_refl). rewrite E, Hs in Hok. lia.
    + simpl. destruct (Z.eqb_spec p (deq q)); [done|]. lia.
  - injection Hst as <- <- <-. simpl. lia.
  - injection Hst as <- <- <-. unfold n. simpl. lia.
  - injection Hst as <- <- <-. by simpl.
Qed.

(** A step of the consumer alone, after the flag is set. *)
Definition closer (s : DSys A) : Prop :=
  exists s' os, d_step DEWorker s = Some (s', os) /\ (measure s' < measure s)%nat /\ ds_calls s' = ds_calls s /\
    dt_closed (ds_t s') = dt_closed (ds_t s) /\ claims (qobs os) = [] /\
    (ds_worker s' = VDone -> deq (dt_q (ds_t s')) = enq (dt_q (ds_t s'))).

Lemma quiet_deq b w2 s tr :
  d_reach start s tr -> Z.of_nat (length (acc tr)) < 2 ^ 62 -> quiet s ->
  (exists pc, ds_inner s !! consumer = Some pc /\ deq_pc pc) ->
  d_run_worker s = match d_access consumer s with
    | Some (s1, RGo _, os) => Some (s1, os)
    | Some (s1, RDeq x ok, os) => Some (d_goto (w2 x ok) s1, os)
    | _ => None end ->
  (forall s', ds_worker s' = ds_worker s ->
     measure s' = (20 * Z.to_nat (enq (dt_q (ds_t s')) - deq (dt_q (ds_t s'))) + (b + inner_weight s'))%nat) ->
  (forall x s', ds_worker s' = w2 x true ->
     measure s' = (20 * Z.to_nat (enq (dt_q (ds_t s')) - deq (dt_q (ds_t s'))) + (b + 5))%nat /\ w2 x true <> VDone) ->
  (forall s', ds_worker s' = w2 None false ->
     (measure s' <= 20 * Z.to_nat (enq (dt_q (ds_t s')) - deq (dt_q (ds_t s'))) + b)%nat) ->
  ds_worker s <> VDone -> closer s.
Proof.
  intros Hr Hb Hqu (pc & Hpc & Hk) Hw Hm1 Hm2 Hm3 Hnd.
  unfold closer. cbn [d_step]. rewrite Hw. unfold d_access. rewrite Hpc.
  destruct (qpc_step pc (dt_q (ds_t s))) as [[q' r] os] eqn:Hst.
  pose proof (quiet_access s tr pc q' r os Hr Hb Hqu Hpc Hk Hst) as Hq. simpl in Hq.
  destruct (deq_pc_step _ _ _ _ _ Hk Hst) as [Hcl Hre].
  destruct r as [pc'|ok|x [|]]; [|done| |]; (eexists _, _; split; [reflexivity|]); rewrite (Hm1 s eq_refl);
    unfold inner_weight; rewrite Hpc; rewrite ?qobs_DQ.
  - rewrite Hm1 by done. unfold inner_weight. simpl. rewrite lookup_insert_eq. split_and!; try done. lia.
  - destruct (Hm2 x (d_goto (w2 x true) (d_inner consumer None (d_with (d_set_q q' (ds_t s)) s))) eq_refl) as [-> Hne].
    simpl. split_and!; try done. lia.
  - destruct Hre as [-> _]. destruct Hq as (-> & Heq & Hwt).
    pose proof (Hm3 (d_goto (w2 None false) (d_inner consumer None (d_with (d_set_q (dt_q (ds_t s)) (ds_t s)) s))) eq_refl) as Hle.
    simpl in *. split_and!; try done. lia.
Qed.

Lemma quiet_emit r next s :
  d_run_worker s = Some (d_emit r next s) -> is_Some r -> next = VDequeue \/ next = VDrain ->
  (20 * Z.to_nat (enq (dt_q (ds_t s)) - deq (dt_q (ds_t s))) + (if d_draining next then 3 else 13) < measure s)%nat -> closer s.
Proof.
  intros Hw [x ->] Hn Hm. unfold closer. cbn [d_step]. rewrite Hw. unfold d_emit.
  destruct (sink_emit x _ _) as [[a' h'] e]. eexists _, _. split; [done|].
  assert (next <> VDone) by (by destruct Hn as [-> | ->]). split_and!; try done.
  eapply Nat.le_lt_trans; [|done]. unfold measure, inner_weight. simpl. lk. destruct Hn as [-> | ->]; done.
Qed.

Lemma quiet_step s tr :
  d_reach start s tr -> Z.of_nat (length (acc tr)) < 2 ^ 62 -> quiet s -> dt_closed (ds_t s) = true ->
  ds_worker s <> VDone -> closer s.
Proof.
  intros Hr Hb Hqu Hcl Hnd. destruct (d_reach_queue _ _ _ _ _ _ Hr) as [Hf _]. pose proof (fr_worker s Hf) as Hw.
  destruct (wret_records s tr Hr Hb) as [Hrec Hnp]. pose proof (d_reach_inv s tr Hr Hb) as Hi.
  assert (Hsome : forall r, d_hand (ds_worker s) = [r] -> is_Some r).
  { intros r Hh. pose proof (dv_hand _ _ _ _ Hi) as E. apply Forall2_length in Hrec. rewrite length_fmap in Hrec.
    pose proof (f_equal length E) as El. rewrite length_app, !length_fmap, Hrec, length_app, Hh in El. simpl in El.
    destruct r as [r|]; [by eexists|]. exfalso. destruct (ds_worker s) as [|[]| | |[]| |]; simplify_eq/=; lia. }
  destruct (ds_worker s) eqn:Ew; simpl in Hw; try done.
  - apply (quiet_deq 10 (fun x ok => if ok then VEmit x else VClosed) s tr); try done; unfold measure, d_run_worker; rewrite ?Ew; try done.
    + intros s' ->. lia.
    + intros x s' ->. split; [lia|done].
    + intros s' ->. lia.
  - apply (quiet_emit r VDequeue); [unfold d_run_worker; by rewrite Ew|by apply Hsome|by left|]. unfold measure. rewrite Ew. simpl. lia.
  - unfold closer. cbn [d_step]. unfold d_run_worker. rewrite Ew, Hcl. eexists _, _. split; [done|].
    split_and!; try done. unfold measure, inner_weight. simpl. rewrite Ew. lk. simpl. lia.
  - apply (quiet_deq 0 (fun x ok => if ok then VDrainEmit x else VDone) s tr); try done; unfold measure, d_run_worker; rewrite ?Ew; try done.
    + intros s' ->. lia.
    + intros x s' ->. split; [lia|done].
    + intros s' ->. lia.
  - apply (quiet_emit r VDrain); [unfold d_run_worker; by rewrite Ew|by apply Hsome|by right|]. unfold measure. rewrite Ew. simpl. lia.
Qed.

Lemma quiet_drain m s tr :
  (measure s <= m)%nat -> d_reach start s tr -> Z.of_nat (length (acc tr)) < 2 ^ 62 -> quiet s -> dt_closed (ds_t s) = true ->
  ds_worker s <> VDone ->
  exists n s' os, (n <= m)%nat /\ d_run (replicate n DEWorker) s = Some (s', os) /\ ds_worker s' = VDone /\
    ds_calls s' = ds_calls s /\ acc os = [] /\ deq (dt_q (ds_t s')) = enq (dt_q (ds_t s')).
Proof.
  revert s tr. induction m as [|m IH]; intros s tr Hm Hr Hb Hqu Hcl Hnd;
    destruct (quiet_step s tr Hr Hb Hqu Hcl Hnd) as (s1 & os1 & Hst & Hlt & Hc1 & Hcl1 & Hac & Hend); [lia|].
  assert (Hr1 : d_reach start s1 (tr ++ os1)) by (by eapply reaches_step).
  assert (Hacc : acc (tr ++ os1) = acc tr) by (by rewrite qobs_app, claims_app, Hac, app_nil_r).
  destruct (decide (ds_worker s1 = VDone)) as [Hd|Hd].
  - exists 1%nat, s1, os1. cbn [replicate run_steps]. rewrite Hst, app_nil_r. split_and!; auto; lia.
  - destruct (IH s1 (tr ++ os1)) as (n & s' & os & Hn & Hrun & Hdone & Hcs & Hao & Heq); try done; [lia|by rewrite Hacc|unfold quiet; by rewrite Hc1|congruence|].
    exists (S n), s', (os1 ++ os). cbn [replicate run_steps]. rewrite Hst, Hrun.
    split_and!; try done; [lia|congruence|]. by rewrite qobs_app, claims_app, Hac.
Qed.
(** C2. What the disruptor transport delivers.  Under every interleaving of the
    goroutines' memory accesses (fewer than 2^62 records accepted): the records given to
    the sink, with the one in the consumer's hands, are accepted records in the order in
    which they were accepted, each at most once; unless the policy is DropOldest they
    are exactly the first ones, without a gap.  The drop counter equals evictions plus
    rejections, less those not yet counted; evictions occur only under DropOldest and
    rejections only under DropNewest; whenever no call holds a claim, every accepted
    record has been emitted, is in hand, was evicted, or is in the ring; the sink is
    where the emissions put it; and no nil record is emitted. *)
Theorem disruptor_delivers s tr :
  d_reach start s tr -> Z.of_nat (length (acc tr)) < 2 ^ 62 ->
  let got := emitted (tobs tr) ++ in_hand (ds_worker s) in
  got `sublist_of` acc tr /\
  (policy <> DropOldest -> got = take (length got) (acc tr) /\ eret tr = []) /\
  (policy <> DropNewest -> rejected (tobs tr) = []) /\
  dt_dropped (ds_t s) =
    u64 (Z.of_nat (length (eret tr) + length (rejected (tobs tr))) - Z.of_nat (mcount d_pending (ds_calls s))) /\
  (idle (ds_inner s) ->
     Z.of_nat (length (acc tr)) =
     Z.of_nat (length got + length (eret tr)) + (enq (dt_q (ds_t s)) - deq (dt_q (ds_t s)))) /\
  (dt_sink (ds_t s), ds_heap s) = sink_after (a, h) (tobs tr) /\ ds_worker s <> VPanic.
Proof.
  intros Hr Hb got. pose proof (d_reach_inv s tr Hr Hb) as Hi. destruct (wret_records s tr Hr Hb) as [Hf Hnp].
  split_and!; try apply Hi; try done.
  - eapply sublist_positions; [apply (dv_sorted _ _ _ _ Hi)|done].
  - intros Hp. split; [by apply (got_prefix s tr)|by apply (dv_evict _ _ _ _ Hi)].
  - by apply accounting.
Qed.


Lemma measure_bound s : (measure s <= 20 * (Z.to_nat (enq (dt_q (ds_t s)) - deq (dt_q (ds_t s))) + 1))%nat.
Proof.
  unfold measure, inner_weight. assert (forall q pc, deq_weight q pc <= 8)%nat as Hw.
  { intros q pc. destruct pc; simpl; try destruct (_ =? _); lia. }
  destruct (ds_worker s); try lia; destruct (ds_inner s !! consumer) as [pc|]; try lia; specialize (Hw (dt_q (ds_t s)) pc); lia.
Qed.

(** C24. Close drains the ring when no Dispatch is inside the queue: from any such
    state with the flag set and the consumer not yet finished, the consumer alone
    finishes within 20 steps per outstanding record (and 20 more), the ring is then
    empty, every accepted record has been emitted or was evicted, unless the policy is
    DropOldest the sink has received exactly the accepted records in order, and the
    waiting Close flushes and closes the sink. *)
Theorem disruptor_close_drains s tr :
  d_reach start s tr -> Z.of_nat (length (acc tr)) < 2 ^ 62 -> dt_closed (ds_t s) = true -> quiet s -> ds_worker s <> VDone ->
  exists n s' os,
    (n <= 20 * (Z.to_nat (enq (dt_q (ds_t s)) - deq (dt_q (ds_t s))) + 1))%nat /\
    d_run (replicate n DEWorker) s = Some (s', os) /\ ds_worker s' = VDone /\
    deq (dt_q (ds_t s')) = enq (dt_q (ds_t s')) /\
    length (acc tr) = (length (emitted (tobs (tr ++ os))) + length (eret (tr ++ os)))%nat /\
    (policy <> DropOldest -> emitted (tobs (tr ++ os)) = acc tr) /\
    (forall t, ds_calls s !! t = Some PDrain ->
       exists s'', d_step (DERun t) s' = Some (s'', [DO OSync; DO OClose]) /\ ds_calls s'' !! t = None).
Proof.
  intros Hr Hb Hcl Hqu Hnd.
  destruct (quiet_drain _ s tr (measure_bound s) Hr Hb Hqu Hcl Hnd) as (n & s' & os & Hn & Hrun & Hd & Hcs & Hao & Heq).
  exists n, s', os. pose proof (run_reaches _ _ _ _ _ _ Hr Hrun) as Hr'.
  assert (Hacc : acc (tr ++ os) = acc tr) by (by rewrite qobs_app, claims_app, Hao, app_nil_r).
  destruct (d_reach_queue _ _ _ _ _ _ Hr') as [Hf _].
  assert (Hid : idle (ds_inner s')).
  { intros t pc Ht. destruct (decide (t = consumer)) as [->|Hne].
    - pose proof (fr_worker s' Hf) as Hw. rewrite Hd in Hw. simpl in Hw. congruence.
    - rewrite quiet_inner in Ht; [done|done|unfold quiet; by rewrite Hcs|done]. }
  pose proof (accounting s' (tr ++ os) Hr' ltac:(by rewrite Hacc) Hid) as Hct. rewrite Hacc, Hd in Hct. simpl in Hct. rewrite app_nil_r in Hct.
  split_and!; try done; [lia| |].
  - intros Hp. pose proof (got_prefix s' (tr ++ os) Hr' ltac:(by rewrite Hacc) Hp) as Hpre. rewrite Hd, Hacc in Hpre. simpl in Hpre.
    rewrite app_nil_r in Hpre. rewrite Hpre. apply take_ge.
    pose proof (d_reach_inv s' (tr ++ os) Hr' ltac:(by rewrite Hacc)) as Hi. rewrite (dv_evict _ _ _ _ Hi Hp) in Hct. simpl in Hct. lia.
  - intros t Ht. cbn [d_step]. unfold d_run_call. rewrite Hcs, Ht, Hd. unfold d_finish.
    destruct (sink_sync _) as [a1 e1], (sink_close a1) as [a2 e2]. eexists. split; [done|]. simpl. by lk.
Qed.

(** *** After the consumer has finished *)
Lemma run_call_no_emit t s s' os : d_run_call t s = Some (s', os) -> emitted (tobs os) = [] /\ ds_worker s' = ds_worker s.
Proof.
  unfold d_run_call, d_access, d_enqueued, d_evicted, DisruptorTransport_Sync, d_close, d_finish.
  intros Hst. repeat case_match; simplify_eq/=; autorewrite with trace; done.
Qed.

Lemma done_no_emit es s s' os :
  ds_worker s = VDone -> d_run es s = Some (s', os) -> emitted (tobs os) = [] /\ ds_worker s' = VDone.
Proof.
  revert s os. induction es as [|e es IH]; intros s os Hd; simpl; [by intros [= <- <-]|].
  destruct (d_step e s) as [[s1 o1]|] eqn:E; [|done]. destruct (d_run es s1) as [[s2 o2]|] eqn:E2; [|done]. intros [= <- <-].
  assert (emitted (tobs o1) = [] /\ ds_worker s1 = VDone) as [H1 H2].
  { destruct e as [t pc|t|]; simpl in E.
    - destruct (ds_calls s !! t); [done|]. destruct (d_entry pc) as [[pc' i]|]; [|done]. destruct (t =? consumer); [done|].
      injection E as <- <-. by destruct i.
    - rewrite <-Hd. by apply (run_call_no_emit t).
    - unfold d_run_worker in E. by rewrite Hd in E. }
  destruct (IH s1 o2 H2 E2) as [H3 H4]. split; [|done]. autorewrite with trace. by rewrite H1, H3.
Qed.

(** The accesses of a Dispatch, one by one. *)
Lemma enq_go t c' pc q pc' os s :
  ds_calls s !! t = Some (PEnqueue c') -> ds_inner s !! t = Some pc -> qpc_step pc (dt_q (ds_t s)) = (q, RGo pc', os) ->
  d_step (DERun t) s = Some (d_inner t (Some pc') (d_with (d_set_q q (ds_t s)) s), DQ t <$> os).
Proof. intros Hf Hi Hq. cbn [d_step]. unfold d_run_call, d_access. by rewrite Hf, Hi, Hq. Qed.

Lemma enq_ret t c' pc q ok os s :
  ds_calls s !! t = Some (PEnqueue c') -> ds_inner s !! t = Some pc -> qpc_step pc (dt_q (ds_t s)) = (q, REnq ok, os) ->
  d_step (DERun t) s =
  let '(s2, os2) := d_enqueued t c' ok (d_inner t None (d_with (d_set_q q (ds_t s)) s)) in Some (s2, (DQ t <$> os) ++ os2).
Proof. intros Hf Hi Hq. cbn [d_step]. unfold d_run_call, d_access. by rewrite Hf, Hi, Hq. Qed.

Lemma enter_call t r s :
  ds_calls s !! t = None -> t <> consumer ->
  d_step (DECall t (PEnqueue r)) s = Some (d_frame t (Some (PEnqueue (Clone r))) (d_inner t (Some (EStart (Clone r))) s), []).
Proof. intros Hf Ht. cbn [d_step]. rewrite Hf. simpl. by destruct (Z.eqb_spec t consumer). Qed.

Ltac enq_side := first [simpl; lk; reflexivity | reflexivity].

(** A Dispatch that runs alone on a ring that is not full is accepted. *)
Lemma solo_dispatch s tr t r :
  d_reach start s tr -> Z.of_nat (length (acc tr)) < 2 ^ 62 -> idle (ds_inner s) -> ds_calls s !! t = None -> t <> consumer ->
  enq (dt_q (ds_t s)) - deq (dt_q (ds_t s)) < Z.of_nat (length (buf (dt_q (ds_t s)))) ->
  exists s' os, d_run (DECall t (PEnqueue r) :: replicate 5 (DERun t)) s = Some (s', os) /\
    ds_calls s' !! t = None /\ ds_worker s' = ds_worker s /\ acc os = [Clone r] /\ dt_dropped (ds_t s') = dt_dropped (ds_t s).
Proof.
  intros Hr Hb Hid Ht Hne Hlt. destruct (d_qinv s tr Hr Hb) as (k & Hk & _ & Hq). pose proof (n_bounds k Hk) as Hn.
  pose proof (qi_buf _ _ _ Hq) as Hbuf. pose proof (qi_enq _ _ _ Hq) as He. simpl in Hbuf, He. rewrite Hbuf, Z2Nat.id in Hlt by lia.
  pose proof (solo_free_cell k Hk _ _ Hq Hid Hlt) as Hs. simpl in Hs.
  set (q := dt_q (ds_t s)) in *. set (v := Clone r).
  assert (Hl : qpc_step (ELoop v (enq q)) q = (q, RGo (ECas v (enq q)), [])) by (cbn [qpc_step]; rewrite Hs; by rewrite dif_exact, Z.sub_diag by lia).
  assert (Hcas : qpc_step (ECas v (enq q)) q = (set_enq (u64 (enq q + 1)) q, RGo (EWrite v (enq q)), [QClaim v])) by (cbn [qpc_step]; by rewrite Z.eqb_refl).
  eexists _, _. cbn [replicate run_steps]. rewrite (enter_call t r s Ht Hne). fold v.
  erewrite (enq_go t v (EStart v) q (ELoop v (enq q)) []) by enq_side. cbn [run_steps].
  erewrite (enq_go t v (ELoop v (enq q)) q (ECas v (enq q)) []) by first [enq_side|exact Hl].
  erewrite (enq_go t v (ECas v (enq q)) _ (EWrite v (enq q)) [QClaim v]) by first [exact Hcas|enq_side].
  erewrite (enq_go t v (EWrite v (enq q)) _ (EPub v (enq q)) []) by enq_side.
  erewrite (enq_ret t v (EPub v (enq q)) _ true []) by enq_side.
  split; [reflexivity|]. simpl. lk. done.
Qed.

(** A Dispatch that runs alone on a full ring under Block goes round in two states. *)
Lemma full_spin s tr t r n :
  d_reach start s tr -> Z.of_nat (length (acc tr)) < 2 ^ 62 -> idle (ds_inner s) -> ds_calls s !! t = None -> t <> consumer ->
  policy = Block -> enq (dt_q (ds_t s)) - deq (dt_q (ds_t s)) = Z.of_nat (length (buf (dt_q (ds_t s)))) ->
  exists s', d_run (DECall t (PEnqueue r) :: replicate n (DERun t)) s = Some (s', []) /\
    ds_calls s' !! t = Some (PEnqueue (Clone r)).
Proof.
  intros Hr Hb Hid Ht Hne Hpo Hfull. destruct (d_qinv s tr Hr Hb) as (k & Hk & _ & Hq). pose proof (n_bounds k Hk) as Hn.
  pose proof (qi_buf _ _ _ Hq) as Hbuf. pose proof (qi_enq _ _ _ Hq) as He. pose proof (qi_deq _ _ _ Hq) as Hd.
  simpl in Hbuf, He, Hd. rewrite Hbuf, Z2Nat.id in Hfull by lia.
  pose proof (full_cell k Hk _ _ Hq Hid Hfull) as Hs. simpl in Hs.
  pose proof (dv_policy _ _ _ _ (d_reach_inv s tr Hr Hb)) as Hp. rewrite Hpo in Hp.
  set (q := dt_q (ds_t s)) in *. set (v := Clone r).
  assert (Hl : qpc_step (ELoop v (enq q)) q = (q, REnq false, [])).
  { cbn [qpc_step]. rewrite Hs, dif_exact by lia. destruct (Z.eqb_spec (deq q + 1 - enq q) 0); [lia|].
    destruct (Z.ltb_spec (deq q + 1 - enq q) 0); [done|lia]. }
  set (s1 := d_frame t (Some (PEnqueue v)) (d_inner t (Some (EStart v)) s)).
  set (s2 := d_inner t (Some (ELoop v (enq q))) (d_with (d_set_q q (ds_t s1)) s1)).
  assert (H12 : d_step (DERun t) s1 = Some (s2, [])) by (apply (enq_go t v (EStart v) q _ []); enq_side).
  assert (H21 : d_step (DERun t) s2 = Some (s1, [])).
  { rewrite (enq_ret t v (ELoop v (enq q)) q false []) by first [enq_side|exact Hl]. unfold d_enqueued. simpl. rewrite Hp.
    unfold s1, s2, d_inner, d_with, d_frame, d_set_q. simpl. subst q. rewrite insert_insert_eq, delete_insert_eq, insert_delete_eq.
    by destruct (ds_t s). }
  enough (forall n s', s' = s1 \/ s' = s2 -> exists s'', d_run (replicate n (DERun t)) s' = Some (s'', []) /\ (s'' = s1 \/ s'' = s2)) as Hall.
  { destruct (Hall n s1 (or_introl eq_refl)) as (s'' & Hrun & Hor). exists s''. cbn [run_steps]. rewrite (enter_call t r s Ht Hne). fold v s1.
    rewrite Hrun. split; [done|]. destruct Hor as [-> | ->]; simpl; by lk. }
  clear n. induction n as [|n IH]; intros s' Hor; [by exists s'|]. cbn [replicate run_steps].
  destruct Hor as [-> | ->]; rewrite ?H12, ?H21; [destruct (IH s2 (or_intror eq_refl)) as (s'' & -> & ?)|destruct (IH s1 (or_introl eq_refl)) as (s'' & -> & ?)];
    by exists s''.
Qed.

(** A Dispatch that comes after the consumer has finished (Dispatch never reads the
    closed flag): while the ring has room the call returns normally and the record is
    accepted, yet it is never emitted, whatever happens later, and is not counted as
    dropped; once the ring is full, a Block caller spins for ever. *)
Theorem disruptor_late_dispatch s tr t r :
  d_reach start s tr -> Z.of_nat (length (acc tr)) < 2 ^ 62 -> ds_worker s = VDone -> idle (ds_inner s) ->
  ds_calls s !! t = None -> t <> consumer ->
  let q := dt_q (ds_t s) in
  (enq q - deq q < Z.of_nat (length (buf q)) ->
   exists s' os, d_run (DECall t (PEnqueue r) :: replicate 5 (DERun t)) s = Some (s', os) /\
     ds_calls s' !! t = None /\ acc os = [Clone r] /\ dt_dropped (ds_t s') = dt_dropped (ds_t s) /\
     forall es s'' os', d_run es s' = Some (s'', os') -> emitted (tobs os') = []) /\
  (policy = Block -> enq q - deq q = Z.of_nat (length (buf q)) ->
   forall n, exists s', d_run (DECall t (PEnqueue r) :: replicate n (DERun t)) s = Some (s', []) /\
     ds_calls s' !! t = Some (PEnqueue (Clone r))).
Proof.
  intros Hr Hb Hd Hid Ht Hne q. split.
  - intros Hlt. destruct (solo_dispatch s tr t r Hr Hb Hid Ht Hne Hlt) as (s' & os & Hrun & H1 & H2 & H3 & H4).
    exists s', os. split_and!; try done. intros es s'' os' Hes. eapply done_no_emit; [|done]. congruence.
  - intros Hp Hf n. by eapply full_spin.
Qed.
End Promises.

(** ** A run under DropOldest on a ring of two, and one under Block with Close *)
Definition d_msg (m : string) : LogRecord := mkRecord GoTime.zero_time LevelInfo m 0 "" [] (Some Background) false.
Definition disp (t : Z) (m : string) (n : nat) : list DEvent := DECall t (PEnqueue (d_msg m)) :: replicate n (DERun t).

Definition evict_start : DSys Capture := d_start (mkCapture []) empty_heap 2 DropOldest.
Definition evict_events : list DEvent :=
  disp 1 "a" 5 ++ disp 2 "b" 5 ++ disp 1 "c" 14           (* finds the ring full, evicts a, counts, retries *)
  ++ replicate 7 DEWorker                                 (* emits b *)
  ++ replicate 6 DEWorker.                                (* takes c *)
Definition evict_end : DSys Capture * list DObs := default (evict_start, []) (d_run evict_events evict_start).

Definition close_start : DSys Capture := d_start (mkCapture []) empty_heap 2 Block.
Definition close_events : list DEvent :=
  disp 1 "a" 5 ++ replicate 3 DEWorker ++ disp 2 "b" 5 ++ [DECall 3 PClose; DERun 3].
Definition close_end : DSys Capture * list DObs := default (close_start, []) (d_run close_events close_start).

Definition late_end : DSys Capture * list DObs :=
  default (close_start, []) (d_run (close_events ++ replicate 16 DEWorker ++ [DERun 3]) close_start).

Lemma close_quiet : quiet close_end.1.
Proof.
  intros t f. assert (ds_calls close_end.1 = {[3 := PDrain]}) as -> by (vm_compute; reflexivity).
  by intros [<- <-]%lookup_singleton_Some.
Qed.
Lemma late_idle : idle (ds_inner late_end.1).
Proof. assert (ds_inner late_end.1 = ∅) as -> by (vm_compute; reflexivity). apply map_Forall_empty. Qed.

Lemma disruptor_delivers_witness :
  map r_Message (claims (qobs evict_end.2)) = ["a"; "b"; "c"]%string /\
  map r_Message (emitted (tobs evict_end.2) ++ in_hand (ds_worker evict_end.1)) = ["b"; "c"]%string /\
  emitted (tobs evict_end.2) ++ in_hand (ds_worker evict_end.1) `sublist_of` claims (qobs evict_end.2) /\
  dt_dropped (ds_t evict_end.1) = 1.
Proof.
  split_and!; [vm_compute; reflexivity|vm_compute; reflexivity| |vm_compute; reflexivity].
  apply (disruptor_delivers (mkCapture []) empty_heap 2 DropOldest ltac:(vm_compute; discriminate) evict_end.1 evict_end.2).
  - apply (run_from_start evict_events). vm_compute. reflexivity.
  - vm_compute. reflexivity.
Defined.

Lemma disruptor_close_drains_witness :
  exists n s' os, (n <= 40)%nat /\ d_run (replicate n DEWorker) close_end.1 = Some (s', os) /\ ds_worker s' = VDone /\
    emitted (tobs (close_end.2 ++ os)) = claims (qobs close_end.2).
Proof.
  destruct (disruptor_close_drains (mkCapture []) empty_heap 2 Block ltac:(vm_compute; discriminate) close_end.1 close_end.2)
    as (n & s' & os & Hn & Hrun & Hd & _ & _ & He & _).
  - apply (run_from_start close_events). vm_compute. reflexivity.
  - vm_compute. reflexivity.
  - vm_compute. reflexivity.
  - exact close_quiet.
  - vm_compute. discriminate.
  - exists n, s', os. split_and!; [|done|done|by apply He]. eapply Nat.le_trans; [exact Hn|]. apply Nat.leb_le. vm_compute. reflexivity.
Defined.

Lemma disruptor_late_dispatch_witness :
  exists s' os, d_run (disp 1 "lost" 5) late_end.1 = Some (s', os) /\ ds_calls s' !! 1 = None /\
    claims (qobs os) = [Clone (d_msg "lost")] /\ dt_dropped (ds_t s') = 0 /\
    forall es s'' os', d_run es s' = Some (s'', os') -> emitted (tobs os') = [].
Proof.
  destruct (disruptor_late_dispatch (mkCapture []) empty_heap 2 Block ltac:(vm_compute; discriminate)
    late_end.1 late_end.2 1 (d_msg "lost")) as [Hl _].
  - apply (run_from_start (close_events ++ replicate 16 DEWorker ++ [DERun 3])). vm_compute. reflexivity.
  - vm_compute. reflexivity.
  - vm_compute. reflexivity.
  - exact late_idle.
  - vm_compute. reflexivity.
  - discriminate.
  - apply Hl. vm_compute. reflexivity.
Defined.
