(* ===== verification/AuditLog.v ===== *)
(** * The tamper-evident audit log (audit.go)

    The sink's chained lines and the verifier, including what [bufio.Scanner] makes of
    the stream: lines end at a newline or at the end of input, one trailing carriage
    return is dropped, and a line that fills the 8 MiB buffer is an error. *)
From S2P Require Import Prelude GoStd Sha256 Level Field Record Buffer Encoder EncoderSpec Sink.
Import Strconv Strings.
Local Open Scope Z_scope.

Definition GenesisHash : string := "0000000000000000000000000000000000000000000000000000000000000000".

Record AuditSink (W : Type) := mkAudit { au_w : W; au_enc : Encoder; au_seq : Z; au_prev : string }.
Arguments mkAudit {W}.
Arguments au_w {W}.
Arguments au_enc {W}.
Arguments au_seq {W}.
Arguments au_prev {W}.

Definition is_lf (c : ascii) : bool := Ascii.eqb LF c.
Definition SPACE : ascii := "032"%char.

Section Audit.
Context {W : Type} `{Writer W}.

Definition NewAuditSink (w : W) (enc : Encoder) : AuditSink W := mkAudit w enc 0 GenesisHash.

(** The loop that trims the trailing newlines of the encoded record. *)
Definition canonical (enc : Encoder) (r : LogRecord) : string := trim_right is_lf (b_bytes (Encode enc (mkBuffer "") r)).

(** [fmt.Sprintf("%s %s %d ", sum, prev, seq)], the record and a newline. *)
Definition audit_line (sum prev : string) (seq : Z) (c : string) : string :=
  sum +:+ String SPACE (prev +:+ String SPACE (FormatUint seq +:+ String SPACE (c +:+ str1 LF))).

Definition AuditSink_Emit (r : LogRecord) (a : AuditSink W) (h : Heap) : AuditSink W * Heap * option error :=
  let c := canonical (au_enc a) r in
  let sum := hex_sum (au_prev a +:+ c) in
  let '(w, err) := w_write (audit_line sum (au_prev a) (au_seq a) c) (au_w a) in
  (mkAudit w (au_enc a) (u64 (au_seq a + 1)) sum, h, err).

Definition set_aw (w : W) (a : AuditSink W) : AuditSink W := mkAudit w (au_enc a) (au_seq a) (au_prev a).
Definition AuditSink_Sync (a : AuditSink W) : AuditSink W * option error :=
  match w_sync with Some f => let '(w, e) := f (au_w a) in (set_aw w a, e) | None => (a, None) end.
Definition AuditSink_Close (a : AuditSink W) : AuditSink W * option error :=
  match w_close with Some f => let '(w, e) := f (au_w a) in (set_aw w a, e) | None => (a, None) end.

#[export] Instance AuditSink_Sink : Sink (AuditSink W) :=
  {| sink_emit := AuditSink_Emit; sink_sync := AuditSink_Sync; sink_close := AuditSink_Close |}.

#[export] Instance AuditSink_HeapFree : HeapFree (AuditSink W).
Proof. split; intros r a h; simpl; unfold AuditSink_Emit; [|intros h']; by destruct (w_write _ _). Qed.
End Audit.

(** ** The verifier *)
Record AuditResult := mkAuditResult { Records : Z; OK : bool; BrokenAtSeq : Z; Reason : string }.

(** The lines the scanner sees: pieces between newlines, less a final empty one. *)
Fixpoint drop_last_empty (l : list string) : list string :=
  match l with
  | [] => []
  | [s] => if String.eqb s "" then [] else [s]
  | s :: l' => s :: drop_last_empty l'
  end.
Definition scan_lines (data : string) : list string := drop_last_empty (Split data LF).

Fixpoint dropCR (s : string) : string :=
  match s with
  | EmptyString => ""
  | String c s' =>
      match s' with
      | EmptyString => if Ascii.eqb c CR then "" else s
      | _ => String c (dropCR s')
      end
  end.
Definition maxTokenSize : Z := 8 * 1024 * 1024.

(** One iteration on [line]; the state is [prev] and [n]. *)
Definition verify_line (prev : string) (n : Z) (line : string) : AuditResult + (string * Z) :=
  match SplitN 4 line SPACE with
  | [gotHash; gotPrev; seqStr; c] =>
      match ParseUint seqStr with
      | Some seq =>
          if negb (seq =? n) then inl (mkAuditResult n false (i64 n) "seq not contiguous (deletion/reorder)")
          else if negb (String.eqb gotPrev prev) then inl (mkAuditResult n false (i64 seq) "prev hash mismatch (chain break)")
          else if negb (String.eqb (hex_sum (prev +:+ c)) gotHash) then
            inl (mkAuditResult n false (i64 seq) "hash mismatch (record tampered)")
          else inr (gotHash, u64 (n + 1))
      | None => inl (mkAuditResult n false (i64 n) "seq not contiguous (deletion/reorder)")
      end
  | _ => inl (mkAuditResult n false (i64 n) "malformed line")
  end.

(** [rerr] is the error the reader ended with, if it was not the end of the input. *)
Fixpoint verify_loop (rerr : option error) (prev : string) (n : Z) (lines : list string) : AuditResult :=
  match lines with
  | [] =>
      match rerr with
      | Some e => mkAuditResult n false (i64 n) ("read error: " +:+ e)
      | None => mkAuditResult n true (-1) ""
      end
  | line :: lines' =>
      if maxTokenSize <=? Z.of_nat (String.length line) then
        mkAuditResult n false (i64 n) "read error: bufio.Scanner: token too long"
      else
        match verify_line prev n (dropCR line) with
        | inl res => res
        | inr (prev', n') => verify_loop rerr prev' n' lines'
        end
  end.
Definition VerifyAudit (data : string) (rerr : option error) : AuditResult :=
  verify_loop rerr GenesisHash 0 (scan_lines data).

(** An in-memory file. *)
Record MemFile := mkMem { mem_bytes : string }.
#[export] Instance MemFile_Writer : Writer MemFile :=
  {| w_write := fun s m => (mkMem (mem_bytes m +:+ s), None); w_sync := None; w_close := None |}.

Example audit_detects_edit :
  let a := (AuditSink_Emit zero_record (NewAuditSink (mkMem "") (mkEncoder (fun b _ => append_bytes b "abc") "x")) empty_heap).1.1 in
  OK (VerifyAudit (mem_bytes (au_w a)) None) = true /\
  Reason (VerifyAudit (str_take 133 (mem_bytes (au_w a)) +:+ "b") None) = "hash mismatch (record tampered)".
Proof. split; vm_compute; reflexivity. Qed.

(** ** Lines *)
Lemma dropCR_app p s : s <> "" -> dropCR (p +:+ s) = p +:+ dropCR s.
Proof.
  intros Hs. induction p as [|c p IH]; [done|]. rewrite !sapp_cons. simpl. rewrite IH.
  destruct p; [rewrite sapp_nil_l; by destruct s|done].
Qed.

Lemma dropCR_cons c s : c <> CR -> dropCR (String c s) = String c (dropCR s).
Proof. intros Hc. destruct s; [|done]. simpl. destruct (Ascii.eqb_spec c CR); [done|done]. Qed.

Lemma dropCR_no_cr s : no_byte CR s = true -> dropCR s = s.
Proof.
  induction s as [|c s IH]; [done|]. unfold no_byte. simpl. intros Hn. bool_to_prop.
  rewrite IH by done. rewrite H. by destruct s.
Qed.

Lemma Split_sep p s sep : no_byte sep p = true -> Split (p +:+ String sep s) sep = p :: Split s sep.
Proof.
  induction p as [|c p IH]; intros Hp.
  - rewrite sapp_nil_l. simpl. by rewrite Ascii.eqb_refl.
  - unfold no_byte in Hp. simpl in Hp. bool_to_prop. rewrite sapp_cons. simpl. by rewrite H, IH.
Qed.

Lemma drop_last_empty_app l : drop_last_empty (l ++ [""]) = l.
Proof. induction l as [|s l IH]; [done|]. simpl. rewrite IH. by destruct l. Qed.

Definition unlines (ls : list string) : string := str_concat (map (fun l => l +:+ str1 LF) ls).

Lemma scan_unlines ls : Forall (fun l => no_byte LF l = true) ls -> scan_lines (unlines ls) = ls.
Proof.
  intros Hl. unfold scan_lines. assert (Split (unlines ls) LF = ls ++ [""]) as ->; [|apply drop_last_empty_app].
  induction Hl as [|l ls Hl _ IH]; [done|]. unfold unlines in *. simpl. unfold str1 at 1.
  rewrite sapp_assoc, sapp_cons, sapp_nil_l, Split_sep by done. by rewrite IH.
Qed.

Lemma is_tok_no_byte c s : Token.tok_byte c = false -> Token.is_tok s -> no_byte c s = true.
Proof.
  intros Hc Ht. eapply str_forall_impl; [|exact Ht]. intros d Hd. simpl. apply negb_true_iff.
  destruct (Ascii.eqb_spec d c); [congruence|done].
Qed.

(** ** The chain *)
(** A line without its newline. *)
Definition audit_body (sum prev : string) (seq : Z) (c : string) : string :=
  sum +:+ String SPACE (prev +:+ String SPACE (FormatUint seq +:+ String SPACE c)).

Fixpoint audit_lines (prev : string) (seq : Z) (cs : list string) : list string :=
  match cs with
  | [] => []
  | c :: cs' => let sum := hex_sum (prev +:+ c) in audit_body sum prev seq c :: audit_lines sum (u64 (seq + 1)) cs'
  end.
Definition tip (prev : string) (cs : list string) : string := fold_left (fun p c => hex_sum (p +:+ c)) cs prev.

Lemma audit_line_body sum prev seq c : audit_line sum prev seq c = audit_body sum prev seq c +:+ str1 LF.
Proof. unfold audit_line, audit_body. by strnorm. Qed.

(** What a record must encode to for its line to be read back: no newline inside, no
    carriage return at the end, short enough for the scanner. *)
Definition auditable (c : string) : Prop :=
  no_byte LF c = true /\ dropCR c = c /\ Z.of_nat (String.length c) < maxTokenSize - 151.

Lemma hex_no_byte c s : Token.tok_byte c = false -> no_byte c (hex_sum s) = true.
Proof. intros. apply is_tok_no_byte; [done|apply hex_sum_tok]. Qed.

Lemma no_byte_app c s t : no_byte c (s +:+ t) = no_byte c s && no_byte c t.
Proof. apply str_forall_app. Qed.

Section Lines.
Context (sum prev c : string) (seq : Z).
Hypothesis (Hsum : Token.is_tok sum) (Hprev : Token.is_tok prev) (Hseq : is_u64 seq).

Lemma body_no_lf : no_byte LF c = true -> no_byte LF (audit_body sum prev seq c) = true.
Proof.
  intros Hc. unfold audit_body. assert (forall s, no_byte LF (String SPACE s) = no_byte LF s) as Hs by done.
  rewrite no_byte_app, Hs, no_byte_app, Hs, no_byte_app, Hs, Hc.
  rewrite !(is_tok_no_byte LF) by (done || (apply Token.FormatUint_tok; apply Hseq)). done.
Qed.

Lemma body_dropCR : dropCR c = c -> dropCR (audit_body sum prev seq c) = audit_body sum prev seq c.
Proof.
  intros Hc. unfold audit_body. rewrite dropCR_app by done. rewrite dropCR_cons by done. rewrite dropCR_app by done.
  rewrite dropCR_cons by done. rewrite dropCR_app by done. rewrite dropCR_cons by done. by rewrite Hc.
Qed.

Lemma body_length :
  String.length sum = 64%nat -> String.length prev = 64%nat ->
  (String.length (audit_body sum prev seq c) <= 151 + String.length c)%nat.
Proof.
  intros H1 H2. unfold audit_body. rewrite !slength_app. cbn [String.length]. rewrite !slength_app. cbn [String.length].
  rewrite !slength_app. cbn [String.length]. pose proof (FormatUint_length seq Hseq). lia.
Qed.

Lemma body_split : SplitN 4 (audit_body sum prev seq c) SPACE = [sum; prev; FormatUint seq; c].
Proof.
  unfold audit_body. rewrite SplitN_sep; [|by apply is_tok_no_byte|lia]. cbn [pred].
  rewrite SplitN_sep; [|by apply is_tok_no_byte|lia]. cbn [pred].
  rewrite SplitN_sep; [done|apply is_tok_no_byte; [done|apply Token.FormatUint_tok; apply Hseq]|lia].
Qed.
End Lines.

(** The verifier accepts the lines of the sink. *)
Lemma verify_lines prev n cs :
  Token.is_tok prev -> String.length prev = 64%nat -> Forall auditable cs ->
  0 <= n -> n + Z.of_nat (length cs) < 2 ^ 64 ->
  verify_loop None prev n (audit_lines prev n cs) = mkAuditResult (n + Z.of_nat (length cs)) true (-1) "".
Proof.
  intros Ht Hl Hcs. revert prev n Ht Hl. induction Hcs as [|c cs (Hlf & Hcr & Hlen) _ IH]; intros prev n Ht Hl Hn Hb.
  - simpl. by rewrite Z.add_0_r.
  - cbn [audit_lines verify_loop length] in *.
    assert (Hu : is_u64 n) by (unfold is_u64; lia).
    pose proof (body_length (hex_sum (prev +:+ c)) prev c n Hu (length_hex_sum _) Hl) as Hbl.
    destruct (Z.leb_spec maxTokenSize (Z.of_nat (String.length (audit_body (hex_sum (prev +:+ c)) prev n c)))); [lia|].
    rewrite body_dropCR by done. unfold verify_line. rewrite body_split by (done || apply hex_sum_tok).
    rewrite ParseUint_FormatUint by done. rewrite Z.eqb_refl, !String.eqb_refl. cbn [negb].
    rewrite u64_small by (unfold is_u64; lia).
    rewrite IH by (lia || apply hex_sum_tok || apply length_hex_sum). f_equal. lia.
Qed.

Lemma audit_lines_no_lf prev n cs :
  Token.is_tok prev -> is_u64 n -> Forall auditable cs -> Forall (fun l => no_byte LF l = true) (audit_lines prev n cs).
Proof.
  intros Ht Hn Hcs. revert prev n Ht Hn. induction Hcs as [|c cs (Hlf & _) _ IH]; intros prev n Ht Hn; simpl; constructor.
  - apply body_no_lf; auto using hex_sum_tok.
  - apply IH; [apply hex_sum_tok|apply u64_range].
Qed.

(** The sink writes those lines. *)
Lemma audit_emit1 enc prev n m r :
  let c := canonical enc r in
  emit1 (mkAudit (mkMem m) enc n prev) r =
  mkAudit (mkMem (m +:+ audit_line (hex_sum (prev +:+ c)) prev n c)) enc (u64 (n + 1)) (hex_sum (prev +:+ c)).
Proof. reflexivity. Qed.

Lemma audit_emits enc prev n m rs :
  let a := emits (mkAudit (mkMem m) enc n prev) rs in
  let cs := map (canonical enc) rs in
  mem_bytes (au_w a) = m +:+ unlines (audit_lines prev n cs) /\ au_prev a = tip prev cs /\ au_enc a = enc.
Proof.
  revert prev n m. induction rs as [|r rs IH]; intros prev n m.
  - simpl. unfold unlines. simpl. by rewrite sapp_nil_r.
  - change (emits ?a (r :: rs)) with (emits (emit1 a r) rs). rewrite audit_emit1.
    destruct (IH (hex_sum (prev +:+ canonical enc r)) (u64 (n + 1)) (m +:+ audit_line (hex_sum (prev +:+ canonical enc r)) prev n (canonical enc r)))
      as (H1 & H2 & H3). cbv zeta. rewrite H1, H2, H3. split_and!; try done.
    unfold unlines. simpl. rewrite audit_line_body. by rewrite !sapp_assoc.
Qed.

Lemma genesis_tok : Token.is_tok GenesisHash.
Proof. reflexivity. Qed.

Lemma verify_written enc rs :
  Forall (fun r => auditable (canonical enc r)) rs -> Z.of_nat (length rs) < 2 ^ 64 ->
  VerifyAudit (mem_bytes (au_w (emits (NewAuditSink (mkMem "") enc) rs))) None = mkAuditResult (Z.of_nat (length rs)) true (-1) "".
Proof.
  intros Hrs Hb. destruct (audit_emits enc GenesisHash 0 "" rs) as [Hm _].
  assert (Hcs : Forall auditable (map (canonical enc) rs)) by (by apply Forall_map).
  unfold NewAuditSink. simpl in Hm. rewrite Hm, sapp_nil_l. unfold VerifyAudit.
  rewrite scan_unlines by (apply audit_lines_no_lf; [apply genesis_tok|unfold is_u64; lia|done]).
  rewrite verify_lines; [by rewrite length_map|apply genesis_tok|done|done|lia|rewrite length_map; lia].
Qed.

(** ** Tamper evidence *)
(** The record a line carries, and the hash it claims. *)
Definition line_record (line : string) : string := default "" (SplitN 4 (dropCR line) SPACE !! 3%nat).
Definition line_hash (line : string) : string := default "" (SplitN 4 (dropCR line) SPACE !! 0%nat).
Definition audit_records (data : string) : list string := map line_record (scan_lines data).
(** The head of the chain: the hash of the last line. *)
Definition audit_head (data : string) : string :=
  match last (scan_lines data) with Some l => line_hash l | None => GenesisHash end.

(** The byte strings the chain hashes. *)
Fixpoint hash_inputs (prev : string) (cs : list string) : list string :=
  match cs with [] => [] | c :: cs' => (prev +:+ c) :: hash_inputs (hex_sum (prev +:+ c)) cs' end.

Lemma tip_snoc prev cs c : tip prev (cs ++ [c]) = hex_sum (tip prev cs +:+ c).
Proof. unfold tip. by rewrite fold_left_app. Qed.

Lemma hash_inputs_snoc prev cs c : hash_inputs prev (cs ++ [c]) = hash_inputs prev cs ++ [tip prev cs +:+ c].
Proof. revert prev. induction cs as [|d cs IH]; intros prev; [done|]. simpl. by rewrite IH. Qed.

Lemma tip_length prev cs : String.length prev = 64%nat -> String.length (tip prev cs) = 64%nat.
Proof. intros Hp. destruct cs as [|c cs _] using rev_ind; [done|]. rewrite tip_snoc. apply length_hex_sum. Qed.

Definition collision (l l' : list string) : Prop := exists x y, x ∈ l /\ y ∈ l' /\ x <> y /\ hex_sum x = hex_sum y.
Definition preimage (h : string) (l : list string) : Prop := exists x, x ∈ l /\ hex_sum x = h.

Lemma chain_inj cs cs' :
  tip GenesisHash cs = tip GenesisHash cs' ->
  cs = cs' \/ collision (hash_inputs GenesisHash cs) (hash_inputs GenesisHash cs') \/
  preimage GenesisHash (hash_inputs GenesisHash cs) \/ preimage GenesisHash (hash_inputs GenesisHash cs').
Proof.
  revert cs'. induction cs as [|c cs IH] using rev_ind; intros cs' Ht.
  - destruct cs' as [|c' cs' _] using rev_ind; [by left|]. right; right; right. rewrite tip_snoc in Ht.
    exists (tip GenesisHash cs' +:+ c'). rewrite hash_inputs_snoc. split; [|done]. apply elem_of_app. right. apply list_elem_of_singleton. done.
  - destruct cs' as [|c' cs' _] using rev_ind.
    { right; right; left. rewrite tip_snoc in Ht. exists (tip GenesisHash cs +:+ c). rewrite hash_inputs_snoc. split; [|done].
      apply elem_of_app. right. apply list_elem_of_singleton. done. }
    rewrite !tip_snoc in Ht. rewrite !hash_inputs_snoc.
    destruct (String.string_dec (tip GenesisHash cs +:+ c) (tip GenesisHash cs' +:+ c')) as [E|E].
    + apply app_inj_length in E as [E ->]; [|by rewrite !tip_length].
      destruct (IH _ E) as [->|[(x & y & Hx & Hy & Hxy)|[(x & Hx & Hh)|(x & Hx & Hh)]]]; [by left|right..].
      * left. exists x, y. rewrite !elem_of_app. auto.
      * right; left. exists x. rewrite elem_of_app. auto.
      * right; right. exists x. rewrite elem_of_app. auto.
    + right; left. exists (tip GenesisHash cs +:+ c), (tip GenesisHash cs' +:+ c'). rewrite !elem_of_app, !list_elem_of_singleton. auto.
Qed.

Lemma verify_line_inr prev n line prev' n' :
  verify_line prev n line = inr (prev', n') ->
  exists s c, SplitN 4 line SPACE = [prev'; prev; s; c] /\ prev' = hex_sum (prev +:+ c) /\ ParseUint s = Some n /\ n' = u64 (n + 1).
Proof.
  unfold verify_line. destruct (SplitN 4 line SPACE) as [|h [|p [|s [|c [|]]]]]; try done.
  destruct (ParseUint s) as [q|] eqn:Hq; [|done].
  destruct (Z.eqb_spec q n) as [->|]; [|done]. destruct (String.eqb_spec p prev) as [->|]; [|done].
  destruct (String.eqb_spec (hex_sum (prev +:+ c)) h) as [<-|]; [|done]. simpl. intros [= <- <-]. by exists s, c.
Qed.

(** An accepted stream's last hash is the hash chain of its records. *)
Lemma verify_ok_tip prev n lines :
  OK (verify_loop None prev n lines) = true ->
  match last lines with Some l => line_hash l | None => prev end = tip prev (map line_record lines).
Proof.
  revert prev n. induction lines as [|l lines IH]; intros prev n Hok; [done|]. cbn [verify_loop] in Hok.
  destruct (maxTokenSize <=? _); [done|].
  destruct (verify_line prev n (dropCR l)) as [res|[prev' n']] eqn:Hv.
  - exfalso. revert Hv Hok. unfold verify_line. repeat case_match; intros; simplify_eq/=.
  - destruct (verify_line_inr _ _ _ _ _ Hv) as (s & c & Hsp & Hp & _). specialize (IH prev' n' Hok).
    assert (line_record l = c /\ line_hash l = prev') as [Hr Hh] by (unfold line_record, line_hash; by rewrite Hsp).
    cbn [map]. unfold tip in *. simpl. rewrite Hr, <-Hp, <-IH. destruct lines as [|l' lines]; [by rewrite last_singleton|].
    rewrite last_cons. by destruct (last (l' :: lines)) eqn:E; [|by apply last_None in E].
Qed.

Lemma verified_head data : OK (VerifyAudit data None) = true -> audit_head data = tip GenesisHash (audit_records data).
Proof. apply verify_ok_tip. Qed.

(** C32. The audit log verifies: whatever records are emitted (fewer than 2^64, each
    encoding to a line the scanner can read), VerifyAudit accepts the file the sink
    wrote and counts exactly those records. *)
Theorem audit_roundtrip enc rs :
  Forall (fun r => auditable (canonical enc r)) rs -> Z.of_nat (length rs) < 2 ^ 64 ->
  VerifyAudit (mem_bytes (au_w (emits (NewAuditSink (mkMem "") enc) rs))) None = mkAuditResult (Z.of_nat (length rs)) true (-1) "".
Proof. apply verify_written. Qed.

(** C7. Tamper evidence: two streams that both verify and end in the same hash carry
    the same records in the same order, unless two of the byte strings they hash are
    an explicit SHA-256 collision, or one of them hashes to the genesis constant.  So
    an edit, insertion, deletion or reordering that keeps the published head hash
    requires breaking SHA-256. *)
Theorem audit_tamper_evident d d' :
  OK (VerifyAudit d None) = true -> OK (VerifyAudit d' None) = true -> audit_head d = audit_head d' ->
  audit_records d = audit_records d' \/
  collision (hash_inputs GenesisHash (audit_records d)) (hash_inputs GenesisHash (audit_records d')) \/
  preimage GenesisHash (hash_inputs GenesisHash (audit_records d)) \/
  preimage GenesisHash (hash_inputs GenesisHash (audit_records d')).
Proof. intros H1 H2 Hh. rewrite (verified_head d H1), (verified_head d' H2) in Hh. by apply chain_inj. Qed.

(** Deleting the end of the log is not detected: after any sequence of records,
    the file cut back to the state it had after a prefix of them still verifies, as an
    intact log of that many records. *)
Theorem audit_truncation_undetected enc rs1 rs2 :
  Forall (fun r => auditable (canonical enc r)) (rs1 ++ rs2) -> Z.of_nat (length (rs1 ++ rs2)) < 2 ^ 64 ->
  exists cut tail,
    mem_bytes (au_w (emits (NewAuditSink (mkMem "") enc) (rs1 ++ rs2))) = cut +:+ tail /\
    (rs2 <> [] -> tail <> "") /\
    VerifyAudit cut None = mkAuditResult (Z.of_nat (length rs1)) true (-1) "".
Proof.
  intros Hrs Hb. apply Forall_app in Hrs as [Hrs1 _]. rewrite length_app in Hb.
  set (a1 := emits (NewAuditSink (mkMem "") enc) rs1).
  exists (mem_bytes (au_w a1)), (unlines (audit_lines (au_prev a1) (au_seq a1) (map (canonical enc) rs2))). split_and!.
  - rewrite emits_app. fold a1. destruct (audit_emits enc GenesisHash 0 "" rs1) as (_ & _ & He). fold (NewAuditSink (mkMem "") enc) in He. fold a1 in He.
    destruct a1 as [[m] e q p] eqn:Ea. simpl in He. subst e. by destruct (audit_emits enc p q m rs2) as [-> _].
  - destruct rs2 as [|r rs2]; [done|]. intros _. simpl. unfold unlines. simpl. unfold audit_body.
    pose proof (length_hex_sum (au_prev a1 +:+ canonical enc r)) as Hl.
    destruct (hex_sum (au_prev a1 +:+ canonical enc r)); [done|]. by rewrite !sapp_cons.
  - apply verify_written; [done|lia].
Qed.

(** ** The JSON encoder's lines can be audited *)
Lemma printable_no_byte c s : printable c = false -> str_forall printable s = true -> no_byte c s = true.
Proof.
  intros Hc Hs. eapply str_forall_impl; [|exact Hs]. intros d Hd. simpl. apply negb_true_iff.
  destruct (Ascii.eqb_spec d c); [congruence|done].
Qed.

Lemma trim_lf_printable s : str_forall printable s = true -> trim_right is_lf s = s.
Proof.
  induction s as [|c s IH]; [done|]. simpl. intros Hs. bool_to_prop. rewrite IH by done. destruct s; [|done].
  unfold is_lf. destruct (Ascii.eqb_spec LF c) as [<-|]; [done|done].
Qed.

Lemma json_auditable {env : GoEnv} e r :
  caller_plain r -> Forall field_printable (r_Fields r) ->
  Z.of_nat (String.length (canonical (JSONEnc e) r)) < maxTokenSize - 151 -> auditable (canonical (JSONEnc e) r).
Proof.
  intros Hc Hf Hl. destruct (json_line_shape e (mkBuffer "") r Hc Hf) as (body & Hb & Hp).
  assert (canonical (JSONEnc e) r = body) as E.
  { unfold canonical. simpl. rewrite Hb. simpl. rewrite sapp_nil_l, trim_right_snoc by done. by apply trim_lf_printable. }
  rewrite E in *. split_and!; [by apply printable_no_byte|apply dropCR_no_cr; by apply printable_no_byte|done].
Qed.

Definition audit_demo : list LogRecord := [hostile_record; zero_record; hostile_record].

Lemma audit_demo_ok : Forall (fun r => auditable (canonical (JSONEnc (env:=demo_env) NewJSONEncoder) r)) audit_demo.
Proof.
  assert (Hh : auditable (canonical (JSONEnc (env:=demo_env) NewJSONEncoder) hostile_record)).
  { apply json_auditable; [exact hostile_caller_plain|repeat constructor; vm_compute; done|vm_compute; reflexivity]. }
  repeat constructor; try exact Hh; vm_compute; reflexivity.
Qed.

Definition audit_file (rs : list LogRecord) : string :=
  mem_bytes (au_w (emits (NewAuditSink (mkMem "") (JSONEnc (env:=demo_env) NewJSONEncoder)) rs)).

Lemma audit_roundtrip_witness : VerifyAudit (audit_file audit_demo) None = mkAuditResult 3 true (-1) "".
Proof. apply (audit_roundtrip (JSONEnc (env:=demo_env) NewJSONEncoder) audit_demo audit_demo_ok). simpl. lia. Defined.

(** The same log with the line ends rewritten to CR LF verifies, and carries the same records. *)
Fixpoint to_crlf (s : string) : string :=
  match s with EmptyString => "" | String c s' => if is_lf c then String CR (String LF (to_crlf s')) else String c (to_crlf s') end.

Lemma audit_tamper_evident_witness :
  let d := audit_file [zero_record] in
  let d' := to_crlf d in
  d <> d' /\
  (audit_records d = audit_records d' \/
   collision (hash_inputs GenesisHash (audit_records d)) (hash_inputs GenesisHash (audit_records d')) \/
   preimage GenesisHash (hash_inputs GenesisHash (audit_records d)) \/
   preimage GenesisHash (hash_inputs GenesisHash (audit_records d'))).
Proof.
  split; [vm_compute; discriminate|]. apply audit_tamper_evident; vm_compute; reflexivity.
Defined.

Lemma audit_truncation_undetected_witness :
  exists cut tail, audit_file audit_demo = cut +:+ tail /\ ([hostile_record] <> [] -> tail <> "") /\
    VerifyAudit cut None = mkAuditResult 2 true (-1) "".
Proof.
  apply (audit_truncation_undetected (JSONEnc (env:=demo_env) NewJSONEncoder) [hostile_record; zero_record] [hostile_record]);
    [exact audit_demo_ok|simpl; lia].
Defined.
