(* ===== verification/Logger.v ===== *)
(** * The logger core (logger.go, metrics.go)

    A [Logger] is an immutable value; what its calls change (the pooled records, the
    shared heap, the processors' state, the transport, the counters) is a [World]
    that a logger and all its [With] children share. *)
From S2P Require Import Prelude GoStd Level Field Record Pipeline Redaction Sink Transport Encoder.
Import GoTime.
Local Open Scope Z_scope.

(** ** metrics.go *)
(** [m_panicked] records that a call panicked on an index out of range. *)
Record Metrics := mkMetrics {
  emittedCount : Z; droppedCount : Z; sinkErrors : Z; byLevel : list Z; m_panicked : bool
}.
Definition zero_metrics : Metrics := mkMetrics 0 0 0 (replicate 25 0) false.

(** [a[l].Add(1)] on an array of counters, and whether the index is out of range, when
    Go panics. *)
Definition array_add (l : Z) (a : list Z) : list Z * bool :=
  match (if 0 <=? l then a !! Z.to_nat l else None) with
  | Some c => (<[Z.to_nat l := u64 (c + 1)]> a, false)
  | None => (a, true)
  end.

Definition incEmitted (l : Level) (m : Metrics) : Metrics :=
  let res := if (0 <=? l) && (l <? Z.of_nat (length (byLevel m))) then array_add l (byLevel m) else (byLevel m, false) in
  mkMetrics (u64 (emittedCount m + 1)) (droppedCount m) (sinkErrors m) res.1 (m_panicked m || res.2).
Definition incDropped (m : Metrics) : Metrics :=
  mkMetrics (emittedCount m) (u64 (droppedCount m + 1)) (sinkErrors m) (byLevel m) (m_panicked m).
Definition IncSinkError (m : Metrics) : Metrics :=
  mkMetrics (emittedCount m) (droppedCount m) (u64 (sinkErrors m + 1)) (byLevel m) (m_panicked m).

Record Snapshot := mkSnapshot { s_Emitted : Z; s_Dropped : Z; s_SinkErrors : Z; s_ByLevel : gmap string Z }.

(** [for i := 1; i < len(m.byLevel); i++]. *)
Definition snapshot_level (m : gmap string Z) (iv : nat * Z) : gmap string Z :=
  let '(i, v) := iv in
  if 0 <? v then <[Level_String (Z.of_nat i) := u64 (default 0 (m !! Level_String (Z.of_nat i)) + v)]> m else m.
Definition Metrics_Snapshot (m : Metrics) : Snapshot :=
  mkSnapshot (emittedCount m) (droppedCount m) (sinkErrors m)
    (fold_left snapshot_level (drop 1 (imap pair (byLevel m))) ∅).

(** [ServeHTTP]: the body; [order] is the order in which the map is ranged over. *)
Fixpoint serve_levels (first : bool) (order : list (string * Z)) : string :=
  match order with
  | [] => ""
  | (k, v) :: order' =>
      (if first then "" else ",") +:+ str1 QUOTE +:+ k +:+ str1 QUOTE +:+ ":" +:+ Strconv.FormatUint v +:+ serve_levels false order'
  end.
Definition Q (s : string) : string := str1 QUOTE +:+ s +:+ str1 QUOTE.
Definition Metrics_ServeHTTP (m : Metrics) (order : list (string * Z)) : string :=
  let s := Metrics_Snapshot m in
  "{" +:+ Q "emitted" +:+ ":" +:+ Strconv.FormatUint (s_Emitted s) +:+
  "," +:+ Q "dropped" +:+ ":" +:+ Strconv.FormatUint (s_Dropped s) +:+
  "," +:+ Q "sink_errors" +:+ ":" +:+ Strconv.FormatUint (s_SinkErrors s) +:+
  "," +:+ Q "by_level" +:+ ":{" +:+ serve_levels true order +:+ "}}" +:+ str1 LF.

(** ** logger.go *)
Record Logger := mkLogger {
  l_leveler : Leveler;
  l_with : list Field;
  l_addCaller : bool;
  l_callerSkip : Z
}.

Record World (T : Type) := mkWorld {
  w_pool : list LogRecord;
  w_heap : Heap;
  w_processors : list Processor;
  w_transport : T;
  w_metrics : Metrics
}.
Arguments mkWorld {T}.
Arguments w_pool {T}.
Arguments w_heap {T}.
Arguments w_processors {T}.
Arguments w_transport {T}.
Arguments w_metrics {T}.

(** Options configure the logger in the order they are given. *)
Record config (A T : Type) := mkConfig {
  c_leveler : Leveler;
  c_processors : list Processor;
  c_transport : option T;
  c_sink : option A;
  c_addCaller : bool;
  c_callerSkip : Z
}.
Arguments mkConfig {A T}.
Arguments c_leveler {A T}.
Arguments c_processors {A T}.
Arguments c_transport {A T}.
Arguments c_sink {A T}.
Arguments c_addCaller {A T}.
Arguments c_callerSkip {A T}.

Section Options.
Context {A T : Type}.
Implicit Types c : config A T.

Definition WithLeveler (lv : Leveler) c : config A T :=
  mkConfig lv (c_processors c) (c_transport c) (c_sink c) (c_addCaller c) (c_callerSkip c).
Definition WithLevel (l : Level) c : config A T := WithLeveler (staticLevel l) c.
Definition WithProcessors (ps : list Processor) c : config A T :=
  mkConfig (c_leveler c) ps (c_transport c) (c_sink c) (c_addCaller c) (c_callerSkip c).
Definition WithSink (s : A) c : config A T :=
  mkConfig (c_leveler c) (c_processors c) (c_transport c) (Some s) (c_addCaller c) (c_callerSkip c).
Definition WithTransport (t : T) c : config A T :=
  mkConfig (c_leveler c) (c_processors c) (Some t) (c_sink c) (c_addCaller c) (c_callerSkip c).
Definition WithCaller (skip : Z) c : config A T :=
  mkConfig (c_leveler c) (c_processors c) (c_transport c) (c_sink c) true skip.

(** [New]: [sync] is [NewSyncTransport] and [stderr] the JSON sink on standard error. *)
Definition New (sync : A -> T) (stderr : A) (h : Heap) (opts : list (config A T -> config A T)) : Logger * World T :=
  let c := fold_left (fun c o => o c) opts (mkConfig (staticLevel LevelInfo) [] None None false 0) in
  let t := match c_transport c with
           | Some t => t
           | None => sync (match c_sink c with Some s => s | None => stderr end)
           end in
  (mkLogger (c_leveler c) [] (c_addCaller c) (c_callerSkip c), mkWorld [] h (c_processors c) t zero_metrics).
End Options.

Definition With (fields : list Field) (l : Logger) : Logger :=
  mkLogger (l_leveler l) (l_with l ++ fields) (l_addCaller l) (l_callerSkip l).

(** What a call takes from its environment: the clock when the record is stamped and
    while the pipeline runs, the program counter [skip] frames up, and the pool's choice. *)
Record CallEnv := mkCallEnv { ce_now : Time; ce_pipe : Time; ce_callers : Z -> Z; ce_pick : option nat }.

Section Log.
Context {env : GoEnv} {T : Type} `{Transport T}.

Definition Enabled (l : Logger) (level : Level) (w : World T) : bool :=
  Leveler_Level (l_leveler l) (h_lv (w_heap w)) <=? level.

(** The end of [log] and [eventAt]: the pipeline, then drop or dispatch, then release. *)
Definition finish (ce : CallEnv) (ctx : list CtxVal) (level : Level) (r : LogRecord) (w : World T) : World T :=
  let '(ps, r, err) := runPipeline (ce_pipe ce) (w_processors w) (Some ctx) r in
  match err with
  | Some _ => mkWorld (release r (w_pool w)) (w_heap w) ps (w_transport w) (incDropped (w_metrics w))
  | None =>
      let m := incEmitted level (w_metrics w) in
      let '(t, h) := tr_dispatch r (w_transport w) (w_heap w) in
      mkWorld (release r (w_pool w)) h ps t m
  end.

Definition log (ce : CallEnv) (l : Logger) (ctx : option (list CtxVal)) (level : Level) (msg : string) (fields : list Field)
    (w : World T) : World T :=
  if level <? Leveler_Level (l_leveler l) (h_lv (w_heap w)) then w
  else
    let ctx := match ctx with None => Background | Some c => c end in
    let '(r, pool) := newRecord (ce_pick ce) (w_pool w) in
    let fs := if (0 <? length (l_with l))%nat then r_Fields r ++ l_with l else r_Fields r in
    let fs := fs ++ fields in
    let pc := if l_addCaller l then u64 (ce_callers ce (3 + l_callerSkip l)) else r_PC r in
    let r := mkRecord (ce_now ce) level msg pc (r_EventName r) fs (Some ctx) (r_pooled r) in
    finish ce ctx level r (mkWorld pool (w_heap w) (w_processors w) (w_transport w) (w_metrics w)).

(** [eventAt]: no message, no caller. *)
Definition eventAt (ce : CallEnv) (l : Logger) (ctx : option (list CtxVal)) (level : Level) (name : string) (fields : list Field)
    (w : World T) : World T :=
  if level <? Leveler_Level (l_leveler l) (h_lv (w_heap w)) then w
  else
    let ctx := match ctx with None => Background | Some c => c end in
    let '(r, pool) := newRecord (ce_pick ce) (w_pool w) in
    let fs := if (0 <? length (l_with l))%nat then r_Fields r ++ l_with l else r_Fields r in
    let fs := fs ++ fields in
    let r := mkRecord (ce_now ce) level (r_Message r) (r_PC r) name fs (Some ctx) (r_pooled r) in
    finish ce ctx level r (mkWorld pool (w_heap w) (w_processors w) (w_transport w) (w_metrics w)).

(** handler.go [logAt]: an explicit time (the slog bridge), no caller. *)
Definition logAt (ce : CallEnv) (l : Logger) (ctx : option (list CtxVal)) (t : Time) (level : Level) (msg : string) (fields : list Field)
    (w : World T) : World T :=
  if level <? Leveler_Level (l_leveler l) (h_lv (w_heap w)) then w
  else
    let ctx := match ctx with None => Background | Some c => c end in
    let '(r, pool) := newRecord (ce_pick ce) (w_pool w) in
    let fs := if (0 <? length (l_with l))%nat then r_Fields r ++ l_with l else r_Fields r in
    let fs := fs ++ fields in
    let r := mkRecord t level msg (r_PC r) (r_EventName r) fs (Some ctx) (r_pooled r) in
    finish ce ctx level r (mkWorld pool (w_heap w) (w_processors w) (w_transport w) (w_metrics w)).

(** The leveled methods. *)
Definition Trace ce l msg fs := log ce l (Some Background) LevelTrace msg fs.
Definition Debug ce l msg fs := log ce l (Some Background) LevelDebug msg fs.
Definition Info ce l msg fs := log ce l (Some Background) LevelInfo msg fs.
Definition Warn ce l msg fs := log ce l (Some Background) LevelWarn msg fs.
Definition Error ce l msg fs := log ce l (Some Background) LevelError msg fs.
Definition TraceContext ce l ctx msg fs := log ce l ctx LevelTrace msg fs.
Definition DebugContext ce l ctx msg fs := log ce l ctx LevelDebug msg fs.
Definition InfoContext ce l ctx msg fs := log ce l ctx LevelInfo msg fs.
Definition WarnContext ce l ctx msg fs := log ce l ctx LevelWarn msg fs.
Definition ErrorContext ce l ctx msg fs := log ce l ctx LevelError msg fs.
Definition Log ce l ctx level msg fs := log ce l ctx level msg fs.
Definition Event ce l name fs := eventAt ce l (Some Background) LevelInfo name fs.
Definition EventAt ce l ctx level name fs := eventAt ce l ctx level name fs.

(** [Metrics]: children share the counters. *)
Definition Logger_Metrics (w : World T) : Metrics := w_metrics w.
Definition Logger_Sync (w : World T) : World T * option error :=
  let '(t, e) := tr_sync (w_transport w) in (mkWorld (w_pool w) (w_heap w) (w_processors w) t (w_metrics w), e).
Definition Logger_Close (w : World T) : World T * option error :=
  let '(t, e) := tr_close (w_transport w) in (mkWorld (w_pool w) (w_heap w) (w_processors w) t (w_metrics w), e).
End Log.

(** ** What a call does, without the pool *)
Inductive Call :=
| CallLog (ctx : option (list CtxVal)) (level : Level) (msg : string) (fields : list Field)
| CallEvent (ctx : option (list CtxVal)) (level : Level) (name : string) (fields : list Field)
| CallAt (ctx : option (list CtxVal)) (t : Time) (level : Level) (msg : string) (fields : list Field).

Definition call_level (c : Call) : Level := match c with CallLog _ lv _ _ | CallEvent _ lv _ _ | CallAt _ _ lv _ _ => lv end.
Definition call_ctx (c : Call) : list CtxVal :=
  match c with CallLog ctx _ _ _ | CallEvent ctx _ _ _ | CallAt ctx _ _ _ _ => default Background ctx end.

Section Spec.
Context {env : GoEnv} {T : Type} `{Transport T}.
Implicit Types (w : World T) (l : Logger) (ce : CallEnv) (c : Call).

Definition do_call ce l c w : World T :=
  match c with
  | CallLog ctx lv msg fs => log ce l ctx lv msg fs w
  | CallEvent ctx lv name fs => eventAt ce l ctx lv name fs w
  | CallAt ctx t lv msg fs => logAt ce l ctx t lv msg fs w
  end.

(** The record the pipeline is given. *)
Definition call_record ce l c : LogRecord :=
  match c with
  | CallLog _ lv msg fs =>
      mkRecord (ce_now ce) lv msg (if l_addCaller l then u64 (ce_callers ce (3 + l_callerSkip l)) else 0) ""
        (l_with l ++ fs) (Some (call_ctx c)) true
  | CallEvent _ lv name fs => mkRecord (ce_now ce) lv "" 0 name (l_with l ++ fs) (Some (call_ctx c)) true
  | CallAt _ t lv msg fs => mkRecord t lv msg 0 "" (l_with l ++ fs) (Some (call_ctx c)) true
  end.

(** Everything but the pool. *)
Definition obs (w : World T) : Heap * list Processor * T * Metrics :=
  (w_heap w, w_processors w, w_transport w, w_metrics w).

Definition call_spec ce l c (o : Heap * list Processor * T * Metrics) : Heap * list Processor * T * Metrics :=
  let '(h, ps, t, m) := o in
  if call_level c <? Leveler_Level (l_leveler l) (h_lv h) then o
  else
    let '(ps', r, err) := runPipeline (ce_pipe ce) ps (Some (call_ctx c)) (call_record ce l c) in
    match err with
    | Some _ => (h, ps', t, incDropped m)
    | None => let '(t', h') := tr_dispatch r t h in (h', ps', t', incEmitted (call_level c) m)
    end.

Lemma with_fields l (fs : list Field) : (if (0 <? length (l_with l))%nat then [] ++ l_with l else []) ++ fs = l_with l ++ fs.
Proof. by destruct (l_with l). Qed.

Lemma finish_spec ce ctx level r w :
  obs (finish ce ctx level r w) =
    (let '(ps', r', err) := runPipeline (ce_pipe ce) (w_processors w) (Some ctx) r in
     match err with
     | Some _ => (w_heap w, ps', w_transport w, incDropped (w_metrics w))
     | None => let '(t', h') := tr_dispatch r' (w_transport w) (w_heap w) in (h', ps', t', incEmitted level (w_metrics w))
     end) /\
  (pool_clean (w_pool w) -> pool_clean (w_pool (finish ce ctx level r w))).
Proof.
  unfold finish. destruct (runPipeline _ _ _ _) as [[ps' r'] [e|]]; [split; [done|simpl; auto with golog]|].
  destruct (tr_dispatch r' _ _) as [t' h']. split; [done|simpl; auto with golog].
Qed.

Lemma do_call_spec ce l c w :
  pool_clean (w_pool w) ->
  obs (do_call ce l c w) = call_spec ce l c (obs w) /\ pool_clean (w_pool (do_call ce l c w)).
Proof.
  intros Hp. destruct c as [ctx lv msg fs|ctx lv name fs|ctx t lv msg fs]; cbn [do_call]; unfold log, eventAt, logAt, call_spec, obs at 2; cbn [call_level].
  all: destruct (lv <? _) eqn:El; [done|].
  all: destruct (newRecord_clean (ce_pick ce) (w_pool w) Hp) as [Hr Hc];
    destruct (newRecord (ce_pick ce) (w_pool w)) as [r pool]; cbn [fst snd] in Hr, Hc; subst r.
  all: cbn [r_Fields r_PC r_EventName r_Message r_pooled fresh_record zero_record set_pooled]; rewrite with_fields.
  all: match goal with |- context [finish ?e ?x ?v ?r ?w'] => destruct (finish_spec e x v r w') as [Ho Hcl] end.
  all: cbn [w_pool w_heap w_processors w_transport w_metrics] in *; rewrite Ho; split; [by destruct ctx|by apply Hcl].
Qed.

(** Calls in sequence, each through the logger or one of its children. *)
Fixpoint do_calls (cs : list (CallEnv * Logger * Call)) w : World T :=
  match cs with [] => w | (ce, l, c) :: cs' => do_calls cs' (do_call ce l c w) end.
Fixpoint calls_spec (cs : list (CallEnv * Logger * Call)) (o : Heap * list Processor * T * Metrics) :=
  match cs with [] => o | (ce, l, c) :: cs' => calls_spec cs' (call_spec ce l c o) end.

Lemma do_calls_spec cs w :
  pool_clean (w_pool w) -> obs (do_calls cs w) = calls_spec cs (obs w) /\ pool_clean (w_pool (do_calls cs w)).
Proof.
  revert w. induction cs as [|[[ce l] c] cs IH]; intros w Hp; [done|]. cbn [do_calls calls_spec].
  destruct (do_call_spec ce l c w Hp) as [<- Hp']. by apply IH.
Qed.

(** How many of the calls were enabled when they were made. *)
Fixpoint enabled_calls (cs : list (CallEnv * Logger * Call)) w : nat :=
  match cs with
  | [] => 0
  | (ce, l, c) :: cs' => (if Enabled l (call_level c) w then 1 else 0) + enabled_calls cs' (do_call ce l c w)
  end.

(** C11. Pooling is invisible: any sequence of calls through a new logger and its
    children leaves the sinks, the processors, the shared heap and the counters
    exactly as if every call had built its record from scratch, with the clock's time
    (or the slog record's own), its level and message (or event name), the inherited fields before its own, a
    non-nil context and the caller only where enabled; whatever records the pool hands
    out; and the pool ends clean. *)
Theorem log_calls_exact cs w :
  w_pool w = [] ->
  obs (do_calls cs w) = calls_spec cs (obs w) /\ pool_clean (w_pool (do_calls cs w)).
Proof. intros Hp. apply do_calls_spec. rewrite Hp. constructor. Qed.

Lemma call_metrics ce l c w :
  pool_clean (w_pool w) ->
  w_metrics (do_call ce l c w) =
    if Enabled l (call_level c) w then
      match (runPipeline (ce_pipe ce) (w_processors w) (Some (call_ctx c)) (call_record ce l c)).2 with
      | Some _ => incDropped (w_metrics w)
      | None => incEmitted (call_level c) (w_metrics w)
      end
    else w_metrics w.
Proof.
  intros Hp. destruct (do_call_spec ce l c w Hp) as [Ho _].
  apply (f_equal snd) in Ho. cbn [obs snd] in Ho. rewrite Ho. unfold call_spec, obs, Enabled.
  rewrite Z.leb_antisym. destruct (_ <? _); [done|]. cbn [negb].
  destruct (runPipeline _ _ _ _) as [[ps' r] [e|]]; [done|]. by destruct (tr_dispatch _ _ _).
Qed.

(** Every enabled call is counted once: after any sequence of calls, emitted plus
    dropped is the number of calls that were enabled when made, modulo 2^64; disabled
    calls are not counted. *)
Theorem metrics_account cs w :
  w_pool w = [] -> w_metrics w = zero_metrics ->
  let m := w_metrics (do_calls cs w) in
  u64 (emittedCount m + droppedCount m) = u64 (Z.of_nat (enabled_calls cs w)).
Proof.
  intros Hp Hm. cbv zeta.
  assert (Hgen : forall w, pool_clean (w_pool w) ->
    u64 (emittedCount (w_metrics (do_calls cs w)) + droppedCount (w_metrics (do_calls cs w))) =
    u64 (emittedCount (w_metrics w) + droppedCount (w_metrics w) + Z.of_nat (enabled_calls cs w))).
  { clear. induction cs as [|[[ce l] c] cs IH]; intros w Hp; cbn [do_calls enabled_calls]; [by rewrite Z.add_0_r|].
    rewrite IH by (by apply do_call_spec). rewrite (call_metrics ce l c w Hp).
    destruct (Enabled l (call_level c) w); [|done].
    destruct (runPipeline _ _ _ _).2 as [e|]; cbn [emittedCount droppedCount incEmitted incDropped].
    - rewrite <-!Z.add_assoc, (Z.add_comm (emittedCount _)), <-!Z.add_assoc, u64_add_l. f_equal. lia.
    - rewrite <-!Z.add_assoc, u64_add_l. f_equal. lia. }
  rewrite Hgen by (rewrite Hp; constructor). rewrite Hm. done.
Qed.
End Spec.

(** ** End to end: redaction *)
Section Secrets.
Context {env : GoEnv}.
Implicit Types (q : RedactProcessor).

Definition censored q : string := if String.eqb (Censor q) "" then "[REDACTED]" else Censor q.
Definition entry_clean q (e : Entry) : Prop := forall k v, e_Fields e !! k = Some v -> k ∈ Deny q -> v = VString (censored q).

Lemma runPipeline_last now ps q ctx r :
  exists ps', (runPipeline now (ps ++ [PRedact q]) ctx r).1.1 = ps' ++ [PRedact q].
Proof.
  rewrite runPipeline_app. destruct (runPipeline now ps ctx r) as [[ps1 r1] [e|]]; simpl; eauto.
Qed.

Lemma capture_entry_clean q r :
  Forall (fun f => Key f ∈ Deny q -> exists c, Value f = VString c /\ c = censored q) (r_Fields r) -> entry_clean q (capture_entry r).
Proof.
  intros Hf. unfold entry_clean, capture_entry. simpl.
  assert (Hgen : forall fs (m : gmap string GoVal),
    Forall (fun f => Key f ∈ Deny q -> exists c, Value f = VString c /\ c = censored q) fs ->
    (forall k v, m !! k = Some v -> k ∈ Deny q -> v = VString (censored q)) ->
    forall k v, fold_left (fun m f => <[Key f := Value f]> m) fs m !! k = Some v -> k ∈ Deny q -> v = VString (censored q)).
  { clear. induction fs as [|f fs IH]; intros m Hf Hm; [done|]. apply Forall_cons in Hf as [Hf1 Hf]. apply IH; [done|].
    intros k v. rewrite lookup_insert_Some. intros [[<- <-]|[_ Hk]] Hd; [|eauto]. by destruct (Hf1 Hd) as (c & -> & ->). }
  apply Hgen; [done|]. intros k v. by rewrite lookup_empty.
Qed.

(** No denied value reaches the sink: a logger whose pipeline ends in the denylist
    redactor, with any processors before it, never delivers the value of a denied key,
    whatever sequence of calls is made and wherever the field comes from (the call,
    With, the context or a processor): every captured entry has the censor string
    there. *)
Theorem denied_values_never_captured cs (w : World (SyncTransport Capture)) ps q :
  w_pool w = [] -> w_processors w = ps ++ [PRedact q] -> w_transport w = NewSyncTransport (mkCapture []) ->
  Forall (entry_clean q) (entries (st_sink (w_transport (do_calls cs w)))).
Proof.
  intros Hp Hps Ht. destruct (do_calls_spec cs w ltac:(rewrite Hp; constructor)) as [Ho _].
  assert (Hgen : forall cs h ps t m, Forall (entry_clean q) (entries (st_sink t)) ->
    Forall (entry_clean q) (entries (st_sink (calls_spec cs (h, ps ++ [PRedact q], t, m)).1.2))).
  { clear. induction cs as [|[[ce l] c] cs IH]; intros h ps t m Ht; [done|]. cbn [calls_spec]. unfold call_spec.
    destruct (_ <? _); [by apply IH|].
    destruct (runPipeline_last (ce_pipe ce) ps q (Some (call_ctx c)) (call_record ce l c)) as [ps' Hps'].
    destruct (runPipeline _ _ _ _) as [[ps1 r1] err] eqn:Hrun. cbn [fst] in Hps'. subst ps1.
    destruct err as [e|]; [by apply IH|]. cbn. apply IH. simpl. apply Forall_app. split; [done|]. apply Forall_singleton.
    apply capture_entry_clean. exact (redact_last _ _ _ _ _ _ _ Hrun). }
  assert (w_transport (do_calls cs w) = (calls_spec cs (obs w)).1.2) as -> by (by rewrite <-Ho).
  unfold obs. rewrite Hps, Ht. apply Hgen. constructor.
Qed.
End Secrets.

(** ** A session *)
Definition demo_ce : CallEnv := mkCallEnv (mkTime 7 UTC) (mkTime 8 UTC) (fun skip => 100 + skip) (Some 0%nat).
Definition demo_logger : Logger * World (SyncTransport Capture) :=
  New NewSyncTransport (mkCapture []) empty_heap
    [WithSink (mkCapture []); WithCaller 0; WithProcessors [PEnrich (NewEnrichProcessor []); PRedact (NewRedactProcessor ["password"])]].
Definition demo_calls : list (CallEnv * Logger * Call) :=
  [(demo_ce, demo_logger.1, CallLog None LevelInfo "login" [FString "password" "hunter2"]);
   (demo_ce, With [FString "password" "inherited"] demo_logger.1, CallEvent (Some [CFields [FString "password" "ctx"]]) LevelWarn "evt" []);
   (demo_ce, demo_logger.1, CallLog None LevelDebug "disabled" [])].

Lemma log_calls_exact_witness :
  obs (do_calls (env:=demo_env) demo_calls demo_logger.2) = calls_spec (env:=demo_env) demo_calls (obs demo_logger.2).
Proof. apply (log_calls_exact (env:=demo_env) demo_calls demo_logger.2). reflexivity. Defined.

Lemma metrics_account_witness :
  let m := w_metrics (do_calls (env:=demo_env) demo_calls demo_logger.2) in
  u64 (emittedCount m + droppedCount m) = u64 (Z.of_nat (enabled_calls (env:=demo_env) demo_calls demo_logger.2)) /\
  enabled_calls (env:=demo_env) demo_calls demo_logger.2 = 2%nat.
Proof.
  split; [|vm_compute; reflexivity].
  apply (metrics_account (env:=demo_env) demo_calls demo_logger.2); reflexivity.
Defined.

Lemma denied_values_never_captured_witness :
  Forall (entry_clean (NewRedactProcessor ["password"]))
    (entries (st_sink (w_transport (do_calls (env:=demo_env) demo_calls demo_logger.2)))) /\
  length (entries (st_sink (w_transport (do_calls (env:=demo_env) demo_calls demo_logger.2)))) = 2%nat.
Proof.
  split; [|vm_compute; reflexivity].
  apply (denied_values_never_captured (env:=demo_env) demo_calls demo_logger.2 [PEnrich (NewEnrichProcessor [])] (NewRedactProcessor ["password"]));
    reflexivity.
Defined.
