(* ===== verification/ConcLogger.v ===== *)
(** * Concurrent log calls on pooled records (logger.go log and eventAt, handler.go logAt)

    Any number of goroutines are inside log, eventAt and logAt at once.  A step of a call
    is one operation on shared state: reading the level, taking a record from the pool,
    writing it, one processor, counting, dispatching, releasing.  The steps are written
    once, over the interface [RecStore] of a store of records, which has two instances:
    the memory of Memory.v, where records are pooled and their backing arrays reused, and
    plain values, where every call has a record of its own; the first implements the
    second, and a record never has two users. *)
From S2P Require Import Prelude GoStd Level Field Record Redaction Sampling Dedup Pipeline Memory Sink Transport Logger.
Import GoTime.
Local Open Scope Z_scope.

Class RecStore {env : GoEnv} (S H : Type) := {
  rs_new : option nat -> S -> H * S;
  rs_set : (LogRecord -> LogRecord) -> H -> S -> H * S;
  rs_append : nat -> list Field -> H -> S -> H * S;
  rs_process : Time -> Processor -> option Context -> nat -> H -> S -> Processor * H * S * option error;
  rs_read : H -> S -> LogRecord;
  rs_release : H -> S -> S;
  rs_gc : nat -> S -> S
}.

#[export] Instance mem_store {env : GoEnv} : RecStore Store Z := {|
  rs_new := mem_newRecord;
  rs_set := fun f a s => (a, mkStore (rec_hdr f a (s_mem s)) (s_pool s));
  rs_append := fun extra fs a s => (a, mkStore (rec_append extra fs a (s_mem s)) (s_pool s));
  rs_process := fun now p ctx extra a s =>
    let '(p', m, e) := mem_Process now p ctx extra a (s_mem s) in (p', a, mkStore m (s_pool s), e);
  rs_read := fun a s => read_rec (s_mem s) a;
  rs_release := mem_release;
  rs_gc := fun i s => mkStore (s_mem s) (delete i (s_pool s))
|}.

(** A processor cannot change the unexported flag [pooled]. *)
#[export] Instance val_store {env : GoEnv} : RecStore unit LogRecord := {|
  rs_new := fun _ s => (fresh_record, s);
  rs_set := fun f r s => (f r, s);
  rs_append := fun _ fs r s => (set_Fields (r_Fields r ++ fs) r, s);
  rs_process := fun now p ctx _ r s => let '(p', r', e) := Process now p ctx r in (p', set_pooled (r_pooled r) r', s, e);
  rs_read := fun r _ => r;
  rs_release := fun _ s => s;
  rs_gc := fun _ s => s
|}.

(** Where a call is; [h] is its record. *)
Inductive CallPC (H : Type) :=
| CStart
| CNew
| CFill (h : H)
| CWith (h : H)
| CArgs (h : H)
| CCaller (h : H)
| CPipe (h : H) (i : nat)
| CDropped (h : H)
| CEmitted (h : H)
| CDispatch (h : H)
| CRelease (h : H).
Arguments CStart {H}.
Arguments CNew {H}.
Arguments CFill {H}.
Arguments CWith {H}.
Arguments CArgs {H}.
Arguments CCaller {H}.
Arguments CPipe {H}.
Arguments CDropped {H}.
Arguments CEmitted {H}.
Arguments CDispatch {H}.
Arguments CRelease {H}.

Record Goroutine (H : Type) := mkG { g_ce : CallEnv; g_l : Logger; g_c : Call; g_pc : CallPC H }.
Arguments mkG {H}.
Arguments g_ce {H}.
Arguments g_l {H}.
Arguments g_c {H}.
Arguments g_pc {H}.

Record CSys (S H : Type) := mkCSys {
  y_store : S;
  y_lv : LevelStore;
  y_ps : list Processor;
  y_metrics : Metrics;
  y_gs : gmap Z (Goroutine H)
}.
Arguments mkCSys {S H}.
Arguments y_store {S H}.
Arguments y_lv {S H}.
Arguments y_ps {S H}.
Arguments y_metrics {S H}.
Arguments y_gs {S H}.

Inductive CEvent :=
| CECall (t : Z) (ce : CallEnv) (l : Logger) (c : Call)
| CEStep (t : Z) (pick : option nat) (extra : nat)   (* the pool's choice, and append's growth *)
| CESet (lv : Z) (level : Level)                     (* someone sets a level variable *)
| CEGC (i : nat).                                    (* the pool loses an item *)

(** What a step shows: a call below the level, a record passed to Dispatch, or an
    enabled call that returned. *)
Inductive CObs := ODisabled (t : Z) | OPass (t : Z) (r : LogRecord) | OReturn (t : Z).

(** The assignments before the fields are appended. *)
Definition fill (ce : CallEnv) (c : Call) (r : LogRecord) : LogRecord :=
  let ctx := Some (call_ctx c) in
  match c with
  | CallLog _ lv msg _ => mkRecord (ce_now ce) lv msg (r_PC r) (r_EventName r) (r_Fields r) ctx (r_pooled r)
  | CallEvent _ lv name _ => mkRecord (ce_now ce) lv (r_Message r) (r_PC r) name (r_Fields r) ctx (r_pooled r)
  | CallAt _ t lv msg _ => mkRecord t lv msg (r_PC r) (r_EventName r) (r_Fields r) ctx (r_pooled r)
  end.
Definition call_fields (c : Call) : list Field := match c with CallLog _ _ _ fs | CallEvent _ _ _ fs | CallAt _ _ _ _ fs => fs end.
Definition set_PC (pc : Z) (r : LogRecord) : LogRecord :=
  mkRecord (r_Time r) (r_Level r) (r_Message r) pc (r_EventName r) (r_Fields r) (r_Ctx r) (r_pooled r).
(** Only [log] records the caller. *)
Definition caller_pc (ce : CallEnv) (l : Logger) (c : Call) : option Z :=
  match c with CallLog _ _ _ _ => if l_addCaller l then Some (u64 (ce_callers ce (3 + l_callerSkip l))) else None | _ => None end.

Section Steps.
Context {env : GoEnv} {S H : Type} `{!RecStore S H}.

Definition y_goto (t : Z) (g : Goroutine H) (pc : CallPC H) (st : S) (s : CSys S H) : CSys S H :=
  mkCSys st (y_lv s) (y_ps s) (y_metrics s) (<[t := mkG (g_ce g) (g_l g) (g_c g) pc]> (y_gs s)).
Definition y_done (t : Z) (st : S) (s : CSys S H) : CSys S H :=
  mkCSys st (y_lv s) (y_ps s) (y_metrics s) (delete t (y_gs s)).
Definition y_count (f : Metrics -> Metrics) (s : CSys S H) : CSys S H :=
  mkCSys (y_store s) (y_lv s) (y_ps s) (f (y_metrics s)) (y_gs s).
Definition y_processor (i : nat) (p : Processor) (s : CSys S H) : CSys S H :=
  mkCSys (y_store s) (y_lv s) (<[i := p]> (y_ps s)) (y_metrics s) (y_gs s).

Definition call_step (t : Z) (g : Goroutine H) (pick : option nat) (extra : nat) (s : CSys S H) : CSys S H * list CObs :=
  let st := y_store s in
  let c := g_c g in
  match g_pc g with
  | CStart =>
      if call_level c <? Leveler_Level (l_leveler (g_l g)) (y_lv s) then (y_done t st s, [ODisabled t])
      else (y_goto t g CNew st s, [])
  | CNew => let '(h, st) := rs_new pick st in (y_goto t g (CFill h) st s, [])
  | CFill h => let '(h, st) := rs_set (fill (g_ce g) c) h st in (y_goto t g (CWith h) st s, [])
  | CWith h =>
      let '(h, st) := if (0 <? length (l_with (g_l g)))%nat then rs_append extra (l_with (g_l g)) h st else (h, st) in
      (y_goto t g (CArgs h) st s, [])
  | CArgs h => let '(h, st) := rs_append extra (call_fields c) h st in (y_goto t g (CCaller h) st s, [])
  | CCaller h =>
      let '(h, st) := match caller_pc (g_ce g) (g_l g) c with Some pc => rs_set (set_PC pc) h st | None => (h, st) end in
      (y_goto t g (CPipe h 0) st s, [])
  | CPipe h i =>
      match y_ps s !! i with
      | None => (y_goto t g (CEmitted h) st s, [])
      | Some p =>
          let '(p', h, st, err) := rs_process (ce_pipe (g_ce g)) p (Some (call_ctx c)) extra h st in
          (y_goto t g (match err with Some _ => CDropped h | None => CPipe h (i + 1) end) st (y_processor i p' s), [])
      end
  | CDropped h => (y_goto t g (CRelease h) st (y_count incDropped s), [])
  | CEmitted h => (y_goto t g (CDispatch h) st (y_count (incEmitted (call_level c)) s), [])
  | CDispatch h => (y_goto t g (CRelease h) st s, [OPass t (rs_read h st)])
  | CRelease h => (y_done t (rs_release h st) s, [OReturn t])
  end.

Definition c_step (e : CEvent) (s : CSys S H) : option (CSys S H * list CObs) :=
  match e with
  | CECall t ce l c =>
      match y_gs s !! t with
      | None => Some (mkCSys (y_store s) (y_lv s) (y_ps s) (y_metrics s) (<[t := mkG ce l c CStart]> (y_gs s)), [])
      | Some _ => None
      end
  | CEStep t pick extra => (fun g => call_step t g pick extra s) <$> y_gs s !! t
  | CESet lv level => Some (mkCSys (y_store s) (LevelVar_Set lv level (y_lv s)) (y_ps s) (y_metrics s) (y_gs s), [])
  | CEGC i => Some (mkCSys (rs_gc i (y_store s)) (y_lv s) (y_ps s) (y_metrics s) (y_gs s), [])
  end.
End Steps.

Definition mem_start (lv : LevelStore) (ps : list Processor) : CSys Store Z := mkCSys (mkStore (mkMem ∅ ∅ 1) []) lv ps zero_metrics ∅.
Definition val_start (lv : LevelStore) (ps : list Processor) : CSys unit LogRecord := mkCSys tt lv ps zero_metrics ∅.

(** ** The memory implements the values *)
Definition pc_handle {H} (pc : CallPC H) : option H :=
  match pc with
  | CStart | CNew => None
  | CFill h | CWith h | CArgs h | CCaller h | CPipe h _ | CDropped h | CEmitted h | CDispatch h | CRelease h => Some h
  end.
Definition pc_map {H H'} (f : H -> H') (pc : CallPC H) : CallPC H' :=
  match pc with
  | CStart => CStart
  | CNew => CNew
  | CFill h => CFill (f h)
  | CWith h => CWith (f h)
  | CArgs h => CArgs (f h)
  | CCaller h => CCaller (f h)
  | CPipe h i => CPipe (f h) i
  | CDropped h => CDropped (f h)
  | CEmitted h => CEmitted (f h)
  | CDispatch h => CDispatch (f h)
  | CRelease h => CRelease (f h)
  end.
Definition g_map {H H'} (f : H -> H') (g : Goroutine H) : Goroutine H' := mkG (g_ce g) (g_l g) (g_c g) (pc_map f (g_pc g)).

(** The same system with every record read off the memory. *)
Definition abs (s : CSys Store Z) : CSys unit LogRecord :=
  mkCSys tt (y_lv s) (y_ps s) (y_metrics s) (g_map (read_rec (s_mem (y_store s))) <$> y_gs s).

(** Who owns which record: the pool its clean ones, each call its own. *)
Record own (st : Store) (gs : gmap Z (Goroutine Z)) : Prop := {
  ow_wf : wf_mem (s_mem st);
  ow_nodup : NoDup (s_pool st);
  ow_clean : forall a, a ∈ s_pool st -> is_Some (m_obj (s_mem st) !! a) /\ read_rec (s_mem st) a = fresh_record;
  ow_held : forall t g a, gs !! t = Some g -> pc_handle (g_pc g) = Some a ->
    is_Some (m_obj (s_mem st) !! a) /\ r_pooled (read_rec (s_mem st) a) = true /\ a ∉ s_pool st;
  ow_excl : forall t t' g g' a, gs !! t = Some g -> gs !! t' = Some g' ->
    pc_handle (g_pc g) = Some a -> pc_handle (g_pc g') = Some a -> t = t'
}.

Lemma pc_map_ext {H H'} (f f' : H -> H') pc : (forall h, pc_handle pc = Some h -> f h = f' h) -> pc_map f pc = pc_map f' pc.
Proof. intros Hf. destruct pc; simpl in *; try done; by rewrite (Hf h eq_refl). Qed.

(** Goroutine [t] has gone on with its record [a], which has become [r]. *)
Lemma own_update st gs t g a r m' pc :
  own st gs -> gs !! t = Some g -> pc_handle (g_pc g) = Some a -> acts (s_mem st) a r m' -> r_pooled r = true ->
  pc_handle pc = Some a ->
  own (mkStore m' (s_pool st)) (<[t := mkG (g_ce g) (g_l g) (g_c g) pc]> gs) /\
  g_map (read_rec m') <$> <[t := mkG (g_ce g) (g_l g) (g_c g) pc]> gs =
    <[t := mkG (g_ce g) (g_l g) (g_c g) (pc_map (fun _ => r) pc)]> (g_map (read_rec (s_mem st)) <$> gs).
Proof.
  intros [O1 O2 O3 O4 O5] Hg Ha [A1 A2 A3 A4 A5] Hr Hpc. destruct (O4 t g a Hg Ha) as (_ & _ & Hnp).
  assert (Hsome : forall b, b <> a -> is_Some (m_obj (s_mem st) !! b) -> is_Some (m_obj m' !! b)) by (intros b Hb; by rewrite A4).
  assert (Hother : forall t' g' b, t' <> t -> gs !! t' = Some g' -> pc_handle (g_pc g') = Some b -> b <> a).
  { intros t' g' b Ht Hg' Hb ->. by apply Ht, (O5 t' t g' g a). }
  assert (Hp : r_pooled (read_rec m' a) = true) by (by rewrite A2).
  split; [split; cbn [s_mem s_pool]; try done|].
  - intros b Hb. destruct (O3 b Hb) as [Hs Hc]. assert (b <> a) by (intros ->; done). by rewrite A5 by done; auto.
  - intros t' g' b. destruct (decide (t' = t)) as [->|Ht].
    + rewrite lookup_insert_eq. intros [= <-]. cbn [g_pc]. rewrite Hpc. by intros [= <-].
    + rewrite lookup_insert_ne by done. intros Hg' Hb. destruct (O4 t' g' b Hg' Hb) as (H1 & H2 & H3).
      pose proof (Hother t' g' b Ht Hg' Hb). by rewrite A5 by done; auto.
  - intros t1 t2 g1 g2 b. destruct (decide (t1 = t)) as [->|H1], (decide (t2 = t)) as [->|H2];
      rewrite ?lookup_insert_eq, ?lookup_insert_ne by done; [done| | |by apply O5].
    + intros [= <-] Hg2. cbn [g_pc]. rewrite Hpc. intros [= <-] Hb. by destruct (Hother t2 g2 a H2 Hg2 Hb).
    + intros Hg1 [= <-]. cbn [g_pc]. rewrite Hpc. intros Hb [= <-]. by destruct (Hother t1 g1 a H1 Hg1 Hb).
  - apply map_eq. intros t'. rewrite lookup_fmap. destruct (decide (t' = t)) as [->|Ht].
    + rewrite !lookup_insert_eq. simpl. unfold g_map. simpl. do 2 f_equal. apply pc_map_ext. intros h. rewrite Hpc. by intros [= <-].
    + rewrite !lookup_insert_ne, lookup_fmap by done. destruct (gs !! t') as [g'|] eqn:Hg'; [|done]. simpl. f_equal.
      unfold g_map. f_equal. apply pc_map_ext. intros b Hb. apply A5; [by eapply Hother|by apply (O4 t' g' b)].
Qed.

(** A store that keeps the goroutines' records also keeps their readings. *)
Lemma abs_same m m' (gs : gmap Z (Goroutine Z)) :
  (forall t g a, gs !! t = Some g -> pc_handle (g_pc g) = Some a -> read_rec m' a = read_rec m a) ->
  g_map (read_rec m') <$> gs = g_map (read_rec m) <$> gs.
Proof.
  intros Hs. apply map_fmap_ext. intros t g Hg. unfold g_map. f_equal. apply pc_map_ext. intros a Ha. by apply (Hs t g).
Qed.

Lemma own_sub st gs gs' :
  own st gs ->
  (forall t g' a, gs' !! t = Some g' -> pc_handle (g_pc g') = Some a -> exists g, gs !! t = Some g /\ pc_handle (g_pc g) = Some a) ->
  own st gs'.
Proof.
  intros [O1 O2 O3 O4 O5] Hsub. split; try done.
  - intros t g' a Hg Ha. destruct (Hsub t g' a Hg Ha) as (g & Hg' & Ha'). by apply (O4 t g).
  - intros t1 t2 g1 g2 a H1 H2 Ha1 Ha2. destruct (Hsub t1 g1 a H1 Ha1) as (h1 & ? & ?), (Hsub t2 g2 a H2 Ha2) as (h2 & ? & ?). by apply (O5 t1 t2 h1 h2 a).
Qed.

(** A record nobody held and the pool has let go of: goroutine [t] takes it. *)
Lemma own_take st gs t (g : Goroutine Z) a :
  own st gs -> is_Some (m_obj (s_mem st) !! a) -> read_rec (s_mem st) a = fresh_record -> a ∉ s_pool st ->
  (forall t' g', gs !! t' = Some g' -> pc_handle (g_pc g') <> Some a) ->
  own st (<[t := mkG (g_ce g) (g_l g) (g_c g) (CFill a)]> gs).
Proof.
  intros [O1 O2 O3 O4 O5] Hs Hr Hp Hn. split; try done.
  - intros t' g' b [[<- <-]|[Ht Hg]]%lookup_insert_Some; [|by apply (O4 t' g')]. intros [= <-]. by rewrite Hr.
  - intros t1 t2 g1 g2 b [[<- <-]|[H1 Hg1]]%lookup_insert_Some [[<- <-]|[H2 Hg2]]%lookup_insert_Some; [done| | |by apply O5].
    + intros [= <-] Hb. by destruct (Hn t2 g2 Hg2).
    + intros Hb [= <-]. by destruct (Hn t1 g1 Hg1).
Qed.

Lemma own_frame st gs m' pool' a r :
  own st gs -> acts (s_mem st) a r m' -> NoDup pool' -> (forall b, b ∈ pool' -> b <> a /\ b ∈ s_pool st) ->
  (forall t g, gs !! t = Some g -> pc_handle (g_pc g) <> Some a) ->
  own (mkStore m' pool') gs /\ g_map (read_rec m') <$> gs = g_map (read_rec (s_mem st)) <$> gs.
Proof.
  intros [O1 O2 O3 O4 O5] [A1 A2 A3 A4 A5] Hnd Hpool Hn.
  assert (Hne : forall t g b, gs !! t = Some g -> pc_handle (g_pc g) = Some b -> b <> a) by (intros t g b Hg Hb ->; by apply (Hn t g)).
  split; [split; cbn [s_mem s_pool]; try done|].
  - intros b [Hb Hin]%Hpool. destruct (O3 b Hin) as [H1 H2]. by rewrite A4, A5 by done.
  - intros t g b Hg Hb. destruct (O4 t g b Hg Hb) as (H1 & H2 & H3). pose proof (Hne t g b Hg Hb). rewrite A4, A5 by done.
    split_and!; [done|done|]. by intros [_ ?]%Hpool.
  - apply abs_same. intros t g b Hg Hb. apply A5; [by eapply Hne|by apply (O4 t g b)].
Qed.

(** The store has given out the clean record [a], which nobody else has. *)
Record handed (st st' : Store) (gs : gmap Z (Goroutine Z)) (a : Z) : Prop := {
  hd_own : own st' gs;
  hd_same : (g_map (read_rec (s_mem st')) <$> gs) = (g_map (read_rec (s_mem st)) <$> gs);
  hd_here : is_Some (m_obj (s_mem st') !! a);
  hd_clean : read_rec (s_mem st') a = fresh_record;
  hd_pool : a ∉ s_pool st';
  hd_free : forall t g, gs !! t = Some g -> pc_handle (g_pc g) <> Some a
}.

Lemma alloc_handed st gs b m1 :
  own st gs -> alloc_rec (s_mem st) = (b, m1) -> handed st (mkStore (rec_hdr (set_pooled true) b m1) (s_pool st)) gs b.
Proof.
  intros Ho E. pose proof Ho as [O1 O2 O3 O4 O5]. destruct (alloc_spec _ _ _ O1 E) as (W & Hn & Hs & Hr & Hf).
  pose proof (hdr_acts _ b m1 (scalar_set_pooled true) W Hs) as [A1 A2 A3 A4 A5].
  assert (Hnh : forall t g, gs !! t = Some g -> pc_handle (g_pc g) <> Some b).
  { intros t g Hg Hh. destruct (O4 t g b Hg Hh) as ([x Hx] & _). congruence. }
  assert (Hnp : b ∉ s_pool st) by (intros Hin; destruct (O3 b Hin) as [[x Hx] _]; congruence).
  assert (Hact : acts (s_mem st) b fresh_record (rec_hdr (set_pooled true) b m1)).
  { split; [done|by rewrite A2, Hr|done|intros c Hc; rewrite A4 by done; by apply Hf|].
    intros c Hc Hsc. destruct (Hf c Hc) as [Hf1 Hf2]. rewrite A5; [done|done|by rewrite Hf1]. }
  destruct (own_frame st gs _ (s_pool st) b fresh_record Ho Hact O2) as [H1 H2]; [|done|].
  { intros c Hc. split; [|done]. intros ->. done. }
  split; cbn [s_mem s_pool]; try done. exact (ac_read _ _ _ _ Hact).
Qed.

Lemma delete_nodup_elem {A} (l : list A) i b c : NoDup l -> l !! i = Some b -> c ∈ delete i l -> c <> b /\ c ∈ l.
Proof.
  intros Hnd Ei Hin. rewrite (delete_take_drop l i) in Hin. rewrite <-(take_drop_middle l i b Ei) in Hnd |- *.
  apply NoDup_app in Hnd as (_ & Hd & [Hb _]%NoDup_cons). apply elem_of_app in Hin as [Hin|Hin].
  - split; [intros ->; apply (Hd b Hin); by left|apply elem_of_app; by left].
  - split; [intros ->; done|apply elem_of_app; right; by right].
Qed.

Lemma pool_handed st gs i b :
  own st gs -> s_pool st !! i = Some b ->
  handed st (mkStore (rec_hdr (set_pooled true) b (s_mem st)) (delete i (s_pool st))) gs b.
Proof.
  intros Ho Ei. pose proof Ho as [O1 O2 O3 O4 O5]. destruct (O3 b (list_elem_of_lookup_2 _ _ _ Ei)) as [Hs Hc].
  pose proof (hdr_acts _ b (s_mem st) (scalar_set_pooled true) O1 Hs) as Hact. rewrite Hc in Hact.
  assert (Hnh : forall t g, gs !! t = Some g -> pc_handle (g_pc g) <> Some b).
  { intros t g Hg Hh. destruct (O4 t g b Hg Hh) as (_ & _ & Hx). apply Hx. by eapply list_elem_of_lookup_2. }
  assert (Hnd : NoDup (delete i (s_pool st))) by (eapply sublist_NoDup; [exact O2|apply sublist_delete]).
  destruct (own_frame st gs _ (delete i (s_pool st)) b _ Ho Hact Hnd (fun c => delete_nodup_elem _ i b c O2 Ei) Hnh) as [H1 H2].
  split; cbn [s_mem s_pool]; try done; [by destruct Hact|exact (ac_read _ _ _ _ Hact)|]. intros Hin. by destruct (delete_nodup_elem _ i b b O2 Ei Hin).
Qed.

Lemma own_new st gs pick a st' : own st gs -> mem_newRecord pick st = (a, st') -> handed st st' gs a.
Proof.
  intros Ho. unfold mem_newRecord. destruct (alloc_rec (s_mem st)) as [b m1] eqn:E.
  destruct pick as [i|]; [destruct (s_pool st !! i) as [c|] eqn:Ei|]; intros [= <- <-]; (by apply pool_handed) || (by apply alloc_handed).
Qed.

(** Goroutine [t] gives its record back and returns. *)
Lemma own_release st gs t g a :
  own st gs -> gs !! t = Some g -> pc_handle (g_pc g) = Some a ->
  own (mem_release a st) (delete t gs) /\
  (g_map (read_rec (s_mem (mem_release a st))) <$> delete t gs) = delete t (g_map (read_rec (s_mem st)) <$> gs).
Proof.
  intros Ho Hg Ha. pose proof Ho as [O1 O2 O3 O4 O5]. destruct (O4 t g a Hg Ha) as (Hs & Hp & Hnp).
  unfold mem_release. change (r_pooled (o_hdr (obj_at (s_mem st) a))) with (r_pooled (read_rec (s_mem st) a)). rewrite Hp.
  cbn [negb s_mem]. pose proof (reset_acts a (s_mem st) O1 Hs) as Hact.
  assert (Hsub : own st (delete t gs)).
  { apply (own_sub st gs); [done|]. intros t' g' b [_ Hg']%lookup_delete_Some Hb. eauto. }
  assert (Hnh : forall t' g', delete t gs !! t' = Some g' -> pc_handle (g_pc g') <> Some a).
  { intros t' g' [Ht Hg']%lookup_delete_Some Hb. by apply Ht, (O5 t t' g g' a). }
  destruct (own_frame st (delete t gs) _ (s_pool st) a _ Hsub Hact O2) as [[P1 P2 P3 P4 P5] H2]; [|done|].
  { intros c Hc. split; [|done]. intros ->. done. }
  cbn [s_mem s_pool] in *. split; [split; cbn [s_mem s_pool]; try done|by rewrite H2, fmap_delete].
  - by apply NoDup_cons.
  - intros b [->|Hb]%elem_of_cons; [|by apply P3]. split; [by destruct Hact|]. rewrite (ac_read _ _ _ _ Hact). unfold reset. by rewrite Hp.
  - intros t' g' b Hg' Hb. destruct (P4 t' g' b Hg' Hb) as (H1 & H3 & H4). split_and!; try done.
    intros [->|Hin]%elem_of_cons; [by apply (Hnh t' g')|done].
Qed.

Lemma own_gc st gs i : own st gs -> own (mkStore (s_mem st) (delete i (s_pool st))) gs.
Proof.
  intros [O1 O2 O3 O4 O5]. assert (Hd : forall a, a ∈ delete i (s_pool st) -> a ∈ s_pool st).
  { intros a Ha. by eapply list_elem_of_delete_inv. }
  split; cbn [s_mem s_pool]; try done.
  - eapply sublist_NoDup; [exact O2|apply sublist_delete].
  - intros a Ha%Hd. by apply O3.
  - intros t g a Hg Ha. destruct (O4 t g a Hg Ha) as (H1 & H2 & H3). split_and!; [done|done|]. by intros Hx%Hd.
Qed.

(** ** Refinement *)
Section Refines.
Context {env : GoEnv}.
Implicit Types (s : CSys Store Z) (t : Z) (g : Goroutine Z).

Abbreviation rd s := (read_rec (s_mem (y_store s))).
Definition owned s : Prop := own (y_store s) (y_gs s).

Lemma goto_refines s t g a r m' pc :
  owned s -> y_gs s !! t = Some g -> pc_handle (g_pc g) = Some a -> acts (s_mem (y_store s)) a r m' -> r_pooled r = true ->
  pc_handle pc = Some a ->
  owned (y_goto t g pc (mkStore m' (s_pool (y_store s))) s) /\
  abs (y_goto t g pc (mkStore m' (s_pool (y_store s))) s) = y_goto t (g_map (rd s) g) (pc_map (fun _ => r) pc) tt (abs s).
Proof.
  intros Ho Hg Ha Hact Hr Hpc. destruct (own_update _ _ t g a r m' pc Ho Hg Ha Hact Hr Hpc) as [H1 H2].
  split; [exact H1|]. unfold abs, y_goto. cbn [y_gs y_store s_mem y_lv y_ps y_metrics]. by rewrite H2.
Qed.

Lemma move_refines s t g a pc :
  owned s -> y_gs s !! t = Some g -> pc_handle (g_pc g) = Some a -> pc_handle pc = Some a ->
  owned (y_goto t g pc (y_store s) s) /\
  abs (y_goto t g pc (y_store s) s) = y_goto t (g_map (rd s) g) (pc_map (rd s) pc) tt (abs s).
Proof.
  intros Ho Hg Ha Hpc. destruct (ow_held _ _ Ho t g a Hg Ha) as (Hs & Hp & _).
  assert (Hact : acts (s_mem (y_store s)) a (rd s a) (s_mem (y_store s))) by (split; [by destruct Ho|done..]).
  destruct (goto_refines s t g a (rd s a) _ pc Ho Hg Ha Hact Hp Hpc) as [H1 H2].
  assert (mkStore (s_mem (y_store s)) (s_pool (y_store s)) = y_store s) as E by (by destruct (y_store s)). rewrite E in H1, H2.
  split; [done|]. rewrite H2. f_equal. apply pc_map_ext. intros h. rewrite Hpc. by intros [= <-].
Qed.

Lemma done_refines s t : owned s -> owned (y_done t (y_store s) s) /\ abs (y_done t (y_store s) s) = y_done t tt (abs s).
Proof.
  intros Ho. split.
  - apply (own_sub _ _ _ Ho). intros t' g' a; cbn [y_done y_gs]; intros [_ Hg]%lookup_delete_Some Ha. by exists g'.
  - unfold abs, y_done. cbn [y_gs y_store s_mem y_lv y_ps y_metrics]. by rewrite fmap_delete.
Qed.

Lemma start_refines s t g : owned s -> g_pc g = CStart ->
  owned (y_goto t g CNew (y_store s) s) /\ abs (y_goto t g CNew (y_store s) s) = y_goto t (g_map (rd s) g) CNew tt (abs s).
Proof.
  intros Ho Hpc. split.
  - apply (own_sub _ _ _ Ho). intros t' g' a; cbn [y_goto y_gs]; intros [[<- <-]|[Ht Hg]]%lookup_insert_Some Ha; [done|by exists g'].
  - unfold abs, y_goto. cbn [y_gs y_store s_mem y_lv y_ps y_metrics]. by rewrite fmap_insert.
Qed.

Lemma scalar_fill ce c : scalar (fill ce c).
Proof. intros fs r. by destruct c. Qed.
Lemma scalar_set_PC pc : scalar (set_PC pc).
Proof. done. Qed.
Lemma fill_pooled ce c r : r_pooled (fill ce c r) = r_pooled r.
Proof. by destruct c. Qed.

(** A step with a record in hand writes it or only moves on. *)
Ltac refined H1 H2 := split; [exact H1|exact (f_equal (fun x => (x, _)) (eq_sym H2))].
Ltac writes s t g a pc act Ho Hg Ha :=
  let H1 := fresh in let H2 := fresh in
  destruct (goto_refines s t g a _ _ pc Ho Hg Ha act) as [H1 H2]; [by rewrite ?fill_pooled|done|refined H1 H2].
Ltac moves s t g a pc Ho Hg Ha :=
  let H1 := fresh in let H2 := fresh in destruct (move_refines s t g a pc Ho Hg Ha eq_refl) as [H1 H2]; refined H1 H2.

Lemma new_refines s t g pick extra s' os :
  owned s -> y_gs s !! t = Some g -> g_pc g = CNew -> call_step t g pick extra s = (s', os) ->
  owned s' /\ call_step t (g_map (rd s) g) pick extra (abs s) = (abs s', os).
Proof.
  intros Ho Hg Hpc. unfold call_step. cbn [g_map g_ce g_l g_c g_pc]. rewrite Hpc. cbn [pc_map rs_new mem_store val_store].
  destruct (mem_newRecord pick (y_store s)) as [a st] eqn:E. intros [= <- <-].
  destruct (own_new _ _ _ _ _ Ho E) as [H1 H2 H3 H4 H5 H6]. split; [by apply own_take|].
  unfold abs, y_goto. cbn [y_gs y_store s_mem y_lv y_ps y_metrics]. rewrite fmap_insert, H2. by rewrite <-H4.
Qed.

Lemma call_step_refines s t g pick extra s' os :
  owned s -> y_gs s !! t = Some g -> call_step t g pick extra s = (s', os) ->
  owned s' /\ call_step t (g_map (rd s) g) pick extra (abs s) = (abs s', os).
Proof.
  intros Ho Hg. destruct (pc_handle (g_pc g)) as [a|] eqn:Ha.
  - destruct (ow_held _ _ Ho t g a Hg Ha) as (Hs & Hp & _). pose proof (ow_wf _ _ Ho) as Hw.
    unfold call_step. cbn [g_map g_ce g_l g_c g_pc]. destruct (g_pc g) as [| |b|b|b|b|b i|b|b|b|b] eqn:Hpc; try done; simplify_eq Ha; intros ->.
    all: rewrite <-Hpc in Ha; cbn [pc_map rs_set rs_append rs_process rs_read rs_release mem_store val_store].
    + intros [= <- <-]. writes s t g a (CWith a) (hdr_acts _ a _ (scalar_fill (g_ce g) (g_c g)) Hw Hs) Ho Hg Ha.
    + destruct (0 <? _)%nat; intros [= <- <-]; [writes s t g a (CArgs a) (append_acts extra (l_with (g_l g)) a _ Hw Hs) Ho Hg Ha|].
      moves s t g a (CArgs a) Ho Hg Ha.
    + intros [= <- <-]. writes s t g a (CCaller a) (append_acts extra (call_fields (g_c g)) a _ Hw Hs) Ho Hg Ha.
    + destruct (caller_pc _ _ _) as [pc|]; intros [= <- <-]; [writes s t g a (CPipe a 0) (hdr_acts _ a _ (scalar_set_PC pc) Hw Hs) Ho Hg Ha|].
      moves s t g a (CPipe a 0) Ho Hg Ha.
    + cbn [abs y_ps]. destruct (y_ps s !! i) as [p|]; [|intros [= <- <-]; moves s t g a (CEmitted a) Ho Hg Ha].
      destruct (mem_Process _ p _ extra a _) as [[p' m'] e] eqn:E. intros [= <- <-].
      destruct (process_acts _ _ _ _ _ _ _ _ _ Hw Hs E) as (r' & -> & Hact). destruct e as [e|].
      * writes (y_processor i p' s) t g a (CDropped a) Hact Ho Hg Ha.
      * writes (y_processor i p' s) t g a (CPipe a (i + 1)) Hact Ho Hg Ha.
    + intros [= <- <-]. moves (y_count incDropped s) t g a (CRelease a) Ho Hg Ha.
    + intros [= <- <-]. moves (y_count (incEmitted (call_level (g_c g))) s) t g a (CDispatch a) Ho Hg Ha.
    + intros [= <- <-]. moves s t g a (CRelease a) Ho Hg Ha.
    + intros [= <- <-]. destruct (own_release _ _ t g a Ho Hg Ha) as [H1 H2]. split; [exact H1|].
      unfold abs, y_done. cbn [y_gs y_store s_mem y_lv y_ps y_metrics rs_release mem_store val_store]. by rewrite H2.
  - destruct (g_pc g) eqn:Hpc; try done; [|by apply new_refines].
    unfold call_step. cbn [g_map g_ce g_l g_c g_pc]. rewrite Hpc. cbn [pc_map abs y_lv]. destruct (_ <? _); intros [= <- <-].
    + destruct (done_refines s t Ho) as [H1 H2]. refined H1 H2.
    + destruct (start_refines s t g Ho Hpc) as [H1 H2]. refined H1 H2.
Qed.

Lemma c_step_refines e s s' os :
  owned s -> c_step e s = Some (s', os) -> owned s' /\ c_step e (abs s) = Some (abs s', os).
Proof.
  intros Ho. destruct e as [t ce l c|t pick extra|lv level|i]; cbn [c_step].
  - cbn [abs y_gs]. rewrite lookup_fmap. destruct (y_gs s !! t) as [g|] eqn:Hg; [done|]. intros [= <- <-]. split.
    + apply (own_sub _ _ _ Ho). intros t' g' a; cbn [y_gs]; intros [[<- <-]|[Ht Hg']]%lookup_insert_Some Ha; [done|by exists g'].
    + cbn [fmap option_fmap option_map]. unfold abs. cbn [y_store y_lv y_ps y_metrics y_gs]. by rewrite fmap_insert.
  - cbn [abs y_gs]. rewrite lookup_fmap. destruct (y_gs s !! t) as [g|] eqn:Hg; [|done]. cbn [fmap option_fmap option_map].
    destruct (call_step t g pick extra s) as [s1 o1] eqn:E. intros [= <- <-].
    destruct (call_step_refines s t g pick extra s1 o1 Ho Hg E) as [H1 H2]. split; [done|]. by rewrite <-H2.
  - intros [= <- <-]. done.
  - intros [= <- <-]. split; [by apply own_gc|done].
Qed.

Lemma owned_start lv ps : owned (mem_start lv ps).
Proof.
  split; cbn [mem_start y_store y_gs s_mem s_pool].
  - split; simpl; [lia|done|done|intros a o; by rewrite lookup_empty|intros a b o o'; by rewrite lookup_empty].
  - constructor.
  - intros a Ha. by apply not_elem_of_nil in Ha.
  - intros t g a. by rewrite lookup_empty.
  - intros t t' g g' a. by rewrite lookup_empty.
Qed.

Lemma run_refines es s s' tr :
  owned s -> run_steps c_step es s = Some (s', tr) -> owned s' /\ run_steps c_step es (abs s) = Some (abs s', tr).
Proof.
  revert s tr. induction es as [|e es IH]; intros s tr Ho; simpl; [by intros [= <- <-]|].
  destruct (c_step e s) as [[s1 o1]|] eqn:E; [|done]. destruct (run_steps c_step es s1) as [[s2 o2]|] eqn:E2; [|done].
  intros [= <- <-]. destruct (c_step_refines e s s1 o1 Ho E) as [H1 ->]. by destruct (IH s1 o2 H1 E2) as [H2 ->].
Qed.

Lemma c_step_enabled e s : c_step e s = None -> c_step e (abs s) = None.
Proof.
  destruct e as [t ce l c|t pick extra|lv level|i]; cbn [c_step abs y_gs]; try done; rewrite lookup_fmap; by destruct (y_gs s !! t).
Qed.

Lemma run_commutes es s :
  owned s -> run_steps c_step es (abs s) = (fun '(s', tr) => (abs s', tr)) <$> run_steps c_step es s.
Proof.
  revert s. induction es as [|e es IH]; intros s Ho; [done|]. cbn [run_steps].
  destruct (c_step e s) as [[s1 o1]|] eqn:E; [|by rewrite (c_step_enabled e s E)].
  destruct (c_step_refines e s s1 o1 Ho E) as [H1 ->]. rewrite (IH s1 H1). by destruct (run_steps c_step es s1) as [[s2 o2]|].
Qed.

(** C3. Pooling is invisible under concurrency: for every schedule of any number of
    goroutines inside log, eventAt and logAt, every choice of the pool and of append, and
    every moment at which the collector empties the pool, the run on pooled records and
    reused backing arrays is, step by step, the run in which every call has a record of
    its own: the same steps are possible, the same records are dispatched in the same
    order, and levels, processors, counters and every record a call holds are equal. *)
Theorem conc_pool_refines es lv ps :
  run_steps c_step es (val_start lv ps) = (fun '(s, tr) => (abs s, tr)) <$> run_steps c_step es (mem_start lv ps).
Proof. apply (run_commutes es (mem_start lv ps)), owned_start. Qed.

(** C9. A record has one user: whatever the schedule, no two calls hold the same record,
    a record in the pool is held by nobody and is clean (no time, level, message, event
    name, caller, fields or context), it is pooled once, and two records never share a
    backing array with slots. *)
Theorem conc_records_exclusive es lv ps s tr :
  run_steps c_step es (mem_start lv ps) = Some (s, tr) ->
  (forall t t' g g' a, y_gs s !! t = Some g -> y_gs s !! t' = Some g' -> pc_handle (g_pc g) = Some a -> pc_handle (g_pc g') = Some a -> t = t') /\
  NoDup (s_pool (y_store s)) /\
  (forall a, a ∈ s_pool (y_store s) -> read_rec (s_mem (y_store s)) a = fresh_record /\
     forall t g, y_gs s !! t = Some g -> pc_handle (g_pc g) <> Some a) /\
  (forall a b o o', m_obj (s_mem (y_store s)) !! a = Some o -> m_obj (s_mem (y_store s)) !! b = Some o' ->
     sl_arr (o_sl o) = sl_arr (o_sl o') -> a = b \/ arr_at (s_mem (y_store s)) (sl_arr (o_sl o)) = []).
Proof.
  intros E. destruct (run_refines es _ s tr (owned_start lv ps) E) as [[O1 O2 O3 O4 O5] _]. split_and!; [done|done| |].
  - intros a Ha. split; [by apply O3|]. intros t g Hg Hh. by destruct (O4 t g a Hg Hh) as (_ & _ & ?).
  - intros a b o o' Ha Hb Hs. destruct (wm_sep _ O1 a b o o' Ha Hb Hs) as [|E0]; [by left|right]. rewrite E0. apply O1.
Qed.
End Refines.
