(* ===== verification/ConcCalls.v ===== *)
(** * What concurrent log calls do (logger.go, handler.go, record.go, processor.go)

    Theorems about every schedule of the system of ConcLogger.v, on pooled memory: what
    is dispatched is the pipeline's result for a call that was made, the counters count
    each call once, and those by level are indexed within bounds and exact. *)
From S2P Require Import Prelude GoStd Level Field Record Redaction Sampling Dedup Pipeline Memory Sink Transport Logger ConcLogger.
Import GoTime.
Local Open Scope Z_scope.

(** The pipeline as a function: every processor's record, or nothing when one drops it. *)
Definition pipe_step {env : GoEnv} (now : Time) (ctx : option Context) (o : option LogRecord) (p : Processor) : option LogRecord :=
  match o with
  | Some r => match Process now p ctx r with (_, r', None) => Some (set_pooled (r_pooled r) r') | _ => None end
  | None => None
  end.
Definition pipe_value {env : GoEnv} (now : Time) (ctx : option Context) (ps : list Processor) (r : LogRecord) : option LogRecord :=
  fold_left (pipe_step now ctx) ps (Some r).

(** The same processor, its counters and windows apart. *)
Definition proc_like (p q : Processor) : Prop :=
  match p, q with
  | PSample a, PSample b => First a = First b /\ Thereafter a = Thereafter b /\ NeverBelow a = NeverBelow b
  | PDedup a, PDedup b => Window a = Window b
  | _, _ => p = q
  end.
#[export] Instance proc_like_equiv : Equivalence proc_like.
Proof.
  split.
  - intros []; simpl; done.
  - intros [] []; simpl; intros; try done; intuition congruence.
  - intros [] [] []; simpl; intros; try done; try intuition congruence.
Qed.

(** The call [c] may dispatch [r]: with each processor in some state. *)
Definition passed {env : GoEnv} (ps : list Processor) (ce : CallEnv) (l : Logger) (c : Call) (r : LogRecord) : Prop :=
  exists ps', Forall2 proc_like ps ps' /\ pipe_value (ce_pipe ce) (Some (call_ctx c)) ps' (call_record ce l c) = Some r.

Section Values.
Context {env : GoEnv}.
Implicit Types (s : CSys unit LogRecord) (t : Z) (g : Goroutine LogRecord).

Lemma Process_like now p ctx r p' r' e : Process now p ctx r = (p', r', e) -> proc_like p p'.
Proof.
  destruct p as [q|q|q|q|q|f]; simpl.
  - by intros [= <- _ _].
  - by intros [= <- _ _].
  - unfold SampleProcessor_Process. repeat case_if; by intros [= <- _ _].
  - unfold DedupProcessor_Process. repeat case_if; by intros [= <- _ _].
  - by intros [= <- _ _].
  - destruct (f ctx r). by intros [= <- _ _].
Qed.

(** The value of a call's record wherever the call is. *)
Definition pc_ok (ps : list Processor) (g : Goroutine LogRecord) : Prop :=
  let '(ce, l, c) := (g_ce g, g_l g, g_c g) in
  match g_pc g with
  | CFill r => r = fresh_record
  | CWith r => r = fill ce c fresh_record
  | CArgs r => r = set_Fields (l_with l) (fill ce c fresh_record)
  | CCaller r => r = set_Fields (l_with l ++ call_fields c) (fill ce c fresh_record)
  | CPipe r i => passed (take i ps) ce l c r /\ (i <= length ps)%nat
  | CEmitted r | CDispatch r => passed ps ce l c r
  | CStart | CNew | CDropped _ | CRelease _ => True
  end.

Record vinv (ps : list Processor) (made : Z -> CallEnv -> Logger -> Call -> Prop) (s : CSys unit LogRecord) (tr : list CObs) : Prop := {
  vi_ps : Forall2 proc_like ps (y_ps s);
  vi_gs : forall t g, y_gs s !! t = Some g -> made t (g_ce g) (g_l g) (g_c g) /\ pc_ok ps g;
  vi_tr : forall t r, OPass t r ∈ tr -> exists ce l c, made t ce l c /\ passed ps ce l c r
}.

Lemma call_record_eq ce l c :
  call_record ce l c =
  (match caller_pc ce l c with Some pc => set_PC pc | None => id end) (set_Fields (l_with l ++ call_fields c) (fill ce c fresh_record)).
Proof. destruct c as [ctx lv msg fs|ctx lv name fs|ctx t lv msg fs]; simpl; by try destruct (l_addCaller l). Qed.

Lemma goto_vinv ps made s tr t g pc st os :
  vinv ps made s tr -> y_gs s !! t = Some g -> pc_ok ps (mkG (g_ce g) (g_l g) (g_c g) pc) ->
  (forall t' r, OPass t' r ∈ os -> t' = t /\ passed ps (g_ce g) (g_l g) (g_c g) r) ->
  vinv ps made (y_goto t g pc st s) (tr ++ os).
Proof.
  intros [V1 V2 V3] Hg Hpc Hos. destruct (V2 t g Hg) as [Hm _]. split; [done| |].
  - intros t' g'; cbn [y_goto y_gs]. intros [[<- <-]|[Ht Hg']]%lookup_insert_Some; [by split|by apply V2].
  - intros t' r [Hin|Hin]%elem_of_app; [by apply V3|]. destruct (Hos t' r Hin) as [-> Hp]. eauto.
Qed.

Lemma move_vinv ps made s tr t g pc st :
  vinv ps made s tr -> y_gs s !! t = Some g -> pc_ok ps (mkG (g_ce g) (g_l g) (g_c g) pc) ->
  vinv ps made (y_goto t g pc st s) (tr ++ []).
Proof. intros. apply goto_vinv; [done..|]. by intros t' r ?%elem_of_nil. Qed.

Lemma done_vinv ps made s tr t st os :
  vinv ps made s tr -> (forall t' r, OPass t' r ∉ os) -> vinv ps made (y_done t st s) (tr ++ os).
Proof.
  intros [V1 V2 V3] Hos. split; [done| |].
  - intros t' g'; cbn [y_done y_gs]. intros [_ Hg]%lookup_delete_Some. by apply V2.
  - intros t' r [Hin|Hin]%elem_of_app; [by apply V3|by destruct (Hos t' r)].
Qed.

(** One more processor, whatever its state. *)
Lemma passed_snoc ps ps' ce l c r i p p' r' :
  Forall2 proc_like ps ps' -> ps' !! i = Some p -> passed (take i ps) ce l c r ->
  Process (ce_pipe ce) p (Some (call_ctx c)) r = (p', r', None) ->
  passed (take (i + 1) ps) ce l c (set_pooled (r_pooled r) r') /\ (i + 1 <= length ps)%nat.
Proof.
  intros Hl Hi (qs & Hqs & Hv) Hp. destruct (Forall2_lookup_r _ _ _ _ _ Hl Hi) as (p0 & Hp0 & Hlike).
  split; [|apply lookup_lt_Some in Hp0; lia]. exists (qs ++ [p]). split.
  - rewrite Nat.add_1_r, (take_S_r _ _ _ Hp0). by apply Forall2_app; [|constructor].
  - unfold pipe_value in *. rewrite fold_left_app, Hv. cbn [fold_left pipe_step]. by rewrite Hp.
Qed.

Lemma processor_vinv ps made s tr i p p' ctx now r r' e :
  vinv ps made s tr -> y_ps s !! i = Some p -> Process now p ctx r = (p', r', e) -> vinv ps made (y_processor i p' s) tr.
Proof.
  intros [V1 V2 V3] Hi Hp. split; [|done|done]. cbn [y_processor y_ps].
  destruct (Forall2_lookup_r _ _ _ _ _ V1 Hi) as (p0 & Hp0 & Hlike). rewrite <-(list_insert_id ps i p0 Hp0).
  apply Forall2_insert; [done|]. etransitivity; [exact Hlike|]. by eapply Process_like.
Qed.

Lemma vinv_count ps made s tr f : vinv ps made s tr -> vinv ps made (y_count f s) tr.
Proof. by intros [V1 V2 V3]. Qed.

Lemma call_vinv ps made s tr t g pick extra s' os :
  vinv ps made s tr -> y_gs s !! t = Some g -> call_step t g pick extra s = (s', os) -> vinv ps made s' (tr ++ os).
Proof.
  intros Hv Hg. destruct (vi_gs _ _ _ _ Hv t g Hg) as [_ Hok]. unfold pc_ok in Hok. unfold call_step.
  destruct (g_pc g) as [| |r|r|r|r|r i|r|r|r|r];
    cbn [rs_new rs_set rs_append rs_process rs_read rs_release val_store].
  - destruct (_ <? _); intros [= <- <-]; [apply done_vinv; [done|by intros ? ? ?%list_elem_of_singleton]|by apply move_vinv].
  - intros [= <- <-]. by apply move_vinv.
  - intros [= <- <-]. apply move_vinv; [done|done|]. by rewrite Hok.
  - intros E. assert (s' = y_goto t g (CArgs (set_Fields (l_with (g_l g)) r)) (y_store s) s /\ os = []) as [-> ->].
    { destruct (Nat.ltb_spec 0 (length (l_with (g_l g)))) as [Hl|Hl]; revert E; intros [= <- <-]; rewrite Hok; [by destruct (g_c g)|].
      destruct (l_with (g_l g)); [by destruct (g_c g)|simpl in Hl; lia]. }
    apply move_vinv; [done|done|]. by rewrite Hok.
  - intros [= <- <-]. apply move_vinv; [done|done|]. by rewrite Hok.
  - intros E. assert (s' = y_goto t g (CPipe (call_record (g_ce g) (g_l g) (g_c g)) 0) (y_store s) s /\ os = []) as [-> ->].
    { revert E. rewrite call_record_eq, <-Hok. by destruct (caller_pc _ _ _); intros [= <- <-]. }
    apply move_vinv; [done|done|]. split; [|lia]. exists []. by rewrite take_0.
  - destruct Hok as [Hp Hi]. destruct (y_ps s !! i) as [p|] eqn:Ei.
    + destruct (Process _ p _ r) as [[p' r'] e] eqn:E. intros [= <- <-].
      apply move_vinv; [by eapply processor_vinv|done|]. destruct e; [done|]. by eapply passed_snoc; [apply Hv|..].
    + intros [= <- <-]. apply move_vinv; [done|done|]. cbn. apply lookup_ge_None in Ei. rewrite <-(Forall2_length _ _ _ (vi_ps _ _ _ _ Hv)) in Ei.
      by rewrite take_ge in Hp.
  - intros [= <- <-]. apply move_vinv; [by apply vinv_count|done|done].
  - intros [= <- <-]. apply move_vinv; [by apply vinv_count|done|done].
  - intros [= <- <-]. apply goto_vinv; [done|done|done|]. intros t' r' [= -> ->]%list_elem_of_singleton. done.
  - intros [= <- <-]. apply done_vinv; [done|by intros ? ? ?%list_elem_of_singleton].
Qed.

Lemma c_step_vinv ps (made : Z -> CallEnv -> Logger -> Call -> Prop) e s tr s' os :
  match e with CECall t ce l c => made t ce l c | _ => True end ->
  vinv ps made s tr -> c_step e s = Some (s', os) -> vinv ps made s' (tr ++ os).
Proof.
  intros He Hv. destruct e as [t ce l c|t pick extra|lv level|i]; cbn [c_step].
  - destruct (y_gs s !! t); [done|]. intros [= <- <-]. rewrite app_nil_r. destruct Hv as [V1 V2 V3]. split; try done.
    intros t' g'; cbn [y_gs]. intros [[<- <-]|[Ht Hg']]%lookup_insert_Some; [done|by apply V2].
  - destruct (y_gs s !! t) as [g|] eqn:Hg; [|done]. cbn. intros [= E]. by eapply call_vinv.
  - intros [= <- <-]. rewrite app_nil_r. by destruct Hv.
  - intros [= <- <-]. rewrite app_nil_r. by destruct Hv.
Qed.

Lemma run_vinv es lv ps s' tr :
  run_steps c_step es (val_start lv ps) = Some (s', tr) -> vinv ps (fun t ce l c => CECall t ce l c ∈ es) s' tr.
Proof.
  intros E. rewrite <-(app_nil_l tr). eapply (run_inv c_step _ (fun e => e ∈ es)); [|apply Forall_forall; by intros|..|exact E].
  - intros e s tr0 s1 os He. apply c_step_vinv. by destruct e.
  - split; cbn [val_start y_ps y_gs]; [by apply reflexivity|by intros t g; rewrite lookup_empty|by intros t r ?%elem_of_nil].
Qed.
End Values.

(** ** Counters *)
Definition is_pass (o : CObs) : bool := match o with OPass _ _ => true | _ => false end.
Definition is_return (o : CObs) : bool := match o with OReturn _ => true | _ => false end.
Definition seen_obs (f : CObs -> bool) (tr : list CObs) : nat := length (List.filter f tr).
(** Counted as emitted, the record not dispatched yet; counted, but not returned yet. *)
Definition at_dispatch {H} (g : Goroutine H) : bool := match g_pc g with CDispatch _ => true | _ => false end.
Definition at_end {H} (g : Goroutine H) : bool := match g_pc g with CDispatch _ | CRelease _ => true | _ => false end.

Section Counters.
Context {env : GoEnv} {S H : Type} `{!RecStore S H}.
Implicit Types (s : CSys S H) (g : Goroutine H).

Definition counted s (tr : list CObs) : Prop :=
  emittedCount (y_metrics s) = u64 (Z.of_nat (seen_obs is_pass tr + mcount at_dispatch (y_gs s))) /\
  u64 (emittedCount (y_metrics s) + droppedCount (y_metrics s)) = u64 (Z.of_nat (seen_obs is_return tr + mcount at_end (y_gs s))).

Lemma seen_app f tr os : seen_obs f (tr ++ os) = (seen_obs f tr + seen_obs f os)%nat.
Proof. unfold seen_obs. by rewrite List.filter_app, length_app. Qed.

Lemma u64_next a b : u64 a = u64 b -> forall c, c = a + 1 -> u64 c = u64 (b + 1).
Proof. intros E c ->. by rewrite <-u64_add_l, E, u64_add_l. Qed.

Lemma call_counted s tr t g pick extra s' os :
  counted s tr -> y_gs s !! t = Some g -> call_step t g pick extra s = (s', os) -> counted s' (tr ++ os).
Proof.
  unfold counted. intros [H1 H2] Hg. rewrite (mcount_lookup at_dispatch _ _ _ Hg) in H1. rewrite (mcount_lookup at_end _ _ _ Hg) in H2.
  rewrite !seen_app. unfold at_dispatch, at_end in *.
  set (nd := mcount _ (delete t _)) in H1. set (ne := mcount _ (delete t _)) in H2. unfold call_step.
  destruct (g_pc g) as [| |h|h|h|h|h i|h|h|h|h];
    repeat match goal with
    | |- context [match ?x with _ => _ end = _] => destruct x
    end; intros [= <- <-]; cbn [y_goto y_done y_count y_processor y_gs y_metrics];
    rewrite ?mcount_insert; fold nd ne; cbn [seen_obs is_pass is_return List.filter length g_pc].
  all: try (split; [rewrite H1|rewrite H2]; f_equal; lia).
  - destruct o; (split; [rewrite H1|rewrite H2]; f_equal; lia).
  - cbn [incDropped emittedCount droppedCount]. split; [rewrite H1; f_equal; lia|].
    rewrite Z.add_comm, u64_add_l, (u64_next _ _ H2) by lia. f_equal. lia.
  - cbn [incEmitted emittedCount droppedCount]. split; [rewrite H1, u64_add_l; f_equal; lia|].
    rewrite u64_add_l, (u64_next _ _ H2) by lia. f_equal. lia.
Qed.

Lemma c_step_counted e s tr s' os : counted s tr -> c_step e s = Some (s', os) -> counted s' (tr ++ os).
Proof.
  intros Hc. destruct e as [t ce l c|t pick extra|lv level|i]; cbn [c_step].
  - destruct (y_gs s !! t) eqn:Hg; [done|]. intros [= <- <-]. rewrite app_nil_r. unfold counted in *. cbn [y_gs y_metrics].
    rewrite !mcount_insert, !delete_id by done. exact Hc.
  - destruct (y_gs s !! t) as [g|] eqn:Hg; [|done]. cbn. intros [= E]. by eapply call_counted.
  - intros [= <- <-]. by rewrite app_nil_r.
  - intros [= <- <-]. by rewrite app_nil_r.
Qed.
End Counters.

(** ** Counters by level *)
Definition pass_of (l : Level) (o : CObs) : bool := match o with OPass _ r => r_Level r =? l | _ => false end.
Definition at_dispatch_of {H} (l : Level) (g : Goroutine H) : bool := at_dispatch g && (call_level (g_c g) =? l).
(** A user's function may change the level of a record; the others do not. *)
Definition keeps_level (p : Processor) : Prop :=
  match p with PFunc f => forall ctx r, r_Level (f ctx r).1 = r_Level r | _ => True end.

(** The slot of every level the array has holds its count, and no index was out of range. *)
Definition levels_count (m : Metrics) (n : Level -> Z) : Prop :=
  m_panicked m = false /\ length (byLevel m) = 25%nat /\
  forall l, 0 <= l < 25 -> byLevel m !! Z.to_nat l = Some (u64 (n l)).

Lemma levels_zero n : (forall l, n l = 0) -> levels_count zero_metrics n.
Proof.
  intros Hn. split_and!; [done|done|]. intros l Hl. rewrite Hn. unfold zero_metrics. cbn [byLevel].
  rewrite lookup_replicate_2 by lia. done.
Qed.

Lemma levels_ext m n n' : (forall l, n l = n' l) -> levels_count m n -> levels_count m n'.
Proof. intros E (H1 & H2 & H3). split_and!; [done|done|]. intros l Hl. by rewrite <-E, H3. Qed.

Lemma levels_dropped m n : levels_count m n -> levels_count (incDropped m) n.
Proof. done. Qed.

Lemma levels_emitted lv m n :
  levels_count m n -> levels_count (incEmitted lv m) (fun l => n l + (if lv =? l then 1 else 0)).
Proof.
  intros (H1 & H2 & H3). unfold levels_count, incEmitted, array_add. rewrite H1, H2. cbn [m_panicked byLevel].
  destruct (Z.leb_spec 0 lv) as [H0|H0]; [destruct (Z.ltb_spec lv (Z.of_nat 25)) as [Hlt|Hge]|]; cbn [andb].
  - rewrite (H3 lv) by lia. cbn [fst snd]. rewrite length_insert. split_and!; [done|done|]. intros l Hl.
    destruct (Z.eqb_spec lv l) as [->|Hne].
    + rewrite list_lookup_insert_eq by lia. by rewrite u64_add_l.
    + rewrite list_lookup_insert_ne by lia. by rewrite H3, Z.add_0_r.
  - split_and!; [done|done|]. cbn [fst]. intros l Hl. destruct (Z.eqb_spec lv l); [lia|]. by rewrite H3, Z.add_0_r.
  - split_and!; [done|done|]. cbn [fst]. intros l Hl. destruct (Z.eqb_spec lv l); [lia|]. by rewrite H3, Z.add_0_r.
Qed.

Section Levels.
Context {env : GoEnv}.
Implicit Types (s : CSys unit LogRecord) (g : Goroutine LogRecord).

(** The record of a call is at the call's level once it is stamped. *)
Definition pc_level (lv : Level) (pc : CallPC LogRecord) : Prop :=
  match pc with
  | CWith r | CArgs r | CCaller r | CPipe r _ | CEmitted r | CDispatch r => r_Level r = lv
  | _ => True
  end.

Record linv s (tr : list CObs) : Prop := {
  li_ps : Forall keeps_level (y_ps s);
  li_gs : forall t g, y_gs s !! t = Some g -> pc_level (call_level (g_c g)) (g_pc g);
  li_count : levels_count (y_metrics s) (fun l => Z.of_nat (seen_obs (pass_of l) tr + mcount (at_dispatch_of l) (y_gs s)))
}.

Lemma Process_level now p ctx r p' r' e :
  keeps_level p -> Process now p ctx r = (p', r', e) -> keeps_level p' /\ r_Level r' = r_Level r.
Proof.
  intros Hp. destruct p as [q|q|q|q|q|f]; simpl.
  - by intros [= <- <- _].
  - intros [= <- <- _]. by rewrite PathRedactor_Process_omap.
  - unfold SampleProcessor_Process. repeat case_if; by intros [= <- <- _].
  - unfold DedupProcessor_Process. repeat case_if; by intros [= <- <- _].
  - intros [= <- <- _]. split; [done|]. unfold EnrichProcessor_Process. by repeat case_match.
  - pose proof (Hp ctx r) as Hl. destruct (f ctx r). by intros [= <- <- _].
Qed.

(** A goroutine moves on, or ends, while the counters say so. *)
Lemma linv_goto s tr t g pc st os f :
  linv s tr -> y_gs s !! t = Some g -> pc_level (call_level (g_c g)) pc ->
  (forall n, levels_count (y_metrics s) n ->
     levels_count (f (y_metrics s)) (fun l => n l + Z.of_nat (seen_obs (pass_of l) os +
       (if at_dispatch_of l (mkG (g_ce g) (g_l g) (g_c g) pc) then 1 else 0)) - (if at_dispatch_of l g then 1 else 0))) ->
  linv (y_goto t g pc st (y_count f s)) (tr ++ os).
Proof.
  intros [L1 L2 L3] Hg Hpc Hf. split; cbn [y_goto y_count y_ps y_gs y_metrics]; [done| |].
  - intros t' g'. intros [[<- <-]|[Ht Hg']]%lookup_insert_Some; [done|by eapply L2].
  - eapply levels_ext; [|exact (Hf _ L3)]. intros l. cbv beta. rewrite seen_app, mcount_insert, (mcount_lookup _ _ _ _ Hg).
    destruct (at_dispatch_of l g), (at_dispatch_of l (mkG _ _ _ pc)); lia.
Qed.

Lemma linv_move s tr t g pc st :
  linv s tr -> y_gs s !! t = Some g -> pc_level (call_level (g_c g)) pc ->
  at_dispatch g = false -> at_dispatch (mkG (g_ce g) (g_l g) (g_c g) pc) = false -> linv (y_goto t g pc st s) (tr ++ []).
Proof.
  intros Hi Hg Hpc H1 H2. apply (linv_goto s tr t g pc st [] id); [done..|]. intros n Hn. eapply levels_ext; [|exact Hn].
  intros l. unfold at_dispatch_of. rewrite H1, H2. cbn. lia.
Qed.

Lemma linv_done s tr t g st o :
  linv s tr -> y_gs s !! t = Some g -> at_dispatch g = false -> (forall l, pass_of l o = false) -> linv (y_done t st s) (tr ++ [o]).
Proof.
  intros [L1 L2 L3] Hg H1 Ho. split; cbn [y_done y_ps y_gs y_metrics]; [done| |].
  - intros t' g' [_ Hg']%lookup_delete_Some. by eapply L2.
  - eapply levels_ext; [|exact L3]. intros l. rewrite seen_app, (mcount_lookup _ _ _ _ Hg). unfold at_dispatch_of at 1. rewrite H1.
    assert (seen_obs (pass_of l) [o] = 0%nat) as -> by (unfold seen_obs; cbn [List.filter]; by rewrite Ho).
    cbn [andb]. lia.
Qed.

Lemma call_linv s tr t g pick extra s' os :
  linv s tr -> y_gs s !! t = Some g -> call_step t g pick extra s = (s', os) -> linv s' (tr ++ os).
Proof.
  intros Hi Hg. pose proof (li_gs _ _ Hi t g Hg) as Hl. unfold call_step.
  assert (Hmove : forall pc st, at_dispatch g = false -> pc_level (call_level (g_c g)) pc ->
    at_dispatch (mkG (g_ce g) (g_l g) (g_c g) pc) = false -> linv (y_goto t g pc st s) (tr ++ [])) by (intros; by apply linv_move).
  assert (Hd : at_dispatch g = match g_pc g with CDispatch _ => true | _ => false end) by done.
  destruct (g_pc g) as [| |r|r|r|r|r i|r|r|r|r]; cbn [rs_new rs_set rs_append rs_process rs_read rs_release val_store pc_level] in *.
  - destruct (_ <? _); intros [= <- <-]; [by eapply linv_done|by apply Hmove].
  - intros [= <- <-]. by apply Hmove.
  - intros [= <- <-]. apply Hmove; [done| |done]. by destruct (g_c g).
  - case_if; intros [= <- <-]; by apply Hmove.
  - intros [= <- <-]. by apply Hmove.
  - destruct (caller_pc _ _ _); intros [= <- <-]; by apply Hmove.
  - destruct (y_ps s !! i) as [p|] eqn:Ei; [|intros [= <- <-]; by apply Hmove].
    destruct (Process _ p _ r) as [[p' r'] e] eqn:E. intros [= <- <-].
    destruct (Process_level _ _ _ _ _ _ _ (Forall_lookup_1 _ _ _ _ (li_ps _ _ Hi) Ei) E) as [Hp' Hr'].
    apply (linv_move (y_processor i p' s)); [|done|by destruct e; [|cbn; congruence]|done|by destruct e].
    destruct Hi as [L1 L2 L3]. split; [by apply Forall_insert|done..].
  - intros [= <- <-]. apply (linv_goto s tr t g _ _ [] incDropped); [done..|]. intros n Hn.
    eapply levels_ext; [|exact (levels_dropped _ _ Hn)]. intros l. unfold at_dispatch_of. rewrite Hd. cbn. lia.
  - intros [= <- <-]. apply (linv_goto s tr t g _ _ [] (incEmitted (call_level (g_c g)))); [done..|]. intros n Hn.
    eapply levels_ext; [|exact (levels_emitted _ _ _ Hn)]. intros l. unfold at_dispatch_of. rewrite Hd. cbn. case_if; lia.
  - intros [= <- <-]. apply (linv_goto s tr t g _ _ [OPass t r] id); [done..|]. intros n Hn.
    eapply levels_ext; [|exact Hn]. intros l. unfold at_dispatch_of, seen_obs. rewrite Hd. cbn. rewrite Hl. case_if; cbn; lia.
  - intros [= <- <-]. by eapply linv_done.
Qed.

Lemma c_step_linv e s tr s' os : linv s tr -> c_step e s = Some (s', os) -> linv s' (tr ++ os).
Proof.
  intros Hv. destruct e as [t ce l c|t pick extra|lv level|i]; cbn [c_step].
  - destruct (y_gs s !! t) eqn:Hg; [done|]. intros [= <- <-]. rewrite app_nil_r. destruct Hv as [L1 L2 L3]. split; cbn [y_gs y_metrics]; [done| |].
    + intros t' g'. intros [[<- <-]|[Ht Hg']]%lookup_insert_Some; [done|by eapply L2].
    + eapply levels_ext; [|exact L3]. intros l0. by rewrite mcount_insert, delete_id.
  - destruct (y_gs s !! t) as [g|] eqn:Hg; [|done]. cbn. intros [= E]. by eapply call_linv.
  - intros [= <- <-]. rewrite app_nil_r. by destruct Hv.
  - intros [= <- <-]. rewrite app_nil_r. by destruct Hv.
Qed.
End Levels.

(** ** The theorems *)
Section Theorems.
Context {env : GoEnv}.
Implicit Types (es : list CEvent) (s : CSys Store Z) (tr : list CObs).

Lemma val_run es lv ps s tr :
  run_steps c_step es (mem_start lv ps) = Some (s, tr) -> run_steps c_step es (val_start lv ps) = Some (abs s, tr).
Proof. intros E. pose proof (run_commutes es _ (owned_start lv ps)) as Hc. rewrite E in Hc. exact Hc. Qed.

Lemma pipe_value_redacted now ctx ps q r r' :
  pipe_value now ctx (ps ++ [PRedact q]) r = Some r' ->
  Forall (fun f => Key f ∈ Deny q -> Value f = VString (censored q)) (r_Fields r').
Proof.
  unfold pipe_value. rewrite fold_left_app. destruct (fold_left _ ps _) as [r1|]; [|done]. cbn. intros [= <-]. cbn.
  apply Forall_map, Forall_true. intros f. unfold redact_one. by case_bool_decide.
Qed.

Lemma passed_redacted ps q ce l c r :
  passed (ps ++ [PRedact q]) ce l c r -> Forall (fun f => Key f ∈ Deny q -> Value f = VString (censored q)) (r_Fields r).
Proof.
  intros (ps' & Hl & Hv). apply Forall2_app_inv_l in Hl as (ps1' & ps2' & _ & Hl & ->). inversion Hl as [|? p ? ? Hlike Hnil]; subst.
  inversion Hnil; subst. destruct p; simpl in Hlike; simplify_eq. by eapply pipe_value_redacted.
Qed.

(** C10. What is dispatched is what was logged: whatever the schedule, every record given
    to the transport is the pipeline's result for the record of a call that goroutine
    made (its time, level, message or event name, inherited fields before its own,
    context and caller), each processor with its own settings and in some state; and
    when the pipeline ends in the denylist redactor, no denied key has its value. *)
Theorem conc_dispatch_exact es lv ps s tr t r :
  run_steps c_step es (mem_start lv ps) = Some (s, tr) -> OPass t r ∈ tr ->
  (exists ce l c, CECall t ce l c ∈ es /\ passed ps ce l c r) /\
  forall ps1 q, ps = ps1 ++ [PRedact q] -> Forall (fun f => Key f ∈ Deny q -> Value f = VString (censored q)) (r_Fields r).
Proof.
  intros E Hin. pose proof (vi_tr _ _ _ _ (run_vinv es lv ps _ _ (val_run es lv ps s tr E)) t r Hin) as (ce & l & c & Hm & Hp).
  split; [by exists ce, l, c|]. intros ps1 q ->. by eapply passed_redacted.
Qed.

(** C17. Counters under concurrency: whatever the schedule, at every moment the emitted
    counter is the number of dispatched records plus the calls about to dispatch, and
    emitted plus dropped is the number of enabled calls that returned plus those about
    to, modulo 2^64; calls below the level count nothing. *)
Theorem conc_metrics_exact es lv ps s tr :
  run_steps c_step es (mem_start lv ps) = Some (s, tr) ->
  emittedCount (y_metrics s) = u64 (Z.of_nat (seen_obs is_pass tr + mcount at_dispatch (y_gs s))) /\
  u64 (emittedCount (y_metrics s) + droppedCount (y_metrics s)) = u64 (Z.of_nat (seen_obs is_return tr + mcount at_end (y_gs s))).
Proof.
  intros E. change (counted s ([] ++ tr)). eapply (run_inv c_step counted (fun _ => True)); [|by apply Forall_true| |exact E].
  - intros e s0 tr0 s' os _. apply c_step_counted.
  - unfold counted. cbn [mem_start y_gs y_metrics]. by rewrite !mcount_empty.
Qed.

(** C18. Counters by level under concurrency: with processors whose user functions keep a
    record's level, whatever the schedule, at every moment no call has indexed the array of
    counters out of range, and for every level 0 to 24 its counter is the number of
    dispatched records of that level plus the calls at that level about to dispatch,
    modulo 2^64; a record of any other level, which a caller may pass, is counted in no
    slot. *)
Theorem conc_by_level_exact es lv ps s tr :
  run_steps c_step es (mem_start lv ps) = Some (s, tr) -> Forall keeps_level ps ->
  m_panicked (y_metrics s) = false /\ length (byLevel (y_metrics s)) = 25%nat /\
  forall l, 0 <= l < 25 ->
    byLevel (y_metrics s) !! Z.to_nat l = Some (u64 (Z.of_nat (seen_obs (pass_of l) tr + mcount (at_dispatch_of l) (y_gs s)))).
Proof.
  intros E Hp. assert (Hs : linv (val_start lv ps) []).
  { split; cbn [val_start y_ps y_gs y_metrics]; [done|by intros t g; rewrite lookup_empty|].
    apply levels_zero. intros l. by rewrite mcount_empty. }
  assert (Hstep : forall e (s0 : CSys unit LogRecord) tr0 (s1 : CSys unit LogRecord) os, True -> linv s0 tr0 -> c_step e s0 = Some (s1, os) -> linv s1 (tr0 ++ os))
    by (intros e s0 tr0 s1 os _; apply c_step_linv).
  destruct (run_inv c_step linv (fun _ => True) es _ [] _ _ Hstep (Forall_true _ es (fun _ => I)) Hs (val_run es lv ps s tr E)) as [_ _ (H1 & H2 & H3)].
  cbn [abs y_metrics y_gs] in *. split_and!; [done|done|]. intros l Hl. rewrite (H3 l Hl).
  by rewrite (mcount_fmap _ (at_dispatch_of l)) by (intros [ce lg c pc]; unfold at_dispatch_of; cbn; by destruct pc).
Qed.
End Theorems.

(** ** A session: one call fills the pool, then two calls interleave, one of them on the
    pooled record, while the collector and a level change interfere *)
Definition conc_ps : list Processor := [PSample (NewSampleProcessor 1 2); PRedact (NewRedactProcessor ["password"])].
Definition conc_logger : Logger := mkLogger (levelVar 1) [FString "svc" "api"] true 0.
Definition conc_call (msg secret : string) : Call := CallLog None LevelInfo msg [FString "password" secret; FInt int_ "n" 7].
Fixpoint alternate (n : nat) : list CEvent :=
  match n with O => [] | S n' => CEStep 2 (Some 0%nat) 3 :: CEStep 3 (Some 0%nat) 0 :: alternate n' end.
Definition conc_schedule : list CEvent :=
  CESet 1 LevelInfo :: CECall 1 demo_ce conc_logger (conc_call "first" "hunter1") :: repeat (CEStep 1 None 1) 12 ++
  [CECall 2 demo_ce conc_logger (conc_call "second" "hunter2"); CECall 3 demo_ce conc_logger (conc_call "third" "hunter3")] ++
  alternate 9 ++ [CEGC 0; CESet 1 LevelError; CECall 4 demo_ce conc_logger (conc_call "off" "x"); CEStep 4 None 0].
Definition conc_run := run_steps (c_step (env:=demo_env)) conc_schedule (mem_start ∅ conc_ps).
Definition conc_end : CSys Store Z * list CObs := default (mem_start ∅ conc_ps, []) conc_run.

Lemma conc_run_end : run_steps (c_step (env:=demo_env)) conc_schedule (mem_start ∅ conc_ps) = Some (conc_end.1, conc_end.2).
Proof. vm_compute. reflexivity. Qed.

Lemma conc_records_exclusive_witness :
  NoDup (s_pool (y_store conc_end.1)) /\ length (s_pool (y_store conc_end.1)) = 0%nat /\ size (y_gs conc_end.1) = 1%nat.
Proof.
  split_and!; [|vm_compute; reflexivity|vm_compute; reflexivity].
  apply (conc_records_exclusive (env:=demo_env) conc_schedule ∅ conc_ps conc_end.1 conc_end.2 conc_run_end).
Defined.

Definition conc_first : LogRecord :=
  mkRecord (mkTime 7 UTC) LevelInfo "first" 103 "" [FString "svc" "api"; FString "password" "[REDACTED]"; FInt int_ "n" 7] (Some []) true.

Lemma conc_dispatch_exact_witness :
  (exists ce l c, CECall 1 ce l c ∈ conc_schedule /\ passed (env:=demo_env) conc_ps ce l c conc_first) /\
  Forall (fun f => Key f ∈ Deny (NewRedactProcessor ["password"]) -> Value f = VString "[REDACTED]") (r_Fields conc_first).
Proof.
  destruct (conc_dispatch_exact (env:=demo_env) conc_schedule ∅ conc_ps conc_end.1 conc_end.2 1 conc_first conc_run_end) as [H1 H2].
  { vm_compute. left. }
  split; [exact H1|]. exact (H2 [PSample (NewSampleProcessor 1 2)] (NewRedactProcessor ["password"]) eq_refl).
Defined.

Lemma conc_metrics_exact_witness :
  emittedCount (y_metrics conc_end.1) = 1 /\
  u64 (emittedCount (y_metrics conc_end.1) + droppedCount (y_metrics conc_end.1)) =
    u64 (Z.of_nat (seen_obs is_return conc_end.2 + mcount at_end (y_gs conc_end.1))).
Proof.
  split; [vm_compute; reflexivity|].
  apply (conc_metrics_exact (env:=demo_env) conc_schedule ∅ conc_ps conc_end.1 conc_end.2 conc_run_end).
Defined.

(** A call above the highest level is emitted and counted in no slot. *)
Definition level_schedule : list CEvent :=
  conc_schedule ++ CESet 1 LevelInfo :: CECall 5 demo_ce conc_logger (CallLog None 30 "beyond" []) :: repeat (CEStep 5 None 1) 12.
Definition level_end : CSys Store Z * list CObs :=
  default (mem_start ∅ conc_ps, []) (run_steps (c_step (env:=demo_env)) level_schedule (mem_start ∅ conc_ps)).

Lemma level_run_end : run_steps (c_step (env:=demo_env)) level_schedule (mem_start ∅ conc_ps) = Some (level_end.1, level_end.2).
Proof. vm_compute. reflexivity. Qed.

Lemma conc_by_level_exact_witness :
  emittedCount (y_metrics level_end.1) = 2 /\ seen_obs (pass_of 30) level_end.2 = 1%nat /\
  byLevel (y_metrics level_end.1) !! Z.to_nat LevelInfo = Some 1 /\ m_panicked (y_metrics level_end.1) = false.
Proof.
  split; [vm_compute; reflexivity|]. split; [vm_compute; reflexivity|].
  destruct (conc_by_level_exact (env:=demo_env) level_schedule ∅ conc_ps level_end.1 level_end.2 level_run_end) as (H1 & _ & H2).
  - repeat constructor.
  - split; [|exact H1]. rewrite (H2 LevelInfo ltac:(vm_compute; split; [discriminate|reflexivity])). vm_compute. reflexivity.
Defined.
