(* ===== verification/Async.v ===== *)
(** * Asynchronous transports as the logger sees them (transport.go, transport_ring.go,
    transport_disruptor.go)

    The interface between the logger and a transport with goroutines of its own: the class
    [AsyncTransport] has the transport's steps and the entry of [Dispatch]; the classes
    [CarriesClones] and [Conserves] state what it promises.  The channel, the ring and
    the disruptor are instances of all three. *)
From S2P Require Import Prelude GoStd Level Field Record Sink Transport Mpmc RingTransport ChannelTransport Disruptor.
Local Open Scope Z_scope.

(** The transport's steps and observations; [at_enter t r] is the event in which goroutine
    [t] calls [Dispatch(r)], [at_entered] recognises it, and [at_busy] says whether a
    goroutine is inside a call. *)
Class AsyncTransport (E Y O : Type) := {
  at_step : E -> Y -> option (Y * list O);
  at_enter : Z -> LogRecord -> E;
  at_entered : E -> option LogRecord;
  at_busy : Z -> Y -> bool;
  at_emitted : list O -> list LogRecord;    (* what the sink received *)
  at_answered : list O -> list LogRecord;   (* queued, rejected, refused, or panicked *)
  at_pending : Y -> list LogRecord          (* in Dispatch, not answered yet *)
}.

(** The transport handles clones of the records dispatched to it and no others:
    [at_all P] says that every record inside satisfies [P]. *)
Class CarriesClones (E Y O : Type) {AT : AsyncTransport E Y O} := {
  at_all : (LogRecord -> Prop) -> Y -> Prop;
  at_enter_entered : forall t r, at_entered (at_enter t r) = Some r;
  at_emitted_app : forall os os', at_emitted (os ++ os') = at_emitted os ++ at_emitted os';
  at_all_step : forall P e y y' os,
    at_all P y -> at_step e y = Some (y', os) -> (forall r, at_entered e = Some r -> P (Clone r)) ->
    at_all P y' /\ Forall P (at_emitted os)
}.

(** Every dispatched record is answered once or still pending; [at_ok] is an invariant. *)
Class Conserves (E Y O : Type) {AT : AsyncTransport E Y O} := {
  at_ok : Y -> Prop;
  at_answered_app : forall os os', at_answered (os ++ os') = at_answered os ++ at_answered os';
  at_conserve : forall e y y' os,
    at_ok y -> at_step e y = Some (y', os) ->
    at_ok y' /\ at_pending y' ++ at_answered os ≡ₚ at_pending y ++ option_list (Clone <$> at_entered e)
}.

(** The records a queueing transport has given an answer for. *)
Definition answered (tr : list Obs) : list LogRecord :=
  pick (fun o => match o with OAccept r | OReject r | ORefuse r | OPanic r => Some r | _ => None end) tr.

(** Dispatched to a closed transport. *)
Definition turned_away (tr : list Obs) : list LogRecord := pick (fun o => match o with ORefuse r | OPanic r => Some r | _ => None end) tr.

Lemma answered_split tr : answered tr ≡ₚ accepted tr ++ rejected tr ++ turned_away tr.
Proof.
  unfold answered, accepted, rejected, turned_away. induction tr as [|[] tr IH]; rewrite ?pick_cons; cbn [app]; rewrite ?IH; try done.
  - by rewrite <-Permutation_middle.
  - rewrite !(assoc_L (++)). by rewrite <-Permutation_middle.
  - rewrite !(assoc_L (++)). by rewrite <-Permutation_middle.
Qed.
Lemma removed_split tr : removed tr ≡ₚ taken tr ++ evicted tr.
Proof.
  unfold removed, taken, evicted. induction tr as [|[] tr IH]; rewrite ?pick_cons; cbn [app]; rewrite ?IH; try done.
  by rewrite <-Permutation_middle.
Qed.

(** What the abstract queue has done with the records it answered. *)
Lemma qtrace_answered n policy tr q :
  qtrace n policy tr q ->
  answered tr ≡ₚ emitted tr ++ hand q ++ q_items q ++ evicted tr ++ rejected tr ++ turned_away tr /\
  (q_closed q = false -> turned_away tr = []).
Proof.
  intros Hq. split.
  - destruct (qtrace_fifo _ _ _ _ Hq) as [H1 H2]. rewrite answered_split, H1, removed_split, H2. solve_Permutation.
  - induction Hq as [|tr q o q' _ IH Hst]; [done|]. unfold turned_away in *. rewrite pick_app. destruct Hst; simpl in *; intros; simplify_eq; by rewrite IH.
Qed.

(** ** The channel *)
Section Channel.
Context {A : Type} `{Sink A}.

Definition ch_waiting (pc : ChCallPC) : option LogRecord :=
  match pc with HSend c | HEvict c | HCountRetry c => Some c | _ => None end.

#[export] Instance channel_async : AsyncTransport ChEvent (ChSys A) Obs := {|
  at_step := ch_step;
  at_enter := fun t r => HECall t (HSend r);
  at_entered := fun e => match e with HECall _ (HSend r) => Some r | _ => None end;
  at_busy := fun t y => bool_decide (is_Some (cs_calls y !! t));
  at_emitted := emitted;
  at_answered := answered;
  at_pending := fun y => collect ch_waiting (cs_calls y)
|}.

Definition ch_pc_all (P : LogRecord -> Prop) (pc : ChCallPC) : Prop :=
  match pc with HSend c | HEvict c | HCountRetry c | HPanic c => P c | _ => True end.
Definition ch_all (P : LogRecord -> Prop) (y : ChSys A) : Prop :=
  Forall P (ct_ch (cs_t y)) /\ (forall r, ch_hand (cs_worker y) = Some r -> P r) /\ map_Forall (fun _ pc => ch_pc_all P pc) (cs_calls y).

Lemma ch_all_upd P t y tid pc :
  ch_all P y -> Forall P (ct_ch t) -> (forall p, pc = Some p -> ch_pc_all P p) -> ch_all P (ch_upd t tid pc y).
Proof.
  intros (H1 & H2 & H3) Ht Hp. split_and!; [done|done|]. cbn [ch_upd cs_calls].
  destruct pc as [p|]; [apply map_Forall_insert_2; auto|by apply map_Forall_delete].
Qed.

Lemma ch_all_step P e y y' os :
  ch_all P y -> ch_step e y = Some (y', os) -> (forall r, at_entered (Y:=ChSys A) (O:=Obs) e = Some r -> P (Clone r)) ->
  ch_all P y' /\ Forall P (emitted os).
Proof.
  intros Hy Hst He. pose proof Hy as (H1 & H2 & H3). destruct e as [t pc|t|]; simpl in Hst.
  - destruct (cs_calls y !! t); [done|]. destruct (ch_entry pc) as [pc'|] eqn:Ep; [|done]. injection Hst as <- <-.
    split; [|constructor]. apply ch_all_upd; [done..|]. intros p [= <-]. destruct pc; simplify_eq/=; eauto.
  - unfold ch_run_call, ch_send, ch_evict, ChannelTransport_Sync, ch_close, ch_finish in Hst.
    destruct (cs_calls y !! t) as [pc|] eqn:Ec; [|done]. pose proof (H3 t pc Ec) as Hpc.
    destruct pc; repeat case_match; simplify_eq/=; (split; [|by constructor]); apply ch_all_upd; try done; simpl.
    all: try (by intros ? [= <-]).
    all: try (apply Forall_app; split; [done|by constructor]).
    all: (by apply Hy) || (by inversion H1).
  - unfold ch_run_worker in Hst. repeat case_match; simplify_eq/=; (split; [split_and!|]); simpl; try done.
    all: try (by inversion H1); try (by apply Hy); try (by constructor).
    + intros r [= <-]. by inversion H1.
    + constructor; [|done]. by apply H2.
Qed.

#[export] Instance channel_carries : CarriesClones ChEvent (ChSys A) Obs.
Proof. refine {| at_all := ch_all |}; [done|exact emitted_app|apply ch_all_step]. Defined.

(** A step that moves one call from [old] to [pc] with the answers [os]. *)
Lemma ch_upd_conserve t (y : ChSys A) tid old pc os :
  cs_calls y !! tid = Some old -> option_list (pc ≫= ch_waiting) ++ answered os ≡ₚ option_list (ch_waiting old) ->
  collect ch_waiting (cs_calls (ch_upd t tid pc y)) ++ answered os ≡ₚ collect ch_waiting (cs_calls y).
Proof.
  intros Hc Hp. rewrite (collect_lookup ch_waiting _ _ _ Hc), <-Hp. cbn [ch_upd cs_calls].
  destruct pc as [p|]; simpl; [rewrite collect_insert|]; by solve_Permutation.
Qed.

Lemma ch_conserve e (y y' : ChSys A) os :
  at_step e y = Some (y', os) -> at_pending y' ++ at_answered os ≡ₚ at_pending y ++ option_list (Clone <$> at_entered (Y:=ChSys A) (O:=Obs) e).
Proof.
  cbn [at_step at_pending at_answered at_entered channel_async]. intros Hst. destruct e as [t pc|t|]; simpl in Hst.
  - destruct (cs_calls y !! t) eqn:Hc; [done|]. destruct (ch_entry pc) as [pc'|] eqn:Ep; [|done]. injection Hst as <- <-.
    cbn [ch_upd cs_calls]. rewrite collect_insert_new, app_nil_r by done. destruct pc; simplify_eq/=; first [apply Permutation_cons_append|by rewrite app_nil_r].
  - rewrite app_nil_r. unfold ch_run_call, ch_send, ch_evict, ChannelTransport_Sync, ch_close, ch_finish in Hst.
    destruct (cs_calls y !! t) as [pc|] eqn:Ec; [|done].
    destruct pc; repeat case_match; simplify_eq; by apply (ch_upd_conserve _ _ _ _ _ _ Ec).
  - rewrite app_nil_r. unfold ch_run_worker in Hst. repeat case_match; simplify_eq/=; by rewrite app_nil_r.
Qed.

#[export] Instance channel_conserves : Conserves ChEvent (ChSys A) Obs.
Proof. refine {| at_ok := fun _ => True |}; [apply pick_app|intros e y y' os _ Hst; split; [done|by apply ch_conserve]]. Defined.

Lemma channel_start_ok (a : A) h c policy : at_ok (ch_start a h c policy).
Proof. exact I. Qed.
Lemma channel_start_all (P : LogRecord -> Prop) (a : A) h c policy : at_all P (ch_start a h c policy).
Proof. split_and!; simpl; [constructor|done|apply map_Forall_empty]. Qed.
End Channel.

(** ** The ring *)
Section RingTr.
Context {A : Type} `{Sink A}.

Definition ring_waiting (pc : RingTransport.CallPC) : option LogRecord :=
  match pc with RingTransport.CDispatch c | RingTransport.CWait c | RingTransport.CWoken c => Some c | _ => None end.

#[export] Instance ring_async : AsyncTransport RingTransport.Event (Sys A) Obs := {|
  at_step := RingTransport.step;
  at_enter := fun t r => RingTransport.ECall t (RingTransport.CDispatch r);
  at_entered := fun e => match e with RingTransport.ECall _ (RingTransport.CDispatch r) => Some r | _ => None end;
  at_busy := fun t y => bool_decide (is_Some (sys_calls y !! t));
  at_emitted := emitted;
  at_answered := answered;
  at_pending := fun y => collect ring_waiting (sys_calls y)
|}.

Definition slot_all (P : LogRecord -> Prop) (o : option LogRecord) : Prop := match o with Some r => P r | None => True end.
Definition ring_pc_all (P : LogRecord -> Prop) (pc : RingTransport.CallPC) : Prop :=
  match pc with RingTransport.CDispatch c | RingTransport.CWait c | RingTransport.CWoken c => P c | _ => True end.
Definition ring_all (P : LogRecord -> Prop) (y : Sys A) : Prop :=
  Forall (slot_all P) (rt_buf (sys_t y)) /\ (forall r, sys_worker y = WEmit (Some r) -> P r) /\
  map_Forall (fun _ pc => ring_pc_all P pc) (sys_calls y).

Lemma slot_all_lookup P l i : Forall (slot_all P) l -> slot_all P (default None (l !! i)).
Proof. intros Hl. destruct (l !! i) as [o|] eqn:E; [|done]. exact (Forall_lookup_1 _ _ _ _ Hl E). Qed.

Lemma ring_push P c (y : Sys A) tid :
  ring_all P y -> P c -> ring_all P (finish_push tid c y).
Proof.
  intros (H1 & H2 & H3) Hc. split_and!; cbn [finish_push push_tail sys_t rt_buf sys_calls sys_worker].
  - by apply Forall_insert.
  - intros r Hr. apply H2. by destruct (sys_worker y).
  - by apply map_Forall_delete.
Qed.

Lemma ring_wake P (m : gmap Z RingTransport.CallPC) :
  map_Forall (fun _ pc => ring_pc_all P pc) m -> map_Forall (fun _ pc => ring_pc_all P pc) (wake_pc <$> m).
Proof. intros Hm t pc (pc0 & <- & Hp)%lookup_fmap_Some. specialize (Hm t pc0 Hp). by destruct pc0. Qed.

Lemma ring_calls_step P (y y' : Sys A) os t :
  ring_all P y -> run_call t y = Some (y', os) -> ring_all P y' /\ Forall P (emitted os).
Proof.
  intros Hy Hst. pose proof Hy as (H1 & H2 & H3). unfold run_call in Hst.
  destruct (sys_calls y !! t) as [pc|] eqn:Ec; [|done]. pose proof (H3 t pc Ec) as Hpc.
  assert (Hpop : ring_all P (set_t (add_dropped (pop_head (sys_t y))) y)) by (split_and!; [by apply Forall_insert|done|done]).
  assert (Hret : forall y0, ring_all P y0 -> ring_all P (ret_call t y0)).
  { intros y0 (G1 & G2 & G3). split_and!; [done|done|by apply map_Forall_delete]. }
  assert (Hset : forall p, ring_pc_all P p -> ring_all P (set_call t p y)) by (intros p Hp; split_and!; [done|done|by apply map_Forall_insert_2]).
  destruct pc; simplify_eq/=; try done.
  - unfold Dispatch in Hst. repeat case_match; simplify_eq/=; (split; [|by constructor]); auto using ring_push. by apply Hset.
  - unfold Dispatch_woken in Hst. repeat case_match; simplify_eq/=; (split; [|by constructor]); auto using ring_push.
  - split; [by apply Hret|constructor].
  - unfold Sync in Hst. repeat case_match; simplify_eq/=. split; [by apply Hret|constructor].
  - unfold Close in Hst. case_match; simplify_eq/=; (split; [|by constructor]); [auto|].
    split_and!; [done|intros r Hr; apply H2; by destruct (sys_worker y)|apply map_Forall_insert_2; [done|by apply ring_wake]].
  - unfold Close_drained in Hst. repeat case_match; simplify_eq/=. split; [by apply Hret|constructor].
Qed.

Lemma ring_all_step P e (y y' : Sys A) os :
  ring_all P y -> RingTransport.step e y = Some (y', os) ->
  (forall r, at_entered (Y:=Sys A) (O:=Obs) e = Some r -> P (Clone r)) -> ring_all P y' /\ Forall P (emitted os).
Proof.
  intros Hy Hst He. pose proof Hy as (H1 & H2 & H3). destruct e as [t pc|t|wake]; simpl in Hst.
  - destruct (sys_calls y !! t); [done|]. destruct (entry_pc pc) as [pc'|] eqn:Ep; [|done]. injection Hst as <- <-.
    split; [|constructor]. split_and!; [done|done|]. apply map_Forall_insert_2; [|done]. destruct pc; simplify_eq/=; eauto.
  - by eapply ring_calls_step.
  - unfold run_worker, worker_locked, worker_emit in Hst. pose proof (slot_all_lookup P _ (rt_head (sys_t y)) H1) as Hh.
    unfold head_slot in Hst.
    assert (Hsig : forall m, signal_full wake (sys_calls y) = Some m -> map_Forall (fun _ pc => ring_pc_all P pc) m).
    { intros m. unfold signal_full. destruct wake as [w|]; [|by case_bool_decide; [intros [= <-]|]].
      destruct (sys_calls y !! w) as [[]|] eqn:Ew; try done. intros [= <-]. apply map_Forall_insert_2; [|done].
      exact (H3 w _ Ew). }
    repeat case_match; simplify_eq/=.
    all: split; [split_and!; simpl; try done; try (by apply Hsig); try (by apply Forall_insert)|].
    all: try (by intros r [= ->]); try (by apply Forall_nil_2); try (by apply Forall_cons_2; [apply H2|apply Forall_nil_2]).
Qed.

#[export] Instance ring_carries : CarriesClones RingTransport.Event (Sys A) Obs.
Proof. refine {| at_all := ring_all |}; [done|exact emitted_app|apply ring_all_step]. Defined.

Lemma ring_signal_conserve wake m m' : signal_full wake m = Some m' -> collect ring_waiting m' ≡ₚ collect ring_waiting m.
Proof.
  unfold signal_full. destruct wake as [w|]; [|by case_bool_decide; [intros [= <-]|]].
  destruct (m !! w) as [[]|] eqn:Ew; try done. intros [= <-]. by rewrite collect_insert, (collect_lookup _ _ _ _ Ew).
Qed.

Lemma ring_call_conserve t (y y' : Sys A) os :
  run_call t y = Some (y', os) -> collect ring_waiting (sys_calls y') ++ answered os ≡ₚ collect ring_waiting (sys_calls y).
Proof.
  intros Hst. unfold run_call in Hst. destruct (sys_calls y !! t) as [pc|] eqn:Ec; [|done].
  rewrite (collect_lookup _ _ _ _ Ec).
  unfold Dispatch, Dispatch_woken, Sync, Close, Close_drained in Hst.
  destruct pc; repeat case_match; simplify_eq; cbn [finish_push set_call ret_call set_t sys_calls answered pick omap list_omap app];
    rewrite ?collect_insert, ?app_nil_r; try done; try apply Permutation_app_comm.
  rewrite <-fmap_delete, collect_fmap by (by intros []). done.
Qed.

Lemma ring_conserve e (y y' : Sys A) os :
  at_step e y = Some (y', os) -> at_pending y' ++ at_answered os ≡ₚ at_pending y ++ option_list (Clone <$> at_entered (Y:=Sys A) (O:=Obs) e).
Proof.
  cbn [at_step at_pending at_answered at_entered ring_async]. intros Hst. destruct e as [t pc|t|wake]; cbn [RingTransport.step] in Hst.
  - destruct (sys_calls y !! t) eqn:Hc; [done|]. destruct (entry_pc pc) as [pc'|] eqn:Ep; [|done]. injection Hst as <- <-.
    cbn [set_call sys_calls]. rewrite collect_insert_new, app_nil_r by done. destruct pc; simplify_eq/=; first [apply Permutation_cons_append|by rewrite app_nil_r].
  - rewrite app_nil_r. by apply (ring_call_conserve t).
  - rewrite app_nil_r. unfold run_worker, worker_locked, worker_emit in Hst.
    repeat case_match; simplify_eq; cbn [sys_calls answered pick omap list_omap]; rewrite app_nil_r; try done; by eapply ring_signal_conserve.
Qed.

#[export] Instance ring_conserves : Conserves RingTransport.Event (Sys A) Obs.
Proof. refine {| at_ok := fun _ => True |}; [apply pick_app|intros e y y' os _ Hst; split; [done|by apply ring_conserve]]. Defined.

Lemma ring_start_ok (a : A) h c policy : at_ok (start a h c policy).
Proof. exact I. Qed.
Lemma ring_start_all (P : LogRecord -> Prop) (a : A) h c policy : at_all P (start a h c policy).
Proof. split_and!; simpl; [by apply Forall_replicate|done|apply map_Forall_empty]. Qed.
End RingTr.

(** ** The disruptor *)
Section DisruptorTr.
Context {A : Type} `{Sink A}.

(** A position claimed for the record, or the record rejected. *)
Definition d_answered (os : list DObs) : list LogRecord :=
  omap (fun o => match o with DQ _ (QClaim v) => Some v | DO (OReject r) => Some r | _ => None end) os.
Definition q_waiting (pc : QPC) : option LogRecord :=
  match pc with EStart v | ELoop v _ | ECas v _ => Some v | _ => None end.
Definition d_waiting (pc : DCallPC) : option LogRecord :=
  match pc with PEvict c | PCountRetry c => Some c | _ => None end.

#[export] Instance disruptor_async : AsyncTransport DEvent (DSys A) DObs := {|
  at_step := d_step;
  at_enter := fun t r => DECall t (PEnqueue r);
  at_entered := fun e => match e with DECall _ (PEnqueue r) => Some r | _ => None end;
  at_busy := fun t y => bool_decide (is_Some (ds_calls y !! t));
  at_emitted := fun os => emitted (tobs os);
  at_answered := d_answered;
  at_pending := fun y => collect q_waiting (ds_inner y) ++ collect d_waiting (ds_calls y)
|}.

Definition qpc_all (P : LogRecord -> Prop) (pc : QPC) : Prop :=
  match pc with
  | EStart v | ELoop v _ | ECas v _ | EWrite v _ | EPub v _ => P v
  | DClear _ x | DRel _ x => slot_all P x
  | _ => True
  end.
Definition res_all (P : LogRecord -> Prop) (r : QRes) : Prop :=
  match r with RGo pc => qpc_all P pc | RDeq x _ => slot_all P x | REnq _ => True end.
Definition mpmc_all (P : LogRecord -> Prop) (q : mpmc) : Prop := Forall (fun c => slot_all P (val c)) (buf q).
Definition d_pc_all (P : LogRecord -> Prop) (pc : DCallPC) : Prop :=
  match pc with PEnqueue c | PEvict c | PCountRetry c => P c | _ => True end.
Definition d_worker_all (P : LogRecord -> Prop) (w : DWorkerPC) : Prop :=
  match w with VEmit x | VDrainEmit x => slot_all P x | _ => True end.
Record d_all (P : LogRecord -> Prop) (y : DSys A) : Prop := {
  da_q : mpmc_all P (dt_q (ds_t y));
  da_inner : map_Forall (fun _ pc => qpc_all P pc) (ds_inner y);
  da_worker : d_worker_all P (ds_worker y);
  da_calls : map_Forall (fun _ pc => d_pc_all P pc) (ds_calls y)
}.

Lemma cell_all P q pos : mpmc_all P q -> slot_all P (val (cell_at q pos)).
Proof.
  intros Hq. unfold cell_at. destruct (buf q !! idx q pos) as [c|] eqn:E; [|done]. exact (Forall_lookup_1 _ _ _ _ Hq E).
Qed.

Lemma qpc_all_step P pc q q' r os :
  mpmc_all P q -> qpc_all P pc -> qpc_step pc q = (q', r, os) -> mpmc_all P q' /\ res_all P r.
Proof.
  intros Hq Hp. assert (Hset : forall pos c, slot_all P (val c) -> mpmc_all P (set_cell pos c q)) by (intros; by apply Forall_insert).
  pose proof (fun pos => cell_all P q pos Hq) as Hc.
  destruct pc; simpl in *; repeat case_match; intros; simplify_eq; split; try done; first [apply Hset; first [done|apply Hc]|apply Hc].
Qed.

Lemma d_inner_all P t o (y : DSys A) : d_all P y -> (forall pc, o = Some pc -> qpc_all P pc) -> d_all P (d_inner t o y).
Proof.
  intros [D1 D2 D3 D4] Ho. split; try done. cbn [d_inner ds_inner].
  destruct o; [apply map_Forall_insert_2; auto|by apply map_Forall_delete].
Qed.
Lemma d_frame_all P t o (y : DSys A) : d_all P y -> (forall pc, o = Some pc -> d_pc_all P pc) -> d_all P (d_frame t o y).
Proof.
  intros [D1 D2 D3 D4] Ho. split; try done. cbn [d_frame ds_calls].
  destruct o; [apply map_Forall_insert_2; auto|by apply map_Forall_delete].
Qed.
Lemma d_with_all P t (y : DSys A) : d_all P y -> mpmc_all P (dt_q t) -> d_all P (d_with t y).
Proof. by intros [D1 D2 D3 D4]. Qed.
Lemma d_goto_all P w (y : DSys A) : d_all P y -> d_worker_all P w -> d_all P (d_goto w y).
Proof. by intros [D1 D2 D3 D4]. Qed.

Lemma d_access_all P t (y y1 : DSys A) r os :
  d_all P y -> d_access t y = Some (y1, r, os) -> d_all P y1 /\ res_all P r /\ tobs os = [].
Proof.
  intros Hy. unfold d_access. destruct (ds_inner y !! t) as [pc|] eqn:E; [|done].
  destruct (qpc_step pc (dt_q (ds_t y))) as [[q r'] os'] eqn:Eq. intros [= <- -> <-].
  destruct (qpc_all_step P _ _ _ _ _ (da_q P y Hy) (da_inner P y Hy t pc E) Eq) as [H1 H2]. split_and!; [|done|apply tobs_DQ].
  apply d_inner_all; [by apply d_with_all|]. by destruct r; intros p [= <-].
Qed.

Lemma d_call_all P t (y y' : DSys A) os :
  d_all P y -> d_run_call t y = Some (y', os) -> d_all P y' /\ Forall P (emitted (tobs os)).
Proof.
  intros Hy Hst. unfold d_run_call in Hst. destruct (ds_calls y !! t) as [pc|] eqn:Ec; [|done].
  pose proof (da_calls P y Hy t pc Ec) as Hpc. pose proof (da_q P y Hy) as Hq.
  destruct pc as [c|c| |c| | |].
  1-2: destruct (d_access t y) as [[[y1 r] os1]|] eqn:Ea; [|done]; destruct (d_access_all P t y y1 r os1 Hy Ea) as (Hy1 & Hr & Ho);
    destruct r as [p|ok|x ok]; simplify_eq; try done.
  - by rewrite Ho.
  - destruct (d_enqueued t c ok y1) as [y2 os2] eqn:E. simplify_eq. rewrite tobs_app, Ho. unfold d_enqueued in E.
    repeat case_match; simplify_eq; (split; [|by apply Forall_nil_2]).
    all: repeat first [apply d_frame_all|apply d_inner_all|done]; by intros ? [= <-].
  - by rewrite Ho.
  - rewrite Ho. split; [|done]. unfold d_evicted. destruct ok; repeat first [apply d_frame_all|apply d_inner_all|done]; by intros ? [= <-].
  - simplify_eq. split; [|done]. by apply d_frame_all; [apply d_with_all|].
  - simplify_eq. split; [|done]. apply d_frame_all; [apply d_inner_all; [by apply d_with_all|]|]; by intros ? [= <-].
  - unfold DisruptorTransport_Sync in Hst. case_match; simplify_eq. split; [|done]. by apply d_frame_all; [apply d_with_all|].
  - unfold d_close in Hst. case_match; simplify_eq; (split; [|done]); apply d_frame_all; try done; [by apply d_with_all|by intros ? [= <-]].
  - unfold d_finish in Hst. repeat case_match; simplify_eq. split; [|done]. by apply d_frame_all; [apply d_with_all|].
Qed.

Lemma d_emit_all P x next (y y' : DSys A) os :
  d_all P y -> slot_all P x -> d_worker_all P next -> d_emit x next y = (y', os) -> d_all P y' /\ Forall P (emitted (tobs os)).
Proof.
  intros [D1 D2 D3 D4] Hx Hn. unfold d_emit. destruct x as [r|]; [|intros [= <- <-]; by repeat split].
  case_match. case_match. intros; simplify_eq. split; [|by repeat constructor]. split; try done. by apply map_Forall_insert_2.
Qed.

Lemma d_all_step P e (y y' : DSys A) os :
  d_all P y -> d_step e y = Some (y', os) -> (forall r, at_entered (Y:=DSys A) (O:=DObs) e = Some r -> P (Clone r)) ->
  d_all P y' /\ Forall P (emitted (tobs os)).
Proof.
  intros Hy Hst He. destruct e as [t pc|t|]; cbn [d_step] in Hst; [|by eapply d_call_all|].
  - destruct (ds_calls y !! t); [done|]. destruct (d_entry pc) as [[pc' inner]|] eqn:Ep; [|done].
    destruct (t =? consumer); [done|]. injection Hst as <- <-. split; [|done].
    destruct pc as [c| | | | | |]; simplify_eq/=; try (by apply d_frame_all; [|intros ? [= <-]]).
    pose proof (He c eq_refl). apply d_frame_all; [apply d_inner_all; [done|]|]; by intros ? [= <-].
  - unfold d_run_worker in Hst. pose proof (da_worker P y Hy) as Hw. destruct (ds_worker y) as [|x| | |x| |]; try done.
    1,4: destruct (d_access consumer y) as [[[y1 r] os1]|] eqn:Ea; [|done]; destruct (d_access_all P _ y y1 r os1 Hy Ea) as (Hy1 & Hr & Ho);
      destruct r as [p|ok|x ok]; simplify_eq; try done; rewrite Ho; split; try done; apply d_goto_all; [done|]; by destruct ok.
    + injection Hst as Hst. exact (d_emit_all P x VDequeue y y' os Hy Hw I Hst).
    + injection Hst as <- <-. split; [|done]. apply d_goto_all; [apply d_inner_all; [done|by intros ? [= <-]]|by destruct (dt_closed _)].
    + injection Hst as Hst. exact (d_emit_all P x VDrain y y' os Hy Hw I Hst).
Qed.

#[export] Instance disruptor_carries : CarriesClones DEvent (DSys A) DObs.
Proof. refine {| at_all := d_all |}; [done|intros; cbn [at_emitted disruptor_async]; by rewrite tobs_app, emitted_app|apply d_all_step]. Defined.

Lemma d_answered_app os os' : d_answered (os ++ os') = d_answered os ++ d_answered os'.
Proof. apply omap_app. Qed.

Definition q_after (r : QRes) : option LogRecord := match r with RGo pc => q_waiting pc | _ => None end.

(** One access: the value is still waiting or claimed, or the enqueue failed with it. *)
Definition q_moved (pc : QPC) (r : QRes) (ans : list LogRecord) : Prop :=
  match r with
  | REnq false => ans = [] /\ is_Some (q_waiting pc)
  | _ => option_list (q_after r) ++ ans = option_list (q_waiting pc)
  end.
Lemma q_access_conserve t pc q q' r os : qpc_step pc q = (q', r, os) -> q_moved pc r (d_answered (DQ t <$> os)).
Proof. destruct pc; simpl; repeat case_match; intros; simplify_eq; done. Qed.

Lemma collect_drop {K V B} `{Countable K} (f : V -> option B) (m : gmap K V) k :
  (forall v, m !! k = Some v -> f v = None) -> collect f (delete k m) ≡ₚ collect f m.
Proof.
  intros Hf. destruct (m !! k) as [v|] eqn:E; [|by rewrite delete_id]. by rewrite (collect_lookup f m k v E), (Hf v eq_refl).
Qed.

(** The pending records with those of goroutine [t] apart. *)
Definition d_others (t : Z) (y : DSys A) : list LogRecord := collect q_waiting (delete t (ds_inner y)) ++ collect d_waiting (delete t (ds_calls y)).
Definition d_mine (t : Z) (y : DSys A) : list LogRecord :=
  option_list (ds_inner y !! t ≫= q_waiting) ++ option_list (ds_calls y !! t ≫= d_waiting).

Lemma d_pending_split t (y : DSys A) : at_pending y ≡ₚ d_mine t y ++ d_others t y.
Proof.
  cbn [at_pending disruptor_async]. unfold d_mine, d_others.
  destruct (ds_inner y !! t) as [pc|] eqn:Ei, (ds_calls y !! t) as [f|] eqn:Ec; simpl;
    rewrite ?(collect_lookup _ _ _ _ Ei), ?(collect_lookup _ _ _ _ Ec), ?(delete_id _ _ Ei), ?(delete_id _ _ Ec); solve_Permutation.
Qed.

(** A step that touches only the frames of [t]. *)
Lemma d_local t (y y' : DSys A) (ans new : list LogRecord) :
  d_others t y' = d_others t y -> d_mine t y' ++ ans ≡ₚ d_mine t y ++ new -> at_pending y' ++ ans ≡ₚ at_pending y ++ new.
Proof.
  intros Ho Hm. rewrite !(d_pending_split t), Ho. rewrite <-(assoc_L (++)), (Permutation_app_comm (d_others t y)), (assoc_L (++)), Hm. solve_Permutation.
Qed.

Ltac d_here :=
  unfold d_others, d_mine; cbn [d_inner d_frame d_with d_goto ds_inner ds_calls];
  rewrite ?delete_insert_eq, ?delete_delete_eq, ?lookup_insert_eq, ?lookup_delete_eq.

Lemma d_access_conserve t (y y1 : DSys A) r os pc :
  ds_inner y !! t = Some pc -> d_access t y = Some (y1, r, os) ->
  d_others t y1 = d_others t y /\ ds_calls y1 = ds_calls y /\ (ds_inner y1 !! t ≫= q_waiting) = q_after r /\
  q_moved pc r (d_answered os).
Proof.
  intros Hi. unfold d_access. rewrite Hi. destruct (qpc_step pc (dt_q (ds_t y))) as [[q r'] os'] eqn:Eq. intros [= <- -> <-].
  split_and!; [| | |by eapply q_access_conserve]; [|done|].
  - d_here. by destruct r; rewrite ?delete_insert_eq, ?delete_delete_eq.
  - cbn [d_inner d_with ds_inner]. by destruct r; rewrite ?lookup_insert_eq, ?lookup_delete_eq.
Qed.

Lemma d_call_conserve t (y y' : DSys A) os :
  frames y -> d_run_call t y = Some (y', os) -> at_pending y' ++ d_answered os ≡ₚ at_pending y ++ [].
Proof.
  intros Hf Hst. unfold d_run_call in Hst. destruct (ds_calls y !! t) as [f|] eqn:Ec; [|done].
  assert (Ht : t <> consumer) by (intros ->; by rewrite (fr_consumer y Hf) in Ec).
  pose proof (fr_calls y Hf t Ht) as Hok. rewrite Ec in Hok.
  destruct f as [c|c| |c| | |]; simpl in Hok.
  - destruct Hok as (pc & Hi & Hk). destruct (d_access t y) as [[[y1 r] os1]|] eqn:Ea; [|done].
    destruct (d_access_conserve t y y1 r os1 pc Hi Ea) as (H1 & H2 & H3 & H4).
    destruct r as [pc'|[]|x ok]; [injection Hst as <- <-| | |done].
    + apply (d_local t); [done|]. unfold d_mine. rewrite H3, H2, Ec, Hi. simpl in *. by rewrite <-H4, !app_nil_r.
    + unfold d_enqueued in Hst. injection Hst as <- <-. rewrite app_nil_r. apply (d_local t); [rewrite <-H1; by d_here|].
      d_here. rewrite H3, Ec, Hi. simpl in *. by rewrite <-H4, !app_nil_r.
    + destruct H4 as [H4 [v Hv]]. assert (v = c) as -> by (destruct pc; simplify_eq/=; done).
      destruct (d_enqueued t c false y1) as [y2 os2] eqn:E. injection Hst as <- <-. unfold d_enqueued in E.
      rewrite d_answered_app, H4. destruct (dt_policy (ds_t y1)); simplify_eq;
        (apply (d_local t); [rewrite <-H1; by d_here|]); d_here; rewrite ?H2, ?H3, ?Ec, Hi; simpl; by rewrite Hv.
  - destruct Hok as (pc & Hi & Hk). destruct (d_access t y) as [[[y1 r] os1]|] eqn:Ea; [|done].
    destruct (d_access_conserve t y y1 r os1 pc Hi Ea) as (H1 & H2 & H3 & H4).
    assert (Hn : q_waiting pc = None) by (by destruct pc). unfold q_moved in H4. rewrite Hn in H4.
    destruct r as [pc'|ok|x ok]; [injection Hst as <- <-|done|injection Hst as <- <-]; apply app_eq_nil in H4 as [H4 ->].
    + apply (d_local t); [done|]. unfold d_mine. rewrite H3, H2, Ec, Hi, H4. simpl. by rewrite Hn.
    + unfold d_evicted. destruct ok; (apply (d_local t); [rewrite <-H1; by d_here|]); d_here; rewrite ?H3, ?H4, Ec, Hi; simpl; by rewrite Hn.
  - injection Hst as <- <-. apply (d_local t); d_here; [done|]. by rewrite Ec, Hok.
  - injection Hst as <- <-. apply (d_local t); d_here; [done|]. by rewrite Ec, Hok.
  - unfold DisruptorTransport_Sync in Hst. case_match; simplify_eq. apply (d_local t); d_here; [done|]. by rewrite Ec, Hok.
  - unfold d_close in Hst. case_match; simplify_eq; (apply (d_local t); d_here; [done|]; by rewrite Ec, Hok).
  - unfold d_finish in Hst. repeat case_match; simplify_eq. apply (d_local t); d_here; [done|]. by rewrite Ec, Hok.
Qed.

Lemma d_consumer_conserve (y y1 : DSys A) r os :
  frames y -> (exists pc, ds_inner y !! consumer = Some pc /\ deq_pc pc) -> d_access consumer y = Some (y1, r, os) ->
  at_pending y1 ++ d_answered os ≡ₚ at_pending y ++ [] /\ r <> REnq false.
Proof.
  intros Hf (pc & Hi & Hk) Ea. destruct (d_access_conserve consumer y y1 r os pc Hi Ea) as (H1 & H2 & H3 & H4).
  assert (Hn : q_waiting pc = None) by (by destruct pc). unfold q_moved in H4. rewrite Hn in H4.
  assert (Hr : option_list (q_after r) ++ d_answered os = [] /\ r <> REnq false).
  { destruct r as [|[]|]; [done|done|destruct H4 as [_ [? ?]]; done|done]. }
  destruct Hr as [[H5 H6]%app_eq_nil Hr]. split; [|done]. rewrite H6. apply (d_local consumer); [done|].
  unfold d_mine. rewrite H3, H2, Hi, H5. simpl. by rewrite Hn.
Qed.

Lemma d_worker_conserve (y y' : DSys A) os :
  frames y -> d_run_worker y = Some (y', os) -> at_pending y' ++ d_answered os ≡ₚ at_pending y ++ [].
Proof.
  intros Hf Hst. unfold d_run_worker in Hst. pose proof (fr_worker y Hf) as Hw. destruct (ds_worker y) as [|x| | |x| |] eqn:Ew; try done; simpl in Hw.
  1,4: destruct (d_access consumer y) as [[[y1 r] os1]|] eqn:Ea; [|done]; destruct (d_consumer_conserve y y1 r os1 Hf Hw Ea) as [Hp Hr];
    destruct r as [p|ok|z ok]; simplify_eq; try done; exact Hp.
  2: { injection Hst as <- <-. apply (d_local consumer); d_here; [done|]. by rewrite Hw. }
  all: injection Hst as Hst; unfold d_emit in Hst; destruct x as [r|]; simplify_eq; [|done].
  all: repeat case_match; simplify_eq; apply (d_local consumer); d_here; [done|]; by rewrite Hw.
Qed.

Lemma d_conserve e (y y' : DSys A) os :
  frames y -> at_step e y = Some (y', os) ->
  frames y' /\ at_pending y' ++ at_answered os ≡ₚ at_pending y ++ option_list (Clone <$> at_entered (Y:=DSys A) (O:=DObs) e).
Proof.
  intros Hf Hst. split; [exact (proj1 (fr_step e y y' os Hf Hst))|]. destruct e as [t pc|t|]; [|exact (d_call_conserve t y y' os Hf Hst)|exact (d_worker_conserve y y' os Hf Hst)].
  cbn [at_step disruptor_async d_step] in Hst. destruct (ds_calls y !! t) as [|] eqn:Hc; [done|]. destruct (d_entry pc) as [[pc' i]|] eqn:Ep; [|done].
  destruct (Z.eqb_spec t consumer) as [|Ht]; [done|]. injection Hst as <- <-.
  pose proof (fr_calls y Hf t Ht) as Hok. rewrite Hc in Hok. simpl in Hok.
  destruct pc; try discriminate Ep; injection Ep as <- <-; apply (d_local t); try (by d_here); d_here; by rewrite Hc, Hok.
Qed.

#[export] Instance disruptor_conserves : Conserves DEvent (DSys A) DObs.
Proof. refine {| at_ok := frames |}; [apply d_answered_app|apply d_conserve]. Defined.

Lemma disruptor_start_all (P : LogRecord -> Prop) (a : A) h c policy : at_all P (d_start a h c policy).
Proof.
  split; simpl; [|by apply map_Forall_singleton|done|apply map_Forall_empty]. apply Forall_map, Forall_true. done.
Qed.
End DisruptorTr.
