(* ===== verification/AsyncLogger.v ===== *)
(** * The logger over an asynchronous transport (logger.go, handler.go with transport.go,
    transport_ring.go and transport_disruptor.go)

    Log calls on pooled records (ConcLogger.v) and a transport with its own goroutines
    (Async.v) run together.  The dispatch step of a call enters the transport with the
    record it holds, the transport's steps interleave freely, and the call gives its record
    back only when [Dispatch] has returned. *)
From S2P Require Import Prelude GoStd Level Field Record Redaction Sampling Pipeline Memory Sink Transport Logger.
From S2P Require Import Mpmc RingTransport ChannelTransport Disruptor Async ConcLogger ConcCalls.
Local Open Scope Z_scope.

Inductive AEvent (E : Type) := AELog (e : CEvent) | AETr (e : E).
Arguments AELog {E}.
Arguments AETr {E}.
Inductive AObs (O : Type) := AOLog (o : CObs) | AOTr (o : O).
Arguments AOLog {O}.
Arguments AOTr {O}.

Definition log_obs {O} (tr : list (AObs O)) : list CObs := omap (fun o => match o with AOLog o => Some o | _ => None end) tr.
Definition tr_obs {O} (tr : list (AObs O)) : list O := omap (fun o => match o with AOTr o => Some o | _ => None end) tr.
Definition log_events {E} (es : list (AEvent E)) : list CEvent := omap (fun e => match e with AELog e => Some e | _ => None end) es.
Definition passes (tr : list CObs) : list LogRecord := omap (fun o => match o with OPass _ r => Some r | _ => None end) tr.

Section Together.
Context {env : GoEnv} {E Y O : Type} `{AT : !AsyncTransport E Y O}.

(** The release of a record waits for its goroutine's [Dispatch]. *)
Definition waits (e : CEvent) (c : CSys Store Z) (y : Y) : bool :=
  match e with
  | CEStep t _ _ => match g_pc <$> y_gs c !! t with Some (CRelease _) => at_busy t y | _ => false end
  | _ => false
  end.

Definition a_step (e : AEvent E) (s : CSys Store Z * Y) : option (CSys Store Z * Y * list (AObs O)) :=
  let '(c, y) := s in
  match e with
  | AETr e =>
      match at_entered e with
      | Some _ => None                        (* Dispatch is only called by log calls *)
      | None => match at_step e y with Some (y', os) => Some ((c, y'), AOTr <$> os) | None => None end
      end
  | AELog e =>
      if waits e c y then None
      else
        match c_step e c with
        | Some (c', [OPass t r]) =>
            match at_step (at_enter t r) y with
            | Some (y', os) => Some ((c', y'), AOLog (OPass t r) :: (AOTr <$> os))
            | None => None
            end
        | Some (c', os) => Some ((c', y), AOLog <$> os)
        | None => None
        end
  end.

Lemma log_obs_app (tr tr' : list (AObs O)) : log_obs (tr ++ tr') = log_obs tr ++ log_obs tr'.
Proof. apply omap_app. Qed.
Lemma tr_obs_app (tr tr' : list (AObs O)) : tr_obs (tr ++ tr') = tr_obs tr ++ tr_obs tr'.
Proof. apply omap_app. Qed.
Lemma log_obs_log (os : list CObs) : log_obs (O:=O) (AOLog <$> os) = os /\ tr_obs (O:=O) (AOLog <$> os) = [].
Proof. induction os as [|o os [IH1 IH2]]; [done|]. by split; [simpl; f_equal|]. Qed.
Lemma log_obs_tr (os : list O) : log_obs (AOTr <$> os) = [] /\ tr_obs (AOTr <$> os) = os.
Proof. induction os as [|o os [IH1 IH2]]; [done|]. by split; [|simpl; f_equal]. Qed.
Lemma passes_app tr tr' : passes (tr ++ tr') = passes tr ++ passes tr'.
Proof. apply omap_app. Qed.

(** The observations of one log step: one of them at most. *)
Lemma c_step_obs e (c c' : CSys Store Z) os : c_step e c = Some (c', os) -> passes os = [] \/ exists t r, os = [OPass t r].
Proof.
  destruct e as [t ce l cl|t pick extra|lv level|i]; cbn [c_step]; [| |by intros [= <- <-]; left..].
  - destruct (y_gs c !! t); [done|]. intros [= <- <-]. by left.
  - destruct (y_gs c !! t) as [g|]; [|done]. cbn [fmap option_fmap option_map]. intros [= Hc]. unfold call_step in Hc.
    repeat case_match; simplify_eq; first [by left|right; eauto].
Qed.

(** What a step of the whole is: a step of the transport, or a step of a log call with
    the entry of [Dispatch] when it dispatches. *)
Lemma a_step_cases e c y c' y' os :
  a_step e (c, y) = Some ((c', y'), os) ->
  (exists te, e = AETr te /\ at_entered te = None /\ at_step te y = Some (y', tr_obs os) /\ c' = c /\ log_obs os = []) \/
  (exists le, e = AELog le /\ c_step le c = Some (c', log_obs os) /\
     ((passes (log_obs os) = [] /\ y' = y /\ tr_obs os = []) \/
      exists t r, log_obs os = [OPass t r] /\ at_step (at_enter t r) y = Some (y', tr_obs os))).
Proof.
  destruct e as [le|te]; cbn [a_step].
  - destruct (waits le c y); [done|]. destruct (c_step le c) as [[c1 os1]|] eqn:E1; [|done]. intros Hst. right. exists le. split; [done|].
    destruct (c_step_obs le c c1 os1 E1) as [Hp|(t & r & ->)].
    + assert (Hst' : Some ((c1, y), AOLog (O:=O) <$> os1) = Some ((c', y'), os)) by (by destruct os1 as [|[] [|]]).
      injection Hst' as <- <- <-. destruct (log_obs_log os1) as [-> ->]. eauto.
    + destruct (at_step (at_enter t r) y) as [[y1 os2]|] eqn:E2; [|done]. injection Hst as <- <- <-.
      cbn [log_obs tr_obs omap list_omap]. destruct (log_obs_tr os2) as [H1 H2]. unfold log_obs, tr_obs in H1, H2. rewrite H1, H2. split; [done|]. eauto.
  - destruct (at_entered te) eqn:Ee; [done|]. destruct (at_step te y) as [[y1 os1]|] eqn:E1; [|done]. intros [= <- <- <-]. left. exists te.
    destruct (log_obs_tr os1) as [-> ->]. done.
Qed.

Context `{CC : !CarriesClones E Y O} `{CV : !Conserves E Y O}.

(** [r] is the clone of what the pipeline made of a call in [made]. *)
Definition from_call (ps : list Processor) (made : Z -> CallEnv -> Logger -> Call -> Prop) (r : LogRecord) : Prop :=
  exists t ce l c r0, made t ce l c /\ passed ps ce l c r0 /\ r = Clone r0.

Record ainv (ps : list Processor) (made : Z -> CallEnv -> Logger -> Call -> Prop) (y0 : Y) (s : CSys Store Z * Y) (tr : list (AObs O)) : Prop := {
  ai_own : owned s.1;
  ai_val : vinv ps made (abs s.1) (log_obs tr);
  ai_reach : reaches at_step y0 s.2 (tr_obs tr);
  ai_all : at_all (from_call ps made) s.2;
  ai_emitted : Forall (from_call ps made) (at_emitted (tr_obs tr));
  ai_ok : at_ok s.2;
  ai_conserve : at_pending y0 ++ (Clone <$> passes (log_obs tr)) ≡ₚ at_pending s.2 ++ at_answered (tr_obs tr)
}.

(** A step of the transport, with the record it is entered with. *)
Lemma transport_ainv ps made y0 c y tr e y' os :
  ainv ps made y0 (c, y) tr -> at_step e y = Some (y', os) -> (forall r, at_entered e = Some r -> from_call ps made (Clone r)) ->
  reaches at_step y0 y' (tr_obs tr ++ os) /\ at_all (from_call ps made) y' /\ Forall (from_call ps made) (at_emitted (tr_obs tr ++ os)) /\
  at_ok y' /\ at_pending y0 ++ (Clone <$> passes (log_obs tr)) ++ option_list (Clone <$> at_entered e) ≡ₚ at_pending y' ++ at_answered (tr_obs tr ++ os).
Proof.
  intros [A1 A2 A3 A4 A5 A6 A7] Hst He. cbn [fst snd] in *. destruct (at_all_step _ _ _ _ _ A4 Hst He) as [H1 H2].
  destruct (at_conserve _ _ _ _ A6 Hst) as [H3 H4]. split_and!; [by eapply reaches_step|done| |done|].
  - rewrite at_emitted_app. by apply Forall_app.
  - rewrite at_answered_app, (assoc_L (++)), A7.
    rewrite <-(assoc_L (++)), (Permutation_app_comm (at_answered (tr_obs tr))), (assoc_L (++)), <-H4. solve_Permutation.
Qed.

Lemma a_step_ainv ps (made : Z -> CallEnv -> Logger -> Call -> Prop) y0 e s tr s' os :
  match e with AELog (CECall t ce l c) => made t ce l c | _ => True end ->
  ainv ps made y0 s tr -> a_step e s = Some (s', os) -> ainv ps made y0 s' (tr ++ os).
Proof.
  intros He Hi Hst. destruct s as [c y], s' as [c' y']. pose proof Hi as [A1 A2 A3 A4 A5 A6 A7].
  destruct (a_step_cases e c y c' y' os Hst) as [(te & -> & Hn & Hs & -> & Hl)|(le & -> & Hc & Hor)].
  - destruct (transport_ainv ps made y0 c y tr te y' _ Hi Hs) as (R & AL & EM & OK & CO); [intros r Hr; congruence|].
    split; rewrite ?log_obs_app, ?tr_obs_app, ?Hl, ?app_nil_r; try done. rewrite Hn, app_nil_r in CO. exact CO.
  - destruct (c_step_refines le c c' _ A1 Hc) as [H1 H2]. pose proof (c_step_vinv ps made le (abs c) _ _ _ ltac:(by destruct le) A2 H2) as H3.
    destruct Hor as [(Hp & -> & Ht)|(t & r & Hl & Hs)].
    + split; rewrite ?log_obs_app, ?tr_obs_app, ?Ht, ?passes_app, ?Hp, ?app_nil_r; done.
    + assert (Hr : from_call ps made (Clone r)).
      { destruct (vi_tr _ _ _ _ H3 t r) as (ce & l & cl & Hm & Hp); [rewrite Hl; apply elem_of_app; right; by left|]. by exists t, ce, l, cl, r. }
      destruct (transport_ainv ps made y0 c y tr (at_enter t r) y' _ Hi Hs) as (R & AL & EM & OK & CO).
      { rewrite at_enter_entered. by intros r' [= <-]. }
      split; rewrite ?log_obs_app, ?tr_obs_app; try done. rewrite passes_app, Hl. rewrite at_enter_entered in CO. by rewrite fmap_app.
Qed.

Lemma app_law_nil {B C} (f : list B -> list C) : (forall l l', f (l ++ l') = f l ++ f l') -> f [] = [].
Proof. intros Hf. specialize (Hf [] []). simpl in Hf. apply (f_equal length) in Hf. rewrite length_app in Hf. destruct (f []); [done|simpl in Hf; lia]. Qed.

(** Every run keeps the invariant. *)
Lemma run_ainv es lv ps y0 s tr :
  run_steps a_step es (mem_start lv ps, y0) = Some (s, tr) -> at_ok y0 -> (forall P, at_all P y0) ->
  ainv ps (fun t ce l cl => AELog (CECall t ce l cl) ∈ es) y0 s tr.
Proof.
  intros E1 Hok Hall. change tr with ([] ++ tr). eapply (run_inv a_step _ (fun e => e ∈ es)); [|apply Forall_forall; by intros| |exact E1].
  - intros e s0 tr0 s1 os He. apply a_step_ainv. destruct e as [[]|]; [exact He|done..].
  - split; cbn [fst snd log_obs tr_obs omap list_omap fmap list_fmap passes].
    + apply owned_start.
    + split; cbn [abs mem_start y_ps y_gs]; [done|intros t g; by rewrite fmap_empty, lookup_empty|by intros t r ?%elem_of_nil].
    + constructor.
    + done.
    + by rewrite (app_law_nil at_emitted at_emitted_app).
    + done.
    + by rewrite (app_law_nil at_answered at_answered_app).
Qed.

(** The log calls of a run are a run of their own. *)
Lemma log_part es c y c' y' tr :
  run_steps a_step es (c, y) = Some ((c', y'), tr) -> run_steps c_step (log_events es) c = Some (c', log_obs tr).
Proof.
  revert c y tr. induction es as [|e es IH]; intros c y tr; cbn [run_steps]; [by intros [= <- _ <-]|].
  destruct (a_step e (c, y)) as [[[c1 y1] o1]|] eqn:E1; [|done]. destruct (run_steps a_step es (c1, y1)) as [[s2 o2]|] eqn:E2; [|done].
  intros [= -> <-]. apply IH in E2. rewrite log_obs_app.
  destruct (a_step_cases e c y c1 y1 o1 E1) as [(te & -> & _ & _ & -> & ->)|(le & -> & Hc & _)]; [exact E2|].
  unfold log_events. cbn [omap list_omap run_steps]. rewrite Hc. unfold log_events in E2. by rewrite E2.
Qed.

(** C4. End to end, for any transport with the two laws of Async.v: run the logger's
    goroutines, the transport's and the collector in any interleaving.  Everything the sink
    receives is a clone of the pipeline's result for a call that was made (so nothing
    recycled, torn or invented), without the value of any denied key when the pipeline
    ends in the redactor; every record that passed the pipeline is still inside Dispatch
    or has been answered exactly once; and the transport's own run is one its theorems
    speak of. *)
Theorem async_end_to_end es lv ps y0 c y tr :
  run_steps a_step es (mem_start lv ps, y0) = Some ((c, y), tr) ->
  at_ok y0 -> at_pending y0 = [] -> (forall P, at_all P y0) ->
  reaches at_step y0 y (tr_obs tr) /\
  Forall (from_call ps (fun t ce l cl => AELog (CECall t ce l cl) ∈ es)) (at_emitted (tr_obs tr)) /\
  (forall ps1 q, ps = ps1 ++ [PRedact q] ->
     Forall (fun r => Forall (fun f => Key f ∈ Deny q -> Value f = VString (censored q)) (r_Fields r)) (at_emitted (tr_obs tr))) /\
  (Clone <$> passes (log_obs tr)) ≡ₚ at_pending y ++ at_answered (tr_obs tr).
Proof.
  intros E1 Hok Hp Hall. destruct (run_ainv es lv ps y0 _ tr E1 Hok Hall) as [A1 A2 A3 A4 A5 A6 A7]. cbn [fst snd] in *.
  rewrite Hp in A7. split_and!; try done. intros ps1 q ->. eapply Forall_impl; [exact A5|].
  intros r (t & ce & l & cl & r0 & _ & Hps & ->). exact (passed_redacted _ _ _ _ _ _ Hps).
Qed.
End Together.

Section Accounts.
Context {env : GoEnv} {A : Type} `{Sink A}.

Lemma channel_accounts es lv ps (a : A) h cap policy c y tr :
  run_steps a_step es (mem_start lv ps, ch_start a h cap policy) = Some ((c, y), tr) ->
  let t := tr_obs tr in
  (Clone <$> passes (log_obs tr)) ≡ₚ
    emitted t ++ option_list (ch_hand (cs_worker y)) ++ ct_ch (cs_t y) ++ evicted t ++ rejected t ++ turned_away t ++
    collect ch_waiting (cs_calls y) /\
  (ct_closed (cs_t y) = false -> turned_away t = []) /\
  (policy <> DropOldest -> evicted t = []) /\ (policy <> DropNewest -> rejected t = []) /\
  (ct_sink (cs_t y), cs_heap y) = sink_after (a, h) t.
Proof.
  intros E1 t. destruct (run_ainv es lv ps _ _ tr E1 (channel_start_ok a h cap policy) (fun P => channel_start_all P a h cap policy)) as [_ _ A3 _ _ _ A7]. fold t in A3, A7.
  pose proof (ch_reach_inv a h cap policy _ _ A3) as [I1 _ I3 _ _ _ _ _]. destruct (qtrace_answered _ _ _ _ I1) as [H1 H2].
  destruct (qtrace_policy _ _ _ _ I1) as (H3 & H4 & _). split_and!; try done.
  cbn [at_pending at_answered channel_async ch_start cs_calls] in A7. rewrite collect_empty in A7. rewrite A7, H1. cbn [snd].
  unfold hand. cbn [q_hand q_items]. destruct (ch_hand (cs_worker y)); solve_Permutation.
Qed.

(** C16. Every logged record is accounted for: with the channel transport, under any
    policy, capacity and interleaving, the records that passed the pipeline are exactly
    those the sink received, the one in the worker's hands, those queued, evicted,
    rejected, those turned away by a closed transport (none while it is open), and those
    still inside Dispatch; under Block nothing is evicted or rejected; and the sink is
    where the emissions put it. *)
Theorem channel_logger_accounts es lv ps (a : A) h cap policy c y tr :
  run_steps a_step es (mem_start lv ps, ch_start a h cap policy) = Some ((c, y), tr) ->
  let t := tr_obs tr in
  (Clone <$> passes (log_obs tr)) ≡ₚ
    emitted t ++ option_list (ch_hand (cs_worker y)) ++ ct_ch (cs_t y) ++ evicted t ++ rejected t ++ turned_away t ++
    collect ch_waiting (cs_calls y) /\
  (ct_closed (cs_t y) = false -> turned_away t = []) /\
  (policy <> DropOldest -> evicted t = []) /\ (policy <> DropNewest -> rejected t = []) /\
  (ct_sink (cs_t y), cs_heap y) = sink_after (a, h) t.
Proof. apply channel_accounts. Qed.

(** The same for the ring. *)
Theorem ring_logger_accounts es lv ps (a : A) h cap policy c y tr :
  run_steps a_step es (mem_start lv ps, start a h cap policy) = Some ((c, y), tr) ->
  let t := tr_obs tr in
  exists q, ring_repr (sys_t y) q /\
  (Clone <$> passes (log_obs tr)) ≡ₚ
    emitted t ++ option_list (inflight (sys_worker y)) ++ q ++ evicted t ++ rejected t ++ turned_away t ++ collect ring_waiting (sys_calls y) /\
  (rt_closed (sys_t y) = false -> turned_away t = []).
Proof.
  intros E1 t. destruct (run_ainv es lv ps _ _ tr E1 (ring_start_ok a h cap policy) (fun P => ring_start_all P a h cap policy)) as [_ _ A3 _ _ _ A7]. fold t in A3, A7.
  destruct (reach_inv _ _ _ _ _ _ A3) as [[(q & Hq & Ha) _ _ _ _ _] _]. exists q. split; [done|].
  destruct (qtrace_answered _ _ _ _ Ha) as [H1 H2]. split; [|done].
  cbn [at_pending at_answered ring_async start sys_calls] in A7. rewrite collect_empty in A7. rewrite A7, H1. cbn [snd].
  unfold hand. cbn [q_hand q_items]. destruct (inflight (sys_worker y)); solve_Permutation.
Qed.
End Accounts.

(** ** A session: two goroutines over a channel of one slot *)
Definition log_steps (t : Z) (n : nat) : list (AEvent ChEvent) := repeat (AELog (CEStep t (Some 0%nat) 0)) n.
Definition async_ps : list Processor := [PSample (NewSampleProcessor 5 2); PRedact (NewRedactProcessor ["password"])].
Definition async_logger : Logger := mkLogger (staticLevel LevelInfo) [FString "svc" "api"] false 0.
Definition async_schedule : list (AEvent ChEvent) :=
  [AELog (CECall 1 demo_ce async_logger (conc_call "a" "s1")); AELog (CECall 2 demo_ce async_logger (conc_call "b" "s2"))] ++
  log_steps 1 11 ++ log_steps 2 11 ++ [AETr (HERun 1)] ++ log_steps 1 1 ++
  [AELog (CECall 1 demo_ce async_logger (conc_call "c" "s3"))] ++ log_steps 1 11 ++
  [AETr HEWorker; AETr HEWorker; AETr (HERun 2)] ++ log_steps 2 1.
Definition async_start : CSys Store Z * ChSys Capture := (mem_start ∅ async_ps, ch_start (mkCapture []) empty_heap 1 Block).
Definition async_end : CSys Store Z * ChSys Capture * list (AObs Obs) :=
  default (async_start, []) (run_steps (a_step (env:=demo_env)) async_schedule async_start).

Lemma async_run_end : run_steps (a_step (env:=demo_env)) async_schedule async_start = Some (async_end.1.1, async_end.1.2, async_end.2).
Proof. vm_compute. reflexivity. Qed.

Lemma async_end_to_end_witness :
  Forall (from_call (env:=demo_env) async_ps (fun t ce l cl => AELog (CECall t ce l cl) ∈ async_schedule)) (emitted (tr_obs async_end.2)) /\
  map r_Message (emitted (tr_obs async_end.2)) = ["a"%string] /\
  map r_Message (passes (log_obs async_end.2)) = ["a"; "b"; "c"]%string.
Proof.
  split_and!; [|vm_compute; reflexivity|vm_compute; reflexivity].
  apply (async_end_to_end (env:=demo_env) async_schedule ∅ async_ps (ch_start (mkCapture []) empty_heap 1 Block) async_end.1.1 async_end.1.2 async_end.2 async_run_end).
  - apply channel_start_ok.
  - reflexivity.
  - intros P. apply channel_start_all.
Defined.

Lemma channel_logger_accounts_witness :
  let t := tr_obs async_end.2 in
  (Clone <$> passes (log_obs async_end.2)) ≡ₚ
    emitted t ++ option_list (ch_hand (cs_worker async_end.1.2)) ++ ct_ch (cs_t async_end.1.2) ++ evicted t ++ rejected t ++ turned_away t ++
    collect ch_waiting (cs_calls async_end.1.2).
Proof. apply (channel_logger_accounts (env:=demo_env) async_schedule ∅ async_ps (mkCapture []) empty_heap 1 Block async_end.1.1 async_end.1.2 async_end.2 async_run_end). Defined.
