(* ===== verification/Template.v ===== *)
(** * Message templates (template.go)

    One pass over the template: holes consume the arguments left to right and become
    fields, doubled braces are literal. *)
From S2P Require Import Prelude GoStd Level Field Record Pipeline Sink Transport Logger.
Local Open Scope Z_scope.

Definition LBRACE : ascii := "{"%char.
Definition RBRACE : ascii := "}"%char.

Section Template.
Context {env : GoEnv}.

Definition next_is (c : ascii) (rest' : string) : bool := match rest' with String d _ => Ascii.eqb d c | EmptyString => false end.

(** The loop at position [i]; [rest] is [tmpl[i:]] and [args] what is left of the
    arguments.  Every iteration consumes a byte, so the length is fuel enough. *)
Fixpoint template_loop (fuel : nat) (rest : string) (args : list GoVal) : string * list Field :=
  match fuel, rest with
  | S f, String c rest' =>
      if Ascii.eqb c LBRACE then
        if next_is LBRACE rest' then
          let '(m, fs) := template_loop f (str_drop 2 rest) args in (String LBRACE m, fs)
        else
          match Strings.IndexByte rest RBRACE with
          | None => (rest, [])
          | Some e =>
              let name := slice rest 1 e in
              let '(val, args') := match args with v :: args' => (v, args') | [] => (VNil, []) end in
              let '(m, fs) := template_loop f (str_drop (S e) rest) args' in
              (Sprint val +:+ m, FAny name val :: fs)
          end
      else if Ascii.eqb c RBRACE && next_is RBRACE rest' then
        let '(m, fs) := template_loop f (str_drop 2 rest) args in (String RBRACE m, fs)
      else
        let '(m, fs) := template_loop f rest' args in (String c m, fs)
  | _, _ => ("", [])
  end.

Definition parseTemplate (tmpl : string) (args : list GoVal) : string * list Field :=
  let '(m, fs) := template_loop (String.length tmpl) tmpl args in (m, fs ++ [FString "msg_template" tmpl]).

Section Logt.
Context {T : Type} `{Transport T}.

Definition logt (ce : CallEnv) (l : Logger) (ctx : option (list CtxVal)) (level : Level) (tmpl : string) (args : list GoVal) (w : World T) : World T :=
  if negb (Enabled l level w) then w
  else let '(msg, fields) := parseTemplate tmpl args in log ce l ctx level msg fields w.
Definition Debugt ce l tmpl args := logt ce l (Some Background) LevelDebug tmpl args.
Definition Infot ce l tmpl args := logt ce l (Some Background) LevelInfo tmpl args.
Definition Warnt ce l tmpl args := logt ce l (Some Background) LevelWarn tmpl args.
Definition Errort ce l tmpl args := logt ce l (Some Background) LevelError tmpl args.
Definition Logt ce l ctx level tmpl args := logt ce l ctx level tmpl args.
End Logt.

(** ** Templates as syntax *)
Inductive Seg := Lit (text : string) | Hole (name : string).

(** A hole's name may hold anything but a closing brace, and not start with an opening one. *)
Definition good_name (name : string) : bool := no_byte RBRACE name && negb (next_is LBRACE name).
Definition good_seg (s : Seg) : bool := match s with Lit _ => true | Hole name => good_name name end.

Definition escape_brace (c : ascii) : string := if Ascii.eqb c LBRACE || Ascii.eqb c RBRACE then String c (str1 c) else str1 c.
Fixpoint escape_braces (t : string) : string :=
  match t with EmptyString => "" | String c t' => escape_brace c +:+ escape_braces t' end.
Definition print_seg (s : Seg) : string :=
  match s with Lit t => escape_braces t | Hole name => String LBRACE (name +:+ str1 RBRACE) end.
Definition print_template (segs : list Seg) : string := str_concat (map print_seg segs).

(** What it means: the message, and one field per hole. *)
Fixpoint render (segs : list Seg) (args : list GoVal) : string * list Field :=
  match segs with
  | [] => ("", [])
  | Lit t :: segs' => let '(m, fs) := render segs' args in (t +:+ m, fs)
  | Hole name :: segs' =>
      let v := match args with v :: _ => v | [] => VNil end in
      let '(m, fs) := render segs' (tail args) in (Sprint v +:+ m, FAny name v :: fs)
  end.

(** *** The loop reads back what was printed *)
Lemma str_drop_length k s : String.length (str_drop k s) = (String.length s - k)%nat.
Proof. revert s. induction k as [|k IH]; intros [|c s]; simpl; rewrite ?IH; done. Qed.

(** Any fuel that covers the bytes left gives the same result. *)
Lemma loop_fuel f1 f2 rest args :
  (String.length rest <= f1)%nat -> (String.length rest <= f2)%nat -> template_loop f1 rest args = template_loop f2 rest args.
Proof.
  revert f2 rest args. induction f1 as [|f1 IH]; intros f2 [|c rest] args H1 H2; simpl in H1, H2; try lia; [by destruct f2|by destruct f2|].
  destruct f2 as [|f2]; [lia|]. cbn [template_loop].
  assert (Hd : forall k args, template_loop f1 (str_drop (S k) (String c rest)) args = template_loop f2 (str_drop (S k) (String c rest)) args).
  { intros k args0. pose proof (str_drop_length k rest). apply IH; cbn [str_drop]; lia. }
  destruct (Ascii.eqb c LBRACE); [destruct (next_is LBRACE rest); [by rewrite Hd|]|].
  - destruct (Strings.IndexByte _ _) as [e|]; [|done]. destruct args as [|v args]; by rewrite Hd.
  - destruct (Ascii.eqb c RBRACE && next_is RBRACE rest); [by rewrite Hd|]. by rewrite (IH f2) by lia.
Qed.

(** Doubled braces and plain bytes, one iteration. *)
Lemma loop_double f c x args :
  c = LBRACE \/ c = RBRACE ->
  template_loop (S f) (String c (String c x)) args = let '(m, fs) := template_loop f x args in (String c m, fs).
Proof. intros [-> | ->]; reflexivity. Qed.

Lemma loop_plain f c x args :
  c <> LBRACE -> c <> RBRACE ->
  template_loop (S f) (String c x) args = let '(m, fs) := template_loop f x args in (String c m, fs).
Proof.
  intros H1 H2. cbn [template_loop]. destruct (Ascii.eqb_spec c LBRACE); [done|]. by destruct (Ascii.eqb_spec c RBRACE).
Qed.

(** The parser without fuel. *)
Definition parse (rest : string) (args : list GoVal) : string * list Field := template_loop (String.length rest) rest args.

Lemma parse_lit t rest args :
  parse (escape_braces t +:+ rest) args = let '(m, fs) := parse rest args in (t +:+ m, fs).
Proof.
  induction t as [|c t IH].
  - simpl. rewrite sapp_nil_l. by destruct (parse rest args).
  - cbn [escape_braces]. rewrite sapp_assoc. unfold escape_brace, str1.
    assert (Hgo : forall f, (String.length (escape_braces t +:+ rest) <= f)%nat ->
      (let '(m, fs) := template_loop f (escape_braces t +:+ rest) args in (String c m, fs)) =
      (let '(m, fs) := parse rest args in (String c t +:+ m, fs))).
    { intros f Hf. rewrite (loop_fuel f (String.length (escape_braces t +:+ rest))) by lia. fold (parse (escape_braces t +:+ rest) args).
      rewrite IH. by destruct (parse rest args). }
    destruct (Ascii.eqb_spec c LBRACE) as [->|Hl]; [|destruct (Ascii.eqb_spec c RBRACE) as [->|Hr]]; cbn [orb];
      rewrite ?sapp_cons, sapp_nil_l; unfold parse at 1; cbn [String.length].
    + rewrite loop_double by auto. apply Hgo. lia.
    + rewrite loop_double by auto. apply Hgo. lia.
    + rewrite loop_plain by done. apply Hgo. lia.
Qed.

Lemma IndexByte_first p c rest : no_byte c p = true -> Strings.IndexByte (p +:+ String c rest) c = Some (String.length p).
Proof.
  induction p as [|d p IH]; intros Hp; [rewrite sapp_nil_l; simpl; by rewrite Ascii.eqb_refl|].
  unfold no_byte in Hp. simpl in Hp. bool_to_prop. rewrite sapp_cons. simpl. rewrite H. by rewrite IH.
Qed.

Lemma parse_hole name rest args :
  good_name name = true ->
  parse (String LBRACE (name +:+ String RBRACE rest)) args =
  let v := match args with v :: _ => v | [] => VNil end in
  let '(m, fs) := parse rest (tail args) in (Sprint v +:+ m, FAny name v :: fs).
Proof.
  unfold good_name. intros Hg. bool_to_prop. unfold parse at 1. cbn [String.length template_loop]. rewrite Ascii.eqb_refl.
  assert (next_is LBRACE (name +:+ String RBRACE rest) = false) as ->.
  { destruct name; [reflexivity|]. rewrite sapp_cons. done. }
  assert (Strings.IndexByte (String LBRACE (name +:+ String RBRACE rest)) RBRACE = Some (S (String.length name))) as ->.
  { change (String LBRACE (name +:+ String RBRACE rest)) with (String LBRACE name +:+ String RBRACE rest).
    apply (IndexByte_first (String LBRACE name)). unfold no_byte in *. simpl. done. }
  assert (slice (String LBRACE (name +:+ String RBRACE rest)) 1 (S (String.length name)) = name) as ->.
  { unfold slice. simpl. rewrite Nat.sub_0_r. apply str_take_app. }
  assert (str_drop (S (S (String.length name))) (String LBRACE (name +:+ String RBRACE rest)) = rest) as ->.
  { change (str_drop (S (S (String.length name))) (String LBRACE (name +:+ String RBRACE rest)))
      with (str_drop (S (String.length name)) (name +:+ String RBRACE rest)).
    replace (S (String.length name)) with (String.length (name +:+ str1 RBRACE)) by (rewrite slength_app; simpl; lia).
    replace (name +:+ String RBRACE rest) with ((name +:+ str1 RBRACE) +:+ rest) by (by rewrite sapp_assoc). apply str_drop_app. }
  cbv zeta. destruct args as [|v args]; cbn [tail];
    rewrite (loop_fuel _ (String.length rest)) by (rewrite ?slength_app; simpl; lia); done.
Qed.

Lemma parse_render segs args :
  Forall (fun s => good_seg s = true) segs -> parse (print_template segs) args = render segs args.
Proof.
  intros Hg. revert args. induction Hg as [|s segs Hs _ IH]; intros args; [done|].
  unfold print_template in *. cbn [map str_concat]. destruct s as [t|name]; cbn [print_seg render].
  - rewrite parse_lit, IH. done.
  - rewrite sapp_cons, sapp_assoc. unfold str1. rewrite sapp_cons, sapp_nil_l, parse_hole by done. by rewrite IH.
Qed.

(** C28. Templates mean what they say: for every template written from literal text
    (braces doubled) and holes whose names hold no closing brace and do not start with
    an opening one, parseTemplate renders exactly the literals and the arguments in
    order, emits exactly one Any field per hole with the hole's name and the argument
    (nil when the arguments run out), and ends with the template itself; in particular
    the pass over the bytes always finishes. *)
Theorem template_roundtrip segs args :
  Forall (fun s => good_seg s = true) segs ->
  parseTemplate (print_template segs) args =
  ((render segs args).1, (render segs args).2 ++ [FString "msg_template" (print_template segs)]).
Proof.
  intros Hg. unfold parseTemplate. fold (parse (print_template segs) args). rewrite parse_render by done.
  by destruct (render segs args).
Qed.
End Template.

Definition demo_segs : list Seg := [Lit "processed {raw} "; Hole "count"; Lit "} files for "; Hole "user"; Hole "missing"].

Lemma template_roundtrip_witness :
  parseTemplate (env:=demo_env) (print_template demo_segs) [VInt 12; VString "ada"] =
  ("processed {raw} 12} files for ada<nil>",
   [FAny "count" (VInt 12); FAny "user" (VString "ada"); FAny "missing" VNil;
    FString "msg_template" "processed {{raw}} {count}}} files for {user}{missing}"]).
Proof.
  etransitivity; [apply (template_roundtrip (env:=demo_env) demo_segs [VInt 12; VString "ada"])|reflexivity].
  repeat constructor.
Defined.
