(* ===== verification/Admin.v ===== *)
(** * Runtime level control (admin.go, config_reload.go, signal.go)

    The three ways to change a [LevelVar] of a running process: the HTTP handler, the
    polled configuration file, and a signal. *)
From S2P Require Import Prelude GoStd Level.
Import GoTime.
Local Open Scope Z_scope.

Section Admin.
Context {env : GoEnv}.

(** ** admin.go *)
Definition parseLevel (s : string) : option Level :=
  let s := TrimSpace (ToLower s) in
  if String.eqb s "trace" then Some LevelTrace
  else if String.eqb s "debug" then Some LevelDebug
  else if String.eqb s "info" then Some LevelInfo
  else if String.eqb s "warn" || String.eqb s "warning" then Some LevelWarn
  else if String.eqb s "error" then Some LevelError
  else if String.eqb s "fatal" then Some LevelFatal
  else match Strconv.Atoi s with
       | Some n => if (1 <=? n) && (n <=? 24) then Some n else None
       | None => None
       end.

(** What the handler reads of a request: the method, the [level] query parameter, and
    the bytes the one [Read] of the body into 16 bytes delivers. *)
Record Request := mkRequest { rq_Method : string; rq_level : string; rq_body : string }.
Record Response := mkResponse { rs_status : Z; rs_type : string; rs_body : string }.

Definition qt : string := str1 QUOTE.
Definition http_Error (msg : string) (code : Z) : Response :=
  mkResponse code "text/plain; charset=utf-8" (msg +:+ str1 LF).

(** The handler holds the address of the level variable. *)
Record LevelHandler := mkLevelHandler { lh_lv : Z }.
Definition NewLevelHandler (lv : Z) : LevelHandler := mkLevelHandler lv.
Definition LevelHandler_ServeHTTP (h : LevelHandler) (r : Request) (st : LevelStore) : LevelStore * Response :=
  let lv := lh_lv h in
  if String.eqb (rq_Method r) "GET" then
    let cur := LevelVar_Level lv st in
    (st, mkResponse 200 "application/json"
           ("{" +:+ qt +:+ "level" +:+ qt +:+ ":" +:+ qt +:+ MarshalText cur +:+ qt +:+ "," +:+ qt +:+ "severity_number" +:+ qt +:+ ":" +:+
            Strconv.FormatInt cur +:+ "}" +:+ str1 LF))
  else if String.eqb (rq_Method r) "PUT" || String.eqb (rq_Method r) "POST" then
    let val := if String.eqb (rq_level r) "" then str_take 16 (rq_body r) else rq_level r in
    match parseLevel val with
    | None => (st, http_Error ("bad level: " +:+ val) 400)
    | Some lvl =>
        (LevelVar_Set lv lvl st,
         mkResponse 200 "" ("{" +:+ qt +:+ "level" +:+ qt +:+ ":" +:+ qt +:+ MarshalText lvl +:+ qt +:+ "}" +:+ str1 LF))
    end
  else (st, http_Error "method not allowed" 405).

(** ** config_reload.go *)
Record FileConfig := mkFileConfig { cfg_Level : string }.
Record ConfigWatcher := mkWatcher {
  cw_lv : Z;
  cw_interval : Z;
  cw_lastMod : Time;                   (* the goroutine's local lastMod *)
  cw_onReload : bool;                  (* a callback is registered *)
  cw_reloads : list FileConfig;        (* the calls it received *)
  cw_exited : bool                     (* run has received from stop and returned *)
}.

(** [encoding/json]: [None] when [Unmarshal] fails. *)
Context (unmarshal : string -> option FileConfig).

(** [apply]; [file] is what [os.ReadFile] returns. *)
Definition apply_config (file : option string) (w : ConfigWatcher) (st : LevelStore) : ConfigWatcher * LevelStore :=
  match file with
  | None => (w, st)
  | Some b =>
      match unmarshal b with
      | None => (w, st)
      | Some c =>
          let st := match parseLevel (cfg_Level c) with Some lvl => LevelVar_Set (cw_lv w) lvl st | None => st end in
          (if cw_onReload w then mkWatcher (cw_lv w) (cw_interval w) (cw_lastMod w) true (cw_reloads w ++ [c]) (cw_exited w) else w, st)
      end
  end.

(** [applyOnce]: [stat] tells whether the file exists. *)
Definition applyOnce (stat : bool) (file : option string) (w : ConfigWatcher) (st : LevelStore) : ConfigWatcher * LevelStore :=
  if stat then apply_config file w st else (w, st).

Definition WatchConfigFile (lv interval : Z) (stat : bool) (file : option string) (st : LevelStore) : ConfigWatcher * LevelStore :=
  let interval := if interval <? Second then Second else interval in
  applyOnce stat file (mkWatcher lv interval zero_time false [] false) st.
Definition OnReload (w : ConfigWatcher) : ConfigWatcher :=
  mkWatcher (cw_lv w) (cw_interval w) (cw_lastMod w) true (cw_reloads w) (cw_exited w).
(** [run] receives from the channel that [Stop] closes. *)
Definition watch_stop (w : ConfigWatcher) : ConfigWatcher :=
  mkWatcher (cw_lv w) (cw_interval w) (cw_lastMod w) (cw_onReload w) (cw_reloads w) true.

(** One tick of [run]: [stat] is the modification time, if the file exists. *)
Definition watch_tick (stat : option Time) (file : option string) (w : ConfigWatcher) (st : LevelStore) : ConfigWatcher * LevelStore :=
  if cw_exited w then (w, st)
  else
    match stat with
    | None => (w, st)
    | Some m =>
        if t_ns m =? t_ns (cw_lastMod w) then (w, st)
        else apply_config file (mkWatcher (cw_lv w) (cw_interval w) m (cw_onReload w) (cw_reloads w) (cw_exited w)) st
    end.

(** ** signal.go: one delivery to the goroutine of [CycleLevelOnSignal]. *)
Definition cycle_signal (lv : Z) (normal verbose : Level) (on : bool) (st : LevelStore) : bool * LevelStore :=
  (negb on, LevelVar_Set lv (if on then normal else verbose) st).

(** ** Everything that may set the level *)
Inductive LevelEvent :=
| LHttp (r : Request)
| LTick (stat : option Time) (file : option string)
| LStop
| LSignal.

Record Control := mkControl { ct_store : LevelStore; ct_watch : ConfigWatcher; ct_on : bool }.

Definition control_step (lv : Z) (normal verbose : Level) (c : Control) (e : LevelEvent) : Control :=
  match e with
  | LHttp r => mkControl (LevelHandler_ServeHTTP (NewLevelHandler lv) r (ct_store c)).1 (ct_watch c) (ct_on c)
  | LTick stat file => let '(w, st) := watch_tick stat file (ct_watch c) (ct_store c) in mkControl st w (ct_on c)
  | LStop => mkControl (ct_store c) (watch_stop (ct_watch c)) (ct_on c)
  | LSignal => let '(on, st) := cycle_signal lv normal verbose (ct_on c) (ct_store c) in mkControl st (ct_watch c) on
  end.

(** ** Facts *)
Definition valid_level (l : Level) : Prop := 1 <= l <= 24.

Lemma parseLevel_valid s l : parseLevel s = Some l -> valid_level l.
Proof.
  unfold parseLevel, valid_level. repeat case_match; intros [= <-]; bool_to_prop;
    unfold LevelTrace, LevelDebug, LevelInfo, LevelWarn, LevelError, LevelFatal; lia.
Qed.

(** What [MarshalText] prints is read back as the first level of its band, and every
    severity number from 1 to 24 as itself. *)
Lemma parseLevel_MarshalText l : 1 <= l -> parseLevel (MarshalText l) = Some (band_anchor (band_of l)).
Proof.
  intros Hl. unfold MarshalText. rewrite Level_String_band.
  destruct (band_of l) eqn:E; try reflexivity. exfalso. revert E. destruct (band_of_cases l) as [[]|Hc]; [lia|].
  destruct Hc as [[_ ->]|[[_ ->]|[[_ ->]|[[_ ->]|[[_ ->]|[_ ->]]]]]]; discriminate.
Qed.

Lemma parseLevel_number n : valid_level n -> parseLevel (Strconv.FormatInt n) = Some n.
Proof.
  intros Hn. assert (Hall : Forall (fun n => parseLevel (Strconv.FormatInt n) = Some n) (seqZ 1 24)) by (repeat constructor).
  rewrite Forall_forall in Hall. apply Hall, elem_of_seqZ. unfold valid_level in Hn. lia.
Qed.

Lemma serve_level lv r st :
  let '(st', resp) := LevelHandler_ServeHTTP (NewLevelHandler lv) r st in
  (exists l, valid_level l /\ st' = LevelVar_Set lv l st /\ rs_status resp = 200) \/ st' = st.
Proof.
  unfold LevelHandler_ServeHTTP. case_if; [by right|]. case_if; [|by right].
  set (val := if String.eqb (rq_level r) "" then str_take 16 (rq_body r) else rq_level r).
  destruct (parseLevel val) as [l|] eqn:Hp; [|by right]. left. exists l. split; [by eapply parseLevel_valid|done].
Qed.

Lemma apply_config_level file w st :
  let '(w', st') := apply_config file w st in
  cw_lv w' = cw_lv w /\ ((exists l, valid_level l /\ st' = LevelVar_Set (cw_lv w) l st) \/ st' = st).
Proof.
  unfold apply_config. destruct file as [b|]; [|by auto]. destruct (unmarshal b) as [c|]; [|by auto].
  split; [by destruct (cw_onReload w)|]. destruct (parseLevel (cfg_Level c)) as [l|] eqn:Hp; [|by right].
  left. exists l. split; [by eapply parseLevel_valid|done].
Qed.

Lemma watch_tick_level stat file w st :
  let '(w', st') := watch_tick stat file w st in
  cw_lv w' = cw_lv w /\ ((exists l, valid_level l /\ st' = LevelVar_Set (cw_lv w) l st) \/ st' = st).
Proof.
  unfold watch_tick. case_if; [by auto|]. destruct stat as [m|]; [|by auto]. case_if; [by auto|].
  exact (apply_config_level file (mkWatcher (cw_lv w) (cw_interval w) m (cw_onReload w) (cw_reloads w) false) st).
Qed.

Definition control_ok (lv : Z) (c : Control) : Prop := cw_lv (ct_watch c) = lv /\ valid_level (LevelVar_Level lv (ct_store c)).

Lemma set_valid lv l st : valid_level l -> valid_level (LevelVar_Level lv (LevelVar_Set lv l st)).
Proof. intros. unfold LevelVar_Level, LevelVar_Set. by rewrite lookup_insert_eq. Qed.

Lemma control_step_ok lv normal verbose c e :
  valid_level normal -> valid_level verbose -> control_ok lv c -> control_ok lv (control_step lv normal verbose c e).
Proof.
  intros Hn Hv [Hw Hl]. destruct e as [r|stat file| |]; simpl.
  - pose proof (serve_level lv r (ct_store c)) as Hs. destruct (LevelHandler_ServeHTTP (NewLevelHandler lv) r (ct_store c)) as [st' resp]. split; [done|].
    destruct Hs as [(l & Hlv & -> & _)| ->]; [by apply set_valid|done].
  - pose proof (watch_tick_level stat file (ct_watch c) (ct_store c)) as Hs.
    destruct (watch_tick stat file (ct_watch c) (ct_store c)) as [w' st']. destruct Hs as [Hw' Hs]. split; simpl; [congruence|].
    rewrite Hw in Hs. destruct Hs as [(l & Hlv & ->)| ->]; [by apply set_valid|done].
  - done.
  - split; [done|]. apply set_valid. by destruct (ct_on c).
Qed.

(** C38. Runtime control never breaks the level: whatever HTTP requests, configuration
    files (missing, unreadable, invalid or with any level string) and signals arrive in
    whatever order, the level variable stays a severity number from 1 to 24; and what
    the handler prints can be sent back: a band name sets the first level of that band,
    a number sets exactly that level. *)
Theorem level_control_valid lv normal verbose es c :
  valid_level normal -> valid_level verbose -> control_ok lv c ->
  valid_level (LevelVar_Level lv (ct_store (fold_left (control_step lv normal verbose) es c))) /\
  (forall l, 1 <= l -> parseLevel (MarshalText l) = Some (band_anchor (band_of l))) /\
  (forall n, valid_level n -> parseLevel (Strconv.FormatInt n) = Some n).
Proof.
  intros Hn Hv Hc. split_and!; [|apply parseLevel_MarshalText|apply parseLevel_number].
  assert (control_ok lv (fold_left (control_step lv normal verbose) es c)) as [_ Hl]; [|done].
  revert c Hc. induction es as [|e es IH]; intros c Hc; [done|]. simpl. apply IH. by apply control_step_ok.
Qed.
End Admin.

Lemma level_control_valid_witness :
  let c0 := mkControl (NewLevelVar 1 LevelInfo ∅) (mkWatcher 1 Second zero_time false [] false) false in
  let es := [LHttp (mkRequest "PUT" "" " Debug "); LSignal; LTick (Some (mkTime 5 UTC)) (Some "99"); LHttp (mkRequest "POST" "25" "")] in
  let c := fold_left (control_step (env:=demo_env) (fun s => Some (mkFileConfig s)) 1 LevelWarn LevelTrace) es c0 in
  valid_level (LevelVar_Level 1 (ct_store c)) /\ LevelVar_Level 1 (ct_store c) = LevelTrace.
Proof.
  intros c0 es c. split; [|vm_compute; reflexivity].
  apply (level_control_valid (env:=demo_env) (fun s => Some (mkFileConfig s)) 1 LevelWarn LevelTrace es c0);
    unfold valid_level, control_ok, LevelWarn, LevelTrace; [lia|lia|]. split; [reflexivity|]. vm_compute. split; discriminate.
Defined.
