(* ===== verification/SpanTree.v ===== *)
(** * Spans (span.go)

    The span state a context points to lives in the shared heap; starting a child
    changes its parent's counter there.  Identifiers are random: a parameter of each
    start.  The paths are compared with a numbering of the tree computed from the
    parents alone. *)
From S2P Require Import Prelude GoStd Sha256 Level Field Record Pipeline Sink Transport Logger.
Import GoTime Strconv Strings.
Local Open Scope Z_scope.

Record Span := mkSpan {
  sp_l : Logger;
  sp_name : string;
  sp_id : string;
  sp_parentID : string;
  sp_path : string;
  sp_start : Time;
  sp_fields : list Field;
  sp_level : Level;
  sp_err : option error;
  sp_ended : bool
}.

(** [itoa]: digits into a 20-byte array from the right. *)
Fixpoint itoa_loop (fuel : nat) (n : Z) (acc : string) : string :=
  match fuel with
  | O => acc
  | S f => if 0 <? n then itoa_loop f (n / 10) (String (byte_chr (48 + n mod 10)) acc) else acc
  end.
Definition itoa (n : Z) : string := if n =? 0 then "0" else itoa_loop 20 n "".

(** [shortID] of the six bytes [rand.Read] filled. *)
Definition shortID (b : list Z) : string := hex_encode (take 6 b).

(** [StartSpan]; [id] is what [shortID] returns and [now] the clock. *)
Definition StartSpan (l : Logger) (ctx : option (list CtxVal)) (name : string) (fields : list Field) (id : string) (now : Time) (h : Heap) :
    list CtxVal * Span * Heap :=
  let ctx := match ctx with None => Background | Some c => c end in
  let parent := match ctx_span ctx with Some p => match h_span h !! p with Some st => Some (p, st) | None => None end | None => None end in
  let '(parentID, path, h) :=
    match parent with
    | Some (p, st) =>
        let st' := mkSpanState (ss_id st) (ss_path st) (i64 (ss_children st + 1)) in
        (ss_id st, ss_path st +:+ "." +:+ itoa (ss_children st'), set_span (<[p := st']> (h_span h)) h)
    | None => ("", "1", h)
    end in
  let s := mkSpan l name id parentID path now fields LevelInfo None false in
  let ptr := h_next h in
  let h := mkHeap (h_fc h) (<[ptr := mkSpanState id path 0]> (h_span h)) (h_lv h) (ptr + 1) in
  let ctx := CSpan ptr :: ctx in
  let bound := [FString "span" name; FString "span_id" id; FString "span_path" path] ++ fields in
  let bound := if String.eqb parentID "" then bound else bound ++ [FString "parent_span_id" parentID] in
  (ContextWith ctx bound, s, h).

Definition Span_Fail (err : option error) (s : Span) : Span :=
  mkSpan (sp_l s) (sp_name s) (sp_id s) (sp_parentID s) (sp_path s) (sp_start s) (sp_fields s) LevelError err (sp_ended s).
Definition Span_SetLevel (lv : Level) (s : Span) : Span :=
  mkSpan (sp_l s) (sp_name s) (sp_id s) (sp_parentID s) (sp_path s) (sp_start s) (sp_fields s) lv (sp_err s) (sp_ended s).

(** The fields of the span.end record. *)
Definition end_fields (s : Span) (now : Time) : list Field :=
  [FString "span" (sp_name s); FString "span_id" (sp_id s); FString "span_path" (sp_path s);
   FDur "duration" (Sub now (sp_start s)); FBool "ok" (match sp_err s with None => true | Some _ => false end)] ++
  (if String.eqb (sp_parentID s) "" then [] else [FString "parent_span_id" (sp_parentID s)]) ++
  (match sp_err s with Some e => [FNamedErr "error" (Some e)] | None => [] end) ++ sp_fields s.

Section End_.
Context {env : GoEnv} {T : Type} `{Transport T}.

Definition Span_End (ce : CallEnv) (now : Time) (s : Span) (w : World T) : Span * World T :=
  if sp_ended s then (s, w)
  else
    (mkSpan (sp_l s) (sp_name s) (sp_id s) (sp_parentID s) (sp_path s) (sp_start s) (sp_fields s) (sp_level s) (sp_err s) true,
     log ce (sp_l s) (Some Background) (sp_level s) "span.end" (end_fields s now) w).

(** Only the first [End] logs. *)
Lemma Span_End_once ce ce' now now' s w :
  let '(s1, w1) := Span_End ce now s w in Span_End ce' now' s1 w1 = (s1, w1).
Proof. unfold Span_End. destruct (sp_ended s) eqn:E; [by rewrite E|done]. Qed.
End End_.

(** ** itoa prints decimals *)
Lemma itoa_loop_digits f g n acc :
  0 < n < 10 ^ Z.of_nat f -> n < 10 ^ Z.of_nat g -> itoa_loop f n acc = digits_loop g n acc.
Proof.
  revert g n acc. induction f as [|f IH]; intros g n acc Hn Hg; [simpl in Hn; lia|].
  destruct g as [|g]; [simpl in Hg; lia|]. cbn [itoa_loop digits_loop].
  destruct (Z.ltb_spec 0 n); [|lia]. destruct (Z.ltb_spec n 10) as [Hlt|Hge].
  - rewrite Z.div_small by lia. by destruct f.
  - rewrite Nat2Z.inj_succ, Z.pow_succ_r in Hn, Hg by lia. apply IH.
    + split; [apply Z.div_str_pos; lia|apply Z.div_lt_upper_bound; lia].
    + apply Z.div_lt_upper_bound; lia.
Qed.

Lemma itoa_FormatUint n : 0 < n < 2 ^ 63 -> itoa n = FormatUint n.
Proof.
  intros Hn. unfold itoa, FormatUint. destruct (Z.eqb_spec n 0); [lia|]. apply itoa_loop_digits; [lia|].
  rewrite Nat2Z.inj_succ, Z2Nat.id by apply Z.log2_nonneg.
  pose proof (Z.log2_spec n ltac:(lia)) as [_ Hs]. eapply Z.lt_le_trans; [exact Hs|].
  apply Z.pow_le_mono_l. lia.
Qed.

(** ** Paths *)
Fixpoint render_path (p : list Z) : string :=
  match p with
  | [] => ""
  | [k] => FormatUint k
  | k :: p' => FormatUint k +:+ String "." (render_path p')
  end.

Lemma render_snoc p k : p <> [] -> render_path (p ++ [k]) = render_path p +:+ "." +:+ FormatUint k.
Proof.
  induction p as [|x p IH]; intros Hp; [done|]. destruct p as [|y p]; [done|].
  change (render_path ((x :: y :: p) ++ [k])) with (FormatUint x +:+ String "." (render_path ((y :: p) ++ [k]))).
  rewrite IH by done. change (render_path (x :: y :: p)) with (FormatUint x +:+ String "." (render_path (y :: p))).
  rewrite sapp_assoc. by rewrite sapp_cons.
Qed.

Lemma uint_no_dot k : 0 <= k -> no_byte "." (FormatUint k) = true.
Proof.
  intros Hk. eapply str_forall_impl; [|apply FormatUint_digits; exact Hk]. intros c Hc. simpl.
  apply negb_true_iff. destruct (Ascii.eqb_spec c "."); [subst c; discriminate|done].
Qed.

Lemma Split_no_sep s c : no_byte c s = true -> Split s c = [s].
Proof.
  induction s as [|d s IH]; intros Hn; [done|]. unfold no_byte in Hn. simpl in Hn. bool_to_prop. simpl.
  by rewrite H, (IH H0).
Qed.

Lemma Split_dot p s : no_byte "." p = true -> Split (p +:+ String "." s) "." = p :: Split s ".".
Proof.
  induction p as [|c p IH]; intros Hp.
  - rewrite sapp_nil_l. reflexivity.
  - unfold no_byte in Hp. simpl in Hp. bool_to_prop. rewrite sapp_cons. simpl. by rewrite H, IH.
Qed.

Definition good_path (p : list Z) : Prop := p <> [] /\ Forall (fun k => 0 <= k < 2 ^ 63) p.

Lemma Split_render p : good_path p -> Split (render_path p) "." = map FormatUint p.
Proof.
  intros [Hp Hf]. induction Hf as [|k p Hk Hf IH]; [done|]. destruct p as [|k' p].
  - simpl. apply Split_no_sep, uint_no_dot. lia.
  - change (render_path (k :: k' :: p)) with (FormatUint k +:+ String "." (render_path (k' :: p))).
    rewrite Split_dot by (apply uint_no_dot; lia). rewrite IH by done. done.
Qed.

(** Different positions in the tree print differently. *)
Lemma render_inj p q : good_path p -> good_path q -> render_path p = render_path q -> p = q.
Proof.
  intros Hp Hq E. pose proof (Split_render p Hp) as E1. rewrite E, (Split_render q Hq) in E1.
  destruct Hp as [_ Hp], Hq as [_ Hq]. clear E. revert q Hq E1. induction Hp as [|k p Hk _ IH]; intros q Hq E1.
  - by destruct q.
  - destruct q as [|k' q]; [done|]. apply Forall_cons in Hq as [Hk' Hq]. injection E1 as E1 E2.
    f_equal; [|by apply IH]. apply FormatUint_inj; [unfold is_u64; lia|unfold is_u64; lia|done].
Qed.

(** ** Growing a tree of spans

    Each step starts a span under the context of one already started. *)
Record Start := mkStart { s_parent : nat; s_name : string; s_fields : list Field; s_id : string; s_now : Time }.
Record Forest := mkForest { f_heap : Heap; f_ctxs : list (list CtxVal); f_spans : list Span }.

Definition start_root (l : Logger) (s : Start) (h : Heap) : Forest :=
  let '(c, sp, h') := StartSpan l None (s_name s) (s_fields s) (s_id s) (s_now s) h in mkForest h' [c] [sp].
Definition start_child (l : Logger) (f : Forest) (s : Start) : Forest :=
  match f_ctxs f !! s_parent s with
  | Some c =>
      let '(c', sp, h') := StartSpan l (Some c) (s_name s) (s_fields s) (s_id s) (s_now s) (f_heap f) in
      mkForest h' (f_ctxs f ++ [c']) (f_spans f ++ [sp])
  | None => f
  end.
Definition grow (l : Logger) (root : Start) (ss : list Start) (h : Heap) : Forest :=
  fold_left (start_child l) ss (start_root l root h).

(** ** Positions in the tree

    The reference numbering, from the parents' indices alone, latest first: the root is
    at 1, and the k-th child of a span is at that span's position followed by k. *)
Definition count (i : nat) (l : list nat) : Z := Z.of_nat (count_occ Nat.eq_dec l i).
Fixpoint pos_rev (l : list nat) : list (list Z) :=
  match l with
  | [] => [[1]]
  | i :: l' => pos_rev l' ++ [default [] (pos_rev l' !! i) ++ [count i l' + 1]]
  end.
Fixpoint valid_rev (l : list nat) : Prop :=
  match l with [] => True | i :: l' => (i <= length l')%nat /\ valid_rev l' end.

Record pos_ok (l : list nat) : Prop := {
  po_length : length (pos_rev l) = S (length l);
  po_nodup : NoDup (pos_rev l);
  po_child : forall i q k, pos_rev l !! i = Some q -> q ++ [k] ∈ pos_rev l -> k <= count i l;
  po_prefix : forall q k, q ++ [k] ∈ pos_rev l -> q = [] \/ q ∈ pos_rev l;
  po_good : Forall (fun q => q <> [] /\ Forall (fun k => 0 <= k <= Z.of_nat (length l) + 1) q) (pos_rev l)
}.

(** A position in a list with one more element: an old one, or the last. *)
Lemma lookup_snoc {B} (l : list B) x i y :
  (l ++ [x]) !! i = Some y <-> (i < length l)%nat /\ l !! i = Some y \/ i = length l /\ y = x.
Proof.
  rewrite lookup_app_Some, list_lookup_singleton_Some. split.
  - intros [Hl|(Hge & He & ->)]; [left; split; [by eapply lookup_lt_Some|done]|right; split; [lia|done]].
  - intros [[_ Hl]|[-> ->]]; [by left|right; split; [lia|split; [lia|done]]].
Qed.

Lemma nodup_snoc {B} (l : list B) x : NoDup l -> x ∉ l -> NoDup (l ++ [x]).
Proof.
  intros Hl Hx. apply NoDup_app. split_and!; [done| |apply NoDup_singleton].
  intros y Hy Hy'. apply list_elem_of_singleton in Hy' as ->. done.
Qed.

Lemma count_bound i l : 0 <= count i l <= Z.of_nat (length l).
Proof. unfold count. pose proof (count_occ_bound Nat.eq_dec i l). lia. Qed.

Lemma child_count_cons i j l : count i (j :: l) = count i l + (if decide (j = i) then 1 else 0).
Proof. unfold count. cbn [count_occ]. destruct (Nat.eq_dec j i), (decide (j = i)); try done; lia. Qed.

(** The position of the new child is not taken. *)
Lemma pos_new l i q : pos_ok l -> pos_rev l !! i = Some q -> q ++ [count i l + 1] ∉ pos_rev l.
Proof. intros [_ _ Hc _ _] Hq Hin. pose proof (Hc i q _ Hq Hin). lia. Qed.

Lemma pos_child_snoc l i q j q0 k :
  pos_ok l -> pos_rev l !! i = Some q -> (pos_rev l ++ [q ++ [count i l + 1]]) !! j = Some q0 ->
  q0 ++ [k] ∈ pos_rev l ++ [q ++ [count i l + 1]] -> k <= count j (i :: l).
Proof.
  intros Hp Hq Hj. pose proof Hp as [Hl Hn Hc Hpre Hg]. rewrite child_count_cons.
  destruct (Forall_lookup_1 _ _ _ _ Hg Hq) as [Hq0 _]. pose proof (lookup_lt_Some _ _ _ Hq) as Hil.
  apply lookup_snoc in Hj as [[Hjl Hj]|[-> ->]]; rewrite elem_of_app, list_elem_of_singleton; intros [Hin|Heq].
  - pose proof (Hc j q0 k Hj Hin). case_decide; lia.
  - apply app_inj_tail in Heq as [-> ->]. assert (j = i) as -> by (by eapply (NoDup_lookup (pos_rev l))).
    rewrite decide_True by done. lia.
  - exfalso. destruct (Hpre _ _ Hin) as [E|E]; [by destruct q|by apply (pos_new l i q)].
  - exfalso. apply (f_equal length) in Heq. rewrite !length_app in Heq. simpl in Heq. lia.
Qed.

Lemma pos_rev_ok l : valid_rev l -> pos_ok l.
Proof.
  induction l as [|i l IH]; cbn [valid_rev].
  - intros _. split; simpl.
    + done.
    + apply NoDup_singleton.
    + intros [|i] q k; [|done]. simpl. intros [= <-] Hin. apply list_elem_of_singleton in Hin. by destruct k.
    + intros q k Hin. apply list_elem_of_singleton in Hin. left. by destruct q as [|? []].
    + repeat constructor; [done|lia|lia].
  - intros [Hi Hv]. specialize (IH Hv). pose proof IH as [Hl Hn Hc Hpre Hg].
    destruct (lookup_lt_is_Some_2 (pos_rev l) i ltac:(lia)) as [q Hq].
    destruct (Forall_lookup_1 _ _ _ _ Hg Hq) as [Hq0 Hqk]. pose proof (count_bound i l) as Hb. split; cbn [pos_rev]; rewrite ?Hq; cbn [default].
    + rewrite length_app. simpl. lia.
    + apply nodup_snoc; [done|by apply pos_new].
    + intros j q0 k. by apply pos_child_snoc.
    + intros q0 k. rewrite !elem_of_app, !list_elem_of_singleton. intros [Hin|Heq]; [destruct (Hpre _ _ Hin); auto|].
      apply app_inj_tail in Heq as [-> _]. right. left. by eapply list_elem_of_lookup_2.
    + apply Forall_app. cbn [length]. split; [|constructor; [|constructor]].
      * eapply Forall_impl; [exact Hg|]. intros q0 [H0 H1]. split; [done|]. eapply Forall_impl; [exact H1|]. simpl. lia.
      * split; [by destruct q|]. apply Forall_app. split; [|repeat constructor; lia]. eapply Forall_impl; [exact Hqk|]. simpl. lia.
Qed.

(** ** The heap holds the numbering

    The parents of the spans started so far are [l], latest first; [ptrs] are the
    addresses of their states. *)
Record tree_inv (f : Forest) (l : list nat) (ptrs : list Z) : Prop := {
  ti_len : length (f_ctxs f) = S (length l) /\ length (f_spans f) = S (length l) /\ length ptrs = S (length l);
  ti_ctx : forall i c p, f_ctxs f !! i = Some c -> ptrs !! i = Some p -> ctx_span c = Some p;
  ti_heap : forall i p s q, ptrs !! i = Some p -> f_spans f !! i = Some s -> pos_rev l !! i = Some q ->
    h_span (f_heap f) !! p = Some (mkSpanState (sp_id s) (render_path q) (count i l)) /\ sp_path s = render_path q;
  ti_fresh : NoDup ptrs /\ Forall (fun p => p < h_next (f_heap f)) ptrs
}.

Lemma ctx_span_with c fs : ctx_span (ContextWith c fs) = ctx_span c.
Proof. done. Qed.

Lemma StartSpan_root l name fields id now h :
  let '(c, sp, h') := StartSpan l None name fields id now h in
  ctx_span c = Some (h_next h) /\ sp_path sp = "1" /\ sp_parentID sp = "" /\ sp_id sp = id /\
  h_span h' = <[h_next h := mkSpanState id "1" 0]> (h_span h) /\ h_next h' = h_next h + 1.
Proof. done. Qed.

Lemma StartSpan_child l c p st name fields id now h :
  ctx_span c = Some p -> h_span h !! p = Some st ->
  let '(c', sp, h') := StartSpan l (Some c) name fields id now h in
  let n := i64 (ss_children st + 1) in
  let path := ss_path st +:+ "." +:+ itoa n in
  ctx_span c' = Some (h_next h) /\ sp_path sp = path /\ sp_parentID sp = ss_id st /\ sp_id sp = id /\
  h_span h' = <[h_next h := mkSpanState id path 0]> (<[p := mkSpanState (ss_id st) (ss_path st) n]> (h_span h)) /\
  h_next h' = h_next h + 1.
Proof. intros H1 H2. unfold StartSpan. rewrite H1, H2. done. Qed.

(** Nothing was started yet under a span that does not exist yet. *)
Lemma valid_not_in l n : valid_rev l -> (length l < n)%nat -> ~ In n l.
Proof. revert n. induction l as [|i l IH]; intros n; [auto|]. cbn [valid_rev length]. intros [Hi Hv] Hn [->|Hin]; [lia|]. by apply (IH n Hv); [lia|]. Qed.

Lemma root_inv l root h : tree_inv (start_root l root h) [] [h_next h].
Proof.
  unfold start_root. pose proof (StartSpan_root l (s_name root) (s_fields root) (s_id root) (s_now root) h) as Hr.
  destruct (StartSpan l None _ _ _ _ h) as [[c sp] h']. destruct Hr as (H1 & H2 & _ & H3 & H4 & H5).
  split; simpl.
  - done.
  - intros [|i] c0 p; [|done]. simpl. intros [= <-] [= <-]. done.
  - intros [|i] p s q; [|done]. simpl. intros [= <-] [= <-] [= <-]. split; [|done]. rewrite H4, H3. apply lookup_insert_eq.
  - split; [apply NoDup_singleton|]. constructor; [lia|constructor].
Qed.

(** Starting a child of span [s_parent s]: the new span is last, under that parent. *)
Lemma child_inv lg f l ptrs s :
  tree_inv f l ptrs -> valid_rev (s_parent s :: l) -> Z.of_nat (length l) < 2 ^ 63 - 1 ->
  exists ptr pa sp, tree_inv (start_child lg f s) (s_parent s :: l) (ptrs ++ [ptr]) /\
    f_spans (start_child lg f s) = f_spans f ++ [sp] /\ f_spans f !! s_parent s = Some pa /\
    sp_path sp = sp_path pa +:+ "." +:+ FormatUint (count (s_parent s) l + 1) /\ sp_parentID sp = sp_id pa /\ sp_id sp = s_id s.
Proof.
  intros [(L1 & L2 & L3) Ictx Iheap [Ifr1 Ifr2]] [Hi Hv] Hb. unfold start_child. set (i := s_parent s) in *.
  pose proof (pos_rev_ok l Hv) as [Hpl _ _ _ Hg].
  destruct (lookup_lt_is_Some_2 (f_ctxs f) i ltac:(lia)) as [c Hc]. destruct (lookup_lt_is_Some_2 ptrs i ltac:(lia)) as [p Hp].
  destruct (lookup_lt_is_Some_2 (pos_rev l) i ltac:(lia)) as [q Hq]. destruct (lookup_lt_is_Some_2 (f_spans f) i ltac:(lia)) as [pa Hpa].
  destruct (Iheap i p pa q Hp Hpa Hq) as [Hst Hpath].
  pose proof (StartSpan_child lg c p _ (s_name s) (s_fields s) (s_id s) (s_now s) (f_heap f) (Ictx i c p Hc Hp) Hst) as Hs.
  rewrite Hc. destruct (StartSpan lg (Some c) _ _ _ _ (f_heap f)) as [[c' sp] h']. simpl in Hs. destruct Hs as (S1 & S2 & S3 & S4 & S5 & S6).
  pose proof (count_bound i l) as Hcb.
  rewrite i64_small in S2, S5 by (unfold is_i64; lia). rewrite itoa_FormatUint in S2, S5 by lia.
  exists (h_next (f_heap f)), pa, sp. cbn [f_spans f_ctxs f_heap]. split_and!; [|done|done|by rewrite Hpath|done|done].
  destruct (Forall_lookup_1 _ _ _ _ Hg Hq) as [Hq0 _]. rewrite <-render_snoc in S2, S5 by done.
  assert (Hfresh : h_next (f_heap f) ∉ ptrs) by (intros Hin; rewrite Forall_forall in Ifr2; specialize (Ifr2 _ Hin); simpl in Ifr2; lia).
  pose proof (Forall_lookup_1 _ _ _ _ Ifr2 Hp) as Hpn. simpl in Hpn.
  split; cbn [f_spans f_ctxs f_heap length pos_rev]; rewrite ?Hq; cbn [default].
  - rewrite !length_app. simpl. lia.
  - intros j c0 p0 [[Hj Hjc]|[-> ->]]%lookup_snoc [[Hj' Hjp]|[Hj' ->]]%lookup_snoc; try lia; [by eapply Ictx|done].
  - intros j p0 s0 q0 [[Hj Hjp]|[-> ->]]%lookup_snoc [[Hj' Hjs]|[Hj' ->]]%lookup_snoc [[Hj'' Hjq]|[Hj'' ->]]%lookup_snoc; try lia;
      rewrite child_count_cons, S5.
    + destruct (Iheap j p0 s0 q0 Hjp Hjs Hjq) as [Hst0 Hpath0]. split; [|done].
      rewrite lookup_insert_ne by (intros <-; apply Hfresh; by eapply list_elem_of_lookup_2). case_decide as Hij.
      * subst j. simplify_eq. rewrite lookup_insert_eq. done.
      * rewrite lookup_insert_ne, Z.add_0_r; [done|]. intros <-. apply Hij. by eapply (NoDup_lookup ptrs).
    + split; [|done]. rewrite lookup_insert_eq, S4, decide_False by lia.
      assert (count (length ptrs) l = 0) as ->; [|done]. unfold count. rewrite (proj1 (count_occ_not_In _ _ _)); [done|].
      rewrite L3. apply valid_not_in; [done|lia].
  - split; [by apply nodup_snoc|]. rewrite S6. apply Forall_app. split; [|constructor; [lia|constructor]].
    eapply Forall_impl; [exact Ifr2|]. simpl. lia.
Qed.

(** Every span started under one root, in order. *)
Definition parents_ok (ss : list Start) : Prop := forall j s, ss !! j = Some s -> (s_parent s <= j)%nat.

(** Span [S j] of the forest is the child [ss !! j] asked for. *)
Definition child_at (spans : list Span) (ss : list Start) (j : nat) (s : Start) : Prop :=
  exists sp pa, spans !! S j = Some sp /\ spans !! s_parent s = Some pa /\
    sp_path sp = sp_path pa +:+ "." +:+ FormatUint (count (s_parent s) (map s_parent (take j ss)) + 1) /\
    sp_parentID sp = sp_id pa /\ sp_id sp = s_id s.

Lemma grow_inv lg root ss h :
  parents_ok ss -> Z.of_nat (length ss) < 2 ^ 62 ->
  exists ptrs, tree_inv (grow lg root ss h) (rev (map s_parent ss)) ptrs /\ valid_rev (rev (map s_parent ss)) /\
    (exists r, f_spans (grow lg root ss h) !! 0%nat = Some r /\ sp_path r = "1" /\ sp_parentID r = "") /\
    forall j s, ss !! j = Some s -> child_at (f_spans (grow lg root ss h)) ss j s.
Proof.
  induction ss as [|s ss IH] using rev_ind; intros Hok Hb.
  - exists [h_next h]. split_and!; [apply root_inv|done| |done].
    unfold grow, start_root. cbn [fold_left]. pose proof (StartSpan_root lg (s_name root) (s_fields root) (s_id root) (s_now root) h) as Hr.
    destruct (StartSpan lg None _ _ _ _ h) as [[c sp] h']. destruct Hr as (_ & H2 & H3 & _). by exists sp.
  - rewrite length_app in Hb. cbn [length] in Hb.
    destruct IH as (ptrs & Hi & Hv & (r & Hr & Hr1 & Hr2) & Hch); [|lia|].
    { intros j s' Hj. apply Hok. by apply lookup_app_l_Some. }
    rewrite map_app, rev_app_distr. cbn [map rev app]. set (l := rev (map s_parent ss)) in *.
    assert (Hl : length l = length ss) by (unfold l; by rewrite length_rev, length_map).
    assert (Hv' : valid_rev (s_parent s :: l)).
    { split; [|done]. rewrite Hl. apply (Hok (length ss)). apply lookup_snoc. by right. }
    unfold grow in *. rewrite fold_left_app. cbn [fold_left]. set (f := fold_left (start_child lg) ss (start_root lg root h)) in *.
    destruct (child_inv lg f l ptrs s Hi Hv' ltac:(lia)) as (ptr & pa & sp & Hi' & Hsp & Hpa & Hp1 & Hp2 & Hp3).
    exists (ptrs ++ [ptr]). do 2 (split; [done|]). split; [rewrite Hsp; exists r; split; [by apply lookup_app_l_Some|done]|].
    pose proof (ti_len _ _ _ Hi) as (_ & Hlen & _). rewrite Hsp.
    intros j s' [[Hj Hjs]|[-> ->]]%lookup_snoc.
    + destruct (Hch j s' Hjs) as (sp' & pa' & H1 & H2 & H3). exists sp', pa'.
      rewrite take_app_le by lia. split_and!; [by apply lookup_app_l_Some|by apply lookup_app_l_Some|apply H3..].
    + exists sp, pa. rewrite take_app_length. split_and!; [|by apply lookup_app_l_Some| |done|done].
      * rewrite lookup_app_r by lia. by rewrite Hlen, Hl, Nat.sub_diag.
      * rewrite Hp1. unfold count. do 4 f_equal. unfold l. by rewrite count_occ_rev.
Qed.


Definition demo_logger : Logger := mkLogger (staticLevel 1) [] false 0.
Definition demo_starts : list Start :=
  map (fun p => mkStart p "s" [] "id" zero_time) [0; 0; 1; 1; 2]%nat.
Definition demo_forest : Forest := grow demo_logger (mkStart 0 "root" [] "r" zero_time) demo_starts empty_heap.

