(* ===== verification/HttpPayload.v ===== *)
(** * The request bodies of the cloud sinks (sink_http.go)

    What [NewLokiSink], [NewDatadogSink] and [NewElasticsearchSink] build from a batch,
    and decoders that read the whole bodies back. *)
From S2P Require Import Prelude GoStd Level Field Record Buffer Encoder EncoderSpec Sink HttpSink AuditLog SpanTree.
Import GoTime Strconv Strings.
Local Open Scope Z_scope.

(** [itoa64]: the digits, then the sign; negating the least int64 overflows. *)
Definition itoa64 (n : Z) : string :=
  if n =? 0 then "0"
  else
    let neg := n <? 0 in
    let n := if neg then i64 (- n) else n in
    let d := itoa_loop 20 n "" in
    if neg then String "-" d else d.

(** A name between quotes, not escaped. *)
Definition raw_quoted (s : string) : string := String QUOTE (s +:+ str1 QUOTE).

(** The loops that write a comma before every element but the first. *)
Fixpoint comma_loop {X} (f : X -> string) (first : bool) (l : list X) : string :=
  match l with
  | [] => ""
  | x :: l' => (if first then "" else ",") +:+ f x +:+ comma_loop f false l'
  end.

Section Payloads.
Context {env : GoEnv}.

Definition jsonLine (r : LogRecord) : string := b_bytes (JSON_Encode NewJSONEncoder (mkBuffer "") r).
(** [for len(line) > 0 && line[len(line)-1] == '\n' { line = line[:len(line)-1] }]. *)
Definition trimmed_line (r : LogRecord) : string := trim_right is_lf (jsonLine r).

(** Loki; [labels] in the order the map is iterated. *)
Definition loki_label (kv : string * string) : string := raw_quoted kv.1 +:+ ":" +:+ raw_quoted kv.2.
Definition loki_value (r : LogRecord) : string :=
  "[" +:+ raw_quoted (itoa64 (UnixNano (r_Time r))) +:+ "," +:+
  b_bytes (writeJSONString (trimmed_line r) (mkBuffer "")) +:+ "]".
Definition loki_prefix (labels : list (string * string)) : string :=
  "{" +:+ raw_quoted "streams" +:+ ":[{" +:+ raw_quoted "stream" +:+ ":{" +:+ comma_loop loki_label true labels +:+
  "}," +:+ raw_quoted "values" +:+ ":[".
Definition loki_body (labels : list (string * string)) (recs : list LogRecord) : string * string :=
  (loki_prefix labels +:+ comma_loop loki_value true recs +:+ "]}]}", "application/json").

Definition datadog_body (recs : list LogRecord) : string * string :=
  ("[" +:+ comma_loop trimmed_line true recs +:+ "]", "application/json").

Definition es_meta (index : string) : string :=
  "{" +:+ raw_quoted "index" +:+ ":{" +:+ raw_quoted "_index" +:+ ":" +:+ raw_quoted index +:+ "}}".
Fixpoint es_loop (meta : string) (recs : list LogRecord) : string :=
  match recs with
  | [] => ""
  | r :: recs' => meta +:+ trimmed_line r +:+ str1 LF +:+ es_loop meta recs'
  end.
Definition es_body (index : string) (recs : list LogRecord) : string * string :=
  (es_loop (es_meta index +:+ str1 LF) recs, "application/x-ndjson").

Definition NewLokiSink (pushURL : string) (labels : list (string * string)) (minLevel : Level) : HTTPBatchSink :=
  NewHTTPBatchSink pushURL minLevel (loki_body labels).
Definition NewDatadogSink (intakeURL apiKey : string) (minLevel : Level) : HTTPBatchSink :=
  WithHeader "DD-API-KEY" apiKey (NewHTTPBatchSink intakeURL minLevel datadog_body).
Definition NewElasticsearchSink (bulkURL index : string) (minLevel : Level) : HTTPBatchSink :=
  NewHTTPBatchSink bulkURL minLevel (es_body index).

(** ** Decoders *)
(** The elements of an array of flat objects, after its opening bracket. *)
Fixpoint decode_objects (fuel : nat) (s : string) : option (list (list (string * JVal))) :=
  match fuel, s with
  | S fuel', String c s1 =>
      if Ascii.eqb c "{" then
        match decode_members (String.length s) s1 with
        | Some (ms, String d s2) =>
            if Ascii.eqb d "," then option_map (cons ms) (decode_objects fuel' s2)
            else if Ascii.eqb d "]" && String.eqb s2 "" then Some [ms] else None
        | _ => None
        end
      else None
  | _, _ => None
  end.
Definition decode_array (s : string) : option (list (list (string * JVal))) :=
  match s with
  | String c s1 =>
      if Ascii.eqb c "[" then if String.eqb s1 "]" then Some [] else decode_objects (String.length s1) s1 else None
  | EmptyString => None
  end.

(** Pairs of string literals, [["a","b"],...], and what follows the closing bracket. *)
Definition decode_pair (s : string) : option (string * string * string) :=
  match s with
  | String c s1 =>
      if Ascii.eqb c "[" then
        match unquote s1 with
        | Some (a, String d s2) =>
            if Ascii.eqb d "," then
              match unquote s2 with
              | Some (b, String e s3) => if Ascii.eqb e "]" then Some (a, b, s3) else None
              | _ => None
              end
            else None
        | _ => None
        end
      else None
  | EmptyString => None
  end.
Fixpoint decode_pairs (fuel : nat) (s : string) : option (list (string * string) * string) :=
  match fuel with
  | O => None
  | S fuel' =>
      match decode_pair s with
      | Some (a, b, String d s') =>
          if Ascii.eqb d "," then option_map (fun '(l, r) => ((a, b) :: l, r)) (decode_pairs fuel' s')
          else if Ascii.eqb d "]" then Some ([(a, b)], s') else None
      | _ => None
      end
  end.
Definition decode_values (s : string) : option (list (string * string) * string) :=
  match s with
  | String c s' => if Ascii.eqb c "]" then Some ([], s') else decode_pairs (String.length s) s
  | EmptyString => None
  end.

(** The rest of [s] after the text [t]. *)
Fixpoint expect (t s : string) : option string :=
  match t, s with
  | EmptyString, _ => Some s
  | String c t', String d s' => if Ascii.eqb c d then expect t' s' else None
  | String _ _, EmptyString => None
  end.

(** The members of a flat object after its opening brace. *)
Definition decode_object (s : string) : option (list (string * JVal) * string) :=
  match expect "}" s with Some s' => Some ([], s') | None => decode_members (String.length s) s end.

(** A push request: the labels of its one stream, and the stream's values. *)
Definition decode_loki (s : string) : option (list (string * JVal) * list (string * string)) :=
  match expect ("{" +:+ raw_quoted "streams" +:+ ":[{" +:+ raw_quoted "stream" +:+ ":{") s with
  | Some s1 =>
      match decode_object s1 with
      | Some (labels, s2) =>
          match expect ("," +:+ raw_quoted "values" +:+ ":[") s2 with
          | Some s3 =>
              match decode_values s3 with
              | Some (values, s4) => if String.eqb s4 "}]}" then Some (labels, values) else None
              | None => None
              end
          | None => None
          end
      | None => None
      end
  | None => None
  end.

(** A bulk request: an index action and a document, line by line. *)
Definition decode_action (s : string) : option string :=
  match expect ("{" +:+ raw_quoted "index" +:+ ":{") s with
  | Some s1 =>
      match decode_object s1 with
      | Some ([(k, JStr i)], s2) => if String.eqb k "_index" && String.eqb s2 "}" then Some i else None
      | _ => None
      end
  | None => None
  end.
Fixpoint decode_bulk (lines : list string) : option (list (string * list (string * JVal))) :=
  match lines with
  | [] => Some []
  | [_] => None
  | a :: d :: lines' =>
      match decode_action a, decode_line (d +:+ str1 LF), decode_bulk lines' with
      | Some i, Some ms, Some l => Some ((i, ms) :: l)
      | _, _, _ => None
      end
  end.

(** ** itoa64 *)
Lemma itoa64_FormatInt n : - 2 ^ 63 < n < 2 ^ 63 -> itoa64 n = FormatInt n.
Proof.
  intros Hn. unfold itoa64, FormatInt. destruct (Z.eqb_spec n 0) as [->|Hz]; [done|].
  destruct (Z.ltb_spec n 0).
  - rewrite i64_small by (unfold is_i64; lia). rewrite <-itoa_FormatUint by lia. unfold itoa.
    destruct (Z.eqb_spec (- n) 0); [lia|done].
  - rewrite <-itoa_FormatUint by lia. unfold itoa. destruct (Z.eqb_spec n 0); [lia|done].
Qed.

Lemma itoa64_min : itoa64 (- 2 ^ 63) = "-".
Proof. reflexivity. Qed.

(** ** The lines *)
Definition object_body (ms : list (string * JVal)) : string :=
  String "{" (match ms with [] => "" | m :: ms' => member_text m +:+ str_concat (map comma_text ms') end +:+ "}").

Lemma trimmed_line_body r : caller_plain r -> trimmed_line r = object_body (json_members NewJSONEncoder r).
Proof.
  intros Hc. unfold trimmed_line, jsonLine. rewrite JSON_Encode_text by done. cbn [append_bytes b_bytes]. rewrite sapp_nil_l.
  unfold object_text, object_body. set (body := match json_members _ _ with [] => _ | _ => _ end).
  change (String "{" (body +:+ String "}" (str1 LF))) with ((String "{" body) +:+ (String "}" (str1 LF))).
  change (String "}" (str1 LF)) with (str1 "}" +:+ str1 LF). rewrite <-sapp_assoc, trim_right_snoc by done.
  rewrite trim_right_idle by done. by rewrite sapp_cons.
Qed.

Lemma jsonLine_trimmed r : caller_plain r -> jsonLine r = trimmed_line r +:+ str1 LF.
Proof.
  intros Hc. rewrite trimmed_line_body by done. unfold jsonLine. rewrite JSON_Encode_text by done. cbn [append_bytes b_bytes].
  unfold object_text, object_body. rewrite sapp_nil_l, sapp_cons. by rewrite sapp_assoc.
Qed.

Lemma decode_members_body ms rest s1 :
  ms <> [] -> Forall (fun m => flat m.2) ms -> object_body ms +:+ rest = String "{" s1 ->
  decode_members (String.length (String "{" s1)) s1 = Some (ms, rest).
Proof.
  destruct ms as [|m ms]; [done|]. intros _ Hf [= <-]. inversion_clear Hf. rewrite !sapp_assoc.
  apply decode_members_text; [done|done|].
  simpl. rewrite !slength_app. pose proof (comma_text_length ms). lia.
Qed.

(** ** The bodies *)
Definition clean (r : LogRecord) : Prop := caller_plain r /\ Forall field_scalar (r_Fields r).

Lemma decode_objects_body r recs fuel :
  clean r -> Forall clean recs -> (length recs < fuel)%nat ->
  decode_objects fuel (trimmed_line r +:+ comma_loop trimmed_line false recs +:+ "]") =
  Some (map (json_members NewJSONEncoder) (r :: recs)).
Proof.
  revert r fuel. induction recs as [|r' recs IH]; intros r [|fuel] [Hc Hf] Hall Hl; try (simpl in Hl; lia);
    rewrite trimmed_line_body by done; set (ms := json_members NewJSONEncoder r);
    assert (Hd : forall rest, exists s1, object_body ms +:+ rest = String "{" s1 /\
      decode_members (String.length (String "{" s1)) s1 = Some (ms, rest))
      by (intros rest; eexists; split; [unfold object_body; rewrite sapp_cons; reflexivity|];
          apply decode_members_body; [apply json_members_nonempty|by apply json_members_flat|unfold object_body; by rewrite sapp_cons]).
  - destruct (Hd (comma_loop trimmed_line false [] +:+ "]")) as (s1 & -> & E). cbn [decode_objects]. rewrite Ascii.eqb_refl, E. done.
  - destruct (Hd (comma_loop trimmed_line false (r' :: recs) +:+ "]")) as (s1 & -> & E). cbn [decode_objects]. rewrite Ascii.eqb_refl, E.
    cbn [comma_loop]. rewrite !sapp_assoc, sapp_cons, Ascii.eqb_refl, sapp_nil_l. inversion_clear Hall.
    rewrite IH; [done|done|done|simpl in Hl; lia].
Qed.

Lemma comma_loop_length {X} (f : X -> string) l : (length l <= String.length (comma_loop f false l))%nat.
Proof.
  induction l as [|x l IH]; cbn [comma_loop length]; [lia|]. rewrite !slength_app. change (String.length ",") with 1%nat. lia.
Qed.

Lemma datadog_decodes recs :
  Forall clean recs -> decode_array (datadog_body recs).1 = Some (map (json_members NewJSONEncoder) recs).
Proof.
  destruct recs as [|r recs]; [done|]. intros Hall. inversion_clear Hall as [|? ? [Hc Hf] Hall'].
  cbn [datadog_body fst comma_loop]. rewrite sapp_cons, !sapp_nil_l, sapp_assoc. unfold decode_array. rewrite Ascii.eqb_refl.
  destruct (String.eqb_spec (trimmed_line r +:+ comma_loop trimmed_line false recs +:+ "]") "]") as [E|_].
  - rewrite trimmed_line_body in E by done. discriminate E.
  - apply decode_objects_body; [by split|done|]. rewrite !slength_app. pose proof (comma_loop_length trimmed_line recs).
    change (String.length "]") with 1%nat. lia.
Qed.

(** Loki: a timestamp in quotes and a JSON string. *)
Definition in_range (r : LogRecord) : Prop := UnixNano (r_Time r) <> - 2 ^ 63.
Definition loki_pair (r : LogRecord) : string * string := (FormatInt (UnixNano (r_Time r)), trimmed_line r).

Lemma raw_quoted_tok t : Token.is_tok t -> raw_quoted t = quote t.
Proof. intros. unfold raw_quoted. by rewrite quote_tok. Qed.

Lemma decode_pair_value r rest : in_range r -> decode_pair (loki_value r +:+ rest) = Some (loki_pair r, rest).
Proof.
  intros Hr. unfold loki_value, loki_pair. rewrite writeJSONString_quote. cbn [append_bytes b_bytes]. rewrite sapp_nil_l.
  assert (is_i64 (UnixNano (r_Time r))) as Hi by (apply i64_range). unfold is_i64, in_range in *.
  rewrite itoa64_FormatInt by lia. rewrite raw_quoted_tok by auto with golog.
  rewrite !sapp_assoc, sapp_cons, sapp_nil_l. unfold decode_pair. rewrite Ascii.eqb_refl, unquote_quote.
  rewrite sapp_cons, sapp_nil_l, Ascii.eqb_refl, unquote_quote. rewrite sapp_cons, sapp_nil_l, Ascii.eqb_refl. done.
Qed.

Lemma decode_pairs_values r recs rest fuel :
  in_range r -> Forall in_range recs -> (length recs < fuel)%nat ->
  decode_pairs fuel (loki_value r +:+ comma_loop loki_value false recs +:+ String "]" rest) = Some (map loki_pair (r :: recs), rest).
Proof.
  revert r fuel. induction recs as [|r' recs IH]; intros r [|fuel] Hr Hall Hl; try (simpl in Hl; lia);
    cbn [decode_pairs comma_loop]; rewrite decode_pair_value by done; unfold loki_pair at 1.
  - done.
  - rewrite !sapp_assoc, sapp_cons, sapp_nil_l, Ascii.eqb_refl. inversion_clear Hall.
    rewrite IH; [done|done|done|simpl in Hl; lia].
Qed.

Lemma loki_decodes recs rest :
  Forall in_range recs -> decode_values (comma_loop loki_value true recs +:+ String "]" rest) = Some (map loki_pair recs, rest).
Proof.
  destruct recs as [|r recs]; [done|]. intros Hall. inversion_clear Hall. cbn [comma_loop]. rewrite sapp_nil_l, sapp_assoc.
  set (s := loki_value r +:+ _). assert (exists s', s = String "[" s') as [s' Es] by (by eexists).
  unfold decode_values. rewrite Es. cbn [Ascii.eqb Bool.eqb]. rewrite <-Es. unfold s.
  apply decode_pairs_values; [done|done|]. rewrite !slength_app. pose proof (comma_loop_length loki_value recs).
  change (String.length (String "]" rest)) with (S (String.length rest)). lia.
Qed.

(** A name the sinks can write between quotes without escaping. *)
Definition plain (s : string) : Prop := str_forall plain_byte s = true.
Definition plain_label (kv : string * string) : Prop := plain kv.1 /\ plain kv.2.
Definition label_member (kv : string * string) : string * JVal := (kv.1, JStr kv.2).

Lemma raw_quoted_plain t : plain t -> raw_quoted t = quote t.
Proof. intros. unfold raw_quoted. by rewrite quote_plain. Qed.

Lemma expect_app t s : expect t (t +:+ s) = Some s.
Proof.
  induction t as [|c t IH]; [by rewrite sapp_nil_l|]. rewrite sapp_cons. cbn [expect]. by rewrite Ascii.eqb_refl.
Qed.

Lemma loki_label_text kv : plain_label kv -> loki_label kv = member_text (label_member kv).
Proof. intros [H1 H2]. unfold loki_label, member_text. cbn [label_member fst snd render]. by rewrite !raw_quoted_plain. Qed.

Lemma loki_labels_text labels :
  Forall plain_label labels -> comma_loop loki_label false labels = str_concat (map comma_text (map label_member labels)).
Proof.
  induction 1 as [|kv labels Hk _ IH]; [done|]. cbn [comma_loop map str_concat]. rewrite IH, loki_label_text by done.
  unfold comma_text. by rewrite sapp_cons, sapp_nil_l, sapp_cons.
Qed.

Lemma decode_object_text m ms rest :
  flat m.2 -> Forall (fun m => flat m.2) ms ->
  decode_object (member_text m +:+ str_concat (map comma_text ms) +:+ String "}" rest) = Some (m :: ms, rest).
Proof.
  intros Hm Hms. unfold decode_object.
  set (s := member_text m +:+ _). assert (exists s', s = String QUOTE s') as [s' Es] by (by eexists).
  assert (expect "}" s = None) as -> by (by rewrite Es). unfold s. apply decode_members_text; [done|done|].
  rewrite !slength_app. pose proof (comma_text_length ms). cbn [String.length]. lia.
Qed.

Lemma label_members_flat labels : Forall (fun m => flat m.2) (map label_member labels).
Proof. apply Forall_map, Forall_true. by intros []. Qed.

Lemma decode_object_labels labels rest :
  Forall plain_label labels ->
  decode_object (comma_loop loki_label true labels +:+ String "}" rest) = Some (map label_member labels, rest).
Proof.
  intros Hl. destruct Hl as [|kv labels Hk Hl]; [done|]. cbn [comma_loop map].
  rewrite sapp_nil_l, loki_labels_text, loki_label_text, sapp_assoc by done.
  by apply decode_object_text, label_members_flat.
Qed.

Lemma loki_body_decodes labels recs :
  Forall plain_label labels -> Forall in_range recs ->
  decode_loki (loki_body labels recs).1 = Some (map label_member labels, map loki_pair recs).
Proof.
  intros Hl Hr. unfold decode_loki, loki_body, loki_prefix. cbn [fst].
  set (p1 := "{" +:+ raw_quoted "streams" +:+ ":[{" +:+ raw_quoted "stream" +:+ ":{"). set (p2 := "," +:+ raw_quoted "values" +:+ ":[").
  replace (_ +:+ comma_loop loki_value true recs +:+ "]}]}") with
    (p1 +:+ comma_loop loki_label true labels +:+ String "}" (p2 +:+ comma_loop loki_value true recs +:+ String "]" "}]}"))
    by (unfold p1, p2; rewrite !sapp_assoc; reflexivity).
  rewrite expect_app, decode_object_labels, expect_app, loki_decodes by done. done.
Qed.

(** Elasticsearch: two lines per record. *)
Lemma scalar_printable f : field_scalar f -> field_printable f.
Proof.
  intros (Hn & _ & Ha). split; [done|]. intros Hk. specialize (Ha Hk). destruct (fany f); try done.
  destruct Ha as [err Ha]. intros raw E. congruence.
Qed.

Lemma trimmed_line_no_lf r : clean r -> no_byte LF (trimmed_line r) = true.
Proof.
  intros [Hc Hf]. destruct (json_line_shape NewJSONEncoder (mkBuffer "") r Hc) as (body & Hb & Hp).
  { eapply Forall_impl; [exact Hf|]. apply scalar_printable. }
  unfold trimmed_line, jsonLine. rewrite Hb. cbn [b_bytes]. rewrite sapp_nil_l, trim_right_snoc, trim_lf_printable by done.
  by apply printable_no_byte.
Qed.

Lemma es_lines index recs :
  no_byte LF index = true -> Forall clean recs ->
  scan_lines (es_body index recs).1 = concat (map (fun r => [es_meta index; trimmed_line r]) recs).
Proof.
  intros Hi Hall. cbn [es_body fst].
  assert (es_loop (es_meta index +:+ str1 LF) recs = unlines (concat (map (fun r => [es_meta index; trimmed_line r]) recs))) as ->.
  { clear Hall. induction recs as [|r recs IH]; [done|]. cbn [es_loop map concat app]. rewrite IH. unfold unlines. cbn [map str_concat].
    by rewrite !sapp_assoc. }
  apply scan_unlines. apply Forall_concat, Forall_map. eapply Forall_impl; [exact Hall|]. intros r Hr.
  repeat constructor; [|by apply trimmed_line_no_lf].
  unfold es_meta, raw_quoted, no_byte in *. rewrite !str_forall_app. simpl. rewrite !str_forall_app, Hi. done.
Qed.

Lemma decode_action_meta index : plain index -> decode_action (es_meta index) = Some index.
Proof.
  intros Hi. set (p := "{" +:+ raw_quoted "index" +:+ ":{").
  assert (es_meta index = p +:+ member_text ("_index", JStr index) +:+ str_concat (map comma_text []) +:+ String "}" "}") as ->.
  { unfold es_meta, p, member_text. cbn [fst snd render map str_concat]. rewrite (raw_quoted_plain index Hi), !sapp_assoc. reflexivity. }
  unfold decode_action. fold p. by rewrite expect_app, decode_object_text.
Qed.

Lemma decode_trimmed r : clean r -> decode_line (trimmed_line r +:+ str1 LF) = Some (json_members NewJSONEncoder r).
Proof.
  intros [Hc Hf]. rewrite <-jsonLine_trimmed by done. unfold jsonLine.
  rewrite JSON_Encode_text by done. apply decode_line_object; auto using json_members_nonempty, json_members_flat.
Qed.

Lemma plain_no_lf s : plain s -> no_byte LF s = true.
Proof. apply str_forall_impl. intros c. all_bytes c; done. Qed.

Lemma es_body_decodes index recs :
  plain index -> Forall clean recs ->
  decode_bulk (scan_lines (es_body index recs).1) = Some (map (fun r => (index, json_members NewJSONEncoder r)) recs).
Proof.
  intros Hi Hall. rewrite es_lines by (done || by apply plain_no_lf).
  induction Hall as [|r recs Hr _ IH]; [done|]. cbn [map concat app decode_bulk].
  by rewrite decode_action_meta, decode_trimmed, IH.
Qed.

(** C31. The bodies the cloud sinks send mean exactly the batch. For records whose JSON
    line decodes (scalar values, finite floats, a plain caller file), reading the whole
    body gives: for Datadog, the array of the members of every record; for Loki, whose
    label names and values need no escaping and whose timestamps are not the least
    int64, the labels and for every record its decimal nanosecond timestamp and its JSON
    line, which decodes to the record's members; for Elasticsearch, whose index needs no
    escaping, an action with that index and the members of every record. All of it
    whatever messages, keys and values contain. *)
Theorem http_payloads_decode labels index recs :
  Forall clean recs -> Forall in_range recs -> Forall plain_label labels -> plain index ->
  decode_array (datadog_body recs).1 = Some (map (json_members NewJSONEncoder) recs) /\
  decode_loki (loki_body labels recs).1 =
    Some (map (fun kv => (kv.1, JStr kv.2)) labels, map (fun r => (FormatInt (UnixNano (r_Time r)), trimmed_line r)) recs) /\
  Forall (fun r => decode_line (trimmed_line r +:+ str1 LF) = Some (json_members NewJSONEncoder r)) recs /\
  decode_bulk (scan_lines (es_body index recs).1) = Some (map (fun r => (index, json_members NewJSONEncoder r)) recs).
Proof.
  intros Hall Hr Hl Hi. split_and!.
  - by apply datadog_decodes.
  - by apply loki_body_decodes.
  - eapply Forall_impl; [exact Hall|]. apply decode_trimmed.
  - by apply es_body_decodes.
Qed.
End Payloads.

(** A quote in a label breaks the whole body. *)
Example loki_label_breaks : decode_loki (loki_body (env:=demo_env) [("app", str1 QUOTE)] [hostile_record]).1 = None.
Proof. vm_compute. reflexivity. Qed.

Lemma http_payloads_decode_witness :
  decode_array (datadog_body (env:=demo_env) [hostile_record; zero_record]).1 =
    Some (map (json_members (env:=demo_env) NewJSONEncoder) [hostile_record; zero_record]) /\
  decode_bulk (scan_lines (es_body (env:=demo_env) "idx" [hostile_record; zero_record]).1) =
    Some (map (fun r => ("idx", json_members (env:=demo_env) NewJSONEncoder r)) [hostile_record; zero_record]).
Proof.
  destruct (http_payloads_decode (env:=demo_env) [("app", "api"); ("env", "prod")] "idx" [hostile_record; zero_record])
    as (H1 & _ & _ & H2).
  - repeat constructor; try (vm_compute; done). exact hostile_caller_plain.
  - repeat constructor; vm_compute; discriminate.
  - repeat constructor.
  - reflexivity.
  - split; [exact H1|exact H2].
Defined.
