(* ===== verification/RotatingFile.v ===== *)
(** * The rotating file (sink_file.go)

    The log's directory as names that lead to inodes, so that renaming and removing a
    name, and writing through an open handle, have the effects they have on a file
    system.  Every operation is given what the operating system answers ([OSEnv]):
    clocks, and a possible failure of each call.  Compression runs in goroutines of its
    own, a step at a time. *)
From Stdlib Require Import Sorted.
From stdpp Require Import sorting.
From S2P Require Import Prelude GoStd.
Import GoTime Strings.
Local Open Scope Z_scope.

(** ** The directory *)
Record Inode := mkInode { i_data : string; i_mod : Z }.
Record FS := mkFS { fs_dir : gmap string Z; fs_ino : gmap Z Inode; fs_next : Z }.

Definition inode_at (fs : FS) (name : string) : option Inode :=
  match fs_dir fs !! name with Some i => fs_ino fs !! i | None => None end.
Definition file_data (fs : FS) (name : string) : option string := i_data <$> inode_at fs name.

(** [open(O_CREATE|O_APPEND)]: the inode of the name, made if the name is new. *)
Definition fs_open (name : string) (mtime : Z) (fs : FS) : FS * Z :=
  match fs_dir fs !! name with
  | Some i => (fs, i)
  | None => (mkFS (<[name := fs_next fs]> (fs_dir fs)) (<[fs_next fs := mkInode "" mtime]> (fs_ino fs)) (fs_next fs + 1), fs_next fs)
  end.
Definition fs_append (i : Z) (data : string) (mtime : Z) (fs : FS) : FS :=
  match fs_ino fs !! i with
  | Some n => mkFS (fs_dir fs) (<[i := mkInode (i_data n +:+ data) mtime]> (fs_ino fs)) (fs_next fs)
  | None => fs
  end.
(** [rename] replaces the target; [None] when there is no source. *)
Definition fs_rename (src dst : string) (fs : FS) : option FS :=
  match fs_dir fs !! src with
  | Some i => Some (mkFS (<[dst := i]> (delete src (fs_dir fs))) (fs_ino fs) (fs_next fs))
  | None => None
  end.
Definition fs_remove (name : string) (fs : FS) : FS := mkFS (delete name (fs_dir fs)) (fs_ino fs) (fs_next fs).
(** [os.Create] and a complete write. *)
Definition fs_create (name data : string) (mtime : Z) (fs : FS) : FS :=
  let '(fs, i) := fs_open name mtime fs in
  mkFS (fs_dir fs) (<[i := mkInode data mtime]> (fs_ino fs)) (fs_next fs).

(** What the operating system answers to the calls of one operation. *)
Record OSEnv := mkOS {
  os_now : Time;                       (* time.Now of rotateLocked *)
  os_prune : Time;                     (* time.Now of prune *)
  os_mtime : Z;                        (* the modification time files get *)
  os_mkdir : option error;
  os_openerr : option error;
  os_stat : option error;
  os_close : option error;
  os_rename : option error;
  os_write : option (nat * error);     (* a short write *)
  os_readdir : bool;                   (* ReadDir fails *)
  os_info : string -> bool;            (* Info of an entry fails *)
  os_removes : string -> bool;         (* Remove of a path fails *)
  os_gzip : option (option string)     (* gzipFile fails, perhaps leaving a partial .gz *)
}.

Definition ErrClosed : error := "file already closed".
Definition ErrInvalid : error := "invalid argument".
Definition ErrNotExist : error := "no such file or directory".

(** ** RotatingFile *)
Record File := mkFile { fd_ino : Z; fd_open : bool }.
Record RotatingFile := mkRF {
  rf_base : string;                    (* the last element of Path *)
  rf_MaxSizeBytes : Z;
  rf_MaxBackups : Z;
  rf_MaxAge : Z;
  rf_Compress : bool;
  rf_f : option File;
  rf_size : Z
}.

Definition set_file (f : option File) (size : Z) (r : RotatingFile) : RotatingFile :=
  mkRF (rf_base r) (rf_MaxSizeBytes r) (rf_MaxBackups r) (rf_MaxAge r) (rf_Compress r) f size.

(** [os.File.Close]: the descriptor is gone also when it reports an error. *)
Definition file_close (env : OSEnv) (f : option File) : option File * option error :=
  match f with
  | None => (None, Some ErrInvalid)
  | Some f => if fd_open f then (Some (mkFile (fd_ino f) false), os_close env) else (Some f, Some ErrClosed)
  end.

Definition openExisting (env : OSEnv) (r : RotatingFile) (fs : FS) : RotatingFile * FS * option error :=
  match os_mkdir env with
  | Some e => (r, fs, Some e)
  | None =>
      match os_openerr env with
      | Some e => (r, fs, Some e)
      | None =>
          let '(fs, i) := fs_open (rf_base r) (os_mtime env) fs in
          match os_stat env with
          | Some e => (r, fs, Some e)
          | None =>
              let size := match fs_ino fs !! i with Some n => Z.of_nat (String.length (i_data n)) | None => 0 end in
              (set_file (Some (mkFile i true)) size r, fs, None)
          end
      end
  end.

Definition NewRotatingFile (env : OSEnv) (base : string) (fs : FS) : (RotatingFile + error) * FS :=
  let r := mkRF base (Z.shiftl 100 20) 7 0 false None 0 in
  match openExisting env r fs with
  | (r, fs, None) => (inl r, fs)
  | (_, fs, Some e) => (inr e, fs)
  end.

(** ** Retention *)
Record seg := mkSeg { seg_name : string; seg_mod : Z }.
#[export] Instance seg_eq_dec : EqDecision seg.
Proof. solve_decision. Defined.
(** [sort.Slice] by modification time, newest first; the order of equal times is its own. *)
Class SegSort := {
  sort_segs : list seg -> list seg;
  sort_perm : forall l, sort_segs l ≡ₚ l;
  sort_newest : forall l i j a b, (i < j)%nat -> sort_segs l !! i = Some a -> sort_segs l !! j = Some b -> seg_mod b <= seg_mod a
}.

Section WithSort.
Context {env0 : GoEnv} `{SegSort}.

Definition is_segment (base name : string) : bool := negb (String.eqb name base) && String.prefix (base +:+ ".") name.
(** The entries [prune] collects; the order in which ReadDir lists them is lost in the sort. *)
Definition segments (env : OSEnv) (base : string) (fs : FS) : list seg :=
  omap (fun '(name, i) =>
      if is_segment base name && negb (os_info env name)
      then (fun n => mkSeg name (i_mod n)) <$> (fs_ino fs !! i) else None) (map_to_list (fs_dir fs)).

Fixpoint prune_loop (env : OSEnv) (r : RotatingFile) (i : nat) (segs : list seg) (fs : FS) : FS :=
  match segs with
  | [] => fs
  | s :: segs' =>
      let over := (0 <? rf_MaxBackups r) && (rf_MaxBackups r <=? Z.of_nat i) in
      let old := (0 <? rf_MaxAge r) && (rf_MaxAge r <? Sub (os_prune env) (mkTime (seg_mod s) Local)) in
      let fs := if (over || old) && negb (os_removes env (seg_name s)) then fs_remove (seg_name s) fs else fs in
      prune_loop env r (S i) segs' fs
  end.
Definition prune (env : OSEnv) (r : RotatingFile) (fs : FS) : FS :=
  if os_readdir env then fs else prune_loop env r 0 (sort_segs (segments env (rf_base r) fs)) fs.

(** ** Rotation and writing *)
Definition rotated_name (env : OSEnv) (r : RotatingFile) : string :=
  rf_base r +:+ "." +:+ format_compact_ms (local_offset (t_ns (os_now env) / 10 ^ 9)) (t_ns (os_now env)).

(** The goroutine that compresses a segment: gzipFile, Remove, prune. *)
Inductive Job := JGzip (name : string) | JRemove (name : string) | JPrune.

Definition rotateLocked (env : OSEnv) (r : RotatingFile) (fs : FS) : RotatingFile * FS * list Job * option error :=
  let '(f, err) := file_close env (rf_f r) in
  let r := set_file f (rf_size r) r in
  match err with
  | Some e => (r, fs, [], Some e)
  | None =>
      let rotated := rotated_name env r in
      match os_rename env, fs_rename (rf_base r) rotated fs with
      | Some e, _ => (r, fs, [], Some e)
      | None, None => (r, fs, [], Some ErrNotExist)
      | None, Some fs =>
          match openExisting env r fs with
          | (r, fs, Some e) => (r, fs, [], Some e)
          | (r, fs, None) =>
              let r := set_file (rf_f r) 0 r in
              (r, prune env r fs, if rf_Compress r then [JGzip rotated] else [], None)
          end
      end
  end.

Definition max_size (r : RotatingFile) : Z := if rf_MaxSizeBytes r <=? 0 then Z.shiftl 100 20 else rf_MaxSizeBytes r.

(** [r.f.Write(p)]. *)
Definition file_write (env : OSEnv) (p : string) (f : option File) (fs : FS) : FS * Z * option error :=
  match f with
  | None => (fs, 0, Some ErrInvalid)
  | Some f =>
      if fd_open f then
        let n := match os_write env with Some (n, _) => Nat.min n (String.length p) | None => String.length p end in
        (fs_append (fd_ino f) (str_take n p) (os_mtime env) fs, Z.of_nat n, snd <$> os_write env)
      else (fs, 0, Some ErrClosed)
  end.

Definition needs_rotation (p : string) (r : RotatingFile) : bool :=
  (max_size r <? i64 (rf_size r + Z.of_nat (String.length p))) && (0 <? rf_size r).

Definition Write (env : OSEnv) (p : string) (r : RotatingFile) (fs : FS) : RotatingFile * FS * list Job * Z * option error :=
  let '(r, fs, jobs, err) := if needs_rotation p r then rotateLocked env r fs else (r, fs, [], None) in
  match err with
  | Some e => (r, fs, jobs, 0, Some e)
  | None =>
      let '(fs, n, err) := file_write env p (rf_f r) fs in
      (set_file (rf_f r) (i64 (rf_size r + n)) r, fs, jobs, n, err)
  end.

Definition Reopen (env : OSEnv) (r : RotatingFile) (fs : FS) : RotatingFile * FS * option error :=
  let r := match rf_f r with Some _ => set_file (file_close env (rf_f r)).1 (rf_size r) r | None => r end in
  openExisting env r fs.

Definition RotatingFile_Close (env : OSEnv) (r : RotatingFile) : RotatingFile * option error :=
  let '(f, e) := file_close env (rf_f r) in (set_file f (rf_size r) r, e).

(** ** Compression; [gz] is what the gzip writer makes of the data *)
Context (gz : string -> string).

Definition gzipFile (env : OSEnv) (name : string) (fs : FS) : FS * bool :=
  match file_data fs name with
  | Some d =>
      match os_gzip env with
      | None => (fs_create (name +:+ ".gz") (gz d) (os_mtime env) fs, true)
      | Some None => (fs, false)
      | Some (Some part) => (fs_create (name +:+ ".gz") part (os_mtime env) fs, false)
      end
  | None => (fs, false)
  end.

Definition job_step (env : OSEnv) (j : Job) (r : RotatingFile) (fs : FS) : FS * option Job :=
  match j with
  | JGzip name => let '(fs, ok) := gzipFile env name fs in (fs, Some (if ok then JRemove name else JPrune))
  | JRemove name => (if os_removes env name then fs else fs_remove name fs, Some JPrune)
  | JPrune => (prune env r fs, None)
  end.
End WithSort.

(** ** The directory's laws *)
Record wf_fs (fs : FS) : Prop := {
  wf_ino : forall n i, fs_dir fs !! n = Some i -> is_Some (fs_ino fs !! i) /\ i < fs_next fs;
  wf_inj : forall n n' i, fs_dir fs !! n = Some i -> fs_dir fs !! n' = Some i -> n = n'
}.

Lemma file_data_some fs n i : wf_fs fs -> fs_dir fs !! n = Some i -> exists d, file_data fs n = Some d.
Proof. intros Hw Hn. destruct (wf_ino fs Hw n i Hn) as [[x Hx] _]. exists (i_data x). unfold file_data, inode_at. by rewrite Hn, Hx. Qed.
Lemma file_data_none fs n : wf_fs fs -> file_data fs n = None <-> fs_dir fs !! n = None.
Proof.
  intros Hw. split; [|intros Hn; unfold file_data, inode_at; by rewrite Hn].
  destruct (fs_dir fs !! n) as [i|] eqn:E; [|done]. destruct (file_data_some fs n i Hw E) as [d Hd]. congruence.
Qed.

Lemma fs_open_spec name mtime fs fs' i :
  wf_fs fs -> fs_open name mtime fs = (fs', i) ->
  wf_fs fs' /\ fs_dir fs' !! name = Some i /\ (forall n, n <> name -> file_data fs' n = file_data fs n) /\
  file_data fs' name = Some (default "" (file_data fs name)).
Proof.
  intros Hw. unfold fs_open. destruct (fs_dir fs !! name) as [j|] eqn:E.
  - intros [= <- <-]. split_and!; try done. destruct (file_data_some fs name j Hw E) as [d ->]. done.
  - intros [= <- <-]. simpl. rewrite lookup_insert_eq. split_and!; try done.
    + split; simpl.
      * intros n i. destruct (decide (n = name)) as [->|Hn]; [rewrite lookup_insert_eq; intros [= <-]; rewrite lookup_insert_eq; split; [by eexists|lia]|].
        rewrite lookup_insert_ne by done. intros Hi. destruct (wf_ino fs Hw n i Hi) as [Hs Hl].
        rewrite lookup_insert_ne by lia. split; [done|lia].
      * intros n n' i. destruct (decide (n = name)) as [->|Hn], (decide (n' = name)) as [->|Hn'];
          rewrite ?lookup_insert_eq, ?lookup_insert_ne by done; intros H1 H2; try done.
        -- injection H1 as <-. pose proof (wf_ino fs Hw n' _ H2). lia.
        -- injection H2 as <-. pose proof (wf_ino fs Hw n _ H1). lia.
        -- by apply (wf_inj fs Hw n n' i).
    + intros n Hn. unfold file_data, inode_at. simpl. rewrite lookup_insert_ne by done. destruct (fs_dir fs !! n) as [i|] eqn:Ei; [|done].
      pose proof (wf_ino fs Hw n i Ei). by rewrite lookup_insert_ne by lia.
    + unfold file_data, inode_at. simpl. by rewrite !lookup_insert_eq, E.
Qed.

Lemma set_inode_spec fs name i x :
  wf_fs fs -> fs_dir fs !! name = Some i ->
  let fs' := mkFS (fs_dir fs) (<[i := x]> (fs_ino fs)) (fs_next fs) in
  wf_fs fs' /\ file_data fs' name = Some (i_data x) /\ forall n, n <> name -> file_data fs' n = file_data fs n.
Proof.
  intros Hw Hi fs'. split_and!.
  - split; simpl; [|apply Hw]. intros n j Hj. destruct (wf_ino fs Hw n j Hj) as [Hs Hl]. split; [|done].
    destruct (decide (j = i)) as [->|]; [rewrite lookup_insert_eq; by eexists|by rewrite lookup_insert_ne].
  - unfold file_data, inode_at. simpl. by rewrite Hi, lookup_insert_eq.
  - intros n Hn. unfold file_data, inode_at. simpl. destruct (fs_dir fs !! n) as [j|] eqn:Ej; [|done].
    rewrite lookup_insert_ne; [done|]. intros <-. by apply Hn, (wf_inj fs Hw n name i).
Qed.

Lemma fs_append_spec fs name i data mtime :
  wf_fs fs -> fs_dir fs !! name = Some i ->
  wf_fs (fs_append i data mtime fs) /\ fs_dir (fs_append i data mtime fs) = fs_dir fs /\
  file_data (fs_append i data mtime fs) name = Some (default "" (file_data fs name) +:+ data) /\
  forall n, n <> name -> file_data (fs_append i data mtime fs) n = file_data fs n.
Proof.
  intros Hw Hi. destruct (wf_ino fs Hw name i Hi) as [[x Hx] _]. unfold fs_append. rewrite Hx.
  destruct (set_inode_spec fs name i (mkInode (i_data x +:+ data) mtime) Hw Hi) as (H1 & H2 & H3). split_and!; try done.
  rewrite H2. unfold file_data, inode_at. by rewrite Hi, Hx.
Qed.

Lemma fs_create_spec fs name data mtime :
  wf_fs fs ->
  wf_fs (fs_create name data mtime fs) /\ file_data (fs_create name data mtime fs) name = Some data /\
  (forall n, n <> name -> file_data (fs_create name data mtime fs) n = file_data fs n) /\
  (forall n, n <> name -> fs_dir (fs_create name data mtime fs) !! n = fs_dir fs !! n).
Proof.
  intros Hw. unfold fs_create. destruct (fs_open name mtime fs) as [fs1 i] eqn:E.
  destruct (fs_open_spec _ _ _ _ _ Hw E) as (W1 & D1 & F1 & _).
  destruct (set_inode_spec fs1 name i (mkInode data mtime) W1 D1) as (H1 & H2 & H3). split_and!; try done.
  - intros n Hn. by rewrite H3, F1.
  - intros n Hn. simpl. unfold fs_open in E. destruct (fs_dir fs !! name); injection E as <- <-; [done|]. simpl. by rewrite lookup_insert_ne.
Qed.

Lemma fs_remove_spec fs name :
  wf_fs fs ->
  wf_fs (fs_remove name fs) /\ file_data (fs_remove name fs) name = None /\
  forall n, n <> name -> file_data (fs_remove name fs) n = file_data fs n /\ fs_dir (fs_remove name fs) !! n = fs_dir fs !! n.
Proof.
  intros Hw. unfold fs_remove, file_data, inode_at. simpl. split_and!.
  - split; simpl.
    + intros n i. destruct (decide (n = name)) as [->|]; [by rewrite lookup_delete_eq|]. rewrite lookup_delete_ne by done. apply Hw.
    + intros n n' i. destruct (decide (n = name)) as [->|]; [by rewrite lookup_delete_eq|].
      destruct (decide (n' = name)) as [->|]; [by rewrite lookup_delete_eq|]. rewrite !lookup_delete_ne by done. apply Hw.
  - by rewrite lookup_delete_eq.
  - intros n Hn. by rewrite lookup_delete_ne.
Qed.

Lemma fs_rename_spec fs src dst fs' :
  wf_fs fs -> src <> dst -> fs_dir fs !! dst = None -> fs_rename src dst fs = Some fs' ->
  wf_fs fs' /\ file_data fs' dst = file_data fs src /\ file_data fs' src = None /\
  forall n, n <> src -> n <> dst -> file_data fs' n = file_data fs n.
Proof.
  intros Hw Hne Hd. unfold fs_rename. destruct (fs_dir fs !! src) as [i|] eqn:Ei; [|done]. intros [= <-].
  unfold file_data, inode_at. simpl. rewrite Ei, lookup_insert_eq, lookup_insert_ne, lookup_delete_eq by done. split_and!; try done.
  - assert (Hl : forall n j, <[dst:=i]> (delete src (fs_dir fs)) !! n = Some j -> (n = dst /\ j = i) \/ (n <> src /\ fs_dir fs !! n = Some j)).
    { intros n j. destruct (decide (n = dst)) as [->|]; [rewrite lookup_insert_eq; intros [= <-]; by left|].
      rewrite lookup_insert_ne by done. destruct (decide (n = src)) as [->|]; [by rewrite lookup_delete_eq|].
      rewrite lookup_delete_ne by done. auto. }
    split; simpl.
    + intros n j [[-> ->]|[_ Hj]]%Hl; [by apply (wf_ino fs Hw src)|by apply (wf_ino fs Hw n)].
    + intros n n' j [[-> ->]|[Hn Hj]]%Hl [[-> E]|[Hn' Hj']]%Hl; subst; try done.
      * destruct Hn'. by apply (wf_inj fs Hw n' src i).
      * destruct Hn. by apply (wf_inj fs Hw n src i).
      * by apply (wf_inj fs Hw n n' j).
  - intros n H1 H2. by rewrite lookup_insert_ne, lookup_delete_ne by done.
Qed.

(** ** Names *)
Definition gz_name (n : string) : string := n +:+ ".gz".
Definition digit_end (n : string) : Prop := exists s c, n = s +:+ str1 c /\ Strconv.is_digit c = true.

Lemma snoc_inj a b c d : a +:+ str1 c = b +:+ str1 d -> c = d.
Proof.
  intros E. pose proof (f_equal String.length E) as El. rewrite !slength_app in El.
  destruct (app_inj_length a b (str1 c) (str1 d)) as [_ E']; [simpl in El; lia|done|]. by injection E'.
Qed.

Lemma digits_end s : s <> "" -> str_forall Strconv.is_digit s = true -> digit_end s.
Proof.
  induction s as [|c s IH]; [done|]. intros _ Hd. simpl in Hd. bool_to_prop. destruct s as [|c' s].
  - by exists "", c.
  - destruct IH as (a & d & E & Hd'); [done|done|]. exists (String c a), d. split; [|done]. by rewrite sapp_cons, <-E.
Qed.

Lemma digit_end_app a s : digit_end s -> digit_end (a +:+ s).
Proof. intros (b & c & -> & Hc). exists (a +:+ b), c. split; [by rewrite sapp_assoc|done]. Qed.

Lemma stamp_digit_end off ns : digit_end (format_compact_ms off ns).
Proof.
  unfold format_compact_ms. destruct (civil _) as [[y m] d], (clock _) as [[hh mm] ss].
  do 8 apply digit_end_app. unfold pad_uint. apply digit_end_app, digits_end; [apply Strconv.FormatUint_nonempty|].
  apply Strconv.FormatUint_digits. apply Z.div_pos; [apply Z.mod_pos_bound|]; lia.
Qed.

Lemma gz_not_digit_end n m : digit_end n -> n <> gz_name m.
Proof.
  intros (a & c & -> & Hc) E. change (gz_name m) with (m +:+ (".g" +:+ str1 "z")) in E. rewrite <-sapp_assoc in E.
  apply snoc_inj in E as ->. done.
Qed.

Lemma gz_name_inj n m : gz_name n = gz_name m -> n = m.
Proof.
  intros E. pose proof (f_equal String.length E) as El. unfold gz_name in *. rewrite !slength_app in El.
  destruct (app_inj_length n m ".gz" ".gz") as [-> _]; [simpl in El; lia|done|done].
Qed.

Lemma longer_ne (a b : string) : (String.length a < String.length b)%nat -> a <> b.
Proof. intros Hl ->. lia. Qed.

(** ** The rotating file at work

    Operations of one rotating file and its compression goroutines, in any order and
    with any failures.  [written] is what [Write] reported as written. *)
Section System.
Context {genv : GoEnv} `{SegSort} (gz : string -> string).

Record RSys := mkRSys { ry_r : RotatingFile; ry_fs : FS; ry_jobs : list Job }.

Inductive REvent :=
| RWrite (env : OSEnv) (p : string)
| RReopen (env : OSEnv)
| RClose (env : OSEnv)
| RJob (env : OSEnv) (k : nat).       (* the k-th compression goroutine makes its next step *)

(** The bytes a step reports as written are its only observation. *)
Definition r_step (e : REvent) (s : RSys) : option (RSys * list string) :=
  match e with
  | RWrite env p =>
      let '(r, fs, jobs, n, _) := Write env p (ry_r s) (ry_fs s) in
      Some (mkRSys r fs (ry_jobs s ++ jobs), [str_take (Z.to_nat n) p])
  | RReopen env => let '(r, fs, _) := Reopen env (ry_r s) (ry_fs s) in Some (mkRSys r fs (ry_jobs s), [])
  | RClose env => let '(r, _) := RotatingFile_Close env (ry_r s) in Some (mkRSys r (ry_fs s) (ry_jobs s), [])
  | RJob env k =>
      match ry_jobs s !! k with
      | Some j =>
          let '(fs, o) := job_step gz env j (ry_r s) (ry_fs s) in
          Some (mkRSys (ry_r s) fs (match o with Some j' => <[k := j']> (ry_jobs s) | None => delete k (ry_jobs s) end), [])
      | None => None
      end
  end.

(** The clock has moved on since the last rotation: neither the new segment's name nor
    its compressed name is taken. *)
Definition new_stamp (e : REvent) (s : RSys) : Prop :=
  match e with
  | RWrite env p =>
      needs_rotation p (ry_r s) = true ->
      fs_dir (ry_fs s) !! rotated_name env (ry_r s) = None /\ fs_dir (ry_fs s) !! gz_name (rotated_name env (ry_r s)) = None
  | _ => True
  end.

(** No single write is longer than [B]. *)
Definition short_write (B : nat) (e : REvent) : Prop :=
  match e with RWrite _ p => (String.length p <= B)%nat | _ => True end.

Inductive r_reach (B : nat) (s0 : RSys) : RSys -> list string -> Prop :=
| r_start : r_reach B s0 s0 []
| r_next s w e s' os :
    r_reach B s0 s w -> new_stamp e s -> short_write B e -> r_step e s = Some (s', os) -> r_reach B s0 s' (w ++ os).

(** *** The invariant *)
Definition active (s : RSys) : string := default "" (file_data (ry_fs s) (rf_base (ry_r s))).
(** A segment is there as it was, or compressed. *)
Definition stored (fs : FS) (nd : string * string) : Prop :=
  file_data fs nd.1 = Some nd.2 \/ file_data fs (gz_name nd.1) = Some (gz nd.2).
Definition job_name (j : Job) : option string := match j with JGzip n | JRemove n => Some n | JPrune => None end.
Definition job_ok (fs : FS) (segs : list (string * string)) (j : Job) : Prop :=
  match j with
  | JGzip n => exists d, (n, d) ∈ segs /\ file_data fs n = Some d
  | JRemove n => exists d, (n, d) ∈ segs /\ file_data fs (gz_name n) = Some (gz d)
  | JPrune => True
  end.
Definition open_ino (r : RotatingFile) : option Z :=
  match rf_f r with Some f => if fd_open f then Some (fd_ino f) else None | None => None end.

(** The files, in order, hold the initial content and the writes, none of them split. *)
Definition whole (init : string) (w files : list string) : Prop :=
  exists bs : list (list string), concat bs = init :: w /\ str_concat <$> bs = files.

Lemma str_concat_snoc l x : str_concat (l ++ [x]) = str_concat l +:+ x.
Proof. rewrite str_concat_app. simpl. by rewrite sapp_nil_r. Qed.
Lemma str_concat_concat bs : str_concat (concat bs) = str_concat (str_concat <$> bs).
Proof. induction bs as [|b bs IH]; simpl; [done|]. by rewrite str_concat_app, IH. Qed.

Lemma whole_bytes init w files : whole init w files -> str_concat files = init +:+ str_concat w.
Proof. intros (bs & Hc & <-). by rewrite <-str_concat_concat, Hc. Qed.
Lemma whole_rotate init w files : whole init w files -> whole init w (files ++ [""]).
Proof. intros (bs & Hc & <-). exists (bs ++ [[]]). split; [by rewrite concat_app, Hc, app_nil_r|by rewrite fmap_app]. Qed.
Lemma whole_write init w files a x : whole init w (files ++ [a]) -> whole init (w ++ [x]) (files ++ [a +:+ x]).
Proof.
  intros (bs & Hc & Hf). apply fmap_app_inv in Hf as (bs1 & bs2 & -> & H2 & ->).
  destruct bs2 as [|b [|? ?]]; try done. injection H2 as ->. exists (bs1 ++ [b ++ [x]]). split.
  - rewrite concat_app in *. simpl in *. rewrite app_nil_r in *. by rewrite app_assoc, Hc.
  - by rewrite fmap_app; simpl; rewrite str_concat_snoc.
Qed.

Record rf_inv (r0 : RotatingFile) (init : string) (s : RSys) (w : list string) (segs : list (string * string)) : Prop := {
  ri_cfg : ry_r s = set_file (rf_f (ry_r s)) (rf_size (ry_r s)) r0;
  ri_wf : wf_fs (ry_fs s);
  ri_data : whole init w (segs.*2 ++ [active s]);
  ri_stored : Forall (stored (ry_fs s)) segs;
  ri_names : Forall (fun nd => digit_end nd.1 /\ (String.length (rf_base r0) < String.length nd.1)%nat) segs;
  ri_nodup : NoDup segs.*1;
  ri_jobs : Forall (job_ok (ry_fs s) segs) (ry_jobs s);
  ri_jnames : NoDup (omap job_name (ry_jobs s));
  ri_handle : forall i, open_ino (ry_r s) = Some i -> fs_dir (ry_fs s) !! rf_base r0 = Some i
}.

(** Names of segments, raw or compressed. *)
Definition seg_file (segs : list (string * string)) (n : string) : Prop :=
  exists m, m ∈ segs.*1 /\ (n = m \/ n = gz_name m).

Lemma stored_ext fs fs' segs :
  (forall n, seg_file segs n -> file_data fs' n = file_data fs n) -> Forall (stored fs) segs -> Forall (stored fs') segs.
Proof.
  intros He. rewrite !Forall_forall. intros Hs [n d] Hin. assert (n ∈ segs.*1) by (apply list_elem_of_fmap; by exists (n, d)).
  destruct (Hs _ Hin) as [E|E]; [left|right]; simpl in *; rewrite He; try done; exists n; auto.
Qed.

Lemma jobs_ext fs fs' segs jobs :
  (forall n, seg_file segs n -> file_data fs' n = file_data fs n) -> Forall (job_ok fs segs) jobs -> Forall (job_ok fs' segs) jobs.
Proof.
  intros He Hf. eapply Forall_impl; [exact Hf|]. intros [n|n|]; simpl; [| |done]; intros (d & Hin & Hd); exists d; (split; [done|]);
    rewrite He; try done; exists n; (split; [apply list_elem_of_fmap; by exists (n, d)|auto]).
Qed.

(** With the retention limits off, pruning removes nothing. *)
Lemma prune_off env r fs : rf_MaxBackups r <= 0 -> rf_MaxAge r <= 0 -> prune env r fs = fs.
Proof.
  intros Hb Ha. unfold prune. destruct (os_readdir env); [done|]. generalize 0%nat.
  induction (sort_segs _) as [|x l IH]; intros i; simpl; [done|].
  destruct (Z.ltb_spec 0 (rf_MaxBackups r)); [lia|]. destruct (Z.ltb_spec 0 (rf_MaxAge r)); [lia|]. simpl. apply IH.
Qed.

Lemma closed_ino env f r size : open_ino (set_file (file_close env f).1 size r) = None.
Proof. unfold open_ino, file_close. destruct f as [f|]; simpl; [|done]. destruct (fd_open f) eqn:E; simpl; [done|by rewrite E]. Qed.

Lemma open_spec env r fs r' fs' e :
  wf_fs fs -> open_ino r = None -> openExisting env r fs = (r', fs', e) ->
  wf_fs fs' /\ (forall n, n <> rf_base r -> file_data fs' n = file_data fs n) /\
  default "" (file_data fs' (rf_base r)) = default "" (file_data fs (rf_base r)) /\
  r' = set_file (rf_f r') (rf_size r') r /\ (forall i, open_ino r' = Some i -> fs_dir fs' !! rf_base r = Some i) /\
  (e = None -> rf_size r' = Z.of_nat (String.length (default "" (file_data fs (rf_base r))))) /\
  (is_Some e -> r' = r).
Proof.
  intros Hw Ho. assert (Er : r = set_file (rf_f r) (rf_size r) r) by (by destruct r).
  unfold openExisting. destruct (os_mkdir env).
  { intros [= <- <- <-]. split_and!; try done. by rewrite Ho. }
  destruct (os_openerr env).
  { intros [= <- <- <-]. split_and!; try done. by rewrite Ho. }
  destruct (fs_open _ _ fs) as [fs1 i] eqn:Eo. destruct (fs_open_spec _ _ _ _ _ Hw Eo) as (W1 & D1 & F1 & F2).
  destruct (os_stat env); intros [= <- <- <-]; (split_and!; try done).
  - by rewrite F2.
  - by rewrite Ho.
  - by rewrite F2.
  - simpl. by intros j [= <-].
  - intros _. simpl. unfold file_data at 1, inode_at in F2. rewrite D1 in F2.
    destruct (fs_ino fs1 !! i) as [x|]; [|done]. simpl in F2. injection F2 as ->. done.
Qed.

(** The new segment's name is no segment's file. *)
Lemma fresh_not_seg fs segs n' :
  Forall (stored fs) segs -> Forall (fun nd => digit_end nd.1) segs -> wf_fs fs -> digit_end n' ->
  fs_dir fs !! n' = None -> fs_dir fs !! gz_name n' = None -> ~ seg_file segs n' /\ n' ∉ segs.*1.
Proof.
  rewrite !Forall_forall. intros Hst Hd Hw Hn' Hf Hg.
  assert (Hn : n' ∉ segs.*1).
  { intros ([m d] & -> & Hin)%list_elem_of_fmap. apply file_data_none in Hf, Hg; [|done..]. destruct (Hst _ Hin); simpl in *; congruence. }
  split; [|done]. intros (m & Hin & [->|E]); [done|]. by apply (gz_not_digit_end n' m).
Qed.

Lemma base_not_seg base segs :
  Forall (fun nd => (String.length base < String.length nd.1)%nat) segs -> ~ seg_file segs base.
Proof.
  rewrite Forall_forall. intros Hl (m & Hin & E). apply list_elem_of_fmap in Hin as ([m' d] & -> & Hin). specialize (Hl _ Hin). simpl in *.
  destruct E as [E|E]; apply (f_equal String.length) in E; [lia|]. unfold gz_name in E. rewrite slength_app in E. lia.
Qed.

Lemma rotated_longer env r : (String.length (rf_base r) < String.length (rotated_name env r))%nat.
Proof. unfold rotated_name. rewrite slength_app. change ("." +:+ ?s) with (String "." s). simpl. lia. Qed.

Lemma rotated_digit env r : digit_end (rotated_name env r).
Proof. unfold rotated_name. do 2 apply digit_end_app. apply stamp_digit_end. Qed.

(** The active file has become the segment [n'] and the active name is empty or gone. *)
Lemma add_segment r0 init s w segs n' fs2 rr jobs' :
  rf_inv r0 init s w segs -> digit_end n' -> (String.length (rf_base r0) < String.length n')%nat -> n' ∉ segs.*1 ->
  wf_fs fs2 -> (forall n, seg_file segs n -> file_data fs2 n = file_data (ry_fs s) n) ->
  file_data fs2 n' = Some (active s) -> default "" (file_data fs2 (rf_base r0)) = "" ->
  rr = set_file (rf_f rr) (rf_size rr) r0 -> (forall i, open_ino rr = Some i -> fs_dir fs2 !! rf_base r0 = Some i) ->
  (jobs' = [] \/ jobs' = [JGzip n']) ->
  rf_inv r0 init (mkRSys rr fs2 (ry_jobs s ++ jobs')) w (segs ++ [(n', active s)]).
Proof.
  intros [I1 I2 I3 I4 I5 I6 I7 I8 I9] Hd Hl Hnin W2 Hseg Hdata Hact C' Hh Hj. split; simpl; try done.
  - rewrite fmap_app. unfold active at 2. simpl. rewrite C'. simpl. rewrite Hact. by apply whole_rotate.
  - apply Forall_app. split; [by eapply stored_ext|]. apply Forall_singleton. by left.
  - apply Forall_app. split; [done|]. by apply Forall_singleton.
  - rewrite fmap_app. apply NoDup_app. split_and!; [done| |apply NoDup_singleton].
    intros x Hx Hx'. simpl in Hx'. by apply list_elem_of_singleton in Hx' as ->.
  - apply Forall_app. split.
    + eapply Forall_impl; [eapply jobs_ext; [exact Hseg|exact I7]|].
      intros [n|n|]; simpl; [| |done]; intros (d & Hin & Hd'); exists d; (split; [apply elem_of_app; by left|done]).
    + destruct Hj as [-> | ->]; [constructor|]. apply Forall_singleton. exists (active s). split; [apply elem_of_app; right; by apply list_elem_of_singleton|done].
  - rewrite omap_app. apply NoDup_app. split_and!; [done| |destruct Hj as [-> | ->]; simpl; [constructor|apply NoDup_singleton]].
    intros n Hin Hin'. destruct Hj as [-> | ->]; simpl in Hin'; [by apply not_elem_of_nil in Hin'|]. apply list_elem_of_singleton in Hin' as ->.
    apply Hnin. apply list_elem_of_omap in Hin as (j & Hj' & Ej). rewrite Forall_forall in I7. specialize (I7 j Hj').
    destruct j as [n|n|]; simplify_eq/=; destruct I7 as (d & Hin & _); apply list_elem_of_fmap; by exists (n', d).
Qed.

(** A rotation that fails leaves the handle closed. *)
Lemma rotate_closed env r fs r' fs' jobs e : rotateLocked env r fs = (r', fs', jobs, e) -> is_Some e -> open_ino r' = None.
Proof.
  unfold rotateLocked. pose proof (closed_ino env (rf_f r) r (rf_size r)) as Hcl. destruct (file_close env (rf_f r)) as [f err]. simpl in Hcl.
  destruct err; [by intros [= <- <- <- <-]|]. destruct (os_rename env); [by intros [= <- <- <- <-]|].
  destruct (fs_rename _ _ fs) as [fs1|]; [|by intros [= <- <- <- <-]].
  unfold openExisting. destruct (os_mkdir env); [by intros [= <- <- <- <-]|]. destruct (os_openerr env); [by intros [= <- <- <- <-]|].
  destruct (fs_open _ _ fs1) as [fs2 i]. destruct (os_stat env); [by intros [= <- <- <- <-]|]. intros [= <- <- <- <-]. by intros [].
Qed.

(** Rotation: the active file becomes a segment, whatever fails after the rename. *)
Lemma rotate_inv r0 init s w segs env r' fs' jobs e :
  rf_MaxBackups r0 <= 0 -> rf_MaxAge r0 <= 0 -> rf_inv r0 init s w segs ->
  fs_dir (ry_fs s) !! rotated_name env (ry_r s) = None -> fs_dir (ry_fs s) !! gz_name (rotated_name env (ry_r s)) = None ->
  rotateLocked env (ry_r s) (ry_fs s) = (r', fs', jobs, e) ->
  (fs' = ry_fs s /\ rf_inv r0 init (mkRSys r' fs' (ry_jobs s ++ jobs)) w segs /\ is_Some e) \/
  (rf_inv r0 init (mkRSys r' fs' (ry_jobs s ++ jobs)) w (segs ++ [(rotated_name env (ry_r s), active s)]) /\
   active (mkRSys r' fs' (ry_jobs s ++ jobs)) = "" /\ (e = None -> rf_size r' = 0)).
Proof.
  intros Hb Ha Hinv0 Hn Hg. pose proof Hinv0 as [I1 I2 I3 I4 I5 I6 I7 I8 I9]. unfold rotateLocked.
  pose proof (closed_ino env (rf_f (ry_r s)) (ry_r s) (rf_size (ry_r s))) as Hcl.
  destruct (file_close env (rf_f (ry_r s))) as [f err]. simpl in Hcl. set (r1 := set_file f (rf_size (ry_r s)) (ry_r s)) in *.
  assert (C1 : r1 = set_file f (rf_size (ry_r s)) r0) by (unfold r1; by rewrite I1).
  assert (Hsame : rf_inv r0 init (mkRSys r1 (ry_fs s) (ry_jobs s ++ [])) w segs).
  { rewrite app_nil_r. split; simpl; try done. by rewrite Hcl. }
  assert (Hbase : rf_base r1 = rf_base r0 /\ rf_base (ry_r s) = rf_base r0) by (rewrite C1, I1; done). destruct Hbase as [Hb1 Hb2].
  change (rotated_name env r1) with (rotated_name env (ry_r s)). set (n' := rotated_name env (ry_r s)) in *.
  destruct err as [er|]; [intros [= <- <- <- <-]; left; by eauto|].
  destruct (os_rename env) as [er|]; [intros [= <- <- <- <-]; left; by eauto|].
  destruct (fs_rename (rf_base r1) n' (ry_fs s)) as [fs1|] eqn:Ern; [|intros [= <- <- <- <-]; left; by eauto].
  assert (Hnb : rf_base r0 <> n') by (apply longer_ne; rewrite <-Hb2; apply rotated_longer).
  rewrite Hb1 in Ern. destruct (fs_rename_spec _ _ _ _ I2 Hnb Hn Ern) as (W1 & E1 & E2 & E3).
  destruct (openExisting env r1 fs1) as [[r2 fs2] er] eqn:Eo.
  destruct (open_spec _ _ _ _ _ _ W1 Hcl Eo) as (W2 & G1 & G2 & G3 & G4 & G5 & G6). rewrite Hb1 in *.
  assert (Hseg : forall n, seg_file segs n -> file_data fs2 n = file_data (ry_fs s) n).
  { intros n Hsf. assert (n <> rf_base r0).
    { intros ->. eapply base_not_seg; [|exact Hsf]. eapply Forall_impl; [exact I5|]. by intros ? []. }
    assert (n <> n').
    { intros ->. destruct (fresh_not_seg (ry_fs s) segs n' I4) as [Hf _]; try done; [|apply rotated_digit].
      eapply Forall_impl; [exact I5|]. by intros ? []. }
    by rewrite G1, E3. }
  assert (Hact : default "" (file_data fs2 (rf_base r0)) = "") by (by rewrite G2, E2).
  assert (Hdata : file_data fs2 n' = file_data (ry_fs s) (rf_base r0)) by (by rewrite G1, E1 by congruence).
  assert (Hsome : file_data (ry_fs s) (rf_base r0) = Some (active s)).
  { unfold fs_rename in Ern. destruct (fs_dir (ry_fs s) !! rf_base r0) as [i|] eqn:Ei; [|done].
    destruct (file_data_some _ _ _ I2 Ei) as [d Ed]. unfold active. by rewrite Hb2, Ed. }
  assert (Hnin : n' ∉ segs.*1).
  { apply (fresh_not_seg (ry_fs s) segs n'); try done; [|apply rotated_digit]. eapply Forall_impl; [exact I5|]. by intros ? []. }
  assert (Hinv : forall rr jobs', rr = set_file (rf_f rr) (rf_size rr) r0 -> rf_f rr = rf_f r2 -> (jobs' = [] \/ jobs' = [JGzip n']) ->
    rf_inv r0 init (mkRSys rr fs2 (ry_jobs s ++ jobs')) w (segs ++ [(n', active s)])).
  { intros rr jobs' C' Hf' Hj. apply (add_segment r0 init s w segs n' fs2 rr jobs'); try done; [apply rotated_digit| |congruence|].
    - rewrite <-Hb2. apply rotated_longer.
    - intros i. unfold open_ino. rewrite Hf'. apply G4. }
  assert (Hb3 : rf_base r2 = rf_base r0) by (rewrite G3, C1; done).
  destruct er as [er|]; intros [= <- <- <- <-]; right; unfold active at 2; simpl; rewrite ?Hb3.
  - split; [apply Hinv; [rewrite G3, C1; done|done|by left]|]. by split.
  - rewrite (prune_off env) by (rewrite G3, C1; done). split; [|by split].
    apply Hinv; [rewrite G3, C1; done|done|]. destruct (rf_Compress _); auto.
Qed.

(** Changing the handle's bookkeeping, or closing it. *)
Lemma handle_inv r0 init s w segs f size :
  rf_inv r0 init s w segs -> (open_ino (set_file f size (ry_r s)) = None \/ f = rf_f (ry_r s)) ->
  rf_inv r0 init (mkRSys (set_file f size (ry_r s)) (ry_fs s) (ry_jobs s)) w segs.
Proof.
  intros [I1 I2 I3 I4 I5 I6 I7 I8 I9] Hf. split; simpl; try done.
  - by rewrite I1.
  - intros i. destruct Hf as [->| ->]; [done|]. apply I9.
Qed.

Lemma write_inv r0 init s w segs env p fs' n e size :
  rf_inv r0 init s w segs -> file_write env p (rf_f (ry_r s)) (ry_fs s) = (fs', n, e) ->
  rf_inv r0 init (mkRSys (set_file (rf_f (ry_r s)) size (ry_r s)) fs' (ry_jobs s)) (w ++ [str_take (Z.to_nat n) p]) segs.
Proof.
  intros Hi Hw. pose proof Hi as [I1 I2 I3 I4 I5 I6 I7 I8 I9].
  assert (Hidle : fs' = ry_fs s -> n = 0 ->
    rf_inv r0 init (mkRSys (set_file (rf_f (ry_r s)) size (ry_r s)) fs' (ry_jobs s)) (w ++ [str_take (Z.to_nat n) p]) segs).
  { intros -> ->. destruct (handle_inv r0 init s w segs (rf_f (ry_r s)) size Hi (or_intror eq_refl)) as [J1 J2 J3 J4 J5 J6 J7 J8 J9].
    split; try done. apply (whole_write _ _ _ _ (str_take (Z.to_nat 0) p)) in J3. destruct p; by rewrite sapp_nil_r in J3. }
  unfold file_write in Hw. destruct (rf_f (ry_r s)) as [f|] eqn:Ef; [|injection Hw as <- <- <-; by apply Hidle].
  destruct (fd_open f) eqn:Eo; [|injection Hw as <- <- <-; by apply Hidle]. injection Hw as <- <- <-. rewrite Nat2Z.id.
  set (k := match os_write env with Some _ => _ | None => _ end).
  assert (Hino : open_ino (ry_r s) = Some (fd_ino f)) by (unfold open_ino; by rewrite Ef, Eo).
  destruct (fs_append_spec (ry_fs s) (rf_base r0) (fd_ino f) (str_take k p) (os_mtime env) I2 (I9 _ Hino)) as (W & D & F1 & F2).
  assert (Hb : rf_base (ry_r s) = rf_base r0) by (by rewrite I1).
  assert (Hseg : forall m, seg_file segs m -> file_data (fs_append (fd_ino f) (str_take k p) (os_mtime env) (ry_fs s)) m = file_data (ry_fs s) m).
  { intros m Hm. apply F2. intros ->. eapply base_not_seg; [|exact Hm]. eapply Forall_impl; [exact I5|]. by intros ? []. }
  split; simpl; try done.
  - by rewrite I1.
  - apply (whole_write _ _ _ _ (str_take k p)) in I3. revert I3. unfold active. simpl. by rewrite Hb, F1.
  - by eapply stored_ext.
  - by eapply jobs_ext.
  - intros i Hi'. rewrite D. apply I9. rewrite <-Hi'. unfold open_ino. simpl. by rewrite Ef.
Qed.

Lemma reopen_inv r0 init s w segs env r' fs' e :
  rf_inv r0 init s w segs -> Reopen env (ry_r s) (ry_fs s) = (r', fs', e) -> rf_inv r0 init (mkRSys r' fs' (ry_jobs s)) w segs.
Proof.
  intros Hi. pose proof Hi as [I1 I2 I3 I4 I5 I6 I7 I8 I9]. unfold Reopen. set (r1 := match rf_f (ry_r s) with Some _ => _ | None => _ end).
  assert (Ho : open_ino r1 = None).
  { unfold r1. destruct (rf_f (ry_r s)) eqn:E; [apply closed_ino|]. unfold open_ino. by rewrite E. }
  assert (C1 : r1 = set_file (rf_f r1) (rf_size r1) r0) by (unfold r1; destruct (rf_f (ry_r s)); rewrite I1; done).
  intros Hop. destruct (open_spec _ _ _ _ _ _ I2 Ho Hop) as (W & F1 & F2 & C2 & Hh & _ & _).
  assert (Hb : rf_base r1 = rf_base r0 /\ rf_base (ry_r s) = rf_base r0) by (rewrite C1, I1; done). destruct Hb as [Hb1 Hb2]. rewrite Hb1 in *.
  assert (Hseg : forall m, seg_file segs m -> file_data fs' m = file_data (ry_fs s) m).
  { intros m Hm. apply F1. intros ->. eapply base_not_seg; [|exact Hm]. eapply Forall_impl; [exact I5|]. by intros ? []. }
  assert (C3 : r' = set_file (rf_f r') (rf_size r') r0) by (rewrite C2, C1; done).
  split; simpl; try done.
  - revert I3. unfold active. simpl. rewrite C3. simpl. by rewrite F2, Hb2.
  - by eapply stored_ext.
  - by eapply jobs_ext.
Qed.

Lemma NoDup_fst_eq {X Y} (l : list (X * Y)) x y y' : NoDup l.*1 -> (x, y) ∈ l -> (x, y') ∈ l -> y = y'.
Proof.
  intros Hn (i & Hi)%list_elem_of_lookup (j & Hj)%list_elem_of_lookup.
  assert (i = j) as ->; [|congruence]. eapply (NoDup_lookup l.*1); [done|rewrite list_lookup_fmap, Hi; done|rewrite list_lookup_fmap, Hj; done].
Qed.

(** A step of a compression goroutine replaces its job [j] by [o] and may change the
    files of its own segment, which stays stored. *)
Lemma job_replace r0 init s w segs fs' l1 j l2 o :
  rf_inv r0 init s w segs -> ry_jobs s = l1 ++ j :: l2 -> wf_fs fs' ->
  (forall n, job_name j <> Some n -> forall m, m = n \/ m = gz_name n -> n ∈ segs.*1 -> file_data fs' m = file_data (ry_fs s) m) ->
  file_data fs' (rf_base r0) = file_data (ry_fs s) (rf_base r0) -> fs_dir fs' !! rf_base r0 = fs_dir (ry_fs s) !! rf_base r0 ->
  (forall n d, job_name j = Some n -> (n, d) ∈ segs -> stored fs' (n, d)) ->
  (forall j', o = Some j' -> job_ok fs' segs j' /\ (job_name j' = job_name j \/ job_name j' = None)) ->
  rf_inv r0 init (mkRSys (ry_r s) fs' (l1 ++ option_list o ++ l2)) w segs.
Proof.
  intros [I1 I2 I3 I4 I5 I6 I7 I8 I9] Hj Hw Hoth Hact Hdir Hst Ho. rewrite Hj in I7, I8.
  assert (Hb : rf_base (ry_r s) = rf_base r0) by (by rewrite I1).
  apply Forall_app in I7 as [J1 J2]. inversion J2 as [|? ? Jj J3]; subst. clear J2.
  rewrite omap_app in I8. cbn [omap list_omap] in I8.
  assert (Hne : forall j0 n, j0 ∈ l1 \/ j0 ∈ l2 -> job_name j0 = Some n -> job_name j <> Some n).
  { intros j0 n Hin En Ej. rewrite Ej in I8. apply NoDup_app in I8 as (_ & Hd & Hn). apply NoDup_cons in Hn as [Hn _].
    destruct Hin as [Hin|Hin]; [apply (Hd n); [|by left]|apply Hn]; apply list_elem_of_omap; by exists j0. }
  assert (Hjobs : forall j0, j0 ∈ l1 \/ j0 ∈ l2 -> job_ok (ry_fs s) segs j0 -> job_ok fs' segs j0).
  { intros j0 Hin. destruct j0 as [n|n|]; simpl; [| |done]; intros (d & Hs & Hf); exists d; (split; [done|]);
      rewrite (Hoth n (Hne _ n Hin eq_refl)); auto; apply list_elem_of_fmap; by exists (n, d). }
  split; simpl; try done.
  - revert I3. unfold active. simpl. by rewrite Hb, Hact.
  - apply Forall_forall. intros [n d] Hin. destruct (decide (job_name j = Some n)) as [Ej|Ej]; [by apply Hst|].
    rewrite Forall_forall in I4. assert (n ∈ segs.*1) by (apply list_elem_of_fmap; by exists (n, d)).
    destruct (I4 _ Hin) as [E|E]; [left|right]; simpl in *; rewrite (Hoth n); auto.
  - apply Forall_app. split; [|apply Forall_app; split].
    + apply Forall_forall. intros j0 Hin. rewrite Forall_forall in J1. auto.
    + destruct o as [j'|]; [|constructor]. apply Forall_singleton. by apply Ho.
    + apply Forall_forall. intros j0 Hin. rewrite Forall_forall in J3. auto.
  - rewrite !omap_app. assert (NoDup (omap job_name l1 ++ omap job_name l2)) as Hnd.
    { revert I8. destruct (job_name j) as [n|]; [|done]. intros I8. eapply sublist_NoDup; [exact I8|]. apply sublist_app; [reflexivity|]. apply sublist_cons. reflexivity. }
    destruct o as [j'|]; [|done]. simpl. destruct (job_name j') as [n'|] eqn:En'; [|done].
    destruct (proj2 (Ho j' eq_refl)) as [E|E]; [|congruence]. rewrite <-E, En' in I8. done.
  - intros i Hi. rewrite Hdir. auto.
Qed.

Lemma job_inv r0 init s w segs env k j fs' o :
  rf_MaxBackups r0 <= 0 -> rf_MaxAge r0 <= 0 -> rf_inv r0 init s w segs -> ry_jobs s !! k = Some j ->
  job_step gz env j (ry_r s) (ry_fs s) = (fs', o) ->
  rf_inv r0 init (mkRSys (ry_r s) fs' (match o with Some j' => <[k := j']> (ry_jobs s) | None => delete k (ry_jobs s) end)) w segs.
Proof.
  intros Hb Ha Hi Hk Hst. pose proof Hi as [I1 I2 I3 I4 I5 I6 I7 I8 I9].
  destruct (list_elem_of_split_length _ _ _ Hk) as (l1 & l2 & Hj & ->).
  assert ((match o with Some j' => <[length l1 := j']> (ry_jobs s) | None => delete (length l1) (ry_jobs s) end) = l1 ++ option_list o ++ l2) as ->.
  { rewrite Hj. destruct o; simpl; [|apply delete_middle]. rewrite insert_app_r_alt, Nat.sub_diag by lia. done. }
  rewrite Forall_forall in I7. specialize (I7 j ltac:(rewrite Hj; apply elem_of_app; right; by left)).
  assert (Hbase : forall n d, (n, d) ∈ segs -> digit_end n /\ rf_base r0 <> n /\ rf_base r0 <> gz_name n).
  { intros n d Hin. rewrite Forall_forall in I5. specialize (I5 _ Hin) as [H1 H2]. simpl in *. split_and!; [done|by apply longer_ne|].
    apply longer_ne. unfold gz_name. rewrite slength_app. lia. }
  assert (Hdig : forall n, n ∈ segs.*1 -> digit_end n).
  { intros n ([n' d] & -> & Hin)%list_elem_of_fmap. by destruct (Hbase _ _ Hin). }
  destruct j as [n|n|]; simpl in Hst, I7.
  - destruct I7 as (d & Hin & Hd). unfold gzipFile in Hst. rewrite Hd in Hst. destruct (Hbase n d Hin) as (Hdn & Hb1 & Hb2).
    assert (Hcr : forall data ok, (ok = true -> data = gz d) ->
      rf_inv r0 init (mkRSys (ry_r s) (fs_create (gz_name n) data (os_mtime env) (ry_fs s))
        (l1 ++ option_list (Some (if ok then JRemove n else JPrune)) ++ l2)) w segs).
    { intros data ok Hok. destruct (fs_create_spec (ry_fs s) (gz_name n) data (os_mtime env) I2) as (W & C1 & C2 & C3).
      apply (job_replace r0 init s w segs _ l1 (JGzip n)); try done.
      - intros m Hm x Hx Hs. apply C2. destruct Hx as [-> | ->]; [by apply gz_not_digit_end, Hdig|]. intros E%gz_name_inj. by subst.
      - by apply C2.
      - by apply C3.
      - intros m d' [= <-] Hin'. left. simpl. rewrite C2 by (by apply gz_not_digit_end). rewrite Hd. f_equal.
        eapply NoDup_fst_eq; [exact I6|exact Hin|exact Hin'].
      - intros j' [= <-]. destruct ok; simpl; [|auto]. split; [|by left]. exists d. split; [done|]. by rewrite C1, Hok. }
    destruct (os_gzip env) as [[part|]|]; injection Hst as <- <-.
    + by apply (Hcr part false).
    + apply (job_replace r0 init s w segs _ l1 (JGzip n)); try done.
      * intros m d' [= <-] Hin'. rewrite Forall_forall in I4. by apply I4.
      * intros j' [= <-]. simpl. auto.
    + by apply (Hcr (gz d) true).
  - destruct I7 as (d & Hin & Hd). destruct (Hbase n d Hin) as (Hdn & Hb1 & Hb2). injection Hst as <- <-.
    assert (Hd' : forall d', (n, d') ∈ segs -> d' = d) by (intros d' Hin'; by eapply NoDup_fst_eq).
    destruct (os_removes env n).
    + apply (job_replace r0 init s w segs _ l1 (JRemove n)); try done.
      * intros m d' [= <-] Hin'. right. simpl. by rewrite (Hd' d').
      * intros j' [= <-]. simpl. auto.
    + destruct (fs_remove_spec (ry_fs s) n I2) as (W & _ & C2).
      apply (job_replace r0 init s w segs _ l1 (JRemove n)); try done.
      * intros m Hm x Hx Hs. apply C2. destruct Hx as [-> | ->]; [intros ->; by apply Hm|]. intros E. by apply (gz_not_digit_end n m).
      * by apply C2.
      * by apply C2.
      * intros m d' [= <-] Hin'. right. simpl. rewrite (Hd' d') by done. destruct (C2 (gz_name n)) as [-> _]; [|done].
        intros E. by apply (gz_not_digit_end n n).
      * intros j' [= <-]. simpl. auto.
  - injection Hst as <- <-. rewrite prune_off by (rewrite I1; done).
    apply (job_replace r0 init s w segs _ l1 JPrune); done.
Qed.

(** *** Sizes *)
Definition zlen (x : string) : Z := Z.of_nat (String.length x).
Definition is_open (r : RotatingFile) : bool := match open_ino r with Some _ => true | None => false end.

Record rf_sized (M : Z) (s : RSys) (segs : list (string * string)) : Prop := {
  rz_size : is_open (ry_r s) = true -> rf_size (ry_r s) = zlen (active s);
  rz_active : zlen (active s) <= M;
  rz_segs : Forall (fun nd => zlen nd.2 <= M) segs
}.

Lemma active_total r0 init s w segs : rf_inv r0 init s w segs -> zlen (active s) <= zlen init + zlen (str_concat w).
Proof.
  intros [_ _ I3 _ _ _ _ _ _]. pose proof (f_equal String.length (whole_bytes _ _ _ I3)) as El.
  rewrite str_concat_snoc, !slength_app in El. unfold zlen. lia.
Qed.

(** A write that fits keeps the sizes right. *)
Lemma write_sized r0 init M s w segs env p fs' n e :
  rf_inv r0 init s w segs -> rf_sized M s segs -> (is_open (ry_r s) = true -> zlen (active s) + zlen p <= M) ->
  zlen (active s) + zlen p < 2 ^ 63 ->
  file_write env p (rf_f (ry_r s)) (ry_fs s) = (fs', n, e) ->
  rf_sized M (mkRSys (set_file (rf_f (ry_r s)) (i64 (rf_size (ry_r s) + n)) (ry_r s)) fs' (ry_jobs s)) segs.
Proof.
  intros [I1 I2 I3 I4 I5 I6 I7 I8 I9] [Z1 Z2 Z3] Hfit Htot Hw.
  assert (Hb : rf_base (ry_r s) = rf_base r0) by (by rewrite I1).
  unfold is_open, open_ino in *. unfold file_write in Hw.
  destruct (rf_f (ry_r s)) as [f|] eqn:Ef; [destruct (fd_open f) eqn:Eo|]; injection Hw as <- <- <-.
  - set (k := match os_write env with Some _ => _ | None => _ end).
    assert (Hino : fs_dir (ry_fs s) !! rf_base r0 = Some (fd_ino f)) by (apply I9; by rewrite ?Ef, ?Eo).
    destruct (fs_append_spec (ry_fs s) (rf_base r0) (fd_ino f) (str_take k p) (os_mtime env) I2 Hino) as (_ & _ & F1 & _).
    set (s' := mkRSys _ _ _).
    assert (Ha : active s' = active s +:+ str_take k p) by (unfold active; simpl; by rewrite Hb, F1).
    assert (Hk : Z.of_nat k = zlen (str_take k p) /\ zlen (str_take k p) <= zlen p).
    { unfold zlen. rewrite str_take_length. unfold k. destruct (os_write env) as [[m ?]|]; lia. }
    specialize (Hfit eq_refl). specialize (Z1 eq_refl). split; [|rewrite Ha; unfold zlen in *; rewrite slength_app; lia|done].
    intros _. rewrite Ha. simpl. rewrite Z1, i64_small; unfold zlen, is_i64 in *; rewrite ?slength_app; lia.
  - split; [|exact Z2|exact Z3]. unfold is_open, open_ino. simpl. by rewrite Eo.
  - split; [|exact Z2|exact Z3]. unfold is_open, open_ino. done.
Qed.

Lemma reopen_sized r0 init M s w segs env r' fs' e :
  rf_inv r0 init s w segs -> rf_sized M s segs -> Reopen env (ry_r s) (ry_fs s) = (r', fs', e) ->
  rf_sized M (mkRSys r' fs' (ry_jobs s)) segs.
Proof.
  intros [I1 I2 I3 I4 I5 I6 I7 I8 I9] [Z1 Z2 Z3]. unfold Reopen. set (r1 := match rf_f (ry_r s) with Some _ => _ | None => _ end).
  assert (Ho : open_ino r1 = None).
  { unfold r1. destruct (rf_f (ry_r s)) eqn:E; [apply closed_ino|]. unfold open_ino. by rewrite E. }
  assert (Hb : rf_base r1 = rf_base (ry_r s)) by (unfold r1; by destruct (rf_f (ry_r s))).
  intros Hop. destruct (open_spec _ _ _ _ _ _ I2 Ho Hop) as (_ & _ & F2 & C2 & _ & Hs & He). rewrite Hb in *.
  assert (Ha : active (mkRSys r' fs' (ry_jobs s)) = active s) by (unfold active; simpl; rewrite C2; simpl; by rewrite Hb, F2).
  split; [|by rewrite Ha|done]. rewrite Ha. simpl. intros Hop'. destruct e as [er|]; [|by apply Hs].
  rewrite He in Hop' by eauto. unfold is_open in Hop'. by rewrite Ho in Hop'.
Qed.

(** A step of a compression goroutine leaves the active file alone. *)
Lemma job_active r0 init s w segs env j fs' o :
  rf_MaxBackups r0 <= 0 -> rf_MaxAge r0 <= 0 -> rf_inv r0 init s w segs -> j ∈ ry_jobs s ->
  job_step gz env j (ry_r s) (ry_fs s) = (fs', o) -> file_data fs' (rf_base r0) = file_data (ry_fs s) (rf_base r0).
Proof.
  intros Hb Ha [I1 I2 I3 I4 I5 I6 I7 I8 I9] Hj. rewrite Forall_forall in I7. specialize (I7 j Hj).
  assert (Hne : forall n d, (n, d) ∈ segs -> rf_base r0 <> n /\ rf_base r0 <> gz_name n).
  { intros n d Hin. rewrite Forall_forall in I5. specialize (I5 _ Hin) as [_ H2]. simpl in *. split; apply longer_ne; [done|].
    unfold gz_name. rewrite slength_app. lia. }
  destruct j as [n|n|]; simpl in *.
  - destruct I7 as (d & Hin & Hd). destruct (Hne n d Hin). unfold gzipFile. rewrite Hd.
    destruct (os_gzip env) as [[part|]|]; intros [= <- <-]; [|done|]; by apply fs_create_spec.
  - destruct I7 as (d & Hin & Hd). destruct (Hne n d Hin). intros [= <- <-]. destruct (os_removes env n); [done|].
    by apply fs_remove_spec.
  - intros [= <- <-]. by rewrite prune_off by (rewrite I1; done).
Qed.

Definition size_bound (r0 : RotatingFile) (init : string) (B : nat) : Z := Z.max (max_size r0) (Z.max (Z.of_nat B) (zlen init)).

(** A write after a rotation, or one that fits. *)
Lemma write_fits r0 init B s w segs p :
  rf_inv r0 init s w segs -> rf_sized (size_bound r0 init B) s segs -> (String.length p <= B)%nat ->
  zlen (active s) + zlen p < 2 ^ 63 -> needs_rotation p (ry_r s) = false ->
  is_open (ry_r s) = true -> zlen (active s) + zlen p <= size_bound r0 init B.
Proof.
  intros [I1 _ _ _ _ _ _ _ _] [Z1 _ _] Hp Ht Hn Ho. unfold needs_rotation in Hn. rewrite Z1 in Hn by done.
  assert (max_size (ry_r s) = max_size r0) as Hm by (by rewrite I1). rewrite Hm in Hn.
  fold (zlen p) in Hn. rewrite i64_small in Hn by (unfold is_i64, zlen in *; lia).
  unfold size_bound, zlen in *. apply andb_false_iff in Hn as [Hn|Hn]; bool_to_prop; lia.
Qed.

(** What a step preserves. *)
Definition rf_ok (r0 : RotatingFile) (init : string) (B : nat) (s : RSys) (w : list string) : Prop :=
  exists segs, rf_inv r0 init s w segs /\ rf_sized (size_bound r0 init B) s segs.

Lemma inv_base r0 init s w segs : rf_inv r0 init s w segs -> rf_base (ry_r s) = rf_base r0.
Proof. intros [I1 _ _ _ _ _ _ _ _]. by rewrite I1. Qed.

(** After a rotation, failed or not; when it succeeds the active file is empty. *)
Lemma rotate_ok r0 init B s w env r1 fs1 jobs er :
  rf_MaxBackups r0 <= 0 -> rf_MaxAge r0 <= 0 -> rf_ok r0 init B s w ->
  fs_dir (ry_fs s) !! rotated_name env (ry_r s) = None -> fs_dir (ry_fs s) !! gz_name (rotated_name env (ry_r s)) = None ->
  rotateLocked env (ry_r s) (ry_fs s) = (r1, fs1, jobs, er) ->
  let s1 := mkRSys r1 fs1 (ry_jobs s ++ jobs) in rf_ok r0 init B s1 w /\ (er = None -> active s1 = "").
Proof.
  intros Hb Ha (segs & Hi & [Z1 Z2 Z3]) Hn1 Hn2 Er s1.
  assert (Hro : is_Some er -> is_open r1 = false) by (intros He; unfold is_open; by rewrite (rotate_closed _ _ _ _ _ _ _ Er He)).
  destruct (rotate_inv _ _ _ _ _ _ _ _ _ _ Hb Ha Hi Hn1 Hn2 Er) as [(E & Hi' & He)|(Hi' & Hact & Hs0)].
  - split; [|intros ->; by destruct He]. exists segs. split; [done|].
    assert (Ea : active s1 = active s).
    { pose proof (inv_base _ _ _ _ _ Hi') as Hb1. simpl in Hb1. unfold active. simpl. by rewrite Hb1, (inv_base _ _ _ _ _ Hi), E. }
    split; [|by rewrite Ea|done]. intros Ho. simpl in Ho. by rewrite Hro in Ho.
  - split; [|done]. exists (segs ++ [(rotated_name env (ry_r s), active s)]). split; [done|]. fold s1 in Hact. split.
    + intros Ho. simpl in Ho. rewrite Hact. destruct er as [er|]; [|by apply Hs0]. by rewrite Hro in Ho by eauto.
    + rewrite Hact. unfold size_bound, zlen. simpl. lia.
    + apply Forall_app. split; [done|]. by apply Forall_singleton.
Qed.

Lemma rf_write_ok r0 init B s w env p s' os :
  rf_MaxBackups r0 <= 0 -> rf_MaxAge r0 <= 0 -> rf_ok r0 init B s w -> new_stamp (RWrite env p) s -> (String.length p <= B)%nat ->
  zlen init + zlen (str_concat w) + Z.of_nat B < 2 ^ 63 -> r_step (RWrite env p) s = Some (s', os) -> rf_ok r0 init B s' (w ++ os).
Proof.
  intros Hb Ha Hok Hn Hp Ht. simpl. unfold Write. destruct (needs_rotation p (ry_r s)) eqn:Hnr.
  - destruct (Hn Hnr) as [Hn1 Hn2]. destruct (rotateLocked env (ry_r s) (ry_fs s)) as [[[r1 fs1] jobs] er] eqn:Er.
    destruct (rotate_ok _ _ _ _ _ _ _ _ _ _ Hb Ha Hok Hn1 Hn2 Er) as [(segs' & Hi' & Hz') Hact].
    set (s1 := mkRSys r1 fs1 (ry_jobs s ++ jobs)) in *.
    destruct er as [er|]; [intros [= <- <-]|].
    + exists segs'. split; [|done]. replace (str_take (Z.to_nat 0) p) with "" by (by destruct p).
      destruct Hi' as [J1 J2 J3 J4 J5 J6 J7 J8 J9]. split; try done. apply (whole_write _ _ _ _ "") in J3. by rewrite sapp_nil_r in J3.
    + destruct (file_write env p (rf_f r1) fs1) as [[fs2 n] er] eqn:Ew. intros [= <- <-].
      assert (zlen (active s1) + zlen p <= size_bound r0 init B /\ zlen (active s1) + zlen p < 2 ^ 63) as [Hf1 Hf2].
      { rewrite Hact by done. unfold size_bound, zlen in *. simpl. lia. }
      exists segs'. split; [by apply (write_inv r0 init s1 w segs' env p fs2 n er)|by apply (write_sized r0 init _ s1 w segs' env p fs2 n er)].
  - destruct Hok as (segs & Hi & Hz). pose proof (active_total _ _ _ _ _ Hi) as Htot.
    destruct (file_write env p (rf_f (ry_r s)) (ry_fs s)) as [[fs2 n] er] eqn:Ew. intros [= <- <-]. exists segs. rewrite app_nil_r.
    assert (zlen (active s) + zlen p < 2 ^ 63) by (unfold zlen in *; lia).
    split; [by apply (write_inv r0 init s w segs env p fs2 n er)|].
    apply (write_sized r0 init _ s w segs env p fs2 n er); try done. by eapply write_fits.
Qed.

Lemma rf_step_ok r0 init B s w e s' os :
  rf_MaxBackups r0 <= 0 -> rf_MaxAge r0 <= 0 -> rf_ok r0 init B s w -> new_stamp e s -> short_write B e ->
  zlen init + zlen (str_concat w) + Z.of_nat B < 2 ^ 63 -> r_step e s = Some (s', os) -> rf_ok r0 init B s' (w ++ os).
Proof.
  intros Hb Ha Hok Hn Hsw Ht. destruct e as [env p|env|env|env k]; [by apply rf_write_ok|..];
    destruct Hok as (segs & Hi & Hz); simpl.
  - destruct (Reopen env (ry_r s) (ry_fs s)) as [[r' fs'] er] eqn:Er. intros [= <- <-]. rewrite app_nil_r. exists segs.
    split; [by eapply reopen_inv|by eapply reopen_sized].
  - unfold RotatingFile_Close. pose proof (closed_ino env (rf_f (ry_r s)) (ry_r s) (rf_size (ry_r s))) as Hcl.
    destruct (file_close env (rf_f (ry_r s))) as [f er]. intros [= <- <-]. rewrite app_nil_r. exists segs. split; [apply handle_inv; auto|].
    destruct Hz as [Z1 Z2 Z3]. split; [|done|done]. unfold is_open. simpl in *. by rewrite Hcl.
  - destruct (ry_jobs s !! k) as [j|] eqn:Ek; [|done]. destruct (job_step gz env j (ry_r s) (ry_fs s)) as [fs' o] eqn:Ej.
    intros [= <- <-]. rewrite app_nil_r. exists segs. split; [by eapply job_inv|].
    pose proof (job_active _ _ _ _ _ _ _ _ _ Hb Ha Hi ltac:(by eapply list_elem_of_lookup_2) Ej) as Hact.
    assert (Hb1 : rf_base (ry_r s) = rf_base r0) by (by rewrite (ri_cfg _ _ _ _ _ Hi)).
    destruct Hz as [Z1 Z2 Z3]. unfold active in *. split; unfold active; simpl; rewrite ?Hb1, ?Hact, <-?Hb1; done.
Qed.

(** What the start must be: a handle, if open, on the active file, and its size known. *)
Definition rf_start_ok (r0 : RotatingFile) (fs0 : FS) : Prop :=
  wf_fs fs0 /\ rf_MaxBackups r0 <= 0 /\ rf_MaxAge r0 <= 0 /\
  forall i, open_ino r0 = Some i -> fs_dir fs0 !! rf_base r0 = Some i /\ rf_size r0 = zlen (default "" (file_data fs0 (rf_base r0))).

Lemma rf_reach_ok r0 fs0 B s w :
  rf_start_ok r0 fs0 -> r_reach B (mkRSys r0 fs0 []) s w ->
  let init := default "" (file_data fs0 (rf_base r0)) in
  zlen init + zlen (str_concat w) + Z.of_nat B < 2 ^ 63 -> rf_ok r0 init B s w.
Proof.
  intros (Hw & Hb & Ha & Hh) Hr init Ht.
  induction Hr as [|s w e s' os Hr IH Hn Hsw Hst].
  - exists []. split; split; simpl; try done; [by destruct r0|by exists [[init]]; simpl; rewrite sapp_nil_r|constructor|constructor|by apply Hh| |unfold size_bound, active, init; simpl; lia].
    intros Ho. unfold is_open in Ho. destruct (open_ino r0) as [i|] eqn:E; [|done]. by destruct (Hh i eq_refl).
  - rewrite str_concat_app in Ht. unfold zlen in Ht at 2. rewrite slength_app in Ht.
    apply (rf_step_ok r0 init B s w e); try done; [apply IH|]; unfold zlen in *; lia.
Qed.

(** C12. The rotating file keeps every byte it reports as written: with the retention
    limits off and the clock never repeating a rotation's millisecond, after any sequence
    of writes, reopenings, closes and steps of the compression goroutines, with any
    failing system calls and short writes among them, the segments in the order they were
    rotated and the active file together hold exactly the initial content followed by the
    bytes Write reported, none of those writes split between two files; every segment is on disk, as it was or compressed; no file is
    larger than MaxSizeBytes, the longest single write or the initial content; and while
    the file is open its size field is its size. *)
Theorem rotating_file_keeps_bytes r0 fs0 B s w :
  rf_start_ok r0 fs0 -> r_reach B (mkRSys r0 fs0 []) s w ->
  let init := default "" (file_data fs0 (rf_base r0)) in
  zlen init + zlen (str_concat w) + Z.of_nat B < 2 ^ 63 ->
  exists segs, whole init w (segs.*2 ++ [active s]) /\
    Forall (stored (ry_fs s)) segs /\ NoDup segs.*1 /\
    Forall (fun nd => zlen nd.2 <= size_bound r0 init B) segs /\ zlen (active s) <= size_bound r0 init B /\
    (is_open (ry_r s) = true -> rf_size (ry_r s) = zlen (active s)).
Proof.
  intros Hs Hr init Ht. destruct (rf_reach_ok r0 fs0 B s w Hs Hr Ht) as (segs & [I1 I2 I3 I4 I5 I6 I7 I8 I9] & [Z1 Z2 Z3]). by exists segs.
Qed.
End System.

(** ** Retention *)
Section Retention.
Context {genv : GoEnv} `{SegSort}.

Lemma elem_of_segments env base fs x :
  x ∈ segments env base fs <->
  is_segment base (seg_name x) = true /\ os_info env (seg_name x) = false /\
  exists i n, fs_dir fs !! seg_name x = Some i /\ fs_ino fs !! i = Some n /\ seg_mod x = i_mod n.
Proof.
  unfold segments. rewrite list_elem_of_omap. split.
  - intros ([name i] & Hin & E). apply elem_of_map_to_list in Hin. destruct (is_segment base name) eqn:E1, (os_info env name) eqn:E2; try done.
    simpl in E. destruct (fs_ino fs !! i) as [n|] eqn:En; [|done]. simpl in E. injection E as <-. simpl. eauto 8.
  - destruct x as [name t]. simpl. intros (H1 & H2 & i & n & Hd & Hn & ->). exists (name, i). split; [by apply elem_of_map_to_list|].
    by rewrite H1, H2, Hn.
Qed.

Lemma segments_names_nodup env base fs : NoDup (seg_name <$> segments env base fs).
Proof.
  unfold segments. pose proof (NoDup_fst_map_to_list (fs_dir fs)) as Hn. revert Hn.
  induction (map_to_list (fs_dir fs)) as [|[name i] l IH]; simpl; [constructor|]. rewrite NoDup_cons. intros [Hnin Hn].
  destruct (_ && _); [|by apply IH]. destruct (fs_ino fs !! i) as [x|]; [|by apply IH]. simpl. constructor; [|by apply IH].
  intros (y & E & Hy)%list_elem_of_fmap. apply list_elem_of_omap in Hy as ([n' i'] & Hin & E').
  apply Hnin. apply list_elem_of_fmap. exists (n', i'). split; [|done]. simpl. destruct (_ && _); [|done].
  destruct (fs_ino fs !! i') as [z|]; [|done]. simpl in E'. injection E' as <-. done.
Qed.

(** What the loop removes: the segment at position [i], or older than the limit. *)
Definition too_old (env : OSEnv) (r : RotatingFile) (x : seg) : bool :=
  (0 <? rf_MaxAge r) && (rf_MaxAge r <? Sub (os_prune env) (mkTime (seg_mod x) Local)).
Definition doomed (env : OSEnv) (r : RotatingFile) (i : nat) (x : seg) : bool :=
  ((0 <? rf_MaxBackups r) && (rf_MaxBackups r <=? Z.of_nat i)) || too_old env r x.

Definition removed (env : OSEnv) (r : RotatingFile) (i : nat) (x : seg) : bool :=
  doomed env r i x && negb (os_removes env (seg_name x)).

Lemma prune_loop_spec env r L i fs m :
  NoDup (seg_name <$> L) ->
  fs_ino (prune_loop env r i L fs) = fs_ino fs /\
  fs_dir (prune_loop env r i L fs) !! m =
    match list_find (fun x => seg_name x = m) L with
    | Some (j, x) => if removed env r (i + j) x then None else fs_dir fs !! m
    | None => fs_dir fs !! m
    end.
Proof.
  revert i fs. induction L as [|x L IH]; intros i fs Hnd; [done|]. apply NoDup_cons in Hnd as [Hx Hnd].
  cbn [prune_loop]. fold (too_old env r x). fold (doomed env r i x). fold (removed env r i x).
  set (fs1 := if removed env r i x then fs_remove (seg_name x) fs else fs).
  destruct (IH (S i) fs1 Hnd) as [-> ->]. split; [unfold fs1; by destruct (removed env r i x)|].
  cbn [list_find]. destruct (decide (seg_name x = m)) as [<-|Hne].
  - assert (list_find (fun y => seg_name y = seg_name x) L = None) as ->.
    { apply list_find_None, Forall_forall. intros y Hy E. apply Hx. apply list_elem_of_fmap. by exists y. }
    rewrite Nat.add_0_r. unfold fs1. destruct (removed env r i x); [|done]. simpl. apply lookup_delete_eq.
  - assert (Hm : fs_dir fs1 !! m = fs_dir fs !! m) by (unfold fs1; destruct (removed env r i x); [simpl; by rewrite lookup_delete_ne|done]).
    rewrite Hm. destruct (list_find _ L) as [[j y]|]; simpl; [|done]. by rewrite Nat.add_succ_r.
Qed.

Section Pruned.
Context (env : OSEnv) (r : RotatingFile) (fs : FS) (Hrd : os_readdir env = false).
Let segs fs := segments env (rf_base r) fs.
Let L := sort_segs (segs fs).

Lemma sorted_names : NoDup (seg_name <$> L).
Proof using. unfold L. rewrite sort_perm. apply segments_names_nodup. Qed.

Lemma elem_of_sorted x : x ∈ L <-> x ∈ segs fs.
Proof using. unfold L. by rewrite sort_perm. Qed.

Lemma prune_ino : fs_ino (prune env r fs) = fs_ino fs.
Proof using Hrd. unfold prune. rewrite Hrd. by apply (prune_loop_spec env r _ 0 fs "" sorted_names). Qed.

(** A segment's name after pruning, and any other name. *)
Lemma prune_segment j x :
  L !! j = Some x -> fs_dir (prune env r fs) !! seg_name x = if removed env r j x then None else fs_dir fs !! seg_name x.
Proof using Hrd.
  intros Hj. unfold prune. rewrite Hrd. fold (segs fs) L. destruct (prune_loop_spec env r L 0 fs (seg_name x) sorted_names) as [_ ->].
  assert (list_find (fun y => seg_name y = seg_name x) L = Some (j, x)) as ->; [|done].
  apply list_find_Some. split_and!; [done|done|]. intros i y Hy Hi E.
  assert (i = j) as ->; [|lia]. eapply (NoDup_lookup (seg_name <$> L)); [apply sorted_names|by rewrite list_lookup_fmap, Hy|].
  rewrite list_lookup_fmap, Hj. simpl. congruence.
Qed.

Lemma prune_other m : is_segment (rf_base r) m = false -> fs_dir (prune env r fs) !! m = fs_dir fs !! m.
Proof using Hrd.
  intros Hm. unfold prune. rewrite Hrd. fold (segs fs) L. destruct (prune_loop_spec env r L 0 fs m sorted_names) as [_ ->].
  destruct (list_find _ L) as [[j x]|] eqn:Ef; [|done]. apply list_find_Some in Ef as (Hj & Hx & _).
  apply list_elem_of_lookup_2, elem_of_sorted, elem_of_segments in Hj as [? _]. congruence.
Qed.

Lemma kept_iff j x : L !! j = Some x -> x ∈ segs (prune env r fs) <-> removed env r j x = false.
Proof using Hrd.
  intros Hj. pose proof (list_elem_of_lookup_2 _ _ _ Hj) as Hx. apply elem_of_sorted, elem_of_segments in Hx as (H1 & H2 & i & n & Hd & Hn & Hm).
  unfold segs at 1. rewrite elem_of_segments, prune_ino, (prune_segment j x Hj). destruct (removed env r j x).
  - split; [|done]. by intros (_ & _ & i' & n' & ? & _).
  - split; [done|]. intros _. eauto 10.
Qed.

Lemma kept_before x : x ∈ segs (prune env r fs) -> x ∈ segs fs.
Proof using Hrd.
  intros Hx. unfold segs in Hx. apply elem_of_segments in Hx as (H1 & H2 & i & n & Hd & Hn & Hm). rewrite prune_ino in Hn.
  apply elem_of_segments. split_and!; [done|done|]. exists i, n. split_and!; [|done|done]. rewrite <-Hd.
  destruct (list_find (fun y => seg_name y = seg_name x) L) as [[j y]|] eqn:Ef.
  - apply list_find_Some in Ef as (Hj & Hy & _). pose proof (prune_segment j y Hj) as E. rewrite Hy in E. rewrite Hd in E |- *. by destruct (removed env r j y).
  - unfold prune. rewrite Hrd. fold (segs fs) L. destruct (prune_loop_spec env r L 0 fs (seg_name x) sorted_names) as [_ ->]. by rewrite Ef.
Qed.

(** Every segment sorted before position [j] is another one, at least as new. *)
Lemma rank_others j x :
  L !! j = Some x -> (j <= length (filter (fun y => y <> x /\ (seg_mod x <= seg_mod y)%Z) (segs fs)))%nat.
Proof using.
  intros Hj. assert (segs fs ≡ₚ L) as -> by (unfold L; by rewrite sort_perm).
  rewrite <-(take_drop j L), filter_app, length_app.
  rewrite (filter_length_all _ (take j L)).
  2: { apply Forall_forall. intros y (i & Hi)%list_elem_of_lookup. apply lookup_take_Some in Hi as [Hi Hij]. split.
    - intros ->. assert (i = j); [|lia]. eapply (NoDup_lookup L); [|done|done]. apply (NoDup_fmap_1 seg_name), sorted_names.
    - by apply (sort_newest (segs fs) i j y x). }
  apply lookup_lt_Some in Hj. rewrite length_take. lia.
Qed.
End Pruned.

(** C36. Retention keeps exactly the newest: when the directory cannot be read nothing is
    removed. Otherwise pruning touches no name but those of rotated segments and adds
    none; with the segments sorted newest first, a segment stays if and only if its
    removal failed, or it is not older than MaxAge and (when MaxBackups is positive)
    among the first MaxBackups. So a segment that goes is too old or has at least
    MaxBackups others as new as itself, and when the removals succeed at most MaxBackups
    stay. *)
Theorem prune_keeps_newest env r fs :
  let segs fs := segments env (rf_base r) fs in
  let fs' := prune env r fs in
  (os_readdir env = true -> fs' = fs) /\
  (os_readdir env = false ->
    (forall m, is_segment (rf_base r) m = false -> fs_dir fs' !! m = fs_dir fs !! m) /\
    (forall x, x ∈ segs fs' -> x ∈ segs fs) /\
    (forall j x, sort_segs (segs fs) !! j = Some x ->
       x ∈ segs fs' <-> os_removes env (seg_name x) = true \/
                        too_old env r x = false /\ (rf_MaxBackups r <= 0 \/ Z.of_nat j < rf_MaxBackups r)) /\
    (forall x, x ∈ segs fs -> x ∉ segs fs' -> too_old env r x = true \/
       0 < rf_MaxBackups r <= Z.of_nat (length (filter (fun y => y <> x /\ seg_mod x <= seg_mod y) (segs fs)))) /\
    ((forall n, os_removes env n = false) -> 0 < rf_MaxBackups r -> Z.of_nat (length (segs fs')) <= rf_MaxBackups r)).
Proof.
  intros segs fs'. split; [intros Hrd; unfold fs', prune; by rewrite Hrd|]. intros Hrd.
  assert (Hkept : forall j x, sort_segs (segs fs) !! j = Some x -> x ∈ segs fs' <-> os_removes env (seg_name x) = true \/
                        too_old env r x = false /\ (rf_MaxBackups r <= 0 \/ Z.of_nat j < rf_MaxBackups r)).
  { intros j x Hj. unfold segs, fs'. rewrite (kept_iff env r fs Hrd j x Hj). unfold removed, doomed.
    destruct (os_removes env (seg_name x)), (too_old env r x), (Z.ltb_spec 0 (rf_MaxBackups r)), (Z.leb_spec (rf_MaxBackups r) (Z.of_nat j)); simpl;
      (split; [intros Hx|intros [Hx|[Hx Hy]]]); try done; try lia; auto with lia. }
  split_and!; [by apply prune_other|by apply kept_before|done| |].
  - intros x Hx Hx'. apply (elem_of_sorted env r fs), list_elem_of_lookup in Hx as [j Hj].
    pose proof (rank_others env r fs j x Hj) as Hr. rewrite (Hkept j x Hj) in Hx'. fold (segs fs) in Hr.
    destruct (too_old env r x); [by left|right]. destruct (Z.le_gt_cases (rf_MaxBackups r) 0); [destruct Hx'; auto|].
    destruct (Z.lt_ge_cases (Z.of_nat j) (rf_MaxBackups r)); [destruct Hx'; auto|].
    split; [lia|]. apply Nat2Z.inj_le in Hr. etransitivity; [|exact Hr]. lia.
  - intros Hrm Hb. assert (segs fs' ⊆+ take (Z.to_nat (rf_MaxBackups r)) (sort_segs (segs fs))) as Hsub.
    { apply NoDup_submseteq; [apply (NoDup_fmap_1 seg_name), segments_names_nodup|]. intros x Hx.
      pose proof Hx as Hx0. apply (kept_before env r fs Hrd), (elem_of_sorted env r fs), list_elem_of_lookup in Hx0 as [j Hj].
      apply (Hkept j x Hj) in Hx. rewrite Hrm in Hx. destruct Hx as [Hx|[_ Hx]]; [done|].
      apply list_elem_of_lookup. exists j. rewrite lookup_take_lt; [done|lia]. }
    apply submseteq_length in Hsub. rewrite length_take in Hsub. lia.
Qed.
End Retention.

(** ** A rotation that fails *)
Section Wedge.
Context {genv : GoEnv} `{SegSort}.

Lemma write_closed env p r fs f :
  rf_f r = Some f -> fd_open f = false -> is_i64 (rf_size r) -> Write env p r fs = (r, fs, [], 0, Some ErrClosed).
Proof.
  intros Hf Ho Hs. assert (Er : set_file (Some f) (rf_size r) r = r) by (rewrite <-Hf; by destruct r).
  unfold Write. destruct (needs_rotation p r).
  - unfold rotateLocked, file_close. rewrite Hf, Ho. by rewrite Er.
  - unfold file_write. rewrite Hf, Ho. rewrite Z.add_0_r, i64_small by done. by rewrite Er.
Qed.

(** C37. One failed rename stops the log: when the rename of a rotation fails, the Write
    that needed it reports the error with nothing written, and from then on every Write
    fails the same way without touching a file, whatever the system would answer, until
    Reopen, which recovers. *)
Theorem rotation_failure_wedges env p r fs f e :
  needs_rotation p r = true -> rf_f r = Some f -> fd_open f = true -> is_i64 (rf_size r) ->
  os_close env = None -> os_rename env = Some e ->
  exists r', Write env p r fs = (r', fs, [], 0, Some e) /\
    (forall env' p', Write env' p' r' fs = (r', fs, [], 0, Some ErrClosed)) /\
    (forall env', os_mkdir env' = None -> os_openerr env' = None -> os_stat env' = None ->
       (Reopen env' r' fs).2 = None /\ is_open (Reopen env' r' fs).1.1 = true).
Proof.
  intros Hn Hf Ho Hs Hc Hr. exists (set_file (Some (mkFile (fd_ino f) false)) (rf_size r) r). split_and!.
  - unfold Write, rotateLocked, file_close. rewrite Hn, Hf, Ho, Hc, Hr. done.
  - intros env' p'. by apply (write_closed env' p' _ fs (mkFile (fd_ino f) false)).
  - intros env' H1 H2 H3. unfold Reopen, openExisting. simpl. rewrite H1, H2, H3. by destruct (fs_open _ _ fs).
Qed.
End Wedge.

(** ** A sort, and a run *)
Definition newer (a b : seg) : Prop := seg_mod b <= seg_mod a.
#[export] Instance newer_dec a b : Decision (newer a b).
Proof. unfold newer. apply _. Defined.
#[export] Instance newer_total : Total newer.
Proof. intros a b. unfold newer. lia. Qed.
#[export] Instance newer_trans : Transitive newer.
Proof. intros a b c. unfold newer. lia. Qed.

Lemma sorted_lookup (l : list seg) i j a b :
  StronglySorted newer l -> (i < j)%nat -> l !! i = Some a -> l !! j = Some b -> newer a b.
Proof.
  intros Hs. revert i j. induction Hs as [|x l Hs IH Hx]; intros [|i] [|j] Hlt Ha Hb; try done; try lia; simpl in *.
  - injection Ha as <-. rewrite Forall_forall in Hx. by apply Hx, (list_elem_of_lookup_2 _ j).
  - apply (IH i j); [lia|done|done].
Qed.

#[export] Instance merge_segs : SegSort.
Proof.
  refine {| sort_segs := merge_sort newer |}.
  - apply merge_sort_Permutation.
  - intros l i j a b. apply sorted_lookup. apply StronglySorted_merge_sort; apply _.
Defined.

Definition quiet_os (ns : Z) : OSEnv :=
  mkOS (mkTime ns UTC) (mkTime ns UTC) ns None None None None None None false (fun _ => false) (fun _ => false) None.
Definition demo_rf : RotatingFile := mkRF "app.log" 4 0 0 true (Some (mkFile 1 true)) 0.
Definition demo_fs : FS := mkFS {["app.log" := 1]} {[1 := mkInode "" 0]} 2.
(** Reversal stands for compression. *)
Definition demo_gz (s : string) : string := String.string_of_list_ascii (rev (String.list_ascii_of_string s)).
Definition short_os (ns : Z) : OSEnv :=
  mkOS (mkTime ns UTC) (mkTime ns UTC) ns None None None None None (Some (1%nat, "disk full")) false (fun _ => false) (fun _ => false) None.
Definition rf_events : list REvent :=
  [RWrite (quiet_os 0) "abc"; RWrite (quiet_os 1000000) "de"; RJob (quiet_os 2000000) 0; RWrite (short_os 3000000) "fg";
   RWrite (quiet_os 4000000) "hi"; RJob (quiet_os 5000000) 0; RReopen (quiet_os 6000000)].

(** Run a schedule, checking its side conditions. *)
Section Exec.
Context {genv : GoEnv} `{SegSort} (gz : string -> string) (B : nat).

Definition event_ok (e : REvent) (s : RSys) : bool :=
  match e with
  | RWrite env p =>
      (String.length p <=? B)%nat &&
      (negb (needs_rotation p (ry_r s)) ||
       bool_decide (fs_dir (ry_fs s) !! rotated_name env (ry_r s) = None /\ fs_dir (ry_fs s) !! gz_name (rotated_name env (ry_r s)) = None))
  | _ => true
  end.
Fixpoint r_exec (es : list REvent) (s : RSys) (w : list string) : option (RSys * list string) :=
  match es with
  | [] => Some (s, w)
  | e :: es' =>
      if event_ok e s then match r_step gz e s with Some (s', os) => r_exec es' s' (w ++ os) | None => None end else None
  end.

Lemma event_ok_sound e s : event_ok e s = true -> new_stamp e s /\ short_write B e.
Proof.
  destruct e as [env p| | |]; try done. simpl. intros Eok. split; [intros Hn; rewrite Hn in Eok|]; bool_to_prop; [|done].
  by apply bool_decide_eq_true in H1.
Qed.
Lemma r_exec_reach es s0 s w s' w' : r_reach gz B s0 s w -> r_exec es s w = Some (s', w') -> r_reach gz B s0 s' w'.
Proof.
  revert s w. induction es as [|e es IH]; intros s w Hr; simpl; [by intros [= <- <-]|].
  destruct (event_ok e s) eqn:Eok; [|done]. destruct (r_step gz e s) as [[s1 os]|] eqn:Est; [|done]. apply IH.
  destruct (event_ok_sound e s Eok). by eapply r_next.
Qed.
End Exec.

Definition rf_start : RSys := mkRSys demo_rf demo_fs [].
Definition rf_end : RSys * list string :=
  default (rf_start, []) (r_exec (genv:=demo_env) demo_gz 3 rf_events rf_start []).

Lemma demo_start_ok : rf_start_ok demo_rf demo_fs.
Proof.
  split_and!; [split; unfold demo_fs; simpl|by vm_compute|by vm_compute|intros i [= <-]; by vm_compute].
  - intros n i [<- <-]%lookup_singleton_Some. split; [|lia]. rewrite lookup_singleton_eq. by eexists.
  - intros n n' i [<- <-]%lookup_singleton_Some. by intros [<- _]%lookup_singleton_Some.
Qed.

(** The run rotates twice, one write is short, and one segment is compressed. *)
Lemma rotating_file_keeps_bytes_witness :
  rf_end.2 = ["abc"; "de"; "f"; "hi"] /\ active rf_end.1 = "hi" /\
  exists segs, whole (default "" (file_data demo_fs "app.log")) rf_end.2 (segs.*2 ++ [active rf_end.1]) /\
    Forall (stored demo_gz (ry_fs rf_end.1)) segs /\ NoDup segs.*1 /\
    Forall (fun nd => zlen nd.2 <= size_bound demo_rf "" 3) segs /\ zlen (active rf_end.1) <= size_bound demo_rf "" 3 /\
    (is_open (ry_r rf_end.1) = true -> rf_size (ry_r rf_end.1) = zlen (active rf_end.1)).
Proof.
  split_and!; [by vm_compute|by vm_compute|].
  apply (rotating_file_keeps_bytes (genv:=demo_env) demo_gz demo_rf demo_fs 3 rf_end.1 rf_end.2); [apply demo_start_ok| |by vm_compute].
  apply (r_exec_reach (genv:=demo_env) demo_gz 3 rf_events rf_start rf_start []); [constructor|by vm_compute].
Defined.

(** Three segments, room for two: the oldest goes. *)
Definition backlog_fs : FS :=
  mkFS {["app.log" := 1; "app.log.a" := 2; "app.log.b" := 3; "app.log.c" := 4; "other" := 5]}
    {[1 := mkInode "" 9; 2 := mkInode "a" 10; 3 := mkInode "b" 30; 4 := mkInode "c" 20; 5 := mkInode "" 0]} 6.
Definition keep_two : RotatingFile := mkRF "app.log" 4 2 0 false (Some (mkFile 1 true)) 0.

Lemma prune_keeps_newest_witness :
  let fs' := prune (quiet_os 100) keep_two backlog_fs in
  segments (quiet_os 100) "app.log" fs' ≡ₚ [mkSeg "app.log.b" 30; mkSeg "app.log.c" 20] /\
  Z.of_nat (length (segments (quiet_os 100) "app.log" fs')) <= 2.
Proof.
  split; [vm_compute; by repeat constructor|].
  destruct (prune_keeps_newest (quiet_os 100) keep_two backlog_fs) as [_ H]. destruct (H eq_refl) as (_ & _ & _ & _ & H').
  apply H'; [done|by vm_compute].
Defined.

Definition full_rf : RotatingFile := mkRF "app.log" 4 0 0 false (Some (mkFile 1 true)) 3.
Definition rename_fails : OSEnv :=
  mkOS (mkTime 0 UTC) (mkTime 0 UTC) 0 None None None None (Some "device busy") None false (fun _ => false) (fun _ => false) None.

Lemma rotation_failure_wedges_witness :
  exists r', Write (env0:=demo_env) rename_fails "xyz" full_rf demo_fs = (r', demo_fs, [], 0, Some "device busy") /\
    (forall env' p', Write (env0:=demo_env) env' p' r' demo_fs = (r', demo_fs, [], 0, Some ErrClosed)).
Proof.
  destruct (rotation_failure_wedges (genv:=demo_env) rename_fails "xyz" full_rf demo_fs (mkFile 1 true) "device busy") as (r' & H1 & H2 & _);
    [by vm_compute|done|done|by vm_compute|done|done|]. by exists r'.
Defined.

(** Two rotations in one millisecond share a name: the second rename replaces the first
    segment, and its bytes are in no file. *)
Definition same_ms : RSys :=
  let w := fun p s => default (s, []) (r_step (genv:=demo_env) demo_gz (RWrite (quiet_os 0) p) s) in
  (w "ghi" (w "def" (w "abc" (mkRSys (set_file (rf_f full_rf) 0 full_rf) demo_fs [])).1).1).1.
Example same_millisecond_overwrites :
  map_to_list (fs_dir (ry_fs same_ms)) ≡ₚ [("app.log", 3); ("app.log.19700101T000000.000", 2)] /\
  file_data (ry_fs same_ms) "app.log.19700101T000000.000" = Some "def" /\ file_data (ry_fs same_ms) "app.log" = Some "ghi".
Proof. split_and!; [vm_compute; by repeat constructor|by vm_compute|by vm_compute]. Qed.
