(* ===== verification/FileSink.v ===== *)
(** * The file sink (sink_file.go NewFileSink on sink.go WriterSink)

    A WriterSink over a rotating file.  Each call of the writer is given the operating
    system's answers; between the calls the compression goroutines run, and the file may
    be reopened or closed. *)
From S2P Require Import Prelude GoStd Level Field Record Buffer Encoder Sink RotatingFile.
Local Open Scope Z_scope.

(** [RotatingFile.Sync]; [fsync] is what the system answers. *)
Definition RotatingFile_Sync (fsync : option error) (r : RotatingFile) : option error :=
  match rf_f r with
  | None => Some ErrInvalid
  | Some f => if fd_open f then fsync else Some ErrClosed
  end.

Section FileSink.
Context {genv : GoEnv} `{SegSort} (gz : string -> string).

(** The rotating file as the writer a WriterSink looks for; [env] answers this call. *)
Definition rf_writer (env : OSEnv) (fsync : option error) : Writer RSys := {|
  w_write := fun p s => let '(r, fs, jobs, _, e) := Write env p (ry_r s) (ry_fs s) in (mkRSys r fs (ry_jobs s ++ jobs), e);
  w_sync := Some (fun s => (s, RotatingFile_Sync fsync (ry_r s)));
  w_close := Some (fun s => let '(r, e) := RotatingFile_Close env (ry_r s) in (mkRSys r (ry_fs s) (ry_jobs s), e))
|}.

Definition NewFileSink (rf : RSys) (enc : Encoder) (minLevel : Level) : WriterSink RSys := NewWriterSink rf enc minLevel.

Inductive FEvent :=
| FEmit (env : OSEnv) (r : LogRecord)
| FSync (env : OSEnv) (fsync : option error)
| FClose (env : OSEnv)
| FReopen (env : OSEnv)
| FJob (env : OSEnv) (k : nat).

(** A step of the sink and the records it was given, with what Emit returned. *)
Definition f_step (e : FEvent) (s : WriterSink RSys) (h : Heap) : option (WriterSink RSys * list (LogRecord * option error)) :=
  match e with
  | FEmit env r => let '(s, _, err) := WriterSink_Emit (H:=rf_writer env None) r s h in Some (s, [(r, err)])
  | FSync env fsync => Some ((WriterSink_Sync (H:=rf_writer env fsync) s).1, [])
  | FClose env => Some ((WriterSink_Close (H:=rf_writer env None) s).1, [])
  | FReopen env => (fun '(w, _) => (set_W w s, [])) <$> r_step gz (RReopen env) (ws_W s)
  | FJob env k => (fun '(w, _) => (set_W w s, [])) <$> r_step gz (RJob env k) (ws_W s)
  end.

(** The line of a record, and whether the sink writes it; the threshold is fixed. *)
Definition line (enc : Encoder) (r : LogRecord) : string := b_bytes (Encode enc (mkBuffer "") r).
Definition passes (min : Level) (x : LogRecord * option error) : Prop := min <= r_Level x.1.
#[export] Instance passes_dec min x : Decision (passes min x).
Proof. unfold passes. apply _. Defined.
(** What reached the file of an emitted record. *)
Definition reached (enc : Encoder) (x : LogRecord * option error) (out : string) : Prop :=
  match x.2 with None => out = line enc x.1 | Some _ => exists n, out = str_take n (line enc x.1) end.

(** The clock has moved on at each rotation, and no line is longer than [B]. *)
Definition f_side (B : nat) (e : FEvent) (s : WriterSink RSys) : Prop :=
  match e with
  | FEmit env r => new_stamp (RWrite env (line (ws_Enc s) r)) (ws_W s) /\ (String.length (line (ws_Enc s) r) <= B)%nat
  | _ => True
  end.

Inductive f_reach (B : nat) (h : Heap) (s0 : WriterSink RSys) : WriterSink RSys -> list (LogRecord * option error) -> Prop :=
| f_start : f_reach B h s0 s0 []
| f_next s log e s' os : f_reach B h s0 s log -> f_side B e s -> f_step e s h = Some (s', os) -> f_reach B h s0 s' (log ++ os).

Lemma write_reported env p r fs r' fs' jobs n e :
  Write env p r fs = (r', fs', jobs, n, e) -> e = None -> str_take (Z.to_nat n) p = p.
Proof.
  unfold Write. destruct (if needs_rotation p r then _ else _) as [[[r1 fs1] jobs1] [er|]]; [by intros [= <- <- <- <- <-]|].
  destruct (file_write env p (rf_f r1) fs1) as [[fs2 m] er] eqn:Ew. intros [= <- <- <- <- <-] ->.
  unfold file_write in Ew. destruct (rf_f r1) as [f|]; [|done]. destruct (fd_open f); [|done]. injection Ew as <- <- Ew.
  destruct (os_write env) as [[? ?]|]; [done|]. rewrite Nat2Z.id. by apply str_take_all.
Qed.

Lemma f_reach_system B h r0 fs0 enc min s log :
  f_reach B h (NewFileSink (mkRSys r0 fs0 []) enc min) s log ->
  ws_Enc s = enc /\ ws_MinLvl s = staticLevel min /\
  Forall (fun x => (String.length (line enc x.1) <= B)%nat) log /\
  exists ws, r_reach gz B (mkRSys r0 fs0 []) (ws_W s) ws /\ Forall2 (reached enc) (filter (passes min) log) ws.
Proof.
  induction 1 as [|s log e s' os Hr (He & Hm & Hb & ws & Hw & Hl) Hs Hst].
  { split_and!; [done|done|constructor|]. exists []. split; constructor. }
  destruct e as [env r|env fsync|env|env|env k]; simpl in Hst.
  - simpl in Hs. rewrite He in Hs. unfold WriterSink_Emit in Hst. rewrite Hm in Hst. simpl in Hst. rewrite filter_app.
    destruct (Z.ltb_spec (r_Level r) min) as [Hlt|Hge].
    + injection Hst as <- <-. split_and!; [done|done|by (done || (apply Forall_app; split; [done|apply Forall_singleton; apply Hs]))|]. exists ws. split; [done|].
      rewrite (filter_cons_False _ (r, None)) by (unfold passes; simpl; lia). by rewrite filter_nil, app_nil_r.
    + rewrite He in Hst. fold (line enc r) in Hst.
      destruct (Write env (line enc r) (ry_r (ws_W s)) (ry_fs (ws_W s))) as [[[[r1 fs1] jobs] n] er] eqn:Ew. injection Hst as <- <-.
      split_and!; [done|done|by (done || (apply Forall_app; split; [done|apply Forall_singleton; apply Hs]))|]. exists (ws ++ [str_take (Z.to_nat n) (line enc r)]). split.
      * eapply (r_next _ _ _ _ _ (RWrite env (line enc r))); [done|exact (proj1 Hs)|exact (proj2 Hs)|]. simpl. by rewrite Ew.
      * apply Forall2_app; [done|]. rewrite filter_cons_True by done. rewrite filter_nil. constructor; [|constructor].
        unfold reached. simpl. destruct er; [by eexists|]. by eapply write_reported.
  - injection Hst as <- <-. rewrite app_nil_r. split_and!; [done|done|by (done || (apply Forall_app; split; [done|apply Forall_singleton; apply Hs]))|]. exists ws. split; [exact Hw|exact Hl].
  - injection Hst as <- <-. rewrite app_nil_r. unfold WriterSink_Close. simpl.
    destruct (RotatingFile_Close env (ry_r (ws_W s))) as [r1 er] eqn:Ec. split_and!; [exact He|exact Hm|exact Hb|].
    exists ws. split; [|done]. rewrite <-(app_nil_r ws). eapply (r_next _ _ _ _ _ (RClose env)); [done|done|done|]. simpl. by rewrite Ec.
  - destruct (Reopen env (ry_r (ws_W s)) (ry_fs (ws_W s))) as [[r1 fs1] er] eqn:Ec. injection Hst as <- <-. rewrite app_nil_r. split_and!; [done|done|by (done || (apply Forall_app; split; [done|apply Forall_singleton; apply Hs]))|].
    exists ws. split; [|done]. rewrite <-(app_nil_r ws). eapply (r_next _ _ _ _ _ (RReopen env)); [done|done|done|]. simpl. by rewrite Ec.
  - destruct (ry_jobs (ws_W s) !! k) as [j|] eqn:Ej; [|done]. destruct (job_step gz env j _ _) as [fs1 o] eqn:Es. injection Hst as <- <-.
    rewrite app_nil_r. split_and!; [done|done|by (done || (apply Forall_app; split; [done|apply Forall_singleton; apply Hs]))|].
    exists ws. split; [|done]. rewrite <-(app_nil_r ws). eapply (r_next _ _ _ _ _ (RJob env k)); [done|done|done|]. simpl. by rewrite Ej, Es.
Qed.

Lemma reached_length enc B log ws :
  Forall (fun x => (String.length (line enc x.1) <= B)%nat) log -> Forall2 (reached enc) log ws ->
  zlen (str_concat ws) <= Z.of_nat (length log) * Z.of_nat B.
Proof.
  intros Hb Hf. revert Hb. induction Hf as [|x out log ws Hr _ IH]; [done|]. intros Hb. apply Forall_cons in Hb as [Hx Hb]. specialize (IH Hb).
  unfold zlen in *. cbn [str_concat length]. rewrite slength_app. assert ((String.length out <= B)%nat); [|lia].
  unfold reached in Hr. destruct x.2; [|by subst]. destruct Hr as [n ->]. rewrite str_take_length. lia.
Qed.

(** C13. A file sink never splits or reorders lines. Suppose retention is off (MaxBackups
    and MaxAge are not positive; the constructor's default keeps 7 backups and removes
    the older ones), and the clock has moved on at each rotation, so that the segment's
    name is not taken (two rotations in one millisecond would replace a segment). Then
    whatever fails, and however emissions, rotations, compressions, reopenings and closes
    interleave, the files in the order they were rotated hold, after the initial content,
    one piece for each record at or above the threshold, in the order they were emitted;
    the piece of a record for which Emit returned nil is its complete encoded line, all in
    one file, and that of a failed Emit is a prefix of it. *)
Theorem file_sink_whole_lines B h r0 fs0 enc min s log :
  rf_start_ok r0 fs0 -> f_reach B h (NewFileSink (mkRSys r0 fs0 []) enc min) s log ->
  let init := default "" (file_data fs0 (rf_base r0)) in
  zlen init + Z.of_nat (length log + 1) * Z.of_nat B < 2 ^ 63 ->
  exists segs pieces, whole init pieces (segs.*2 ++ [active (ws_W s)]) /\
    Forall (stored gz (ry_fs (ws_W s))) segs /\ Forall2 (reached enc) (filter (passes min) log) pieces.
Proof.
  intros Hs Hr init Ht. destruct (f_reach_system _ _ _ _ _ _ _ _ Hr) as (_ & _ & Hb & ws & Hw & Hl).
  assert (Hf : Forall (fun x => (String.length (line enc x.1) <= B)%nat) (filter (passes min) log)).
  { apply Forall_forall. intros x [_ Hx]%list_elem_of_filter. rewrite Forall_forall in Hb. auto. }
  pose proof (reached_length enc B _ ws Hf Hl) as Hlen.
  pose proof (length_filter (passes min) log).
  destruct (rf_reach_ok gz r0 fs0 B (ws_W s) ws Hs Hw) as (segs & Hi & _); [fold init; nia|].
  exists segs, ws. destruct Hi. done.
Qed.
End FileSink.

(** Two lines, a rotation between them, compression of the first, and a line below the threshold. *)
Definition fs_rec (lvl : Level) (msg : string) : LogRecord := mkRecord GoTime.zero_time lvl msg 0 "" [] (Some Background) false.
Definition fs_enc : Encoder := JSONEnc (env:=demo_env) NewJSONEncoder.
Definition fs_events : list FEvent :=
  [FEmit (quiet_os 0) (fs_rec LevelInfo "one"); FEmit (quiet_os 1000000) (fs_rec LevelDebug "two");
   FEmit (quiet_os 2000000) (fs_rec LevelInfo "three"); FJob (quiet_os 3000000) 0; FReopen (quiet_os 4000000)].

(** Run a schedule, checking its side conditions. *)
Section Run.
Context {genv : GoEnv} `{SegSort} (gz : string -> string).

Definition f_ok (B : nat) (e : FEvent) (s : WriterSink RSys) : bool :=
  match e with FEmit env r => event_ok B (RWrite env (line (ws_Enc s) r)) (ws_W s) | _ => true end.
Fixpoint f_exec (B : nat) (es : list FEvent) (s : WriterSink RSys) (log : list (LogRecord * option error)) :
    option (WriterSink RSys * list (LogRecord * option error)) :=
  match es with
  | [] => Some (s, log)
  | e :: es' => if f_ok B e s then match f_step gz e s empty_heap with Some (s', os) => f_exec B es' s' (log ++ os) | None => None end else None
  end.

Lemma f_exec_reach B es s0 s log s' log' :
  f_reach gz B empty_heap s0 s log -> f_exec B es s log = Some (s', log') -> f_reach gz B empty_heap s0 s' log'.
Proof.
  revert s log. induction es as [|e es IH]; intros s log Hr; simpl; [by intros [= <- <-]|].
  destruct (f_ok B e s) eqn:Eok; [|done]. destruct (f_step gz e s empty_heap) as [[s1 os]|] eqn:Est; [|done]. apply IH.
  eapply f_next; [done| |done]. destruct e as [env r| | | |]; try done. exact (event_ok_sound B (RWrite env (line (ws_Enc s) r)) (ws_W s) Eok).
Qed.
End Run.

Definition fs_end : WriterSink RSys * list (LogRecord * option error) :=
  let s := NewFileSink rf_start fs_enc LevelInfo in default (s, []) (f_exec (genv:=demo_env) demo_gz 200 fs_events s []).

Lemma file_sink_whole_lines_witness :
  active (ws_W fs_end.1) = line fs_enc (fs_rec LevelInfo "three") /\
  exists segs pieces, whole (default "" (file_data demo_fs (rf_base demo_rf))) pieces (segs.*2 ++ [active (ws_W fs_end.1)]) /\
    Forall (stored demo_gz (ry_fs (ws_W fs_end.1))) segs /\ Forall2 (reached fs_enc) (filter (passes LevelInfo) fs_end.2) pieces.
Proof.
  split; [by vm_compute|].
  apply (file_sink_whole_lines (genv:=demo_env) demo_gz 200 empty_heap demo_rf demo_fs fs_enc LevelInfo fs_end.1 fs_end.2);
    [apply demo_start_ok| |by vm_compute].
  apply (f_exec_reach (genv:=demo_env) demo_gz 200 fs_events _ (NewFileSink rf_start fs_enc LevelInfo) []); [constructor|].
  unfold fs_end. assert (Hx : bool_decide (is_Some (f_exec (genv:=demo_env) demo_gz 200 fs_events (NewFileSink rf_start fs_enc LevelInfo) [])) = true)
    by (vm_compute; reflexivity).
  apply bool_decide_eq_true in Hx as [[s' log'] Hx]. rewrite Hx. done.
Defined.
