(* ===== verification/NetSink.v ===== *)
(** * Network and syslog sinks (sink_net.go, sink_syslog_unix.go)

    A connection is the sequence of pieces written to it.  Each Emit is given what the
    network answers to the calls it may make: two dials, two writes and a close. *)
From S2P Require Import Prelude GoStd Level Field Record Buffer Encoder Sink.
Local Open Scope Z_scope.

(** A write that succeeds hands over all its bytes, one that fails some of them. *)
Record NetEnv := mkNet {
  nt_dial1 : option error; nt_write1 : option (nat * error); nt_close : option error;
  nt_dial2 : option error; nt_write2 : option (nat * error)
}.

(** What a peer has been sent: the bytes of one Write and whether it reported success. *)
Record Piece := mkPiece { pc_bytes : string; pc_ok : bool }.
Abbreviation Wire := (list (list Piece)).

Record NetSink := mkNetSink {
  ns_network : string;
  ns_addr : string;
  ns_enc : Encoder;
  ns_minLvl : Level;
  ns_tls : bool;                 (* tlsCfg is not nil *)
  ns_conn : option nat;          (* the connection of the wire in use *)
  ns_dropped : Z
}.

Definition NewTCPSink (addr : string) (enc : Encoder) (minLevel : Level) : NetSink := mkNetSink "tcp" addr enc minLevel false None 0.
Definition NewUDPSink (addr : string) (enc : Encoder) (minLevel : Level) : NetSink := mkNetSink "udp" addr enc minLevel false None 0.
(** [cfg] is nil or a configuration of crypto/tls; with nil the sink dials plain TCP. *)
Definition NewTLSSink {TLSConfig : Type} (addr : string) (cfg : option TLSConfig) (enc : Encoder) (minLevel : Level) : NetSink :=
  mkNetSink "tcp" addr enc minLevel (match cfg with Some _ => true | None => false end) None 0.

Definition set_conn (c : option nat) (s : NetSink) : NetSink :=
  mkNetSink (ns_network s) (ns_addr s) (ns_enc s) (ns_minLvl s) (ns_tls s) c (ns_dropped s).
Definition count_drop (s : NetSink) : NetSink :=
  mkNetSink (ns_network s) (ns_addr s) (ns_enc s) (ns_minLvl s) (ns_tls s) (ns_conn s) (u64 (ns_dropped s + 1)).

(** A dial that succeeds opens a connection, which is the sink's from then on. *)
Definition dialLocked (answer : option error) (s : NetSink) (w : Wire) : NetSink * Wire * (nat + error) :=
  match answer with
  | Some e => (s, w, inr e)
  | None => (set_conn (Some (length w)) s, w ++ [[]], inl (length w))
  end.

(** [conn.Write(buf.b)] on connection [c]. *)
Definition conn_write (answer : option (nat * error)) (p : string) (c : nat) (w : Wire) : Wire * option error :=
  let piece := match answer with Some (n, _) => mkPiece (str_take n p) false | None => mkPiece p true end in
  (alter (fun l => l ++ [piece]) c w, snd <$> answer).

(** The writes of [Emit], [c] being the sink's connection: the first, and when it fails
    one on a new connection. *)
Definition net_send (env : NetEnv) (p : string) (c : nat) (s : NetSink) (w : Wire) : NetSink * Wire * option error :=
  let '(w, err) := conn_write (nt_write1 env) p c w in
  match err with
  | None => (s, w, None)
  | Some _ =>
      let s := set_conn None s in
      match dialLocked (nt_dial2 env) s w with
      | (s, w, inr e) => (count_drop s, w, Some e)
      | (s, w, inl c) =>
          let '(w, err2) := conn_write (nt_write2 env) p c w in
          match err2 with Some e => (count_drop s, w, Some e) | None => (s, w, None) end
      end
  end.

Definition net_line (s : NetSink) (r : LogRecord) : string := b_bytes (Encode (ns_enc s) (mkBuffer "") r).

Definition NetSink_Emit (env : NetEnv) (r : LogRecord) (s : NetSink) (w : Wire) : NetSink * Wire * option error :=
  if r_Level r <? ns_minLvl s then (s, w, None)
  else
    let p := net_line s r in
    match ns_conn s with
    | Some c => net_send env p c s w
    | None =>
        match dialLocked (nt_dial1 env) s w with
        | (s, w, inr e) => (count_drop s, w, Some e)
        | (s, w, inl c) => net_send env p c s w
        end
    end.

Definition NetSink_Dropped (s : NetSink) : Z := ns_dropped s.
Definition NetSink_Sync : option error := None.
Definition NetSink_Close (env : NetEnv) (s : NetSink) : NetSink * option error :=
  match ns_conn s with Some _ => (set_conn None s, nt_close env) | None => (s, None) end.

(** ** Runs: any operations with any answers *)
Inductive NEvent := NEmit (env : NetEnv) (r : LogRecord) | NClose (env : NetEnv).

Fixpoint net_run (es : list NEvent) (s : NetSink) (w : Wire) : NetSink * Wire * list (LogRecord * option error) :=
  match es with
  | [] => (s, w, [])
  | NEmit env r :: es' =>
      let '(s, w, err) := NetSink_Emit env r s w in
      let '(s, w, log) := net_run es' s w in (s, w, (r, err) :: log)
  | NClose env :: es' => net_run es' (NetSink_Close env s).1 w
  end.

(** ** Syslog: the severity each record is written with *)
Inductive Severity := SevDebug | SevInfo | SevWarning | SevErr | SevCrit.
#[export] Instance Severity_eq_dec : EqDecision Severity.
Proof. solve_decision. Defined.

(** [W] is the syslog connection, [sys_write] its methods Debug, Info, Warning, Err, Crit. *)
Class SyslogWriter (W : Type) := {
  sys_write : Severity -> string -> W -> W * option error;
  sys_close : W -> W * option error
}.
Record SyslogSink (W : Type) := mkSyslogSink { sy_w : W; sy_enc : Encoder; sy_minLvl : Level }.
Arguments mkSyslogSink {W}.
Arguments sy_w {W}.
Arguments sy_enc {W}.
Arguments sy_minLvl {W}.

Section Syslog.
Context {W : Type} `{SyslogWriter W}.

Definition NewSyslogSink (dialed : W + error) (enc : Encoder) (minLevel : Level) : SyslogSink W + error :=
  match dialed with inl w => inl (mkSyslogSink w enc minLevel) | inr e => inr e end.

Definition syslog_severity (l : Level) : Severity :=
  if l <? LevelDebug then SevDebug
  else if l <? LevelInfo then SevDebug
  else if l <? LevelWarn then SevInfo
  else if l <? LevelError then SevWarning
  else if l <? LevelFatal then SevErr
  else SevCrit.

Definition SyslogSink_Emit (r : LogRecord) (s : SyslogSink W) (h : Heap) : SyslogSink W * Heap * option error :=
  if r_Level r <? sy_minLvl s then (s, h, None)
  else
    let msg := b_bytes (Encode (sy_enc s) (mkBuffer "") r) in
    let '(w, e) := sys_write (syslog_severity (r_Level r)) msg (sy_w s) in
    (mkSyslogSink w (sy_enc s) (sy_minLvl s), h, e).
Definition SyslogSink_Sync (s : SyslogSink W) : SyslogSink W * option error := (s, None).
Definition SyslogSink_Close (s : SyslogSink W) : SyslogSink W * option error :=
  let '(w, e) := sys_close (sy_w s) in (mkSyslogSink w (sy_enc s) (sy_minLvl s), e).

#[export] Instance SyslogSink_Sink : Sink (SyslogSink W) :=
  {| sink_emit := SyslogSink_Emit; sink_sync := SyslogSink_Sync; sink_close := SyslogSink_Close |}.
End Syslog.

(** ** The wire's invariant *)
(** On a connection in use a failed piece can only be the first; a connection that was
    given up may also end with one. *)
Definition in_use (l : list Piece) : Prop := Forall (fun p => pc_ok p = true) (tail l).
Definition given_up (l : list Piece) : Prop := exists l' x, l = l' ++ x /\ in_use l' /\ (length x <= 1)%nat.
Definition received (w : Wire) : list string := pc_bytes <$> filter (fun p => pc_ok p = true) (concat w).

Record net_inv (lines : list string) (conn : option nat) (w : Wire) (good : list string) : Prop := {
  ni_conn : match conn with
            | Some c => exists w' l, w = w' ++ [l] /\ c = length w' /\ Forall given_up w' /\ in_use l
            | None => Forall given_up w
            end;
  ni_good : received w = good;
  ni_bad : Forall (fun p => pc_ok p = false -> exists x n, x ∈ lines /\ pc_bytes p = str_take n x) (concat w)
}.

Lemma in_use_given_up l : in_use l -> given_up l.
Proof. intros Hl. exists l, []. rewrite app_nil_r. simpl. split_and!; [done|done|lia]. Qed.

Lemma dial_inv lines w good : net_inv lines None w good -> net_inv lines (Some (length w)) (w ++ [[]]) good.
Proof.
  intros [H1 H2 H3]. split.
  - exists w, []. split_and!; try done. constructor.
  - unfold received in *. by rewrite concat_app, app_nil_r.
  - by rewrite concat_app, app_nil_r.
Qed.
Lemma give_up_inv lines c w good : net_inv lines (Some c) w good -> net_inv lines None w good.
Proof.
  intros [(w' & l & -> & _ & Hw & Hl) H2 H3]. split; [|done|done]. apply Forall_app. split; [done|]. by apply Forall_singleton, in_use_given_up.
Qed.

Lemma alter_last {X} (f : X -> X) (w : list X) l : alter f (length w) (w ++ [l]) = w ++ [f l].
Proof. induction w as [|x w IH]; [done|]. cbn [app length alter list_alter]. by f_equal. Qed.
Lemma received_put w l x : received (w ++ [l ++ [x]]) = received (w ++ [l]) ++ (if pc_ok x then [pc_bytes x] else []).
Proof.
  unfold received. rewrite !concat_app. simpl. rewrite !app_nil_r, app_assoc, (filter_app _ (concat w ++ l)), fmap_app. f_equal.
  destruct (pc_ok x) eqn:E; [rewrite filter_cons_True by done|rewrite filter_cons_False by congruence]; by rewrite filter_nil.
Qed.

(** A write on the connection in use. *)
Lemma put_inv lines c w good p ans w' err :
  p ∈ lines -> net_inv lines (Some c) w good -> conn_write ans p c w = (w', err) ->
  match err with
  | None => net_inv lines (Some c) w' (good ++ [p])
  | Some _ => net_inv lines None w' good /\ (forall w0, w = w0 ++ [[]] -> net_inv lines (Some c) w' good)
  end.
Proof.
  intros Hp [(w1 & l & -> & -> & Hw & Hl) H2 H3]. unfold conn_write. rewrite alter_last. set (x := match ans with Some _ => _ | None => _ end).
  intros [= <- <-].
  assert (Hbad : Forall (fun p => pc_ok p = false -> exists x n, x ∈ lines /\ pc_bytes p = str_take n x) (concat (w1 ++ [l ++ [x]]))).
  { revert H3. rewrite !concat_app. simpl. rewrite !app_nil_r, app_assoc. intros H3. apply Forall_app. split; [done|]. apply Forall_singleton.
    unfold x. destruct ans as [[n ?]|]; [|done]. intros _. by exists p, n. }
  destruct ans as [[n e]|] eqn:Ea; simpl.
  - split; [|intros w0 E; apply app_inj_tail in E as [-> ->]]; split; try done.
    + apply Forall_app. split; [done|]. apply Forall_singleton. exists l, [x]. split_and!; [done|done|simpl; lia].
    + by rewrite received_put, app_nil_r.
    + by exists w0, [x]; split_and!.
    + by rewrite received_put, app_nil_r.
  - split; [|by rewrite received_put, H2|done]. exists w1, (l ++ [x]). split_and!; try done. unfold in_use in *.
    destruct l as [|y l]; [constructor|]. simpl. apply Forall_app. split; [done|]. by apply Forall_singleton.
Qed.

Lemma send_inv lines env p c s w good s' w' err :
  p ∈ lines -> ns_conn s = Some c -> net_inv lines (Some c) w good -> net_send env p c s w = (s', w', err) ->
  net_inv lines (ns_conn s') w' (match err with None => good ++ [p] | Some _ => good end).
Proof.
  intros Hp Hc Hi. unfold net_send. destruct (conn_write (nt_write1 env) p c w) as [w1 e1] eqn:E1.
  pose proof (put_inv _ _ _ _ _ _ _ _ Hp Hi E1) as H1. destruct e1 as [e1|]; [|intros [= <- <- <-]; by rewrite Hc].
  destruct H1 as [H1 _]. unfold dialLocked. destruct (nt_dial2 env) as [e2|]; [by intros [= <- <- <-]|].
  destruct (conn_write (nt_write2 env) p (length w1) (w1 ++ [[]])) as [w2 e2] eqn:E2.
  pose proof (put_inv _ _ _ _ _ _ _ _ Hp (dial_inv _ _ _ H1) E2) as H2. destruct e2; intros [= <- <- <-]; [|done]. by apply (proj2 H2 w1).
Qed.

Lemma send_same env p c s w s' w' err :
  net_send env p c s w = (s', w', err) ->
  ns_enc s' = ns_enc s /\ ns_minLvl s' = ns_minLvl s /\
  ns_dropped s' = match err with None => ns_dropped s | Some _ => u64 (ns_dropped s + 1) end.
Proof.
  unfold net_send. destruct (conn_write _ _ _ _) as [w1 [e1|]]; [|by intros [= <- <- <-]].
  unfold dialLocked. destruct (nt_dial2 env); [by intros [= <- <- <-]|]. destruct (conn_write _ _ _ _) as [w2 [e2|]]; by intros [= <- <- <-].
Qed.

Lemma emit_spec lines env r s w good s' w' err :
  net_line s r ∈ lines -> net_inv lines (ns_conn s) w good -> NetSink_Emit env r s w = (s', w', err) ->
  ns_enc s' = ns_enc s /\ ns_minLvl s' = ns_minLvl s /\
  ns_dropped s' = match err with None => ns_dropped s | Some _ => u64 (ns_dropped s + 1) end /\
  net_inv lines (ns_conn s') w' (good ++ if bool_decide (ns_minLvl s <= r_Level r /\ err = None) then [net_line s r] else []).
Proof.
  intros Hp Hi. unfold NetSink_Emit. destruct (Z.ltb_spec (r_Level r) (ns_minLvl s)) as [Hlt|Hge].
  { intros [= <- <- <-]. rewrite bool_decide_eq_false_2 by lia. by rewrite app_nil_r. }
  assert (Hsend : forall c s1 w1, ns_conn s1 = Some c -> net_inv lines (Some c) w1 good ->
    ns_enc s1 = ns_enc s -> ns_minLvl s1 = ns_minLvl s -> ns_dropped s1 = ns_dropped s ->
    net_send env (net_line s r) c s1 w1 = (s', w', err) ->
    ns_enc s' = ns_enc s /\ ns_minLvl s' = ns_minLvl s /\
    ns_dropped s' = match err with None => ns_dropped s | Some _ => u64 (ns_dropped s + 1) end /\
    net_inv lines (ns_conn s') w' (good ++ if bool_decide (ns_minLvl s <= r_Level r /\ err = None) then [net_line s r] else [])).
  { intros c s1 w1 Hc Hi1 He Hm Hd Hs. destruct (send_same _ _ _ _ _ _ _ _ Hs) as (E1 & E2 & E3). rewrite Hd in E3.
    split_and!; [congruence|congruence|done|]. pose proof (send_inv _ _ _ _ _ _ _ _ _ _ Hp Hc Hi1 Hs) as H1.
    destruct err; [rewrite bool_decide_eq_false_2 by (by intros [_ ?]); by rewrite app_nil_r|by rewrite bool_decide_eq_true_2]. }
  destruct (ns_conn s) as [c|] eqn:Ec; [by apply Hsend|].
  unfold dialLocked. destruct (nt_dial1 env) as [e|]; [|by apply Hsend; try done; apply dial_inv].
  intros [= <- <- <-]. rewrite bool_decide_eq_false_2 by (by intros [_ ?]). simpl. by rewrite Ec, app_nil_r.
Qed.

Lemma close_inv lines env s w good :
  net_inv lines (ns_conn s) w good -> net_inv lines (ns_conn (NetSink_Close env s).1) w good.
Proof. unfold NetSink_Close. destruct (ns_conn s) as [c|] eqn:E; simpl; [apply give_up_inv|by rewrite E]. Qed.

(** The records a run delivered: at or above the threshold, and Emit returned nil. *)
Definition delivered (min : Level) (x : LogRecord * option error) : Prop := min <= r_Level x.1 /\ x.2 = None.
#[export] Instance delivered_dec min x : Decision (delivered min x).
Proof. unfold delivered. apply _. Defined.
Definition errors (log : list (LogRecord * option error)) : list (LogRecord * option error) := filter (fun x => is_Some x.2) log.

Lemma u64_succ z n : u64 (u64 (z + 1) + n) = u64 (z + (1 + n)).
Proof. unfold u64. rewrite Zplus_mod_idemp_l. f_equal. lia. Qed.

Lemma net_run_spec lines es s w good s' w' log :
  net_inv lines (ns_conn s) w good -> 0 <= ns_dropped s < 2 ^ 64 ->
  (forall env r, NEmit env r ∈ es -> net_line s r ∈ lines) ->
  net_run es s w = (s', w', log) ->
  net_inv lines (ns_conn s') w' (good ++ (net_line s <$> (filter (delivered (ns_minLvl s)) log).*1)) /\
  ns_dropped s' = u64 (ns_dropped s + Z.of_nat (length (errors log))).
Proof.
  revert s w good log. induction es as [|[env r|env] es IH]; intros s w good log Hi Hd Hl; cbn [net_run].
  - intros [= <- <- <-]. cbn. rewrite app_nil_r, Z.add_0_r. split; [done|]. unfold u64. by rewrite Z.mod_small.
  - destruct (NetSink_Emit env r s w) as [[s1 w1] err] eqn:E1. destruct (net_run es s1 w1) as [[s2 w2] log'] eqn:E2. intros [= <- <- <-].
    destruct (emit_spec lines env r s w good s1 w1 err) as (He & Hm & Hdr & Hi1); [apply (Hl env); by left|done|done|].
    assert (Hline : forall x, net_line s1 x = net_line s x) by (intros x; unfold net_line; by rewrite He).
    destruct (IH s1 w1 _ log' Hi1) as [IH1 IH2]; [|intros env' r' Hin; rewrite Hline; apply (Hl env'); by right|done|].
    { rewrite Hdr. destruct err; [|done]. unfold u64. apply Z.mod_pos_bound. lia. }
    rewrite Hm in IH1. split.
    + revert IH1. rewrite <-app_assoc. replace (net_line s1 <$> _) with (net_line s <$> (filter (delivered (ns_minLvl s)) log').*1)
        by (apply list_fmap_ext; intros; by rewrite Hline).
      destruct (bool_decide_reflect (ns_minLvl s <= r_Level r /\ err = None)) as [Hy|Hn].
      * rewrite filter_cons_True by done. done.
      * rewrite filter_cons_False by done. done.
    + rewrite IH2, Hdr. unfold errors. destruct err as [e|].
      * rewrite filter_cons_True by (simpl; eauto). cbn [length]. rewrite u64_succ. f_equal. lia.
      * rewrite filter_cons_False by (simpl; by intros []). done.
  - intros E. destruct (IH (NetSink_Close env s).1 w good log) as [IH1 IH2];
      [by apply close_inv| | |done|]; unfold NetSink_Close in *; destruct (ns_conn s); try done;
      intros env' r' Hin; apply (Hl env'); by right.
Qed.

Definition fresh_sink (s : NetSink) : Prop := ns_conn s = None /\ ns_dropped s = 0.

(** C15. A network sink accounts for every record, whatever the network answers: for any
    sequence of emissions and closes on a new sink, the writes that succeeded carry, over
    the connections in the order they were opened, exactly the lines of the records at or
    above the threshold for which Emit returned nil (those below it are not sent and
    return nil), each once and in order; a write that failed sent a prefix of
    some record's line, and on its connection it is the last one, or the first one of a
    connection that was itself a re-dial; Dropped counts the Emits that returned an error. *)
Theorem net_sink_accounting es s0 s w log :
  fresh_sink s0 -> net_run es s0 [] = (s, w, log) ->
  received w = net_line s0 <$> (filter (delivered (ns_minLvl s0)) log).*1 /\
  Forall (fun p => pc_ok p = false -> exists env r n, NEmit env r ∈ es /\ pc_bytes p = str_take n (net_line s0 r)) (concat w) /\
  Forall given_up w /\
  NetSink_Dropped s = u64 (Z.of_nat (length (errors log))).
Proof.
  intros [Hc Hd] Hr. set (lines := omap (fun e => match e with NEmit _ r => Some (net_line s0 r) | NClose _ => None end) es).
  destruct (net_run_spec lines es s0 [] [] s w log) as [[H1 H2 H3] H4]; [by rewrite Hc; split|rewrite Hd; lia| |done|].
  { intros env r Hin. apply list_elem_of_omap. by exists (NEmit env r). }
  split_and!; [done| | |by unfold NetSink_Dropped; rewrite H4, Hd].
  - eapply Forall_impl; [exact H3|]. intros p Hp Hf. destruct (Hp Hf) as (x & n & Hx & ->). unfold lines in Hx.
    apply list_elem_of_omap in Hx as ([env r|env] & Hin & [= <-]). by exists env, r, n.
  - destruct (ns_conn s) as [c|]; [|done]. destruct H1 as (w' & l & -> & _ & Hw & Hl). apply Forall_app. split; [done|].
    by apply Forall_singleton, in_use_given_up.
Qed.

Definition up : NetEnv := mkNet None None None None None.
Definition blip : NetEnv := mkNet None (Some (3%nat, "broken pipe")) None None None.
Definition down : NetEnv := mkNet (Some "refused") (Some (0%nat, "broken pipe")) None (Some "refused") None.
Definition half : NetEnv := mkNet None (Some (0%nat, "broken pipe")) None None (Some (2%nat, "reset")).
Definition n_msg (m : string) : LogRecord := mkRecord GoTime.zero_time LevelInfo m 0 "" [] (Some Background) false.
Definition n_sink : NetSink := NewTCPSink "logs:514" (mkEncoder (fun b r => append_bytes b (r_Message r +:+ str1 LF)) "msg") LevelInfo.
Definition n_events : list NEvent :=
  [NEmit up (n_msg "one"); NEmit blip (n_msg "two"); NEmit down (n_msg "three"); NEmit up (n_msg "four"); NEmit half (n_msg "five");
   NEmit up (n_msg "six"); NClose up; NEmit up (n_msg "seven")].
Definition n_end := net_run n_events n_sink [].

(** A re-dial that saves its record, an outage that drops one, and a re-dial whose write
    fails: the connection stays in use, so the next line follows the partial one. *)
Lemma net_sink_accounting_witness :
  received n_end.1.2 = (fun m => m +:+ str1 LF) <$> ["one"; "two"; "four"; "six"; "seven"] /\
  n_end.1.2 !! 3%nat = Some [mkPiece "fi" false; mkPiece ("six" +:+ str1 LF) true] /\
  NetSink_Dropped n_end.1.1 = 2 /\ Forall given_up n_end.1.2.
Proof.
  destruct (net_sink_accounting n_events n_sink n_end.1.1 n_end.1.2 n_end.2) as (H1 & H2 & H3 & H4); [by split|by vm_compute|].
  split_and!; [rewrite H1; by vm_compute|by vm_compute|rewrite H4; by vm_compute|done].
Defined.

(** ** Severities *)
Definition sev_num (s : Severity) : Z :=
  match s with SevDebug => 7 | SevInfo => 6 | SevWarning => 4 | SevErr => 3 | SevCrit => 2 end.
(** The higher the level, the more urgent (the smaller) its syslog severity. *)
Lemma syslog_monotone l l' : l <= l' -> sev_num (syslog_severity l') <= sev_num (syslog_severity l).
Proof.
  intros Hl. unfold syslog_severity, LevelDebug, LevelInfo, LevelWarn, LevelError, LevelFatal.
  repeat case_match; bool_to_prop; simpl; lia.
Qed.
