(* ===== verification/SlogHandler.v ===== *)
(** * The slog bridge (handler.go)

    [slog] values as the handler sees them: the kinds it switches on, groups of
    attributes, and values to be resolved through [LogValuer]. *)
From S2P Require Import Prelude GoStd Level Field Record Pipeline Sink Transport Logger.
Import GoTime.
Local Open Scope Z_scope.

Inductive SVal :=
| SAny (v : GoVal)
| SString (s : string)
| SInt64 (n : Z)
| SUint64 (n : Z)
| SFloat64 (bits : Z)
| SBool (b : bool)
| SDuration (d : Z)
| STime (t : Time)
| SGroup (attrs : list (string * SVal))
| SLogValuer (v : SVal).                 (* LogValue() returns v *)
Abbreviation SAttr := (string * SVal)%type.

(** [slog.Level] constants. *)
Definition slog_LevelDebug : Z := -4.
Definition slog_LevelInfo : Z := 0.
Definition slog_LevelWarn : Z := 4.
Definition slog_LevelError : Z := 8.

Definition slogToLevel (sl : Z) : Level :=
  if sl <? slog_LevelDebug then LevelTrace
  else if sl <? slog_LevelInfo then LevelDebug
  else if sl <? slog_LevelWarn then LevelInfo
  else if sl <? slog_LevelError then LevelWarn
  else LevelError.

Record SlogRecord := mkSlog { sr_Time : Time; sr_Level : Z; sr_Message : string; sr_Attrs : list SAttr }.
Record slogHandler := mkHandler { h_l : Logger; h_groups : list string; h_prefix : string; h_preform : list Field }.

Definition Handler (l : Logger) : slogHandler := mkHandler l [] "" [].

(** [Value.Resolve] gives up after this many [LogValue] calls. *)
Definition maxLogValues : nat := 100.

Section Slog.
Context (resolve_err : GoVal).          (* the error value it then returns *)

(** [appendAttr]: the fields it appends for the attribute [key], [v]; [d] counts the
    [LogValue] calls left in the [Resolve] at hand. *)
Fixpoint flatten (d : nat) (prefix key : string) (v : SVal) : list Field :=
  match d with
  | O => [FAny (prefix +:+ key) resolve_err]
  | S d' =>
      let k := prefix +:+ key in
      match v with
      | SLogValuer v' => flatten d' prefix key v'
      | SAny VNil => if String.eqb key "" then [] else [FAny k VNil]
      | SAny x => [FAny k x]
      | SGroup gs =>
          let p := if String.eqb key "" then prefix else k +:+ "." in
          (fix go gs := match gs with [] => [] | (k', v') :: gs' => flatten maxLogValues p k' v' ++ go gs' end) gs
      | SString s => [FString k s]
      | SInt64 n => [FInt int64_ k n]
      | SUint64 n => [FInt uint64_ k n]
      | SFloat64 b => [FFloat F64 k b]
      | SBool b => [FBool k b]
      | SDuration t => [FDur k t]
      | STime t => [FTime k t]
      end
  end.
Definition appendAttr (dst : list Field) (prefix : string) (a : SAttr) : list Field :=
  dst ++ flatten maxLogValues prefix a.1 a.2.
Definition append_all (dst : list Field) (prefix : string) (attrs : list SAttr) : list Field :=
  fold_left (fun dst a => appendAttr dst prefix a) attrs dst.

(** The groups and fields are copied into fresh slices. *)
Definition clone (h : slogHandler) : slogHandler := mkHandler (h_l h) ([] ++ h_groups h) (h_prefix h) ([] ++ h_preform h).
Definition WithAttrs (attrs : list SAttr) (h : slogHandler) : slogHandler :=
  let nh := clone h in
  mkHandler (h_l nh) (h_groups nh) (h_prefix nh) (append_all (h_preform nh) (h_prefix nh) attrs).
Definition WithGroup (name : string) (h : slogHandler) : slogHandler :=
  if String.eqb name "" then h
  else
    let nh := clone h in
    mkHandler (h_l nh) (h_groups nh ++ [name]) (h_prefix h +:+ name +:+ ".") (h_preform nh).

Definition handle_fields (h : slogHandler) (r : SlogRecord) : list Field :=
  append_all (h_preform h) (h_prefix h) (sr_Attrs r).

Section Handle.
Context {env : GoEnv} {T : Type} `{Transport T}.

Definition slog_Enabled (h : slogHandler) (sl : Z) (w : World T) : bool := Enabled (h_l h) (slogToLevel sl) w.
Definition Handle (ce : CallEnv) (h : slogHandler) (ctx : option (list CtxVal)) (r : SlogRecord) (w : World T) : World T :=
  logAt ce (h_l h) ctx (sr_Time r) (slogToLevel (sr_Level r)) (sr_Message r) (handle_fields h r) w.

(** [NewSlog]: a slog logger over the handler; its methods ask [Enabled], stamp a record
    with the time and hand it to [Handle]. *)
Definition NewSlog (l : Logger) : slogHandler := Handler l.
Definition slog_log (ce : CallEnv) (h : slogHandler) (sl : Z) (msg : string) (attrs : list SAttr) (w : World T) : World T :=
  if slog_Enabled h sl w then Handle ce h (Some Background) (mkSlog (ce_now ce) sl msg attrs) w else w.

(** A call on the slog logger is one [logAt] call. *)
Lemma slog_log_call ce h sl msg attrs w :
  slog_log ce h sl msg attrs w =
  do_call ce (h_l h) (CallAt (Some Background) (ce_now ce) (slogToLevel sl) msg (handle_fields h (mkSlog (ce_now ce) sl msg attrs))) w.
Proof.
  unfold slog_log, slog_Enabled, Enabled, Handle. cbn [do_call]. unfold logAt. rewrite Z.leb_antisym. by destruct (_ <? _).
Qed.
End Handle.

(** ** What a derived handler means *)
Inductive HOp := OpAttrs (attrs : list SAttr) | OpGroup (name : string).
Definition derive (ops : list HOp) (h : slogHandler) : slogHandler :=
  fold_left (fun h o => match o with OpAttrs a => WithAttrs a h | OpGroup g => WithGroup g h end) ops h.

(** The record's attributes as slog documents them: everything after [WithGroup] is
    inside that group, an empty name opens none. *)
Fixpoint nest (ops : list HOp) (attrs : list SAttr) : list SAttr :=
  match ops with
  | [] => attrs
  | OpAttrs a :: ops' => a ++ nest ops' attrs
  | OpGroup g :: ops' => if String.eqb g "" then nest ops' attrs else [(g, SGroup (nest ops' attrs))]
  end.

Definition flatten_all (prefix : string) (attrs : list SAttr) : list Field :=
  flat_map (fun a => flatten maxLogValues prefix a.1 a.2) attrs.

Lemma append_all_flat dst prefix attrs : append_all dst prefix attrs = dst ++ flatten_all prefix attrs.
Proof.
  revert dst. induction attrs as [|a attrs IH]; intros dst; [by rewrite app_nil_r|]. unfold append_all in *. simpl.
  rewrite IH. unfold appendAttr. by rewrite <-app_assoc.
Qed.

Lemma flatten_group prefix g attrs :
  g <> "" -> flatten maxLogValues prefix g (SGroup attrs) = flatten_all (prefix +:+ g +:+ ".") attrs.
Proof.
  intros Hg. change maxLogValues with (S 99). cbn [flatten].
  destruct (String.eqb_spec g ""); [done|]. rewrite sapp_assoc.
  induction attrs as [|[k v] attrs IH]; [done|]. simpl. f_equal. exact IH.
Qed.

Lemma derive_fields ops attrs l gs prefix pre :
  append_all (h_preform (derive ops (mkHandler l gs prefix pre))) (h_prefix (derive ops (mkHandler l gs prefix pre))) attrs =
  pre ++ flatten_all prefix (nest ops attrs).
Proof.
  revert gs prefix pre. induction ops as [|[a|g] ops IH]; intros gs prefix pre; cbn [derive fold_left nest].
  - apply append_all_flat.
  - unfold WithAttrs. cbn [h_l h_groups h_prefix h_preform]. unfold derive in IH. rewrite IH, append_all_flat, <-app_assoc.
    unfold flatten_all. by rewrite flat_map_app.
  - unfold WithGroup. destruct (String.eqb_spec g ""); [apply IH|]. cbn [h_l h_groups h_prefix h_preform].
    unfold derive in IH. rewrite IH. unfold flatten_all at 2. cbn [flat_map fst snd]. by rewrite app_nil_r, flatten_group.
Qed.

Lemma derive_logger ops h : h_l (derive ops h) = h_l h.
Proof.
  revert h. induction ops as [|[a|g] ops IH]; intros h; [done| |]; cbn [derive fold_left]; unfold derive in IH; rewrite IH; [done|].
  unfold WithGroup. by destruct (String.eqb g "").
Qed.

(** C29. Groups and inherited attributes are right: handling a record through a handler
    derived by any sequence of WithAttrs and WithGroup has exactly the effect of
    handling, through the plain handler, the record whose attributes are nested the way
    slog documents it (attributes added after a group lie inside it, before the
    record's own, and an empty group name opens nothing). *)
Theorem slog_derived_handler {env : GoEnv} {T} `{Transport T} ce ops l ctx r (w : World T) :
  Handle ce (derive ops (Handler l)) ctx r w =
  Handle ce (Handler l) ctx (mkSlog (sr_Time r) (sr_Level r) (sr_Message r) (nest ops (sr_Attrs r))) w.
Proof.
  unfold Handle. rewrite derive_logger. unfold handle_fields. cbn [sr_Time sr_Level sr_Message sr_Attrs].
  unfold Handler. rewrite derive_fields. cbn [h_preform h_prefix]. by rewrite append_all_flat.
Qed.
End Slog.

Example slog_flattens :
  map Key (handle_fields VNil (derive VNil [OpGroup "http"; OpAttrs [("method", SString "GET")]; OpGroup ""] (Handler (mkLogger (staticLevel 1) [] false 0)))
    (mkSlog zero_time 0 "m" [("", SAny VNil); ("", SGroup [("inline", SInt64 1)]); ("req", SLogValuer (SGroup [("id", SString "x"); ("empty", SGroup [])]))])) =
  ["http.method"; "http.inline"; "http.req.id"]%string.
Proof. vm_compute. reflexivity. Qed.
