(* ===== verification/Signals.v ===== *)
(** * Signal handling (signal.go)

    The goroutine behind OnSIGHUP and CycleLevelOnSignal, with its one-place channel:
    the runtime delivers without blocking, so signals that come while one is waiting are
    merged.  What the goroutine does per signal is a function on a state. *)
From S2P Require Import Prelude GoStd Level Record Admin RotatingFile.
Local Open Scope Z_scope.

Section Loop.
Context {S : Type} (fn : S -> S).

Record SigLoop := mkSig {
  sg_state : S;
  sg_ch : bool;              (* a signal waits in the channel *)
  sg_notify : bool;          (* signal.Notify is in force *)
  sg_done : bool;            (* done is closed *)
  sg_exited : bool           (* the goroutine has returned *)
}.
Inductive SigEvent := SgDeliver | SgReceive | SgDone | SgStop.
Inductive SigObs := ODeliver | ORun.

(** [select] takes any ready case; [stop] called twice panics on the second close. *)
Definition sig_step (e : SigEvent) (s : SigLoop) : option (SigLoop * list SigObs) :=
  match e with
  | SgDeliver => if sg_notify s then Some (mkSig (sg_state s) true true (sg_done s) (sg_exited s), [ODeliver]) else None
  | SgReceive =>
      if sg_ch s && negb (sg_exited s)
      then Some (mkSig (fn (sg_state s)) false (sg_notify s) (sg_done s) (sg_exited s), [ORun]) else None
  | SgDone =>
      if sg_done s && negb (sg_exited s) then Some (mkSig (sg_state s) (sg_ch s) (sg_notify s) true true, []) else None
  | SgStop => if sg_done s then None else Some (mkSig (sg_state s) (sg_ch s) false true (sg_exited s), [])
  end.
Definition sig_start (st : S) : SigLoop := mkSig st false true false false.

Definition is_run (o : SigObs) : Prop := o = ORun.
#[local] Instance is_run_dec o : Decision (is_run o).
Proof. unfold is_run. destruct o; [by right|by left]. Defined.
Definition runs (tr : list SigObs) : nat := length (filter is_run tr).
Abbreviation sig_reaches := (reaches sig_step).

(** After the last delivery the function has run, or the signal waits. *)
Fixpoint unserved (tr : list SigObs) (waiting : bool) : bool :=
  match tr with [] => waiting | ODeliver :: tr' => unserved tr' true | ORun :: tr' => unserved tr' false end.
Lemma unserved_app tr tr' b : unserved (tr ++ tr') b = unserved tr' (unserved tr b).
Proof. revert b. induction tr as [|[] tr IH]; intros b; simpl; auto. Qed.
Lemma unserved_after tr : unserved tr true = false -> ORun ∈ tr.
Proof.
  induction tr as [|[] tr IH]; simpl; [done|right; auto|left].
Qed.
Lemma runs_app tr tr' : runs (tr ++ tr') = (runs tr + runs tr')%nat.
Proof. unfold runs. by rewrite filter_app, length_app. Qed.

Definition delivers (tr : list SigObs) : nat := (length tr - runs tr)%nat.

Lemma runs_le tr : (runs tr <= length tr)%nat.
Proof. apply length_filter. Qed.

Record sig_inv (st : S) (s : SigLoop) (tr : list SigObs) : Prop := {
  si_state : sg_state s = Nat.iter (runs tr) fn st;
  si_ch : sg_ch s = unserved tr false;
  si_count : (runs tr + (if sg_ch s then 1 else 0) <= delivers tr)%nat;
  si_done : sg_notify s = negb (sg_done s);
  si_exit : sg_exited s = true -> sg_done s = true
}.

Lemma sig_step_inv st s tr e s' os : sig_inv st s tr -> sig_step e s = Some (s', os) -> sig_inv st s' (tr ++ os).
Proof.
  intros [H1 H2 H3 H4 H5]. destruct e; simpl.
  - destruct (sg_notify s) eqn:En; [|done]. intros [= <- <-]. pose proof (runs_le tr).
    unfold delivers in *. split; simpl; unfold delivers; rewrite ?runs_app, ?unserved_app, ?length_app, ?Nat.add_0_r; try done.
    change (runs [ODeliver]) with 0%nat. simpl. revert H3. destruct (sg_ch s); lia.
  - destruct (sg_ch s && negb (sg_exited s)) eqn:E; [|done]. intros [= <- <-]. apply andb_true_iff in E as [E1 E2]. rewrite E1 in *.
    unfold delivers in *. split; simpl; unfold delivers; rewrite ?runs_app, ?unserved_app, ?length_app; try done.
    + change (runs [ORun]) with 1%nat. rewrite Nat.add_1_r. simpl. by rewrite H1.
    + change (runs [ORun]) with 1%nat. simpl. lia.
  - destruct (sg_done s && negb (sg_exited s)) eqn:E; [|done]. intros [= <- <-]. apply andb_true_iff in E as [E1 E2].
    rewrite app_nil_r. split; simpl; try done. by rewrite H4, E1.
  - destruct (sg_done s) eqn:E; [done|]. intros [= <- <-]. rewrite app_nil_r. split; simpl; try done.
Qed.

Lemma sig_reach_inv st s tr : sig_reaches (sig_start st) s tr -> sig_inv st s tr.
Proof.
  induction 1 as [|s tr e s' os _ IH Hst]; [split; done|]. by eapply sig_step_inv.
Qed.

(** No signal goes unanswered: at any point the function has run once for every run
    observed and never more often than signals came; until stop is called, after every
    delivered signal the function has started again or the signal waits in the channel
    with the goroutine ready to take it. *)
Theorem signals_served st s tr :
  sig_reaches (sig_start st) s tr ->
  sg_state s = Nat.iter (runs tr) fn st /\ (runs tr <= delivers tr)%nat /\
  forall tr1 tr2, tr = tr1 ++ ODeliver :: tr2 ->
    ORun ∈ tr2 \/ (sg_ch s = true /\ (sg_done s = false -> exists s', sig_step SgReceive s = Some (s', [ORun]) /\ sg_state s' = fn (sg_state s))).
Proof.
  intros Hr. destruct (sig_reach_inv _ _ _ Hr) as [H1 H2 H3 H4 H5]. split_and!; [done|lia|].
  intros tr1 tr2 ->. rewrite unserved_app in H2. simpl in H2. destruct (unserved tr2 true) eqn:Eu; [right|left; by apply unserved_after].
  split; [done|]. intros Hd. simpl. rewrite H2. destruct (sg_exited s); [by rewrite H5 in Hd|]. by eexists.
Qed.
End Loop.
Arguments SigLoop : clear implicits.

(** ** The two users *)
(** OnSIGHUP with [rf.Reopen]; [env] answers the reopening. *)
Definition OnSIGHUP {S : Type} (st : S) : SigLoop S := sig_start st.
Definition reopen_fn (env : OSEnv) (s : RotatingFile * FS) : RotatingFile * FS := (Reopen env s.1 s.2).1.

(** CycleLevelOnSignal: its goroutine's [on] and the level variables. *)
Definition cycle_fn (lv : Z) (normal verbose : Level) (s : bool * LevelStore) : bool * LevelStore := cycle_signal lv normal verbose s.1 s.2.
Definition CycleLevelOnSignal (st : LevelStore) : SigLoop (bool * LevelStore) := sig_start (false, st).

(** After an odd number of runs the level is the verbose one, after an even positive number the normal one. *)
Lemma cycle_parity lv normal verbose st n :
  (Nat.iter n (cycle_fn lv normal verbose) (false, st)).1 = Nat.odd n /\
  ((0 < n)%nat -> LevelVar_Level lv (Nat.iter n (cycle_fn lv normal verbose) (false, st)).2 = if Nat.odd n then verbose else normal).
Proof.
  induction n as [|n [IH _]]; [split; [done|lia]|]. rewrite Nat.odd_succ, <-Nat.negb_odd. simpl. rewrite IH.
  split; [done|]. intros _. unfold LevelVar_Level, LevelVar_Set. rewrite lookup_insert_eq. by destruct (Nat.odd n).
Qed.

(** Two signals merged into one run: the level is verbose, not back to normal. *)
Definition two_signals : list SigEvent := [SgDeliver; SgDeliver; SgReceive; SgStop; SgDone].
Lemma signals_served_witness :
  exists s, run_steps (sig_step (cycle_fn 1 LevelInfo LevelDebug)) two_signals (CycleLevelOnSignal ∅) = Some (s, [ODeliver; ODeliver; ORun]) /\
    sg_state s = Nat.iter 1 (cycle_fn 1 LevelInfo LevelDebug) (false, ∅) /\ LevelVar_Level 1 (sg_state s).2 = LevelDebug.
Proof.
  destruct (run_steps (sig_step (cycle_fn 1 LevelInfo LevelDebug)) two_signals (CycleLevelOnSignal ∅)) as [[s tr]|] eqn:E; [|by vm_compute in E].
  assert (Ht : tr = [ODeliver; ODeliver; ORun]) by (vm_compute in E; by injection E). subst tr. exists s. split; [done|].
  destruct (signals_served (cycle_fn 1 LevelInfo LevelDebug) (false, ∅) s [ODeliver; ODeliver; ORun]) as [H1 _]; [by apply (run_from_start _ _ _ _ E)|].
  split; [exact H1|]. rewrite H1. by vm_compute.
Defined.
