(* ===== verification/Frontends.v ===== *)
(** * Ways in and out of the logger (recover.go, shim_std.go, presets.go, tty.go)

    Panics as values that a deferred call receives; the standard library's log.Logger as
    its output, flags and prefix; the ready-made configurations. *)
From S2P Require Import Prelude GoStd Level Field Record Buffer Encoder Sampling Pipeline Sink Transport ChannelTransport Logger.
Import GoTime Strings.
Local Open Scope Z_scope.

(** ** recover.go *)
Section Recovery.
Context {env : GoEnv} {T : Type} `{Transport T}.
Implicit Types (w : World T) (ctx : option Context).

(** [stack]: at most 8 KiB of the trace the runtime prints. *)
Definition stack (trace : string) : string := str_take (Z.to_nat (Z.shiftl 8 10)) trace.
Definition ctxOr ctx : option Context := match ctx with None => Some Background | Some c => Some c end.

Definition panic_fields (r : GoVal) (trace : string) : list Field := [FAny "panic" r; FString "stack" (stack trace)].

Definition logPanic (ce : CallEnv) (l : Logger) ctx (r : GoVal) (trace : string) w : World T :=
  (Logger_Sync (log ce l (ctxOr ctx) LevelFatal "panic" (panic_fields r trace) w)).1.

(** Deferred calls: [p] is the value of the panic under way, if there is one, and the
    result says which panic goes on. *)
Definition Recover (ce : CallEnv) (l : Logger) ctx (trace : string) (p : option GoVal) w : World T * option GoVal :=
  match p with
  | Some r => (logPanic ce l ctx r trace w, Some r)
  | None => (w, None)
  end.
Definition RecoverAndContinue (ce : CallEnv) (l : Logger) ctx (trace : string) (p : option GoVal) w : World T * option GoVal :=
  match p with
  | Some r => (log ce l (ctxOr ctx) LevelError "recovered panic" (panic_fields r trace) w, None)
  | None => (w, None)
  end.

(** A function body returns or panics; [Go] runs it under RecoverAndContinue. *)
Definition Body := World T -> World T * option GoVal.
Definition Go (ce : CallEnv) (l : Logger) ctx (trace : string) (fn : Body) w : World T * option GoVal :=
  let '(w, p) := fn w in RecoverAndContinue ce l ctx trace p w.
End Recovery.

(** ** shim_std.go *)
Record stdWriter := mkStdWriter { sw_l : Logger; sw_level : Level }.
Definition StdLogWriter (level : Level) (l : Logger) : stdWriter := mkStdWriter l level.

(** Where a standard logger writes: through us, or to some other writer. *)
Inductive StdOut := ToLogger (w : stdWriter) | Elsewhere (id : Z).
Record StdLog := mkStdLog { sl_out : StdOut; sl_flags : Z; sl_prefix : string }.
Definition StdLogger (level : Level) (l : Logger) : StdLog := mkStdLog (ToLogger (StdLogWriter level l)) 0 "".

(** [RedirectStdLog]: the new state of the global logger, and the function that restores it. *)
Definition RedirectStdLog (l : Logger) (level : Level) (g : StdLog) : StdLog * (StdLog -> StdLog) :=
  let prev := sl_out g in
  let pf := sl_flags g in
  let pp := sl_prefix g in
  (mkStdLog (ToLogger (StdLogWriter level l)) 0 "", fun _ => mkStdLog prev pf pp).

(** The line the standard library's [Output] makes; [header] is its formatHeader for
    other flags than 0, with which it is the prefix. *)
Definition ends_lf (s : string) : bool := match Strings.LastIndexByte s LF with Some i => (S i =? String.length s)%nat | None => false end.
Definition std_line (header : Z -> string -> string) (g : StdLog) (s : string) : string :=
  (if sl_flags g =? 0 then sl_prefix g else header (sl_flags g) (sl_prefix g)) +:+ s +:+ (if ends_lf s then "" else str1 LF).

Section StdShim.
Context {env : GoEnv} {T : Type} `{Transport T}.

Definition stdWriter_Write (ce : CallEnv) (p : string) (sw : stdWriter) (w : World T) : World T * Z * option error :=
  let msg := TrimRight p LF in
  (log ce (sw_l sw) (Some Background) (sw_level sw) msg [] w, Z.of_nat (String.length p), None).

(** [log.Print]: what our logger's world becomes, and what is written elsewhere. *)
Definition std_print (ce : CallEnv) (header : Z -> string -> string) (g : StdLog) (s : string) (w : World T) : World T * list (Z * string) :=
  match sl_out g with
  | ToLogger sw => ((stdWriter_Write ce (std_line header g s) sw w).1.1, [])
  | Elsewhere id => (w, [(id, std_line header g s)])
  end.
Fixpoint std_prints (ces : list (CallEnv * string)) (header : Z -> string -> string) (g : StdLog) (w : World T) : World T * list (Z * string) :=
  match ces with
  | [] => (w, [])
  | (ce, s) :: ces' =>
      let '(w, out) := std_print ce header g s w in
      let '(w, outs) := std_prints ces' header g w in (w, out ++ outs)
  end.
End StdShim.

(** ** tty.go *)
(** What the writer is: some other type, or a file with its mode (None when Stat fails). *)
Inductive WriterKind := NotFile | IsFile (mode : option Z).
Definition ModeCharDevice : Z := Z.shiftl 1 21.
Definition isTTY (noColor : bool) (k : WriterKind) : bool :=
  if noColor then false
  else match k with
       | NotFile => false
       | IsFile None => false
       | IsFile (Some mode) => negb (Z.land mode ModeCharDevice =? 0)
       end.

Section Presets.
Context {env : GoEnv} {W : Type} `{Writer W}.

Definition NewConsoleSink (noColor : bool) (k : WriterKind) (w : W) (minLevel : Level) : WriterSink W :=
  let enc := NewConsoleEncoder in
  let enc := mkConsole (isTTY noColor k) (TimeFormat enc) in
  NewWriterSink w (ConsoleEnc enc) minLevel.

(** ** presets.go; [stderr] is standard error *)
Definition AnyTransport : Type := SyncTransport (WriterSink W) + ChannelTransport (WriterSink W).
Definition New_ (stderr : W) : Heap -> list (config (WriterSink W) AnyTransport -> config (WriterSink W) AnyTransport) -> Logger * World AnyTransport :=
  New (fun s => inl (NewSyncTransport s)) (NewWriterSink stderr (JSONEnc NewJSONEncoder) LevelTrace).

Definition Development (noColor : bool) (k : WriterKind) (stderr : W) (h : Heap) : Logger * World AnyTransport :=
  New_ stderr h [WithLevel LevelDebug; WithSink (NewConsoleSink noColor k stderr LevelDebug); WithCaller 0].
Definition Production (stderr : W) (h : Heap) : Logger * World AnyTransport :=
  let sink := NewWriterSink stderr (JSONEnc NewJSONEncoder) LevelInfo in
  New_ stderr h [WithLevel LevelInfo; WithProcessors [PSample (NewSampleProcessor 100 100)];
    WithTransport (inr (NewChannelTransport sink 4096 DropNewest))].
Definition Test (stderr : W) (w : W) (h : Heap) : Logger * World AnyTransport :=
  New_ stderr h [WithLevel LevelTrace; WithSink (NewWriterSink w (ConsoleEnc NewConsoleEncoder) LevelTrace)].
End Presets.

(** ** What a deferred call leaves behind *)
Section RecoveryFacts.
Context {env : GoEnv}.
Implicit Types (w : World (SyncTransport Capture)).

Definition captured w : list Entry := entries (st_sink (w_transport w)).
(** No processors, a clean pool, and a threshold that lets [lvl] through. *)
Definition plain_world (l : Logger) (lvl : Level) w : Prop :=
  pool_clean (w_pool w) /\ w_processors w = [] /\ Enabled l lvl w = true.

Definition panic_entry (l : Logger) (lvl : Level) (msg : string) (v : GoVal) (trace : string) : Entry :=
  mkEntry lvl msg (<["stack" := VString (stack trace)]> (<["panic" := v]> (fold_left (fun m f => <[Key f := Value f]> m) (l_with l) ∅))).

Lemma log_captured ce l ctx lvl msg v trace w :
  plain_world l lvl w ->
  captured (log ce l ctx lvl msg (panic_fields v trace) w) = captured w ++ [panic_entry l lvl msg v trace].
Proof.
  intros (Hp & Hps & He). destruct (do_call_spec ce l (CallLog ctx lvl msg (panic_fields v trace)) w Hp) as [Ho _]. cbn [do_call] in Ho.
  unfold captured. assert (w_transport (log ce l ctx lvl msg (panic_fields v trace) w) =
    (call_spec ce l (CallLog ctx lvl msg (panic_fields v trace)) (obs w)).1.2) as -> by (by rewrite <-Ho).
  unfold call_spec, obs, Enabled in *. cbn [call_level]. rewrite Z.leb_antisym in He. apply negb_true_iff in He. rewrite He, Hps. cbn.
  unfold capture_entry, panic_entry. simpl. by rewrite fold_left_app.
Qed.

(** A panic is never invisible: whatever function runs under Go, its panic is
    swallowed and leaves exactly one ERROR record with the panic's value and at most
    8 KiB of stack after whatever the function itself logged; under Recover it leaves
    one FATAL record, and the same panic goes on; a function that returns leaves
    nothing. *)
Theorem panics_are_logged ce l ctx trace fn w w1 p :
  fn w = (w1, p) -> plain_world l LevelError w1 -> plain_world l LevelFatal w1 ->
  let '(w2, p2) := Go ce l ctx trace fn w in
  let '(w3, p3) := Recover ce l ctx trace p w1 in
  p2 = None /\ captured w2 = captured w1 ++ match p with Some v => [panic_entry l LevelError "recovered panic" v trace] | None => [] end /\
  p3 = p /\ captured w3 = captured w1 ++ match p with Some v => [panic_entry l LevelFatal "panic" v trace] | None => [] end /\
  Z.of_nat (String.length (stack trace)) <= 8192.
Proof.
  intros Hfn H1 H2. unfold Go. rewrite Hfn. unfold RecoverAndContinue, Recover.
  assert (Hs : Z.of_nat (String.length (stack trace)) <= 8192) by (unfold stack; change (Z.shiftl 8 10) with 8192; rewrite str_take_length; lia).
  destruct p as [v|]; [|by rewrite app_nil_r].
  split_and!; try done; [by apply log_captured|]. unfold logPanic. rewrite <-(log_captured ce l (ctxOr ctx)) by done.
  unfold Logger_Sync. by destruct (tr_sync _) as [t e] eqn:E; cbn in *; injection E as <- <-.
Qed.
End RecoveryFacts.

(** ** The redirected standard logger *)
Section StdFacts.
Context {env : GoEnv} {T : Type} `{Transport T}.

Lemma TrimRight_line s : TrimRight (s +:+ (if ends_lf s then "" else str1 LF)) LF = TrimRight s LF.
Proof. destruct (ends_lf s); [by rewrite sapp_nil_r|]. by apply trim_right_snoc. Qed.

Definition std_call (l : Logger) (level : Level) (x : CallEnv * string) : CallEnv * Logger * Call :=
  (x.1, l, CallLog (Some Background) level (TrimRight x.2 LF) []).

(** Redirecting the standard logger loses and adds nothing: whatever its previous
    output, flags and prefix, everything printed until the restore becomes one log call
    each, at the given level, with the printed text less its trailing newlines as the
    message; nothing reaches the previous output; and the restore gives back exactly the
    previous state, whatever was done to the global logger meanwhile. *)
Theorem std_redirect_exact l level g header ces (w : World T) g' :
  let '(g1, restore) := RedirectStdLog l level g in
  std_prints ces header g1 w = (do_calls (std_call l level <$> ces) w, []) /\ restore g' = g.
Proof.
  unfold RedirectStdLog. split; [|by destruct g]. revert w. induction ces as [|[ce s] ces IH]; intros w; [done|].
  cbn [std_prints fmap list_fmap do_calls std_call fst snd]. unfold std_print. cbn [sl_out]. rewrite IH.
  unfold stdWriter_Write, std_line. cbn [sl_flags sl_prefix fst Z.eqb]. by rewrite sapp_nil_l, TrimRight_line.
Qed.
End StdFacts.

(** ** What Production keeps *)
Section ProductionFacts.
Context {env : GoEnv} {T : Type} `{Transport T}.

Definition is_sampled (x : CallEnv * Call) : Prop := LevelInfo <= call_level x.2 < LevelError.
Definition is_error (x : CallEnv * Call) : Prop := LevelError <= call_level x.2.
#[export] Instance is_sampled_dec x : Decision (is_sampled x).
Proof. unfold is_sampled. apply _. Defined.
#[export] Instance is_error_dec x : Decision (is_error x).
Proof. unfold is_error. apply _. Defined.
Definition count (P : CallEnv * Call -> Prop) `{forall x, Decision (P x)} (cs : list (CallEnv * Call)) : Z := Z.of_nat (length (filter P cs)).
Definition production_sampler (n d : Z) : Processor := PSample (mkSample 100 100 LevelError n d).
Definition through (l : Logger) (x : CallEnv * Call) : CallEnv * Logger * Call := (x.1, l, x.2).

Lemma production_step l ce c (w : World T) n d :
  l_leveler l = staticLevel LevelInfo -> w_processors w = [production_sampler n d] -> pool_clean (w_pool w) ->
  0 <= d <= n -> n + 1 < 2 ^ 64 ->
  let w' := do_call ce l c w in
  pool_clean (w_pool w') /\
  if decide (is_error (ce, c)) then w_processors w' = [production_sampler n d] /\ w_metrics w' = incEmitted (call_level c) (w_metrics w)
  else if decide (is_sampled (ce, c)) then
    if keep_nth 100 100 (n + 1) then w_processors w' = [production_sampler (n + 1) d] /\ w_metrics w' = incEmitted (call_level c) (w_metrics w)
    else w_processors w' = [production_sampler (n + 1) (d + 1)] /\ w_metrics w' = incDropped (w_metrics w)
  else w_processors w' = w_processors w /\ w_metrics w' = w_metrics w.
Proof.
  intros Hl Hps Hp Hd Hn w'. destruct (do_call_spec ce l c w Hp) as [Ho Hp']. fold w' in Ho, Hp'. split; [done|].
  assert (w_processors w' = (call_spec ce l c (obs w)).1.1.2 /\ w_metrics w' = (call_spec ce l c (obs w)).2) as [-> ->] by (by rewrite <-Ho).
  unfold call_spec, obs. rewrite Hl, Hps. cbn [Leveler_Level]. cbn [runPipeline Process production_sampler].
  rewrite sample_step by (simpl; lia). cbn [NeverBelow First Thereafter sp_n sp_dropped].
  assert (Hlv : r_Level (call_record ce l c) = call_level c) by (by destruct c). rewrite Hlv.
  unfold is_error, is_sampled. cbn [snd].
  destruct (Z.ltb_spec (call_level c) LevelInfo) as [H1|H1]; destruct (Z.leb_spec LevelError (call_level c)) as [H2|H2];
    repeat destruct (decide _); unfold LevelInfo, LevelError in *; try lia; try done.
  - destruct (tr_dispatch _ _ _) as [t h]. done.
  - destruct (keep_nth 100 100 (n + 1)); cbn; [|done]. destruct (tr_dispatch _ _ _) as [t h]. done.
Qed.

Lemma count_cons P `{forall x, Decision (P x)} x cs : count P (x :: cs) = (if decide (P x) then 1 else 0) + count P cs.
Proof. unfold count. rewrite filter_cons. destruct (decide (P x)); simpl; lia. Qed.

Lemma production_run l cs : forall (w : World T) n d,
  l_leveler l = staticLevel LevelInfo -> w_processors w = [production_sampler n d] -> pool_clean (w_pool w) ->
  0 <= d <= n -> n + Z.of_nat (length cs) < 2 ^ 64 ->
  0 <= emittedCount (w_metrics w) -> emittedCount (w_metrics w) + Z.of_nat (length cs) < 2 ^ 64 ->
  0 <= droppedCount (w_metrics w) -> droppedCount (w_metrics w) + Z.of_nat (length cs) < 2 ^ 64 ->
  let m := w_metrics (do_calls (through l <$> cs) w) in
  let kept := kept_count 100 100 (n + count is_sampled cs) - kept_count 100 100 n in
  emittedCount m = emittedCount (w_metrics w) + count is_error cs + kept /\
  droppedCount m = droppedCount (w_metrics w) + count is_sampled cs - kept.
Proof.
  induction cs as [|[ce c] cs IH]; intros w n d Hl Hps Hp Hd Hn He He' Hdr Hdr'.
  { cbn [fmap list_fmap do_calls]. cbv zeta. change (count is_sampled []) with 0. change (count is_error []) with 0. rewrite !Z.add_0_r. lia. }
  cbn [length] in *. cbn [fmap list_fmap do_calls through fst snd]. rewrite !count_cons.
  destruct (production_step l ce c w n d Hl Hps Hp Hd ltac:(lia)) as [Hp' Hst].
  assert (Hex : is_error (ce, c) -> ~ is_sampled (ce, c)) by (unfold is_error, is_sampled; lia).
  destruct (decide (is_error (ce, c))) as [Hy|Hn1]; [|destruct (decide (is_sampled (ce, c))) as [Hy|Hn2]].
  - destruct (decide (is_sampled (ce, c))); [by destruct Hex|]. destruct Hst as [Hps' Hm].
    specialize (IH (do_call ce l c w) n d Hl Hps' Hp' Hd ltac:(lia)). rewrite Hm in IH. cbn [emittedCount droppedCount incEmitted] in IH.
    rewrite !u64_small in IH by (unfold is_u64; lia). specialize (IH ltac:(lia) ltac:(lia) ltac:(lia) ltac:(lia)). cbv zeta in *.
    rewrite (Z.add_0_l (count is_sampled cs)). lia.
  - pose proof (kept_count_succ 100 100 n ltac:(lia) ltac:(lia) ltac:(lia)) as Hk.
    destruct (keep_nth 100 100 (n + 1)); destruct Hst as [Hps' Hm];
      [specialize (IH (do_call ce l c w) (n + 1) d Hl Hps' Hp' ltac:(lia) ltac:(lia))
      |specialize (IH (do_call ce l c w) (n + 1) (d + 1) Hl Hps' Hp' ltac:(lia) ltac:(lia))];
      rewrite Hm in IH; cbn [emittedCount droppedCount incEmitted incDropped] in IH;
      rewrite !u64_small in IH by (unfold is_u64; lia); specialize (IH ltac:(lia) ltac:(lia) ltac:(lia) ltac:(lia)); cbv zeta in *;
      replace (n + (1 + count is_sampled cs)) with (n + 1 + count is_sampled cs) by lia; lia.
  - destruct Hst as [Hps' Hm]. rewrite Hps in Hps'. specialize (IH (do_call ce l c w) n d Hl Hps' Hp' Hd ltac:(lia)). rewrite Hm in IH.
    specialize (IH ltac:(lia) ltac:(lia) ltac:(lia) ltac:(lia)). cbv zeta in *.
    rewrite (Z.add_0_l (count is_sampled cs)). lia.
Qed.
End ProductionFacts.

(** What Production keeps: for any transport and any sequence of fewer than 2^64
    calls with the level and processors of Production, every call at or above ERROR goes
    on; of the n calls from INFO below ERROR exactly min(n, 100) + max(0, n - 100)/100
    do, the rest are counted as dropped; calls below INFO count nowhere. *)
Theorem production_counts {env : GoEnv} {T W : Type} `{Transport T} `{Writer W} (stderr : W) h l (w : World T) cs :
  let '(lp, wp) := Production stderr h in
  l_leveler l = l_leveler lp -> w_processors w = w_processors wp -> w_pool w = [] -> w_metrics w = zero_metrics ->
  Z.of_nat (length cs) < 2 ^ 64 ->
  let m := w_metrics (do_calls (through l <$> cs) w) in
  let n := count is_sampled cs in
  emittedCount m = count is_error cs + kept_count 100 100 n /\ droppedCount m = n - kept_count 100 100 n.
Proof.
  destruct (Production stderr h) as [lp wp] eqn:E. intros Hl Hps Hp Hm Hn. injection E as <- <-. cbn in Hl, Hps.
  destruct (production_run l cs w 0 0) as [E1 E2]; rewrite ?Hm in *; try done; try (simpl; lia); [rewrite Hp; constructor|].
  cbv zeta in *. change (kept_count 100 100 0) with 0 in *. change (emittedCount zero_metrics) with 0 in *. change (droppedCount zero_metrics) with 0 in *.
  rewrite (Z.add_0_l (count is_sampled cs)) in E1, E2. lia.
Qed.

(** ** Witnesses *)
Definition crash : Body (T:=SyncTransport Capture) := fun w =>
  (log (env:=demo_env) demo_ce demo_logger.1 None LevelInfo "working" [] w, Some (VString "boom")).
Definition plain_logger : Logger * World (SyncTransport Capture) := New NewSyncTransport (mkCapture []) empty_heap [].

Lemma panics_are_logged_witness :
  let '(w2, p2) := Go (env:=demo_env) demo_ce plain_logger.1 None "trace" crash plain_logger.2 in
  p2 = None /\ length (captured w2) = 2%nat.
Proof.
  pose proof (panics_are_logged (env:=demo_env) demo_ce plain_logger.1 None "trace" crash plain_logger.2 (crash plain_logger.2).1 (crash plain_logger.2).2) as Hw.
  assert (Hp : forall lvl, lvl = LevelError \/ lvl = LevelFatal -> plain_world plain_logger.1 lvl (crash plain_logger.2).1).
  { intros lvl Hlvl. split_and!; [vm_compute; by repeat constructor|done|]. by destruct Hlvl as [-> | ->]. }
  specialize (Hw eq_refl (Hp _ (or_introl eq_refl)) (Hp _ (or_intror eq_refl))).
  destruct (Go _ _ _ _ _ _) as [w2 p2]. destruct (Recover _ _ _ _ _ _) as [w3 p3]. destruct Hw as (H1 & H2 & _). split; [done|].
  rewrite H2. by vm_compute.
Defined.

Definition prod_world : Logger * World (SyncTransport Capture) :=
  New NewSyncTransport (mkCapture []) empty_heap [WithLevel LevelInfo; WithProcessors [PSample (NewSampleProcessor 100 100)]].
Definition prod_calls : list (CallEnv * Call) :=
  replicate 130 (demo_ce, CallLog None LevelInfo "tick" []) ++ replicate 3 (demo_ce, CallLog None LevelError "bad" []) ++
  replicate 2 (demo_ce, CallLog None LevelDebug "noise" []).
(** A buffer in memory as standard error. *)
#[export] Instance string_Writer : Writer string := {| w_write := fun p w => (w +:+ p, None); w_sync := None; w_close := None |}.

Lemma production_counts_witness :
  let m := w_metrics (do_calls (env:=demo_env) (through prod_world.1 <$> prod_calls) prod_world.2) in
  emittedCount m = 103 /\ droppedCount m = 30.
Proof.
  destruct (production_counts (env:=demo_env) "" empty_heap prod_world.1 prod_world.2 prod_calls eq_refl eq_refl eq_refl eq_refl) as [H1 H2];
    [by vm_compute|]. split; [rewrite H1|rewrite H2]; by vm_compute.
Defined.
