(* ===== verification/Adapters.v ===== *)
(** * Adapters for other loggers (contrib/)

    Inbound adapters (zap, logrus, logr) turn calls on the other library into calls of
    this logger; outbound ones (zerolog, phuslu, sentry, OpenTelemetry) are sinks that
    turn a record into calls of the other library, modelled as the list of those calls.
    The other libraries are parameters: their level constants with the order they
    document, and what their encoders hand over. *)
From S2P Require Import Prelude GoStd Level Field Record Pipeline Sink Transport Logger.
Import GoTime.
Local Open Scope Z_scope.

(** A dynamic value as a field: the type switches of zap's [convert] and logrus's [Fire]. *)
Definition zap_field (kv : string * GoVal) : Field :=
  let '(k, v) := kv in
  match v with
  | VString x => FString k x
  | VBool x => FBool k x
  | VInt64 x => FInt int64_ k x
  | VFloat64 x => FFloat F64 k x
  | _ => FAny k v
  end.
Definition logrus_field (kv : string * GoVal) : Field :=
  let '(k, v) := kv in
  match v with
  | VString x => FString k x
  | VBool x => FBool k x
  | VInt x => FInt int_ k x
  | VInt64 x => FInt int64_ k x
  | VFloat64 x => FFloat F64 k x
  | VError x => FNamedErr k (Some x)
  | _ => FAny k v
  end.

(** ** contrib/zap *)
(** The zapcore level constants the adapter names, in their documented order. *)
Class ZapLevels := {
  zDebug : Z; zInfo : Z; zWarn : Z; zError : Z; zPanic : Z;
  zap_order : zDebug < zInfo < zWarn /\ zWarn < zError < zPanic
}.

Section Zap.
Context {env : GoEnv} {T : Type} `{Transport T} `{ZapLevels} {ZField : Type}.
(** What [f.AddTo] leaves in the map encoder, in the order the map is ranged over. *)
Context (encode : list ZField -> list (string * GoVal)).

Record core := mkCore { zc_l : Logger; zc_lvl : Z; zc_with : list Field }.
Record ZapEntry := mkZEntry { ze_Level : Z; ze_Message : string; ze_LoggerName : string }.

Definition NewCore (l : Logger) (enab : Z) : core := mkCore l enab [].
Definition zap_mapLevel (z : Z) : Level :=
  if z <? zDebug then LevelTrace
  else if z <? zInfo then LevelDebug
  else if z <? zWarn then LevelInfo
  else if z <? zError then LevelWarn
  else if z <? zPanic then LevelError
  else LevelFatal.
Definition core_Enabled (c : core) (l : Z) : bool := zc_lvl c <=? l.

Definition convert (fs : list ZField) : list Field :=
  match fs with [] => [] | _ => zap_field <$> encode fs end.
Definition core_With (fs : list ZField) (c : core) : core := mkCore (zc_l c) (zc_lvl c) (zc_with c ++ convert fs).
(** [Check]: whether the core is added to the checked entry. *)
Definition core_Check (e : ZapEntry) (c : core) : bool := core_Enabled c (ze_Level e).
Definition core_Write (ce : CallEnv) (e : ZapEntry) (fs : list ZField) (c : core) (w : World T) : World T * option error :=
  let fields := zc_with c ++ convert fs in
  let fields := if String.eqb (ze_LoggerName e) "" then fields else fields ++ [FString "logger" (ze_LoggerName e)] in
  (Log ce (zc_l c) None (zap_mapLevel (ze_Level e)) (ze_Message e) fields w, None).
Definition core_Sync (w : World T) : World T * option error := Logger_Sync w.
End Zap.
Arguments core : clear implicits.

(** ** contrib/logrus *)
Inductive LogrusLevel := LTrace | LDebug | LInfo | LWarn | LError | LFatal | LPanic.
Record LogrusEntry := mkLEntry { le_Data : list (string * GoVal); le_Level : LogrusLevel; le_Message : string; le_Context : option Context }.

Definition logrus_mapLevel (l : LogrusLevel) : Level :=
  match l with
  | LTrace => LevelTrace
  | LDebug => LevelDebug
  | LInfo => LevelInfo
  | LWarn => LevelWarn
  | LError => LevelError
  | _ => LevelFatal
  end.

Section Logrus.
Context {env : GoEnv} {T : Type} `{Transport T}.

(** [Fire]; [le_Data] is the map in the order it is ranged over. *)
Definition Fire (ce : CallEnv) (l : Logger) (e : LogrusEntry) (w : World T) : World T * option error :=
  let fields := logrus_field <$> le_Data e in
  match le_Context e with
  | None => (Log ce l None (logrus_mapLevel (le_Level e)) (le_Message e) fields w, None)
  | Some ctx => (Log ce l (Some ctx) (logrus_mapLevel (le_Level e)) (le_Message e) fields w, None)
  end.
End Logrus.

(** ** contrib/logr *)
Record logr_sink := mkLogr { lr_l : Logger; lr_name : string; lr_kv : list Field }.
Definition logr_New (l : Logger) : logr_sink := mkLogr l "" [].
Definition vToLevel (v : Z) : Level := if v <=? 0 then LevelInfo else if v =? 1 then LevelDebug else LevelTrace.

(** [key, _ := kv[i].(string)] leaves the empty key when it is not a string; an odd last
    value is dropped. *)
Definition logr_key (v : GoVal) : string := match v with VString s => s | _ => "" end.
Fixpoint kv_loop (kv : list GoVal) (out : list Field) : list Field :=
  match kv with
  | k :: v :: kv' => kv_loop kv' (out ++ [FAny (logr_key k) v])
  | _ => out
  end.
Definition kvToFields (base : list Field) (kv : list GoVal) : list Field := kv_loop kv base.

Section Logr.
Context {env : GoEnv} {T : Type} `{Transport T}.

Definition logr_Enabled (level : Z) (s : logr_sink) (w : World T) : bool := Enabled (lr_l s) (vToLevel level) w.
Definition name_field (s : logr_sink) : list Field := if String.eqb (lr_name s) "" then [] else [FString "logger" (lr_name s)].
Definition logr_Info (ce : CallEnv) (level : Z) (msg : string) (kv : list GoVal) (s : logr_sink) (w : World T) : World T :=
  Log ce (lr_l s) None (vToLevel level) msg (kvToFields (lr_kv s) kv ++ name_field s) w.
Definition logr_Error (ce : CallEnv) (err : option error) (msg : string) (kv : list GoVal) (s : logr_sink) (w : World T) : World T :=
  Log ce (lr_l s) None LevelError msg ((kvToFields (lr_kv s) kv ++ [FNamedErr "error" err]) ++ name_field s) w.
End Logr.

Definition WithValues (kv : list GoVal) (s : logr_sink) : logr_sink := mkLogr (lr_l s) (lr_name s) (kvToFields (lr_kv s) kv).
Definition WithName (name : string) (s : logr_sink) : logr_sink :=
  let n := if String.eqb (lr_name s) "" then name else lr_name s +:+ "." +:+ name in
  mkLogr (lr_l s) n (lr_kv s).

(** ** contrib/zerolog and contrib/phuslu *)
(** The six levels both libraries are asked for by name. *)
Inductive SixLevel := STrace | SDebug | SInfo | SWarn | SError | SFatal.
Definition six_level (l : Level) : SixLevel :=
  if l <? LevelDebug then STrace
  else if l <? LevelInfo then SDebug
  else if l <? LevelWarn then SInfo
  else if l <? LevelError then SWarn
  else if l <? LevelFatal then SError
  else SFatal.
Definition zerolog_mapLevel : Level -> SixLevel := six_level.
Definition phuslu_entryFor : Level -> SixLevel := six_level.

(** The calls on the event: its start, a value, a string, and the message that sends it. *)
Inductive EventCall := EvStart (l : SixLevel) | EvAny (k : string) (v : GoVal) | EvStr (k v : string) | EvMsg (m : string).
Definition event_calls (lvl : SixLevel) (r : LogRecord) : list EventCall :=
  [EvStart lvl] ++ ((fun f => EvAny (Key f) (Value f)) <$> r_Fields r) ++
  (if String.eqb (r_EventName r) "" then [] else [EvStr "event" (r_EventName r)]) ++ [EvMsg (r_Message r)].

Definition zerolog_Emit (minLvl : Level) (r : LogRecord) : list EventCall :=
  if r_Level r <? minLvl then [] else event_calls (zerolog_mapLevel (r_Level r)) r.
Definition phuslu_Emit (minLvl : Level) (r : LogRecord) : list EventCall :=
  if r_Level r <? minLvl then [] else event_calls (phuslu_entryFor (r_Level r)) r.

(** ** contrib/sentry *)
Inductive SentryLevel := SentryInfo | SentryWarning | SentryError | SentryFatal.
Record SentryEvent := mkSEvent {
  sv_Level : SentryLevel;
  sv_Message : string;
  sv_Tags : gmap string string;
  sv_Exception : list (string * string);          (* Type and Value *)
  sv_Contexts : gmap string (gmap string GoVal)
}.

Definition sentry_New (minLevel : Level) : Level := if minLevel <? LevelWarn then LevelWarn else minLevel.
Definition sentry_level (l : Level) : SentryLevel :=
  if l <? LevelWarn then SentryInfo
  else if l <? LevelError then SentryWarning
  else if l <? LevelFatal then SentryError
  else SentryFatal.

Definition sentry_field (acc : list (string * string) * gmap string GoVal) (f : Field) : list (string * string) * gmap string GoVal :=
  let '(exs, fields) := acc in
  match Value f with
  | VError e => (exs ++ [(Key f, e)], fields)
  | v => (exs, <[Key f := v]> fields)
  end.
(** The event [hub.CaptureEvent] receives; NewEvent gives it no tags and no contexts. *)
Definition sentry_Emit (minLvl : Level) (r : LogRecord) : option SentryEvent :=
  if r_Level r <? minLvl then None
  else
    let named := negb (String.eqb (r_EventName r) "") in
    let msg := if named then r_EventName r else r_Message r in
    let tags := if named then {["event" := r_EventName r]} else ∅ in
    let '(exs, fields) := fold_left sentry_field (r_Fields r) ([], ∅) in
    Some (mkSEvent (sentry_level (r_Level r)) msg tags exs (if decide (fields = ∅) then ∅ else {["fields" := fields]})).

(** ** contrib/otel *)
Inductive OtelValue := OtString (s : string) | OtBool (b : bool) | OtInt64 (n : Z) | OtFloat64 (bits : Z).
Record OtelRecord := mkOtel {
  ot_Timestamp : Time; ot_Severity : Z; ot_SeverityText : string; ot_Body : string; ot_Attributes : list (string * OtelValue)
}.
Section Otel.
Context {env : GoEnv}.

Definition severity (l : Level) : Z := l.
Definition toKV (f : Field) : string * OtelValue :=
  match Value f with
  | VString v => (Key f, OtString v)
  | VBool v => (Key f, OtBool v)
  | VInt64 v => (Key f, OtInt64 v)
  | VFloat64 v => (Key f, OtFloat64 v)
  | v => (Key f, OtString (Sprint v))
  end.
(** The context and record [lg.Emit] receives. *)
Definition otel_Emit (minLvl : Level) (r : LogRecord) : option (Context * OtelRecord) :=
  if r_Level r <? minLvl then None
  else
    let rec := mkOtel (r_Time r) (severity (r_Level r)) (Level_String (r_Level r)) (r_Message r) (toKV <$> r_Fields r) in
    let ctx := match r_Ctx r with None => Background | Some c => c end in
    Some (ctx, rec).

(** extractor.go; [span] is trace.SpanContextFromContext, with whether it is valid. *)
Definition otel_TraceExtractor (span : Context -> bool * string * string) (ctx : Context) : option (string * string) :=
  let '(valid, tid, sid) := span ctx in if negb valid then None else Some (tid, sid).
End Otel.

(** ** What the adapters preserve *)
(** A value a Go interface can hold: integers within their width. *)
Definition go_value (v : GoVal) : Prop := match v with VInt n | VInt64 n => is_i64 n | _ => True end.
(** [Field.Value] reports an int as an int64. *)
Definition widened (v : GoVal) : GoVal := match v with VInt n => VInt64 n | v => v end.

Lemma int64_in_type n : is_i64 n -> in_type int64_ n.
Proof. intros Hn. unfold in_type, wrap, is_i64 in *. cbn [it_signed it_bits int64_]. change (64 - 1) with 63. rewrite Z.mod_small; lia. Qed.
Lemma Value_FInt64 k n : is_i64 n -> Value (FInt int64_ k n) = VInt64 n.
Proof. intros Hn. rewrite Value_FInt; [done|unfold is_integer; cbn; lia|by apply int64_in_type]. Qed.

Lemma zap_field_keeps k v : go_value v -> Key (zap_field (k, v)) = k /\ Value (zap_field (k, v)) = v.
Proof. intros Hv. destruct v as [|s|[]| | | | | | | | |]; try done. split; [done|]. by apply Value_FInt64. Qed.
Lemma logrus_field_keeps k v : go_value v -> Key (logrus_field (k, v)) = k /\ Value (logrus_field (k, v)) = widened v.
Proof. intros Hv. destruct v as [|s|[]| | | | | | | | |]; try done; (split; [done|]); by apply Value_FInt64. Qed.

Section ZapFacts.
Context {env : GoEnv} {T : Type} `{Transport T} `{ZapLevels} {ZField : Type} (encode : list ZField -> list (string * GoVal)).
Hypothesis encode_nil : encode [] = [].
Hypothesis encode_values : forall fs, Forall (fun kv => go_value kv.2) (encode fs).

Lemma convert_keeps fs : Forall2 (fun kv f => Key f = kv.1 /\ Value f = kv.2) (encode fs) (convert encode fs).
Proof.
  unfold convert. destruct fs as [|f fs]; [by rewrite encode_nil|]. apply Forall2_fmap_r.
  pose proof (encode_values (f :: fs)) as Hv. induction Hv as [|[k v] l Hv _ IH]; constructor; [by apply zap_field_keeps|done].
Qed.

Lemma core_chain_with l enab chain :
  fold_left (fun c fs => core_With encode fs c) chain (NewCore l enab) = mkCore l enab (concat (convert encode <$> chain)).
Proof.
  assert (Hgen : forall fs0, fold_left (fun c fs => core_With encode fs c) chain (mkCore l enab fs0) = mkCore l enab (fs0 ++ concat (convert encode <$> chain))).
  { induction chain as [|fs chain IH]; intros fs0; simpl; [by rewrite app_nil_r|]. unfold core_With at 2. simpl. by rewrite IH, app_assoc. }
  apply Hgen.
Qed.

(** The zap core forwards exactly what zap was given: writing an entry through a
    core derived by any chain of With calls is one log call, with the level's band, the
    message, and fields that carry, key by key and value by value, what the map encoder
    produced for each With in order and then for the entry, and the logger's name last. *)
Theorem zap_core_exact ce l enab chain e fs (w : World T) :
  exists fields,
    core_Write encode ce e fs (fold_left (fun c fs => core_With encode fs c) chain (NewCore l enab)) w =
      (do_call ce l (CallLog None (zap_mapLevel (ze_Level e)) (ze_Message e)
         (fields ++ if String.eqb (ze_LoggerName e) "" then [] else [FString "logger" (ze_LoggerName e)])) w, None) /\
    Forall2 (fun kv f => Key f = kv.1 /\ Value f = kv.2) (concat (encode <$> chain) ++ encode fs) fields.
Proof.
  exists (concat (convert encode <$> chain) ++ convert encode fs). rewrite core_chain_with. split.
  - unfold core_Write. cbn [zc_with zc_l do_call]. unfold Log. destruct (String.eqb _ ""); [by rewrite app_nil_r|done].
  - apply Forall2_app; [|apply convert_keeps]. clear -encode_nil encode_values. induction chain as [|x chain IH]; simpl; [constructor|].
    apply Forall2_app; [apply convert_keeps|done].
Qed.
End ZapFacts.

(** ** Levels *)
Definition six_num (l : SixLevel) : Z := match l with STrace => 0 | SDebug => 1 | SInfo => 2 | SWarn => 3 | SError => 4 | SFatal => 5 end.
Definition sentry_num (l : SentryLevel) : Z := match l with SentryInfo => 0 | SentryWarning => 1 | SentryError => 2 | SentryFatal => 3 end.
Definition logrus_six (l : LogrusLevel) : SixLevel :=
  match l with LTrace => STrace | LDebug => SDebug | LInfo => SInfo | LWarn => SWarn | LError => SError | LFatal | LPanic => SFatal end.

Ltac levels := unfold zap_mapLevel, vToLevel, six_level, sentry_level, LevelTrace, LevelDebug, LevelInfo, LevelWarn, LevelError, LevelFatal in *;
  repeat case_match; bool_to_prop; simpl; try lia; try done.

(** The level maps keep the order: a more severe zap level never becomes a less
    severe one here, nor one of ours in zerolog, phuslu or sentry, while a larger logr
    verbosity never becomes more severe; and a record that came from logrus leaves through
    zerolog or phuslu under the name it came with. *)
Theorem adapter_levels_ordered `{ZapLevels} :
  (forall a b, a <= b -> zap_mapLevel a <= zap_mapLevel b) /\
  (forall a b, a <= b -> vToLevel b <= vToLevel a) /\
  (forall a b, a <= b -> six_num (zerolog_mapLevel a) <= six_num (zerolog_mapLevel b)) /\
  (forall a b, a <= b -> six_num (phuslu_entryFor a) <= six_num (phuslu_entryFor b)) /\
  (forall a b, a <= b -> sentry_num (sentry_level a) <= sentry_num (sentry_level b)) /\
  (forall l, six_level (logrus_mapLevel l) = logrus_six l).
Proof.
  unfold zerolog_mapLevel, phuslu_entryFor. pose proof zap_order. split_and!; intros; [levels..|by destruct l].
Qed.

(** ** Sentry *)
Definition is_verror (f : Field) : bool := match Value f with VError _ => true | _ => false end.

Lemma sentry_fold fs exs m :
  fold_left sentry_field fs (exs, m) =
  (exs ++ omap (fun f => match Value f with VError e => Some (Key f, e) | _ => None end) fs,
   fold_left (fun m f => if is_verror f then m else <[Key f := Value f]> m) fs m).
Proof.
  revert exs m. induction fs as [|f fs IH]; intros exs m; [cbn; by rewrite app_nil_r|]. cbn [fold_left].
  assert (sentry_field (exs, m) f = (exs ++ omap (fun f => match Value f with VError e => Some (Key f, e) | _ => None end) [f],
    if is_verror f then m else <[Key f := Value f]> m)) as ->.
  { unfold sentry_field, is_verror. cbn. destruct (Value f); by rewrite ?app_nil_r. }
  by rewrite IH, <-app_assoc, <-omap_app.
Qed.

Lemma later_other fs (m : gmap string GoVal) k :
  Forall (fun f => is_verror f = false -> Key f <> k) fs ->
  fold_left (fun m f => if is_verror f then m else <[Key f := Value f]> m) fs m !! k = m !! k.
Proof.
  intros Hf. revert m. induction Hf as [|f fs Hf _ IH]; intros m; simpl; [done|]. rewrite IH. destruct (is_verror f); [done|].
  by rewrite lookup_insert_ne by (by apply Hf).
Qed.

(** Nothing of a record is lost on the way to Sentry: an event is captured exactly
    when the level reaches the threshold, its exceptions are the error fields in order,
    every other field is in the fields context unless a later one has its key, and the
    event name, when there is one, is the message and a tag. *)
Theorem sentry_keeps_fields minLvl r :
  match sentry_Emit minLvl r with
  | None => r_Level r < minLvl
  | Some ev =>
      minLvl <= r_Level r /\
      sv_Exception ev = omap (fun f => match Value f with VError e => Some (Key f, e) | _ => None end) (r_Fields r) /\
      (forall fs1 f fs2, r_Fields r = fs1 ++ f :: fs2 -> is_verror f = false ->
         Forall (fun f' => is_verror f' = false -> Key f' <> Key f) fs2 ->
         (sv_Contexts ev !! "fields") ≫= (fun m => m !! Key f) = Some (Value f)) /\
      sv_Message ev = (if String.eqb (r_EventName r) "" then r_Message r else r_EventName r) /\
      (r_EventName r <> "" -> sv_Tags ev !! "event" = Some (r_EventName r))
  end.
Proof.
  unfold sentry_Emit. destruct (Z.ltb_spec (r_Level r) minLvl) as [Hlt|Hge]; [done|]. rewrite sentry_fold. cbn [app].
  split_and!; [done|done| | |]; cbn [sv_Contexts sv_Message sv_Tags].
  - intros fs1 f fs2 E Hf Hl. rewrite E. rewrite (fold_left_app _ fs1). cbn [fold_left]. rewrite Hf.
    set (m := fold_left _ fs2 _). assert (Hm : m !! Key f = Some (Value f)) by (unfold m; rewrite later_other by done; apply lookup_insert_eq).
    destruct (decide (m = ∅)) as [E0|]; [rewrite E0 in Hm; by rewrite lookup_empty in Hm|]. by rewrite lookup_singleton_eq.
  - by destruct (String.eqb _ "").
  - intros Hn. apply String.eqb_neq in Hn. rewrite Hn. cbn [negb]. by rewrite lookup_singleton_eq.
Qed.

(** ** Witnesses: zap's own constants, and fields that are already pairs *)
#[export] Instance zap_constants : ZapLevels.
Proof. refine {| zDebug := -1; zInfo := 0; zWarn := 1; zError := 2; zPanic := 4 |}. lia. Defined.
Definition pair_encode (fs : list (string * string)) : list (string * GoVal) := (fun '(k, v) => (k, VString v)) <$> fs.

Lemma zap_core_exact_witness :
  exists fields,
    core_Write (env:=demo_env) pair_encode demo_ce (mkZEntry 0 "hello" "api") [("b", "2")]
      (fold_left (fun c fs => core_With pair_encode fs c) [[("a", "1")]; []] (NewCore demo_logger.1 0)) demo_logger.2 =
      (do_call (env:=demo_env) demo_ce demo_logger.1 (CallLog None LevelInfo "hello" (fields ++ [FString "logger" "api"])) demo_logger.2, None) /\
    Forall2 (fun kv f => Key f = kv.1 /\ Value f = kv.2) [("a", VString "1"); ("b", VString "2")] fields.
Proof.
  destruct (zap_core_exact (env:=demo_env) pair_encode eq_refl
    ltac:(intros fs; apply Forall_fmap, Forall_true; by intros [k v])
    demo_ce demo_logger.1 0 [[("a", "1")]; []] (mkZEntry 0 "hello" "api") [("b", "2")] demo_logger.2) as (fields & H1 & H2).
  exists fields. split; [exact H1|exact H2].
Defined.

Lemma adapter_levels_ordered_witness :
  zap_mapLevel 3 = LevelError /\ zap_mapLevel 2 <= zap_mapLevel 3 /\ six_level (logrus_mapLevel LPanic) = SFatal.
Proof. destruct adapter_levels_ordered as (H1 & _ & _ & _ & _ & H6). split_and!; [done|by apply H1|apply (H6 LPanic)]. Defined.
