(* ===== verification/LogTest.v ===== *)
(** * The test helpers (logtest/logtest.go)

    [New] builds a logger over the capturing sink of Sink.v; the assertions read what it
    captured. *)
From S2P Require Import Prelude GoStd Level Field Record Pipeline Sink Transport Logger.
Import GoTime.
Local Open Scope Z_scope.

(** ** Interface equality *)
(** [==] on float64 values given by their bits: NaN differs from everything, zeros agree. *)
Definition float_nan (b : Z) : bool := (2047 * 2 ^ 52 <? b mod 2 ^ 63).
Definition float_zero (b : Z) : bool := b mod 2 ^ 63 =? 0.
Definition float_eq (a b : Z) : bool := negb (float_nan a) && negb (float_nan b) && ((a =? b) || (float_zero a && float_zero b)).

(** A value of a type the code does not name: its comparison is the type's own. *)
Definition user_value (v : GoVal) : bool := match v with VTime _ | VError _ | VStringer _ | VOther _ => true | _ => false end.

Section Equality.
(** [==] on two user values; [None] when the comparison panics (an uncomparable type). *)
Context (user_eq : GoVal -> GoVal -> option bool).

Definition iface_eq (v w : GoVal) : option bool :=
  match v, w with
  | VNil, VNil => Some true
  | VString a, VString b => Some (String.eqb a b)
  | VBool a, VBool b => Some (Bool.eqb a b)
  | VInt a, VInt b | VInt64 a, VInt64 b | VUint64 a, VUint64 b | VDuration a, VDuration b => Some (a =? b)
  | VFloat64 a, VFloat64 b => Some (float_eq a b)
  | _, _ => if user_value v && user_value w then user_eq v w else Some false
  end.

(** [AssertField]: whether the test goes on; [None] when it panics. *)
Fixpoint assert_field (es : list Entry) (key : string) (value : GoVal) : option bool :=
  match es with
  | [] => Some false
  | e :: es' =>
      match e_Fields e !! key with
      | Some v =>
          match iface_eq v value with
          | Some true => Some true
          | Some false => assert_field es' key value
          | None => None
          end
      | None => assert_field es' key value
      end
  end.
Definition AssertField (c : Capture) (key : string) (value : GoVal) : option bool := assert_field (Entries c) key value.

(** A field logged with [Int] is found as an int64 of its value, never as an int. *)
Lemma assert_field_int r k v :
  is_i64 v -> r_Fields r = [FInt int_ k v] ->
  AssertField (mkCapture [capture_entry r]) k (VInt64 v) = Some true /\ AssertField (mkCapture [capture_entry r]) k (VInt v) = Some false.
Proof.
  intros Hv Hf. assert (Hval : Value (FInt int_ k v) = VInt64 v).
  { rewrite Value_FInt; [done|unfold is_integer; simpl; lia|]. unfold in_type, wrap, is_i64 in *. cbn [it_signed it_bits int_].
    change (64 - 1) with 63. rewrite Z.mod_small; lia. }
  assert (Hk : Key (FInt int_ k v) = k) by done.
  assert (He : e_Fields (capture_entry r) = <[k := VInt64 v]> ∅) by (unfold capture_entry; rewrite Hf; cbn [fold_left e_Fields]; by rewrite Hk, Hval).
  unfold AssertField, Entries. cbn [app entries assert_field]. rewrite He, lookup_insert_eq. cbn [iface_eq user_value andb]. by rewrite Z.eqb_refl.
Qed.
End Equality.

(** ** [New] *)
Definition logtest_New (stderr : Capture) (h : Heap) : Logger * World (SyncTransport Capture) :=
  New NewSyncTransport stderr h [WithLevel LevelTrace; WithSink (mkCapture [])].

Section Captures.
Context {env : GoEnv}.

(** The records of the calls that were enabled. *)
Definition enabled_records (lv : LevelStore) (cs : list (CallEnv * Logger * Call)) : list LogRecord :=
  omap (fun '(ce, l, c) => if call_level c <? Leveler_Level (l_leveler l) lv then None else Some (call_record ce l c)) cs.

Lemma calls_captured cs h (t : SyncTransport Capture) m :
  entries (st_sink (calls_spec cs (h, [], t, m)).1.2) = entries (st_sink t) ++ (capture_entry <$> enabled_records (h_lv h) cs) /\
  (calls_spec cs (h, [], t, m)).1.1.1 = h.
Proof.
  revert t m. induction cs as [|[[ce l] c] cs IH]; intros t m; cbn [calls_spec]; [by rewrite app_nil_r|].
  unfold call_spec, enabled_records. cbn [omap list_omap runPipeline]. destruct (_ <? _); [apply IH|]. cbn [tr_dispatch SyncTransport_Transport].
  unfold SyncTransport_Dispatch. cbn [sink_emit Capture_Sink Capture_Emit]. rewrite (proj1 (IH _ _)), (proj2 (IH _ _)).
  cbn [st_sink entries fmap list_fmap]. by rewrite <-app_assoc.
Qed.

(** A logger from [New] captures exactly what was logged: after any calls
    through it and its children, the entries are, in order, those of the calls at or above
    the level of the logger they were made on (every level from Trace for [New] itself),
    each with its level, message and the values of the inherited and own fields; and an
    assertion on messages succeeds exactly when such a call was made. *)
Theorem logtest_captures stderr h cs :
  let w := do_calls cs (logtest_New stderr h).2 in
  let c := st_sink (w_transport w) in
  Entries c = (capture_entry <$> enabled_records (h_lv h) cs) /\
  forall lv sub, AssertLogged c lv sub = existsb (fun r => (r_Level r =? lv) && Strings.Contains (r_Message r) sub) (enabled_records (h_lv h) cs).
Proof.
  intros w c. destruct (do_calls_spec cs (logtest_New stderr h).2 ltac:(constructor)) as [Ho _].
  assert (He : Entries c = capture_entry <$> enabled_records (h_lv h) cs).
  { unfold Entries, c, w. cbn [app].
    assert (w_transport (do_calls cs (logtest_New stderr h).2) = (calls_spec cs (obs (logtest_New stderr h).2)).1.2) as -> by (by rewrite <-Ho).
    unfold obs. cbn [logtest_New New fold_left snd w_heap w_processors w_transport w_metrics WithSink WithLevel WithLeveler c_transport c_sink c_processors].
    by rewrite (proj1 (calls_captured _ _ _ _)). }
  split; [done|]. intros lv sub. unfold AssertLogged. rewrite He. clear. induction (enabled_records (h_lv h) cs) as [|r rs IH]; [done|exact (f_equal (orb _) IH)].
Qed.
End Captures.

Definition logtest_calls : list (CallEnv * Logger * Call) :=
  let l := (logtest_New (mkCapture []) empty_heap).1 in
  [(demo_ce, l, CallLog None LevelWarn "disk low" [FString "dev" "sda"]);
   (demo_ce, With [FString "svc" "api"] l, CallLog None LevelTrace "tick" []);
   (demo_ce, l, CallLog None 0 "below trace" [])].
Example logtest_session :
  let c := st_sink (w_transport (do_calls (env:=demo_env) logtest_calls (logtest_New (mkCapture []) empty_heap).2)) in
  map e_Message (Entries c) = ["disk low"; "tick"]%string /\ AssertLogged c LevelWarn "disk" = true /\
  AssertField (fun _ _ => None) c "svc" (VString "api") = Some true /\ AssertNoErrors c = true.
Proof. vm_compute. done. Qed.
