(* ===== verification/AdapterSinks.v ===== *)
(** * The adapters as sinks and hooks (contrib/)

    Adapters.v has what an adapter makes of one record or entry; here are the adapter
    objects: constructors, [Emit], [Sync] and [Close] as instances of [Sink], and the
    wiring of the logrus hook, the zap core and the logr sink.  The other library's object
    is a state with the operations the adapter calls on it. *)
From S2P Require Import Prelude GoStd Level Field Record Pipeline Sink Transport Logger Adapters.
Import GoTime.
Local Open Scope Z_scope.

(** ** zerolog and phuslu: a logger that takes the calls of one event *)
Class EventLogger (B : Type) := { el_event : list EventCall -> B -> B }.

Record ZerologSink (B : Type) := mkZerolog { zs_zl : B; zs_minLvl : Level }.
Arguments mkZerolog {B}.
Arguments zs_zl {B}.
Arguments zs_minLvl {B}.
Record PhusluSink (B : Type) := mkPhuslu { ph_pl : B; ph_minLvl : Level }.
Arguments mkPhuslu {B}.
Arguments ph_pl {B}.
Arguments ph_minLvl {B}.

Section EventSinks.
Context {B : Type} `{EventLogger B}.

Definition zerolog_New (zl : B) (minLevel : Level) : ZerologSink B := mkZerolog zl minLevel.
Definition ZerologSink_Emit (r : LogRecord) (s : ZerologSink B) (h : Heap) : ZerologSink B * Heap * option error :=
  match zerolog_Emit (zs_minLvl s) r with
  | [] => (s, h, None)
  | calls => (mkZerolog (el_event calls (zs_zl s)) (zs_minLvl s), h, None)
  end.
Definition ZerologSink_Sync (s : ZerologSink B) : ZerologSink B * option error := (s, None).
Definition ZerologSink_Close (s : ZerologSink B) : ZerologSink B * option error := (s, None).
#[export] Instance ZerologSink_Sink : Sink (ZerologSink B) :=
  {| sink_emit := ZerologSink_Emit; sink_sync := ZerologSink_Sync; sink_close := ZerologSink_Close |}.

Definition phuslu_New (pl : B) (minLevel : Level) : PhusluSink B := mkPhuslu pl minLevel.
Definition PhusluSink_Emit (r : LogRecord) (s : PhusluSink B) (h : Heap) : PhusluSink B * Heap * option error :=
  match phuslu_Emit (ph_minLvl s) r with
  | [] => (s, h, None)
  | calls => (mkPhuslu (el_event calls (ph_pl s)) (ph_minLvl s), h, None)
  end.
Definition PhusluSink_Sync (s : PhusluSink B) : PhusluSink B * option error := (s, None).
Definition PhusluSink_Close (s : PhusluSink B) : PhusluSink B * option error := (s, None).
#[export] Instance PhusluSink_Sink : Sink (PhusluSink B) :=
  {| sink_emit := PhusluSink_Emit; sink_sync := PhusluSink_Sync; sink_close := PhusluSink_Close |}.
End EventSinks.

(** ** sentry: a hub that captures events and flushes *)
Class SentryHub (B : Type) := { hub_capture : SentryEvent -> B -> B; hub_flush : B -> B }.
Record SentrySink (B : Type) := mkSentry { se_hub : B; se_minLvl : Level }.
Arguments mkSentry {B}.
Arguments se_hub {B}.
Arguments se_minLvl {B}.

Section SentrySinks.
Context {B : Type} `{SentryHub B}.

(** [New] on the current hub, [NewWithHub] on a given one. *)
Definition SentrySink_New (current : B) (minLevel : Level) : SentrySink B := mkSentry current (sentry_New minLevel).
Definition NewWithHub (hub : B) (minLevel : Level) : SentrySink B := mkSentry hub minLevel.
Definition SentrySink_Emit (r : LogRecord) (s : SentrySink B) (h : Heap) : SentrySink B * Heap * option error :=
  match sentry_Emit (se_minLvl s) r with
  | None => (s, h, None)
  | Some ev => (mkSentry (hub_capture ev (se_hub s)) (se_minLvl s), h, None)
  end.
Definition SentrySink_Sync (s : SentrySink B) : SentrySink B * option error := (mkSentry (hub_flush (se_hub s)) (se_minLvl s), None).
Definition SentrySink_Close (s : SentrySink B) : SentrySink B * option error := (mkSentry (hub_flush (se_hub s)) (se_minLvl s), None).
#[export] Instance SentrySink_Sink : Sink (SentrySink B) :=
  {| sink_emit := SentrySink_Emit; sink_sync := SentrySink_Sync; sink_close := SentrySink_Close |}.
End SentrySinks.

(** ** OpenTelemetry: a logger that takes a context and a record *)
Class OtelLogger (B : Type) := { ol_emit : Context -> OtelRecord -> B -> B }.
Record OtelSink (B : Type) := mkOtelSink { ot_lg : B; ot_minLvl : Level }.
Arguments mkOtelSink {B}.
Arguments ot_lg {B}.
Arguments ot_minLvl {B}.

Section OtelSinks.
Context {env : GoEnv} {B : Type} `{OtelLogger B}.

(** [provider] is the global LoggerProvider. *)
Definition otel_New (provider : string -> B) (name : string) (minLevel : Level) : OtelSink B := mkOtelSink (provider name) minLevel.
Definition NewWithLogger (lg : B) (minLevel : Level) : OtelSink B := mkOtelSink lg minLevel.
Definition OtelSink_Emit (r : LogRecord) (s : OtelSink B) (h : Heap) : OtelSink B * Heap * option error :=
  match otel_Emit (ot_minLvl s) r with
  | None => (s, h, None)
  | Some (ctx, rec) => (mkOtelSink (ol_emit ctx rec (ot_lg s)) (ot_minLvl s), h, None)
  end.
Definition OtelSink_Sync (s : OtelSink B) : OtelSink B * option error := (s, None).
Definition OtelSink_Close (s : OtelSink B) : OtelSink B * option error := (s, None).
#[export] Instance OtelSink_Sink : Sink (OtelSink B) :=
  {| sink_emit := OtelSink_Emit; sink_sync := OtelSink_Sync; sink_close := OtelSink_Close |}.
End OtelSinks.

(** ** The logrus hook *)
Record Hook := mkHook { hk_L : Logger; hk_levels : list LogrusLevel }.
Definition AllLevels : list LogrusLevel := [LPanic; LFatal; LError; LWarn; LInfo; LDebug; LTrace].
Definition NewHook (l : Logger) : Hook := mkHook l AllLevels.
Definition Levels (h : Hook) : list LogrusLevel := hk_levels h.
(** [discard.Write]. *)
Definition discard_Write (p : string) : Z * option error := (Z.of_nat (String.length p), None).

Section Hooks.
(** The two methods of a logrus logger that [Attach] calls. *)
Context {D : Type} (AddHook : Hook -> D -> D) (SetOutput : (string -> Z * option error) -> D -> D).
Definition Attach (dst : D) (l : Logger) : D := SetOutput discard_Write (AddHook (NewHook l) dst).
End Hooks.

(** ** zap and logr *)
Section ZapNew.
Context {ZLogger : Type} (zap_new : core -> ZLogger).
Definition zap_New (l : Logger) (enab : Z) : ZLogger := zap_new (NewCore l enab).
End ZapNew.
Definition logr_Init (s : logr_sink) : logr_sink := s.

(** ** What the back ends receive *)
Section Facts.
Context {env : GoEnv}.

#[export] Instance ZerologSink_HeapFree {B} `{EventLogger B} : HeapFree (ZerologSink B).
Proof. split; intros; cbn; unfold ZerologSink_Emit; by destruct (zerolog_Emit _ _). Qed.
#[export] Instance PhusluSink_HeapFree {B} `{EventLogger B} : HeapFree (PhusluSink B).
Proof. split; intros; cbn; unfold PhusluSink_Emit; by destruct (phuslu_Emit _ _). Qed.
#[export] Instance SentrySink_HeapFree {B} `{SentryHub B} : HeapFree (SentrySink B).
Proof. split; intros; cbn; unfold SentrySink_Emit; by destruct (sentry_Emit _ _). Qed.
#[export] Instance OtelSink_HeapFree {B} `{OtelLogger B} : HeapFree (OtelSink B).
Proof. split; intros; cbn; unfold OtelSink_Emit; by destruct (otel_Emit _ _) as [[]|]. Qed.

(** The records a sink with threshold [minLvl] lets through. *)
Definition above (minLvl : Level) (rs : list LogRecord) : list LogRecord := List.filter (fun r => minLvl <=? r_Level r) rs.

Lemma emits_above {A C} `{HeapFree A} (view : A -> C) (send : LogRecord -> C -> C) minLvl (ok : A -> Prop) rs a :
  (forall a r, ok a -> ok (emit1 a r) /\ view (emit1 a r) = if r_Level r <? minLvl then view a else send r (view a)) ->
  ok a -> view (emits a rs) = fold_left (fun b r => send r b) (above minLvl rs) (view a).
Proof.
  intros Hstep. revert a. induction rs as [|r rs IH]; intros a Ha; [done|]. destruct (Hstep a r Ha) as [H1 H2].
  change (emits a (r :: rs)) with (emits (emit1 a r) rs). rewrite (IH _ H1), H2. cbn [above List.filter]. rewrite Z.leb_antisym.
  by destruct (r_Level r <? minLvl).
Qed.

(** The outbound adapters forward exactly the records at or above their threshold, each
    once, in order, as the calls Adapters.v gives for it, and nothing else reaches the
    other library. *)
Theorem outbound_exact {B1 B2 B3} `{EventLogger B1} `{SentryHub B2} `{OtelLogger B3} (zl pl : B1) (hub : B2) (lg : B3) minLvl rs :
  zs_zl (emits (zerolog_New zl minLvl) rs) = fold_left (fun b r => el_event (event_calls (zerolog_mapLevel (r_Level r)) r) b) (above minLvl rs) zl /\
  ph_pl (emits (phuslu_New pl minLvl) rs) = fold_left (fun b r => el_event (event_calls (phuslu_entryFor (r_Level r)) r) b) (above minLvl rs) pl /\
  se_hub (emits (NewWithHub hub minLvl) rs) =
    fold_left (fun b r => match sentry_Emit minLvl r with Some ev => hub_capture ev b | None => b end) (above minLvl rs) hub /\
  ot_lg (emits (NewWithLogger lg minLvl) rs) =
    fold_left (fun b r => match otel_Emit minLvl r with Some (c, x) => ol_emit c x b | None => b end) (above minLvl rs) lg.
Proof.
  split_and!.
  - apply (emits_above zs_zl (fun r b => el_event (event_calls (zerolog_mapLevel (r_Level r)) r) b) minLvl (fun s => zs_minLvl s = minLvl)); [|done].
    intros s r <-. unfold emit1. cbn. unfold ZerologSink_Emit, zerolog_Emit. by destruct (_ <? _).
  - apply (emits_above ph_pl (fun r b => el_event (event_calls (phuslu_entryFor (r_Level r)) r) b) minLvl (fun s => ph_minLvl s = minLvl)); [|done].
    intros s r <-. unfold emit1. cbn. unfold PhusluSink_Emit, phuslu_Emit. by destruct (_ <? _).
  - apply (emits_above se_hub (fun r b => match sentry_Emit minLvl r with Some ev => hub_capture ev b | None => b end) minLvl (fun s => se_minLvl s = minLvl)); [|done].
    intros s r <-. unfold emit1. cbn. unfold SentrySink_Emit. destruct (sentry_Emit (se_minLvl s) r) eqn:E; [|by destruct (_ <? _)].
    split; [done|]. unfold sentry_Emit in E. by destruct (_ <? _).
  - apply (emits_above ot_lg (fun r b => match otel_Emit minLvl r with Some (c, x) => ol_emit c x b | None => b end) minLvl (fun s => ot_minLvl s = minLvl)); [|done].
    intros s r <-. unfold emit1. cbn. unfold OtelSink_Emit. destruct (otel_Emit (ot_minLvl s) r) as [[c x]|] eqn:E; [|by destruct (_ <? _)].
    split; [done|]. unfold otel_Emit in E. by destruct (_ <? _).
Qed.
End Facts.
