(* ===== verification/Example.v ===== *)
(** * The example program (example/main.go)

    [main] composes the parts: a console and a JSON sink behind a fan-out, a level
    variable, the redactor and the sampler, the channel transport and the slog bridge.
    Its calls run on the composed system of AsyncLogger.v. *)
From S2P Require Import Prelude GoStd Level Field Record Encoder Redaction Sampling Pipeline Memory Sink Transport Logger.
From S2P Require Import ChannelTransport SlogHandler Async ConcLogger ConcCalls AsyncLogger.
Import GoTime.
Local Open Scope Z_scope.

Section Main.
Context {env : GoEnv} {W : Type} (stdout stderr : W) (pid : Z) (resolve_err : GoVal) (ce : CallEnv).

Definition console : WriterSink W := NewWriterSink stdout (ConsoleEnc (mkConsole true (TimeFormat NewConsoleEncoder))) LevelDebug.
Definition jsonSink : WriterSink W := NewWriterSink stderr (JSONEnc NewJSONEncoder) LevelInfo.
Definition fan : Fanout (WriterSink W) := NewFanout [console; jsonSink].

(** [lvl] is the address of the level variable. *)
Definition lvl : Z := 1.
Definition main_levels : LevelStore := NewLevelVar lvl LevelDebug ∅.
Definition main_processors : list Processor :=
  [PRedact (NewRedactProcessor ["password"; "token"]); PSample (NewSampleProcessor 3 100)].
Definition main_log : Logger := mkLogger (levelVar lvl) [] true 0.

(** They are what [New] makes of the options. *)
Lemma main_built sync (err : Fanout (WriterSink W)) h :
  New sync err h
    [WithLeveler (levelVar lvl); WithProcessors main_processors; WithTransport (NewChannelTransport fan 1024 DropNewest); WithCaller 0] =
  (main_log, mkWorld [] h main_processors (NewChannelTransport fan 1024 DropNewest) zero_metrics).
Proof. reflexivity. Qed.

(** 42.50 as IEEE bits. *)
Definition amount : Z := 4631178160564600832.
Definition main_calls : list Call :=
  [CallLog (Some Background) LevelInfo "service starting" [FString "svc" "demo"; FInt int_ "pid" pid];
   CallLog (Some Background) LevelDebug "config loaded" [FBool "cache" true];
   CallLog (Some Background) LevelInfo "user login" [FString "user" "ada"; FString "password" "hunter2"];
   CallAt (Some Background) (ce_now ce) (slogToLevel slog_LevelInfo) "via slog"
     (handle_fields resolve_err (NewSlog main_log) (mkSlog (ce_now ce) slog_LevelInfo "via slog" [("order_id", SInt64 991); ("amount", SFloat64 amount)]));
   CallLog (Some Background) LevelError "boom" [FErr (Some "permission denied")]].

(** The steps of goroutine 1, [main]: a call and its steps until it returns, ten when a
    processor drops the record and twelve when it is dispatched. *)
Definition main_call (c : Call) (n : nat) : list CEvent := CECall 1 ce main_log c :: repeat (CEStep 1 (Some 0%nat) 0) n.
Definition main_events : list CEvent := concat (zip_with main_call main_calls [12; 12; 12; 10; 12]%nat).

Definition main_start : CSys Store Z * ChSys (Fanout (WriterSink W)) :=
  (mem_start main_levels main_processors, ch_start fan empty_heap 1024 DropNewest).
End Main.

Section Output.
Context {env : GoEnv} {W : Type} `{Writer W} (stdout stderr : W) (pid : Z) (resolve_err : GoVal) (ce : CallEnv).

(** The message and the value of a key. *)
Definition shows (r : LogRecord) : string * list (string * GoVal) := (r_Message r, (fun f => (Key f, Value f)) <$> r_Fields r).

(** What the run of [main]'s own steps shows. *)
Definition main_shows (s : CSys Store Z * list CObs) : list string * Z * Z * option (string * list (string * GoVal)) :=
  (map r_Message (passes s.2), droppedCount (y_metrics s.1), emittedCount (y_metrics s.1), shows <$> (passes s.2 !! 2%nat)).
Lemma main_run :
  (main_shows <$> run_steps c_step (main_events pid resolve_err ce) (mem_start main_levels main_processors)) =
  Some (["service starting"; "config loaded"; "user login"; "boom"], 1, 4, Some ("user login", [("user", VString "ada"); ("password", VString "[REDACTED]")]))%string.
Proof. vm_compute. reflexivity. Qed.

Lemma main_passes c tr :
  run_steps c_step (main_events pid resolve_err ce) (mem_start main_levels main_processors) = Some (c, tr) ->
  map r_Message (passes tr) = ["service starting"; "config loaded"; "user login"; "boom"]%string /\
  (droppedCount (y_metrics c), emittedCount (y_metrics c)) = (1, 4) /\
  (shows <$> (passes tr !! 2%nat)) = Some ("user login"%string, [("user", VString "ada"); ("password", VString "[REDACTED]")]%string).
Proof.
  intros E. pose proof (eq_trans (f_equal (fmap main_shows) (eq_sym E)) main_run) as Hm. clear E. cbn [fmap option_fmap option_map] in Hm.
  unfold main_shows in Hm. cbn [fst snd] in Hm. injection Hm as H1 H2 H3 H4. by rewrite H1, H2, H3, H4.
Qed.

(** What the demo prints: however its goroutine and the worker interleave, [main] passes
    four records to the transport, the login with its password masked; the call through
    slog is the fourth the sampler counts and is dropped; and the four records are, at
    every moment, what the two sinks received, what the worker holds, what is queued,
    rejected or turned away, and what is inside Dispatch. *)
Theorem example_output es c y tr :
  run_steps a_step es (main_start stdout stderr) = Some ((c, y), tr) -> log_events es = main_events pid resolve_err ce ->
  let t := tr_obs tr in
  map r_Message (passes (log_obs tr)) = ["service starting"; "config loaded"; "user login"; "boom"]%string /\
  (droppedCount (y_metrics c), emittedCount (y_metrics c)) = (1, 4) /\
  (shows <$> (passes (log_obs tr) !! 2%nat)) = Some ("user login"%string, [("user", VString "ada"); ("password", VString "[REDACTED]")]%string) /\
  (Clone <$> passes (log_obs tr)) ≡ₚ
    emitted t ++ option_list (ch_hand (cs_worker y)) ++ ct_ch (cs_t y) ++ evicted t ++ rejected t ++ turned_away t ++ collect ch_waiting (cs_calls y) /\
  (ct_sink (cs_t y), cs_heap y) = sink_after (fan stdout stderr, empty_heap) t.
Proof.
  intros E Hes t. pose proof (log_part es _ _ _ _ _ E) as Hl. rewrite Hes in Hl. destruct (main_passes _ _ Hl) as (H1 & H2 & H3).
  destruct (channel_accounts es _ _ _ _ _ _ _ _ _ E) as (H4 & _ & _ & _ & H5). exact (conj H1 (conj H2 (conj H3 (conj H4 H5)))).
Qed.
End Output.

(** ** The demo, run to the end *)
(** Standard output and error as the bytes written to them. *)
#[local] Instance bytes_writer : Writer string := {| w_write := fun p w => (w +:+ p, None); w_sync := None; w_close := None |}.

Definition calls_done (c : Call) (n : nat) : list (AEvent ChEvent) :=
  AELog (CECall 1 demo_ce main_log c) :: repeat (AELog (CEStep 1 (Some 0%nat) 0)) (n - 1) ++
  (if (n =? 12)%nat then [AETr (HERun 1)] else []) ++ [AELog (CEStep 1 (Some 0%nat) 0)].
(** The calls, with the worker taking a record now and then, and the deferred Close. *)
Definition main_schedule : list (AEvent ChEvent) :=
  concat (zip_with (fun c n => calls_done c n ++ [AETr HEWorker]) (take 2 (main_calls 4242 VNil demo_ce)) [12; 12]%nat) ++
  concat (zip_with calls_done (drop 2 (main_calls 4242 VNil demo_ce)) [12; 10; 12]%nat) ++
  [AETr (HECall 1 HClose); AETr (HERun 1)] ++ repeat (AETr HEWorker) 7 ++ [AETr (HERun 1); AETr (HERun 1)].
Definition main_end : CSys Store Z * ChSys (Fanout (WriterSink string)) * list (AObs Obs) :=
  default (main_start (env:=demo_env) "" "", []) (run_steps (a_step (env:=demo_env)) main_schedule (main_start (env:=demo_env) "" "")).

Definition sq (s : string) : string := Strings.str_map (fun c => if Ascii.eqb c "'" then QUOTE else c) s.
Definition ln (s : string) : string := s +:+ str1 LF.

(** The worker has drained the channel, the console has four lines and the JSON stream
    three: the debug record is below its level, and the slog record was sampled away. *)
Example example_prints :
  cs_worker main_end.1.2 = CWDone /\ ct_ch (cs_t main_end.1.2) = [] /\
  map ws_W (fan_sinks (ct_sink (cs_t main_end.1.2))) !! 1%nat = Some (
    ln (sq "{'time':'1970-01-01T00:00:00.000000007Z','level':'info','msg':'service starting','svc':'demo','pid':4242}") +:+
    ln (sq "{'time':'1970-01-01T00:00:00.000000007Z','level':'info','msg':'user login','user':'ada','password':'[REDACTED]'}") +:+
    ln (sq "{'time':'1970-01-01T00:00:00.000000007Z','level':'error','msg':'boom','error':'permission denied'}")).
Proof. vm_compute. done. Qed.

Definition is_some {A} (o : option A) : bool := match o with Some _ => true | None => false end.
Lemma main_run_end :
  run_steps (a_step (env:=demo_env)) main_schedule (main_start (env:=demo_env) "" "") = Some (main_end.1.1, main_end.1.2, main_end.2).
Proof.
  assert (Hs : is_some (run_steps (a_step (env:=demo_env)) main_schedule (main_start (env:=demo_env) "" "")) = true) by (vm_compute; reflexivity).
  unfold main_end. destruct (run_steps _ _ _) as [[[c y] tr]|]; [done|discriminate Hs].
Qed.

Lemma example_output_witness :
  map r_Message (passes (log_obs main_end.2)) = ["service starting"; "config loaded"; "user login"; "boom"]%string.
Proof.
  apply (example_output (env:=demo_env) "" "" 4242 VNil demo_ce main_schedule main_end.1.1 main_end.1.2 main_end.2 main_run_end).
  vm_compute. reflexivity.
Defined.
